(* ===== verification/_CoqProject ===== *)
-Q . S2P
Prelude.v
Float64.v
FloatFacts.v
GoLib.v
Config.v
Domain.v
Balancer.v
RoundRobin.v
Weighted.v
WeightedFair.v
BalancerConfig.v
Health.v
Breaker.v
BreakerRefines.v
BreakerMachine.v
BreakerExec.v
TokenBucket.v
TokenBucketFacts.v
StoreMachine.v
Http.v
Middleware.v
MiddlewareFacts.v
Proxy.v
ProxyFacts.v
Mux.v
Patterns.v
ClientKey.v
Router.v
RouterFacts.v
Dispatch.v
Json.v
Answers.v
Upstream.v
ChainFacts.v
RouteInvariant.v
Serving.v
Watcher.v
Server.v
ServerFacts.v
