(* ===== verification/Prelude.v ===== *)
(** * GateForge: a verification library for the API gateway

    GateForge (src/, Go) is an HTTP gateway.  [main] loads a YAML configuration,
    builds one router from it and serves it; a watcher rebuilds the router whenever the
    file changes.  A request to a route goes through a chain of middleware
    (recovery, request identifier, logging, metrics, CORS, and if configured rate limit and
    circuit breaker) to a reverse proxy, which asks the route's balancer for a
    target; a health checker per route marks targets up and down.

    ** Files, in order

    - Prelude: Go errors, results and panics ([outcome]), machine integers
      ([wrap64], [wrapU64]), time, slices, log records; tactics and shared lemmas.
    - Float64, FloatFacts: IEEE binary64 as Go uses it, over the Standard
      Library's SpecFloat (rounding to nearest even), and the facts the rate limiter needs:
      non-negativity, monotonicity, exactness of small integers.
    - GoLib: functions of strings, strconv and net on byte strings; the
      interface [URLLib] for net/url.
    - Config: internal/config/config.go and loader.go ([ApplyDefaults],
      [Validate], [applyEnvOverrides], [Load]).  Domain: internal/domain/route.go.
    - Balancer (the interface [Balancer] as a class), RoundRobin, Weighted,
      WeightedFair, BalancerConfig: internal/balancer/balancer.go, roundrobin.go and weighted.go.
      Health: internal/balancer/health.go, proved against the interface.
    - Breaker, BreakerRefines, BreakerMachine, BreakerExec:
      internal/circuit/state.go and breaker.go.  Breaker has the critical sections and
      [Execute]; BreakerMachine has them as the steps of concurrent calls.
    - TokenBucket, TokenBucketFacts: internal/ratelimit.  StoreMachine: the steps of concurrent
      requests and of the cleanup on the store, with the buckets by address.
    - Http: what the handlers use of net/http (headers, requests, the response a
      sequence of calls on a writer sends), internal/observability, and the monad [M] of
      handlers: calls emitted, state of the route, return or panic.
    - Middleware, MiddlewareFacts: internal/middleware.
    - Proxy, ProxyFacts: internal/proxy.
    - Mux: the patterns of net/http.ServeMux: their syntax and when two of them
      conflict (registration panics).  Patterns: both for plain paths (nonempty segments without
      wildcards, escapes or blanks).  ClientKey: the key of a client behind proxies
      (internal/ratelimit/limiter.go).
    - Router, RouterFacts: internal/server/router.go.  Dispatch: the search of the mux for the
      handler of a request.  ChainFacts: requests through the chain of a route;
      RouteInvariant: everything that happens to the state of a route.  Serving: the handler of the
      whole gateway, on the state of all routes.
    - Json: the documents the handlers encode and a decoder for them.  Answers: the answers of the
      gateway read back.  Upstream: cmd/upstream.
    - Watcher: internal/config/watcher.go.  Server, ServerFacts:
      internal/server/server.go and cmd/gateforge/main.go.

    ** What the theorems show

    - Circuit breaker: it decides as an ideal breaker does that keeps every failure for ever
      ([breaker_refines]); how it trips and recovers ([Execute_trips],
      [Execute_recovers]); under every interleaving of concurrent calls the
      half-open state admits at most one more than its limit ([half_open_bound]), the
      counters are exact ([stats_exact]) and, without panics, an episode always has a
      request in flight that can end it ([half_open_progress]; [panics_lock_breaker] for
      what panics do).
    - Balancing: round robin returns the first healthy target from the counter on
      ([RoundRobin_Next_correct]) and so visits them in cyclic order ([RoundRobin_fair]);
      smooth weighted round robin is exact over a period, and within one at most
      (W-1)/W selections ahead of a target's share and (n-1)(W-1)/W behind
      ([Weighted_period], [Weighted_smooth]); balancers built from valid routes serve
      ([NewFromConfig_serves]) and never return a target from its mark as unhealthy to its
      mark as healthy ([unhealthy_never_returned]).  With a positive interval the health checker
      and the balancer agree with a specification on the history of probes, and otherwise
      its start panics ([Start_refines]).
    - Rate limit: in spite of rounding, buckets stay within bounds
      ([Allow_bounded]), bursts are exact ([burst_exact]), clients do not affect each
      other ([clients_isolated]), rejected clients come back ([Allow_refills]),
      and cleanup removes exactly the idle ones ([RunCleanup_correct]).  Under every interleaving
      of requests at one instant bursts stay exact ([concurrent_burst]), and a cleanup that
      removes buckets in use costs one more burst each ([cleanup_race_bound]).  The key of a
      client is the trimmed first address of its header ([forwarded_key_trimmed]).
    - Configuration: [Validate] and [Load] against a definition of valid
      configurations ([Validate_correct], [Load_correct]); [Route_Validate_correct]
      also gives the lines of the error, one per defect.
    - Requests: each middleware on every branch ([Recovery_correct],
      [RequestID_correct], [captured_status], [Metrics_balanced],
      [CORS_correct], [RateLimit_correct], [CircuitBreak_correct],
      [CircuitBreak_records]), the proxy ([stripPrefix_correct],
      [outgoing_correct], [Handler_serves], which counts the upstream calls) and the whole chain of a route
      ([route_handler_total], [limited_request_stops]).  Under any sequence of requests,
      health marks, cleanups and resets the state of a route stays well-formed and
      every request is answered ([route_invariant]); for the gateway as a whole, every request is
      answered by the endpoint of the reference dispatch and the routes do not affect each
      other ([gateway_answers]).  Error answers are documents that decode to
      the values they were made of ([answers_decode]).
    - Router and process: which configurations build ([BuildRouter_plain],
      [trailing_slash_panics]); that the search of the mux is a reference dispatch by method
      and longest path, for routes with any methods ([dispatch_correct]); hot reload refines an abstract watcher, so that the
      process serves the last valid configuration, or dies of the first one that loads and cannot
      be built ([main_serves_last_valid]).
    - Demo upstream: every request is answered within the latency and error
      rate of the flags, with a document that decodes to the request ([upstream_answers]).

    Some theorems outside these groups record behaviour the code hardly
    intends: [metrics_env_switch], [RoundRobin_wrap_misses_target],
    [duplicate_target_still_served], [cleanup_restores_burst],
    [not_finite_rate_rejects], [early_hints_hide_failure],
    [default_cors_reflects_any_origin], [upstream_not_logged],
    [forwarded_headers], [late_request_rejected], [nested_methods_panic],
    [latency_order_panics], [hints_drop_headers].

    ** Conventions and bounds

    Integers are [Z] with the wrap-around of their width written out; a [time.Time]
    is its instant in nanoseconds, and every read of the clock is an argument.
    Panics are values ([Panic]), so that out-of-range accesses, conflicting
    patterns and panicking handlers are visible in the results.  Loops are
    structural: over the slice, or over a counter that starts at the length the
    code iterates to ([rr_scan], [wrr_loop], [clean_loop], [Chain_loop]), so no
    fuel can run out.  Two loops have fuel, the number of bytes of their text: trimming
    ([trim_left], [trim_left_spec] shows that it ends before) and the reference JSON
    decoder ([json_parse], [json_size_length] shows that it is enough).  Background loops take the list of what they
    receive (ticks, probe answers, file events, signals).

    A response is what a sequence of calls on the writer sends ([response_act]): the first
    final status wins, invalid ones panic, informational ones are sent at once, and a write is
    refused for a status without a body and past a declared length; HEAD requests get
    no body.  Every request handed to the transport is recorded ([wd_calls]), so that the
    number of upstream calls can be stated.

    Parameters: the YAML decoder, files, environment and Unicode tables
    (arguments of [Load]), net/url ([URLLib]), fsnotify's events, the network
    ([RoundTrip], how the listener ends), the removal of hop-by-hop headers, UUIDs,
    the conversion of out-of-range floats to integers (implementation-defined in Go), the draws of
    math/rand, the JSON encoding and the quoting of texts that are not ASCII, and which label
    values the Prometheus client takes (it panics for the others; the key of a client is the only one a
    client can choose freely).

    ** Not modelled

    Routes with wildcards in their paths (they are in Mux, but
    not in the theorems on building and dispatch); the parsing of command lines; TLS, connection pooling and timeouts inside the transport; content
    sniffing and the framing of responses; route paths that are not UTF-8 (YAML can write them as binary) as
    label values; the text the loggers and the Prometheus client print; fused
    multiply-add (which Go may use on some machines); the data race between
    [SetHandler] and the server's reads of its handler.  A request is modelled from start
    to end: concurrent requests are modelled in the circuit breaker, the
    balancer and the store, where each critical section is one operation. *)

From stdpp Require Export base gmap strings list fin_maps pretty.
From Stdlib Require Export ZArith Lia.

#[global] Open Scope Z_scope.

Declare Scope go_scope.
Delimit Scope go_scope with go.
#[global] Open Scope go_scope.

(** ** Errors, results and panics *)

(** Go error values.  The sentinel errors of the source are compared by
    identity ([err == circuit.ErrCircuitOpen]); every other error is known by its
    message. *)
Inductive error :=
  | ErrNoHealthyTargets
  | ErrCircuitOpen
  | ErrServerClosed
  | ErrCanceled
  | Errorf (msg : string).

#[export] Instance error_eq_dec : EqDecision error.
Proof. solve_decision. Defined.

(** The text of an error ([err.Error()]). *)
Definition error_Error (e : error) : string :=
  match e with
  | ErrNoHealthyTargets => "no healthy upstream targets available"
  | ErrCircuitOpen => "circuit breaker is open"
  | ErrServerClosed => "http: Server closed"
  | ErrCanceled => "context canceled"
  | Errorf msg => msg
  end.

(** A Go function returning [(T, error)]. *)
Inductive result (A : Type) :=
  | Ok (a : A)
  | Err (e : error).
Arguments Ok {A} a.
Arguments Err {A} e.

(** A computation that may panic. *)
Inductive outcome (A : Type) :=
  | Ret (a : A)
  | Panic (msg : string).
Arguments Ret {A} a.
Arguments Panic {A} msg.

Definition outcome_bind {A B} (m : outcome A) (f : A -> outcome B) : outcome B :=
  match m with
  | Ret a => f a
  | Panic msg => Panic msg
  end.

Notation "'do!' x <- m ; k" := (outcome_bind m (fun x => k))
  (at level 10, x pattern, m at level 100, k at level 200) : go_scope.

(** ** Machine integers *)

Definition int64_min : Z := - 2 ^ 63.
Definition int64_max : Z := 2 ^ 63 - 1.

(** The value of an [int]/[int64] expression: two's complement, 64 bits. *)
Definition wrap64 (z : Z) : Z := (z + 2 ^ 63) mod 2 ^ 64 - 2 ^ 63.

(** The value of a [uint64] expression. *)
Definition wrapU64 (z : Z) : Z := z mod 2 ^ 64.

Definition in_int64 (z : Z) : Prop := int64_min <= z <= int64_max.

(** [fmt.Sprintf("%d", z)] and [strconv.Itoa]. *)
Definition itoa (z : Z) : string := pretty z.

(** ** Time

    A [time.Time] is its instant in nanoseconds since the Unix epoch, a
    [time.Duration] an int64 count of nanoseconds.  Every [time.Now()] of the
    source is an explicit argument of the operation that reads the clock. *)

Abbreviation Time := Z (only parsing).
Abbreviation Duration := Z (only parsing).

Definition Millisecond : Duration := 1000000.
Definition Second : Duration := 1000000000.
Definition Minute : Duration := 60000000000.

(** The zero [time.Time] (January 1, year 1, UTC). *)
Definition zeroTime : Time := -62135596800 * Second.

(** [t.Sub(u)] saturates at the extreme durations. *)
Definition Time_Sub (t u : Time) : Duration := Z.max int64_min (Z.min int64_max (t - u)).
Definition Time_Add (t : Time) (d : Duration) : Time := t + d.
Definition Time_After (t u : Time) : bool := u <? t.
Definition Time_Before (t u : Time) : bool := t <? u.
(** [t.Unix()]: seconds, rounded towards minus infinity. *)
Definition Time_Unix (t : Time) : Z := t / Second.

(** ** Slices: reads and writes out of range panic *)

Definition slice_get {A} (l : list A) (i : nat) : outcome A :=
  match l !! i with
  | Some x => Ret x
  | None => Panic "index out of range"
  end.

Definition slice_set {A} (l : list A) (i : nat) (x : A) : outcome (list A) :=
  match l !! i with
  | Some _ => Ret (<[i := x]> l)
  | None => Panic "index out of range"
  end.

(** ** Structured log records ([log/slog]) *)

Inductive LogLevel := LevelDebug | LevelInfo | LevelWarn | LevelError.

#[export] Instance LogLevel_eq_dec : EqDecision LogLevel.
Proof. solve_decision. Defined.

Inductive AttrValue :=
  | AString (s : string)
  | AInt (z : Z)
  | ADuration (d : Duration).

Record LogRecord := mkLog {
  log_level : LogLevel;
  log_msg : string;
  log_attrs : list (string * AttrValue)
}.

(** Sums of integer lists. *)
Definition sumZ (l : list Z) : Z := foldr Z.add 0 l.

(** ** Automation *)

Create HintDb gateforge.

(** Splits every boolean comparison of the context and the goal. *)
Ltac bool_cases :=
  repeat match goal with
  | H : context [if ?b then _ else _] |- _ => destruct b eqn:?
  | |- context [if ?b then _ else _] => destruct b eqn:?
  end.

(** Turns boolean comparisons on [Z] into propositions. *)
Ltac zbool :=
  repeat match goal with
  | H : (_ <? _) = true |- _ => apply Z.ltb_lt in H
  | H : (_ <? _) = false |- _ => apply Z.ltb_ge in H
  | H : (_ <=? _) = true |- _ => apply Z.leb_le in H
  | H : (_ <=? _) = false |- _ => apply Z.leb_gt in H
  | H : (_ =? _) = true |- _ => apply Z.eqb_eq in H
  | H : (_ =? _) = false |- _ => apply Z.eqb_neq in H
  end.

(** ** Lemmas on machine integers *)

Lemma wrap64_id z : in_int64 z -> wrap64 z = z.
Proof.
  unfold in_int64, int64_min, int64_max, wrap64. intros H.
  rewrite Z.mod_small by lia. lia.
Qed.

Lemma wrap64_range z : in_int64 (wrap64 z).
Proof.
  unfold in_int64, int64_min, int64_max, wrap64.
  pose proof (Z.mod_pos_bound (z + 2 ^ 63) (2 ^ 64) ltac:(lia)). lia.
Qed.

Lemma wrap64_add_l a b : wrap64 (wrap64 a + b) = wrap64 (a + b).
Proof.
  unfold wrap64. f_equal.
  replace ((a + 2 ^ 63) mod 2 ^ 64 - 2 ^ 63 + b + 2 ^ 63)
    with ((a + 2 ^ 63) mod 2 ^ 64 + b) by lia.
  rewrite Z.add_mod_idemp_l by lia. f_equal. lia.
Qed.

Lemma wrapU64_id z : 0 <= z < 2 ^ 64 -> wrapU64 z = z.
Proof. intros H. by apply Z.mod_small. Qed.

Lemma wrapU64_range z : 0 <= wrapU64 z < 2 ^ 64.
Proof. apply Z.mod_pos_bound. lia. Qed.

#[export] Hint Resolve wrap64_range wrapU64_range : gateforge.

(** ** Lemmas on slices *)

Lemma slice_get_lt {A} (l : list A) i :
  (i < length l)%nat -> exists x, l !! i = Some x /\ slice_get l i = Ret x.
Proof.
  intros [x Hx]%lookup_lt_is_Some_2. exists x. unfold slice_get. by rewrite Hx.
Qed.

Lemma slice_set_lt {A} (l : list A) i x :
  (i < length l)%nat -> slice_set l i x = Ret (<[i := x]> l).
Proof. intros [y Hy]%lookup_lt_is_Some_2. unfold slice_set. by rewrite Hy. Qed.

Lemma slice_get_Ret {A} (l : list A) i x : slice_get l i = Ret x <-> l !! i = Some x.
Proof. unfold slice_get. destruct (l !! i); split; congruence. Qed.

(** ** Lemmas on sums *)

Lemma sumZ_cons x l : sumZ (x :: l) = x + sumZ l.
Proof. done. Qed.

Lemma sumZ_insert l i x y :
  l !! i = Some x -> sumZ (<[i := y]> l) = sumZ l - x + y.
Proof.
  revert i. induction l as [|z l IH]; intros [|i] H; simplify_eq/=; [lia|].
  rewrite (IH _ H). lia.
Qed.

Lemma sumZ_nonneg l : Forall (Z.le 0) l -> 0 <= sumZ l.
Proof. induction 1; simpl; lia. Qed.

(** ** Lemmas on concatenations *)

Lemma elem_of_concat {A} (x : A) ls : x ∈ concat ls <-> exists l, x ∈ l /\ l ∈ ls.
Proof. rewrite list_elem_of_In, in_concat. setoid_rewrite list_elem_of_In. naive_solver. Qed.
