(* ===== verification/Float64.v ===== *)
(** * IEEE-754 binary64 arithmetic

    The [float64] values of the source and the operations the token bucket and
    the configuration use on them, as instances of the executable IEEE-754
    operations of the standard library ([SpecFloat]: precision 53, maximal
    exponent 1024, rounding to nearest, ties to even).  A product that feeds an
    addition is rounded twice (no fused multiply-add), as on amd64. *)

From S2P Require Import Prelude.
From Stdlib Require Export SpecFloat.

Module F64.

Definition prec : Z := 53.
Definition emax : Z := 1024.

Definition add (x y : spec_float) : spec_float := SFadd prec emax x y.
Definition sub (x y : spec_float) : spec_float := SFsub prec emax x y.
Definition mul (x y : spec_float) : spec_float := SFmul prec emax x y.
Definition div (x y : spec_float) : spec_float := SFdiv prec emax x y.

(** Comparisons: false as soon as an operand is a NaN. *)
Definition ltb (x y : spec_float) : bool := SFltb x y.
Definition leb (x y : spec_float) : bool := SFleb x y.

(** [float64(z)] for an integer [z]. *)
Definition of_Z (z : Z) : spec_float := binary_normalize prec emax z 0 false.

Definition zero : spec_float := S754_zero false.
Definition one : spec_float := of_Z 1.

(** A datum of the format: a canonical binary64 encoding. *)
Definition valid (x : spec_float) : Prop := valid_binary prec emax x = true.

(** The integer [floor x] of a finite [x]; [None] for an infinity or a NaN. *)
Definition floor_Z (x : spec_float) : option Z :=
  match x with
  | S754_zero _ => Some 0
  | S754_finite s m e =>
      Some (if 0 <=? e then cond_Zopp s (Zpos m * 2 ^ e)
            else (cond_Zopp s (Zpos m)) / 2 ^ (- e))
  | _ => None
  end.

(** The integer part of a finite [x], rounded towards zero. *)
Definition trunc_Z (x : spec_float) : option Z :=
  match x with
  | S754_zero _ => Some 0
  | S754_finite s m e =>
      Some (cond_Zopp s (if 0 <=? e then Zpos m * 2 ^ e else Zpos m / 2 ^ (- e)))
  | _ => None
  end.

(** [int(math.Floor(x))] and [int(x)]/[time.Duration(x)]: the language leaves the
    result of a conversion out of the int64 range to the implementation, the
    argument [oor]. *)
Definition to_int64 (oor : spec_float -> Z) (x : spec_float) : Z :=
  match trunc_Z x with
  | Some z => if (int64_min <=? z) && (z <=? int64_max) then z else oor x
  | None => oor x
  end.

Definition floor_int64 (oor : spec_float -> Z) (x : spec_float) : Z :=
  match floor_Z x with
  | Some z => if (int64_min <=? z) && (z <=? int64_max) then z else oor x
  | None => oor x
  end.

(** [d.Seconds()]: whole seconds plus the remaining nanoseconds over 1e9. *)
Definition Duration_Seconds (d : Duration) : spec_float :=
  add (of_Z (Z.quot d Second)) (div (of_Z (Z.rem d Second)) (of_Z Second)).

End F64.
