(* ===== verification/FloatFacts.v ===== *)
(** * Facts on binary64 arithmetic

    What the proofs on the token bucket need of the operations of Float64.v:
    results are canonical, rounding never crosses a representable value (so it is
    monotone and exact on representable results), and comparisons agree with the
    order of the values.  A finite binary64 number is an integer multiple of
    2^-1074: [val] is that integer. *)

From S2P Require Import Prelude Float64.

Module FloatFacts.
Import F64.

Abbreviation fexp := (SpecFloat.fexp prec emax).
Abbreviation dg := Zdigits2.

(** The exponent of the smallest positive number. *)
Definition emin : Z := -1074.

Lemma fexp_eq z : fexp z = Z.max (z - 53) emin.
Proof. unfold fexp, SpecFloat.emin, prec, emax, emin. lia. Qed.

(** ** Digits *)

Lemma digits_bounds p : 2 ^ (dg (Zpos p) - 1) <= Zpos p < 2 ^ dg (Zpos p).
Proof.
  assert (Hstep : forall d, 1 <= d -> 2 ^ (Z.succ d - 1) = 2 * 2 ^ (d - 1) /\ 2 ^ Z.succ d = 2 * 2 ^ d).
  { intros d Hd. split; [|apply Z.pow_succ_r; lia].
    replace (Z.succ d - 1) with (Z.succ (d - 1)) by lia. apply Z.pow_succ_r. lia. }
  induction p as [p IH|p IH|]; cbn [dg digits2_pos] in *; [| |split; reflexivity || easy].
  all: rewrite Pos2Z.inj_succ; destruct (Hstep (Zpos (digits2_pos p))) as [-> ->]; [lia|].
  all: rewrite ?(Pos2Z.inj_xI p), ?(Pos2Z.inj_xO p); lia.
Qed.

Lemma dg_bounds m : 0 < m -> 2 ^ (dg m - 1) <= m < 2 ^ dg m.
Proof. destruct m as [|p|p]; try lia. intros _. apply digits_bounds. Qed.

Lemma dg_nonneg m : 0 <= dg m.
Proof. destruct m; simpl; lia. Qed.

Lemma dg_pos m : 0 < m -> 1 <= dg m.
Proof. destruct m; simpl; lia. Qed.

Lemma pow2_pos k : 0 <= k -> 0 < 2 ^ k.
Proof. intros. by apply Z.pow_pos_nonneg. Qed.

Lemma dg_le m k : 0 <= k -> 0 <= m < 2 ^ k -> dg m <= k.
Proof.
  intros Hk Hm. destruct (Z.eq_dec m 0) as [->|]; [done|].
  destruct (dg_bounds m) as [H1 _]; [lia|]. pose proof (dg_pos m ltac:(lia)).
  assert (dg m - 1 < k); [|lia]. apply (Z.pow_lt_mono_r_iff 2); lia.
Qed.

Lemma dg_ge m k : 0 <= k -> 2 ^ k <= m -> k + 1 <= dg m.
Proof.
  intros Hk Hm. pose proof (pow2_pos k Hk). destruct (dg_bounds m) as [_ H2]; [lia|].
  pose proof (dg_nonneg m). assert (k < dg m); [|lia]. apply (Z.pow_lt_mono_r_iff 2); lia.
Qed.

(** ** Shifting with rounding bits *)

Definition rest (r : shr_record) : bool := shr_r r || shr_s r.

Lemma shr_1_spec r : 0 <= shr_m r ->
  shr_m (shr_1 r) = shr_m r / 2 /\ rest (shr_1 r) = Z.odd (shr_m r) || rest r.
Proof.
  destruct r as [[|[p|p|]|p] r s]; cbn; try lia; intros _; split; try done;
    [apply (Z.div_unique _ _ _ 1); lia|apply (Z.div_unique _ _ _ 0); lia].
Qed.

Lemma iter_pos_nat {A} (f : A -> A) p : forall x, iter_pos f p x = Nat.iter (Pos.to_nat p) f x.
Proof.
  assert (Hadd : forall n m x, Nat.iter (n + m) f x = Nat.iter n f (Nat.iter m f x))
    by (induction n; intros; simpl; [done|by f_equal]).
  assert (Hsucc : forall n x, Nat.iter n f (f x) = f (Nat.iter n f x))
    by (induction n; intros; simpl; [done|by f_equal]).
  induction p as [p IH|p IH|]; intros x; cbn [iter_pos]; [| |done]; rewrite !IH.
  - rewrite !Hsucc, <- Hadd.
    by replace (Pos.to_nat p~1) with (S (Pos.to_nat p + Pos.to_nat p)) by lia.
  - rewrite <- Hadd. by replace (Pos.to_nat p~0) with (Pos.to_nat p + Pos.to_nat p)%nat by lia.
Qed.

Lemma shr_iter_spec n r : 0 <= shr_m r ->
  let r' := Nat.iter n shr_1 r in
  shr_m r' = shr_m r / 2 ^ Z.of_nat n /\
  (rest r' = false <-> rest r = false /\ shr_m r mod 2 ^ Z.of_nat n = 0).
Proof.
  intros Hr. induction n as [|n [IH1 IH2]]; cbv zeta.
  { simpl. rewrite Z.div_1_r, Z.mod_1_r. tauto. }
  rewrite Nat2Z.inj_succ, Z.pow_succ_r by lia. set (P := 2 ^ Z.of_nat n) in *.
  assert (HP : 0 < P) by (apply pow2_pos; lia).
  change (Nat.iter (S n) shr_1 r) with (shr_1 (Nat.iter n shr_1 r)).
  destruct (shr_1_spec (Nat.iter n shr_1 r)) as [-> ->].
  { rewrite IH1. by apply Z.div_pos. }
  rewrite IH1. split; [rewrite Z.div_div by lia; f_equal; lia|].
  rewrite orb_false_iff, IH2, <- Z.negb_even, negb_false_iff, Z.even_spec.
  pose proof (Z.div_mod (shr_m r) P ltac:(lia)) as HD.
  pose proof (Z.mod_pos_bound (shr_m r) P HP) as HM. split.
  - intros [[k Hk] [Hz HZ]]. split; [done|]. rewrite Hk, HZ in HD.
    replace (shr_m r) with (k * (2 * P)) by lia. apply Z.mod_mul. lia.
  - intros [Hz HZ]. pose proof (Z.div_mod (shr_m r) (2 * P) ltac:(lia)) as HD2. rewrite HZ in HD2.
    split; [|split; [done|]].
    + exists (shr_m r / (2 * P)). symmetry. apply (Z.div_unique _ _ _ 0); lia.
    + rewrite HD2. replace (2 * P * (shr_m r / (2 * P)) + 0) with (2 * (shr_m r / (2 * P)) * P) by lia.
      apply Z.mod_mul. lia.
Qed.

(** [shr_fexp] when the exponent has to grow, or stay. *)
Lemma shr_fexp_spec m e l : 0 <= m -> e <= fexp (dg m + e) ->
  exists r, shr_fexp prec emax m e l = (r, fexp (dg m + e)) /\
    shr_m r = m / 2 ^ (fexp (dg m + e) - e) /\
    (rest r = false <-> l = loc_Exact /\ m mod 2 ^ (fexp (dg m + e) - e) = 0).
Proof.
  intros Hm He. unfold shr_fexp, shr. set (k := fexp (dg m + e) - e).
  assert (Hk : 0 <= k) by (unfold k; lia).
  assert (HL : shr_m (shr_record_of_loc m l) = m /\ (rest (shr_record_of_loc m l) = false <-> l = loc_Exact))
    by (destruct l as [|[]]; cbn; intuition congruence).
  destruct HL as [HL1 HL2]. destruct k as [|p|p] eqn:Ek; [| |lia].
  - exists (shr_record_of_loc m l). rewrite HL1, Z.div_1_r, Z.mod_1_r, HL2.
    split; [f_equal; unfold k in Ek; lia|tauto].
  - eexists. split; [f_equal; unfold k in Ek; lia|]. rewrite iter_pos_nat.
    destruct (shr_iter_spec (Pos.to_nat p) (shr_record_of_loc m l)) as [H1 H2]; [by rewrite HL1|].
    rewrite HL1, positive_nat_Z in H1, H2. by rewrite H2, HL2.
Qed.

Lemma shr_fexp_small m e l : fexp (dg m + e) <= e ->
  shr_fexp prec emax m e l = (shr_record_of_loc m l, e).
Proof.
  intros H. unfold shr_fexp, shr. destruct (fexp (dg m + e) - e) eqn:E; [done|lia|done].
Qed.

Lemma round_nearest_even_cases r :
  let n := round_nearest_even (shr_m r) (loc_of_shr_record r) in
  n = shr_m r \/ (n = shr_m r + 1 /\ rest r = true).
Proof.
  destruct r as [m [] []]; cbn; try (by left); try (by right). destruct (Z.even m); auto.
Qed.

(** ** Rounding *)

(** A mantissa and an exponent in canonical form. *)
Definition canonical (m e : Z) : Prop := fexp (dg m + e) = e.

Lemma canonical_iff m e : canonical m e <-> (dg m <= 53 /\ emin <= e /\ (e = emin \/ dg m = 53)).
Proof. unfold canonical. rewrite fexp_eq. lia. Qed.

(** The number a rounded mantissa [m] with exponent [e] encodes. *)
Definition encode (s : bool) (m e : Z) : spec_float :=
  match m with
  | Zpos p => if e <=? 971 then S754_finite s p e else S754_infinity s
  | _ => S754_zero s
  end.

(** The quotient the first shift leaves, before rounding. *)
Lemma quotient_bounds m e : 0 <= m -> e <= fexp (dg m + e) ->
  let e' := fexp (dg m + e) in let q := m / 2 ^ (e' - e) in
  0 <= q < 2 ^ 53 /\ (emin < e' -> 2 ^ 52 <= q).
Proof.
  intros Hm He. rewrite fexp_eq in *. cbv zeta. set (e' := Z.max (dg m + e - 53) emin) in *.
  assert (HP : 0 < 2 ^ (e' - e)) by (apply pow2_pos; lia).
  destruct (Z.eq_dec m 0) as [->|Hnz].
  { rewrite Z.div_0_l by lia. simpl dg in *. split; [lia|]. unfold emin in *. lia. }
  destruct (dg_bounds m ltac:(lia)) as [H1 H2]. pose proof (dg_pos m ltac:(lia)). split; [split|].
  - by apply Z.div_pos.
  - apply Z.div_lt_upper_bound; [done|]. rewrite <- Z.pow_add_r by lia.
    eapply Z.lt_le_trans; [exact H2|]. apply Z.pow_le_mono_r; lia.
  - intros Hgt. apply Z.div_le_lower_bound; [done|]. rewrite <- Z.pow_add_r by lia.
    eapply Z.le_trans; [|exact H1]. apply Z.pow_le_mono_r; lia.
Qed.

(** The second shift: a mantissa that rounding carried to 2^53 is halved. *)
Lemma renormalize n e' : 0 <= n <= 2 ^ 53 -> emin <= e' -> (emin < e' -> 2 ^ 52 <= n) ->
  exists r ee, shr_fexp prec emax n e' loc_Exact = (r, ee) /\ 0 <= shr_m r /\ e' <= ee <= e' + 1 /\
    shr_m r * 2 ^ (ee - e') = n /\ (0 < shr_m r -> canonical (shr_m r) ee).
Proof.
  intros Hn He Hlow. destruct (Z.eq_dec n (2 ^ 53)) as [->|Hne].
  - destruct (shr_fexp_spec (2 ^ 53) e' loc_Exact) as (r & -> & Hr & _); [lia|rewrite fexp_eq; simpl; lia|].
    rewrite fexp_eq in *. change (dg (2 ^ 53)) with 54 in *.
    replace (Z.max (54 + e' - 53) emin) with (e' + 1) in * by lia.
    replace (e' + 1 - e') with 1 in * by lia. change (2 ^ 53 / 2 ^ 1) with (2 ^ 52) in Hr.
    exists r, (e' + 1). rewrite Hr. replace (e' + 1 - e') with 1 by lia.
    split_and!; try done; try lia. intros _. apply canonical_iff. change (dg (2 ^ 52)) with 53. lia.
  - assert (Hd : dg n <= 53) by (apply dg_le; lia).
    rewrite shr_fexp_small by (rewrite fexp_eq; lia).
    exists (shr_record_of_loc n loc_Exact), e'. cbn [shr_record_of_loc shr_m]. rewrite Z.sub_diag.
    split_and!; try done; try lia. intros Hpos. apply canonical_iff. split; [done|]. split; [done|].
    destruct (Z.eq_dec e' emin); [by left|right].
    assert (52 + 1 <= dg n) by (apply dg_ge; lia). lia.
Qed.

(** What [binary_round_aux] computes: the quotient, or its successor when the
    operand is not exact, in canonical form. *)
Lemma round_aux_spec s m e l : 0 <= m -> e <= fexp (dg m + e) ->
  let e' := fexp (dg m + e) in let q := m / 2 ^ (e' - e) in
  exists n mm ee,
    (n = q \/ (n = q + 1 /\ ~ (l = loc_Exact /\ m mod 2 ^ (e' - e) = 0))) /\
    0 <= mm /\ e' <= ee /\ mm * 2 ^ (ee - e') = n /\ (0 < mm -> canonical mm ee) /\
    binary_round_aux prec emax s m e l = encode s mm ee.
Proof.
  intros Hm He. cbv zeta. destruct (quotient_bounds m e Hm He) as [Hq Hlow]. cbv zeta in *.
  destruct (shr_fexp_spec m e l Hm He) as (r & E1 & Hr & Hrest).
  set (e' := fexp (dg m + e)) in *. set (q := m / 2 ^ (e' - e)) in *.
  unfold binary_round_aux. rewrite E1.
  set (n := round_nearest_even (shr_m r) (loc_of_shr_record r)).
  assert (Hn : n = q \/ (n = q + 1 /\ rest r = true)).
  { rewrite <- Hr. apply round_nearest_even_cases. }
  destruct (renormalize n e') as (r2 & ee & E2 & Hm2 & Hee & Hmm & Hcan); [lia| |lia|].
  { unfold e'. rewrite fexp_eq. lia. }
  rewrite E2. exists n, (shr_m r2), ee. split; [|split_and!; try done; try lia].
  - destruct Hn as [|[? Ht]]; [by left|right]. split; [done|]. rewrite <- Hrest. congruence.
  - unfold encode. destruct (shr_m r2); [done| |lia]. unfold prec, emax. done.
Qed.

(** ** Shapes and validity of results *)

Definition sign_of (x : spec_float) : option bool :=
  match x with
  | S754_zero s | S754_infinity s | S754_finite s _ _ => Some s
  | S754_nan => None
  end.

Lemma encode_valid s m e : (0 < m -> canonical m e) -> valid (encode s m e).
Proof.
  intros H. unfold valid, encode. destruct m as [|p|p]; [done| |done].
  destruct (Z.leb_spec e 971); [|done]. cbn. unfold bounded, canonical_mantissa.
  apply andb_true_intro. split; [apply Z.eqb_eq, H; lia|unfold emax, prec; lia].
Qed.

Lemma encode_sign s m e : sign_of (encode s m e) = Some s.
Proof. unfold encode. destruct m; [done|by destruct (_ <=? _)|done]. Qed.

Lemma round_aux_valid s m e l : 0 <= m -> e <= fexp (dg m + e) ->
  valid (binary_round_aux prec emax s m e l) /\ sign_of (binary_round_aux prec emax s m e l) = Some s.
Proof.
  intros Hm He. destruct (round_aux_spec s m e l Hm He) as (n & mm & ee & _ & _ & _ & _ & Hc & ->).
  split; [by apply encode_valid|apply encode_sign].
Qed.

Lemma valid_finite s p e : valid (S754_finite s p e) <-> canonical (Zpos p) e /\ e <= 971.
Proof.
  unfold valid. cbn. unfold bounded, canonical_mantissa. rewrite andb_true_iff, Z.eqb_eq.
  unfold canonical, emax, prec. cbn [dg]. rewrite Z.leb_le. lia.
Qed.

(** ** Rounding does not cross a canonical number *)

Section Bounds.
(** [B] scales every exponent to a natural number. *)
Context (B : Z) (HB : 0 <= emin + B).

Lemma canonical_small my ey e' : 0 <= my -> canonical my ey -> ey < e' ->
  my * 2 ^ (ey + B) < 2 ^ (52 + e' + B).
Proof.
  intros Hm Hc%canonical_iff Hlt. destruct (Z.eq_dec my 0) as [->|].
  { rewrite Z.mul_0_l. apply pow2_pos. unfold emin in *. lia. }
  destruct (dg_bounds my ltac:(lia)) as [_ H2]. pose proof (dg_pos my ltac:(lia)).
  eapply Z.lt_le_trans; [apply Z.mul_lt_mono_pos_r; [apply pow2_pos; lia|exact H2]|].
  rewrite <- Z.pow_add_r by lia. apply Z.pow_le_mono_r; lia.
Qed.

(** The value of the operand against the truncated quotient. *)
Lemma truncation m e e' : 0 <= m -> 0 <= e + B -> e <= e' ->
  m / 2 ^ (e' - e) * 2 ^ (e' + B) <= m * 2 ^ (e + B) /\
  (m mod 2 ^ (e' - e) = 0 -> m / 2 ^ (e' - e) * 2 ^ (e' + B) = m * 2 ^ (e + B)) /\
  (m mod 2 ^ (e' - e) <> 0 -> m / 2 ^ (e' - e) * 2 ^ (e' + B) < m * 2 ^ (e + B)).
Proof.
  intros Hm Heb Hle. set (k := e' - e). assert (HP : 0 < 2 ^ k) by (apply pow2_pos; lia).
  assert (HS : 0 < 2 ^ (e + B)) by (by apply pow2_pos).
  replace (e' + B) with (k + (e + B)) by lia. rewrite Z.pow_add_r by lia.
  pose proof (Z.div_mod m (2 ^ k) ltac:(lia)) as HD. pose proof (Z.mod_pos_bound m (2 ^ k) HP).
  set (Q := m / 2 ^ k) in *. set (R := m mod 2 ^ k) in *.
  replace (Q * (2 ^ k * 2 ^ (e + B))) with ((m - R) * 2 ^ (e + B)) by (rewrite HD; ring).
  split_and!; [|intros ->; f_equal; lia|intros Hne]; nia.
Qed.

Lemma round_upper s m e l my ey :
  0 <= m -> 0 <= e + B -> e <= fexp (dg m + e) -> 0 <= my -> canonical my ey ->
  m * 2 ^ (e + B) <= my * 2 ^ (ey + B) ->
  (l <> loc_Exact -> m * 2 ^ (e + B) < my * 2 ^ (ey + B)) ->
  exists mm ee, binary_round_aux prec emax s m e l = encode s mm ee /\ 0 <= mm /\
    emin <= ee /\ (0 < mm -> canonical mm ee) /\ mm * 2 ^ (ee + B) <= my * 2 ^ (ey + B).
Proof.
  intros Hm Heb He Hmy Hc Hle Hlt.
  destruct (round_aux_spec s m e l Hm He) as (n & mm & ee & Hn & Hmm & Hee & Hval & Hcan & E).
  destruct (quotient_bounds m e Hm He) as [Hq Hlow]. cbv zeta in *.
  destruct (truncation m e (fexp (dg m + e)) Hm Heb He) as (HT1 & HT2 & HT3).
  assert (Hemin : emin <= fexp (dg m + e)) by (rewrite fexp_eq; lia).
  set (e' := fexp (dg m + e)) in *. set (q := m / 2 ^ (e' - e)) in *.
  exists mm, ee. split; [done|]. split; [done|]. split; [lia|]. split; [done|].
  replace (mm * 2 ^ (ee + B)) with (n * 2 ^ (e' + B)).
  2: { rewrite <- Hval, <- Z.mul_assoc, <- Z.pow_add_r by lia. f_equal. f_equal. lia. }
  assert (HP : 0 < 2 ^ (e' + B)) by (apply pow2_pos; lia).
  destruct Hn as [->|[-> Hinexact]]; [lia|].
  assert (Hs : q * 2 ^ (e' + B) < my * 2 ^ (ey + B)).
  { destruct (Z.eq_dec (m mod 2 ^ (e' - e)) 0) as [Hz|Hz]; [|specialize (HT3 Hz); lia].
    rewrite (HT2 Hz). apply Hlt. intros ->. by apply Hinexact. }
  destruct (Z.le_gt_cases e' ey) as [Hge|Hlt2].
  - replace (ey + B) with ((ey - e') + (e' + B)) in Hs |- * by lia.
    rewrite (Z.pow_add_r 2 (ey - e')), Z.mul_assoc in Hs |- * by lia.
    apply Z.mul_lt_mono_pos_r in Hs; [|done]. apply Z.mul_le_mono_nonneg_r; lia.
  - exfalso. pose proof (canonical_small my ey e' Hmy Hc Hlt2) as Hsmall.
    apply canonical_iff in Hc. specialize (Hlow ltac:(lia)).
    assert (2 ^ 52 * 2 ^ (e' + B) <= q * 2 ^ (e' + B)) by (apply Z.mul_le_mono_nonneg_r; lia).
    replace (52 + e' + B) with (52 + (e' + B)) in Hsmall by lia. rewrite (Z.pow_add_r 2 52) in Hsmall by lia. lia.
Qed.

Lemma round_lower s m e l my ey :
  0 <= m -> 0 <= e + B -> e <= fexp (dg m + e) -> 0 <= my -> canonical my ey ->
  my * 2 ^ (ey + B) <= m * 2 ^ (e + B) ->
  exists mm ee, binary_round_aux prec emax s m e l = encode s mm ee /\ 0 <= mm /\
    emin <= ee /\ (0 < mm -> canonical mm ee) /\ my * 2 ^ (ey + B) <= mm * 2 ^ (ee + B).
Proof.
  intros Hm Heb He Hmy Hc Hle.
  destruct (round_aux_spec s m e l Hm He) as (n & mm & ee & Hn & Hmm & Hee & Hval & Hcan & E).
  destruct (quotient_bounds m e Hm He) as [Hq Hlow]. cbv zeta in *.
  assert (Hemin : emin <= fexp (dg m + e)) by (rewrite fexp_eq; lia).
  set (e' := fexp (dg m + e)) in *. set (q := m / 2 ^ (e' - e)) in *.
  exists mm, ee. split; [done|]. split; [done|]. split; [lia|]. split; [done|].
  replace (mm * 2 ^ (ee + B)) with (n * 2 ^ (e' + B)).
  2: { rewrite <- Hval, <- Z.mul_assoc, <- Z.pow_add_r by lia. f_equal. f_equal. lia. }
  assert (HP : 0 < 2 ^ (e' + B)) by (apply pow2_pos; lia).
  assert (Hqn : q <= n) by lia.
  eapply Z.le_trans; [|apply Z.mul_le_mono_nonneg_r; [lia|exact Hqn]].
  destruct (Z.le_gt_cases e' ey) as [Hge|Hlt2].
  - replace (ey + B) with ((ey - e') + (e' + B)) in Hle |- * by lia.
    rewrite (Z.pow_add_r 2 (ey - e')), Z.mul_assoc in Hle |- * by lia. apply Z.mul_le_mono_nonneg_r; [lia|].
    apply Z.div_le_lower_bound; [apply pow2_pos; lia|].
    replace (e' + B) with ((e' - e) + (e + B)) in Hle by lia.
    rewrite (Z.pow_add_r 2 (e' - e)), Z.mul_assoc in Hle by lia.
    apply Z.mul_le_mono_pos_r in Hle; [|by apply pow2_pos]. lia.
  - apply Z.lt_le_incl. eapply Z.lt_le_trans; [by apply (canonical_small my ey e')|].
    replace (52 + e' + B) with (52 + (e' + B)) by lia. rewrite (Z.pow_add_r 2 52) by lia.
    apply canonical_iff in Hc. specialize (Hlow ltac:(lia)). apply Z.mul_le_mono_nonneg_r; lia.
Qed.
End Bounds.

(** ** Values *)

(** The integer [x * 2^1074] of a finite [x]. *)
Definition val (x : spec_float) : Z :=
  match x with
  | S754_finite s p e => cond_Zopp s (Zpos p) * 2 ^ (e + 1074)
  | _ => 0
  end.

Definition is_finite (x : spec_float) : Prop :=
  match x with S754_zero _ | S754_finite _ _ _ => True | _ => False end.

(** A canonical finite number that is not negative. *)
Record nonneg (x : spec_float) : Prop := mk_nonneg {
  nn_valid : valid x;
  nn_finite : is_finite x;
  nn_val : 0 <= val x
}.

Lemma zero_nonneg s : nonneg (S754_zero s).
Proof. constructor; [reflexivity|exact I|reflexivity]. Qed.

(** The integer value of 1.0. *)
Definition unit : Z := 2 ^ 1074.

Lemma encode_val m e : 0 <= m -> e <= 971 -> is_finite (encode false m e) /\
  val (encode false m e) = m * 2 ^ (e + 1074).
Proof.
  intros Hm He. unfold encode. destruct m as [|p|p]; [done| |lia].
  by rewrite (proj2 (Z.leb_le _ _) He).
Qed.

(** A mantissa and exponent for the magnitude of a number. *)
Lemma nonneg_repr y : nonneg y -> exists my ey, 0 <= my /\ canonical my ey /\ ey <= 971 /\
  val y = my * 2 ^ (ey + 1074).
Proof.
  intros [Hv Hf Hy]. destruct y as [s|s| |s p e]; try done.
  - exists 0, emin. split_and!; try done; unfold emin; lia.
  - apply valid_finite in Hv as [Hc He]. exists (Zpos p), e. split_and!; try done; try lia.
    destruct s; [|done]. exfalso. cbn in Hy. assert (0 < 2 ^ (e + 1074)); [|nia].
    apply pow2_pos. apply canonical_iff in Hc. unfold emin in Hc. lia.
Qed.

(** An encoded mantissa below a finite number does not overflow. *)
Lemma no_overflow mm ee my ey : 0 < mm -> canonical mm ee -> 0 <= my -> canonical my ey -> ey <= 971 ->
  mm * 2 ^ (ee + 1074) <= my * 2 ^ (ey + 1074) -> ee <= 971.
Proof.
  intros Hmm Hc Hmy Hcy Hey Hle. destruct (Z.le_gt_cases ee 971) as [|Hgt]; [done|exfalso].
  pose proof (canonical_small 1074 ltac:(done) my ey ee Hmy Hcy ltac:(lia)) as Hs.
  assert (Hd : dg mm = 53) by (apply canonical_iff in Hc; unfold emin in Hc; lia).
  destruct (dg_bounds mm Hmm) as [H1 _]. rewrite Hd in H1. change (53 - 1) with 52 in H1.
  assert (2 ^ 52 * 2 ^ (ee + 1074) <= mm * 2 ^ (ee + 1074))
    by (apply Z.mul_le_mono_nonneg_r; [apply Z.lt_le_incl, pow2_pos; lia|done]).
  replace (52 + ee + 1074) with (52 + (ee + 1074)) in Hs by lia.
  rewrite (Z.pow_add_r 2 52) in Hs by lia. lia.
Qed.

(** ** Alignment *)

Lemma iter_xO p d : Zpos (Pos.iter xO p d) = Zpos p * 2 ^ Zpos d /\
  digits2_pos (Pos.iter xO p d) = (digits2_pos p + d)%positive.
Proof.
  induction d as [|d [IH1 IH2]] using Pos.peano_ind; [split; simpl; lia|].
  rewrite Pos.iter_succ. split.
  - rewrite Pos2Z.inj_xO, IH1, Pos2Z.inj_succ, Z.pow_succ_r by lia. lia.
  - cbn [digits2_pos]. rewrite IH2. lia.
Qed.

Lemma shl_align_spec mx ex ex' : emin <= ex -> emin <= ex' ->
  let '(mz, ez) := shl_align mx ex ex' in
  ez = Z.min ex ex' /\ Zpos mz * 2 ^ (ez + 1074) = Zpos mx * 2 ^ (ex + 1074) /\
  dg (Zpos mz) + ez = dg (Zpos mx) + ex.
Proof.
  unfold emin. intros Hx Hx'. unfold shl_align. destruct (ex' - ex) as [|d|d] eqn:E; [lia|lia|].
  destruct (iter_xO mx d) as [H1 H2]. cbn [dg]. rewrite H1, H2. split_and!; [lia| |lia].
  rewrite <- Z.mul_assoc, <- Z.pow_add_r by lia. f_equal. f_equal. lia.
Qed.

(** ** Rounding a natural multiple of a power of two *)

Section Normalize.
Context (m e : Z) (Hm : 0 <= m) (He : emin <= e).

Lemma normalize_aux : m = 0 \/ exists mz ez, 0 < mz /\ emin <= ez /\ ez <= fexp (dg mz + ez) /\
  mz * 2 ^ (ez + 1074) = m * 2 ^ (e + 1074) /\
  binary_normalize prec emax m e false = binary_round_aux prec emax false mz ez loc_Exact.
Proof.
  unfold binary_normalize. destruct m as [|p|p]; [by left|right|lia]. unfold binary_round.
  set (f := fexp (Zpos (digits2_pos p) + e)).
  assert (Hf : emin <= f) by (unfold f; rewrite fexp_eq; lia).
  pose proof (shl_align_spec p e f He Hf) as HA. destruct (shl_align p e f) as [mz ez].
  destruct HA as (Hez & Hval & Hdg). exists (Zpos mz), ez. split_and!; [lia|lia| |done|done].
  rewrite Hdg. unfold f in Hez. cbn [dg]. lia.
Qed.

Lemma normalize_valid : valid (binary_normalize prec emax m e false) /\
  sign_of (binary_normalize prec emax m e false) = Some false.
Proof.
  destruct normalize_aux as [->|(mz & ez & ? & ? & ? & ? & ->)]; [done|].
  apply round_aux_valid; lia.
Qed.

Lemma normalize_upper y : nonneg y -> m * 2 ^ (e + 1074) <= val y ->
  nonneg (binary_normalize prec emax m e false) /\ val (binary_normalize prec emax m e false) <= val y.
Proof.
  intros Hy Hle. pose proof normalize_valid as [HV _].
  destruct normalize_aux as [->|(mz & ez & ? & ? & ? & Hval & E)]; [by destruct Hy|].
  destruct (nonneg_repr y Hy) as (my & ey & ? & ? & ? & Hvy). rewrite <- Hval, Hvy in Hle.
  rewrite E in *. destruct (round_upper 1074 ltac:(done) false mz ez loc_Exact my ey)
    as (mm & ee & E2 & Hmm & Hee & Hc & Hb); try done; try lia; [unfold emin in *; lia|].
  rewrite E2 in *.
  destruct (Z.eq_dec mm 0) as [->|Hnz]; [split; [by constructor|by destruct Hy]|].
  assert (ee <= 971) by (eapply no_overflow; [| |exact H2| | |exact Hb]; try done; [lia|apply Hc; lia]).
  destruct (encode_val mm ee Hmm) as [Hf Hv]; [done|]. rewrite Hv. split; [|lia].
  constructor; [done|done|]. rewrite Hv. apply Z.mul_nonneg_nonneg; [done|].
  apply Z.lt_le_incl, pow2_pos. unfold emin in *. lia.
Qed.

Lemma normalize_lower y : nonneg y -> val y <= m * 2 ^ (e + 1074) ->
  is_finite (binary_normalize prec emax m e false) ->
  nonneg (binary_normalize prec emax m e false) /\ val y <= val (binary_normalize prec emax m e false).
Proof.
  intros Hy Hle Hfin. pose proof normalize_valid as [HV _].
  destruct normalize_aux as [->|(mz & ez & ? & ? & ? & Hval & E)]; [split; [by constructor|simpl; lia]|].
  destruct (nonneg_repr y Hy) as (my & ey & ? & ? & ? & Hvy). rewrite <- Hval, Hvy in Hle.
  rewrite E in *. destruct (round_lower 1074 ltac:(done) false mz ez loc_Exact my ey)
    as (mm & ee & E2 & Hmm & Hee & Hc & Hb); try done; try lia; [unfold emin in *; lia|].
  rewrite E2 in *.
  assert (He971 : mm = 0 \/ ee <= 971).
  { destruct mm as [|p|p]; [by left| |lia]. right. cbn in Hfin. by destruct (Z.leb_spec ee 971). }
  destruct He971 as [->|He971].
  { split; [by constructor|]. simpl. rewrite Hvy. lia. }
  destruct (encode_val mm ee Hmm He971) as [Hf Hv]. rewrite Hv, Hvy. split; [|done].
  constructor; [done|done|]. rewrite Hv. apply Z.mul_nonneg_nonneg; [done|].
  apply Z.lt_le_incl, pow2_pos. unfold emin in *. lia.
Qed.

Lemma normalize_exact y : nonneg y -> val y = m * 2 ^ (e + 1074) ->
  nonneg (binary_normalize prec emax m e false) /\ val (binary_normalize prec emax m e false) = val y.
Proof.
  intros Hy Heq. destruct (normalize_upper y Hy) as [Hn Hle]; [lia|].
  destruct (normalize_lower y Hy) as [_ Hge]; [lia|apply Hn|]. split; [done|lia].
Qed.
End Normalize.

(** ** Comparisons *)

Lemma canonical_lt m1 e1 m2 e2 :
  0 <= m1 -> 0 < m2 -> canonical m1 e1 -> canonical m2 e2 -> e1 < e2 ->
  m1 * 2 ^ (e1 + 1074) < m2 * 2 ^ (e2 + 1074).
Proof.
  intros H1 H2 Hc1 Hc2 Hlt.
  pose proof (canonical_small 1074 ltac:(done) m1 e1 e2 H1 Hc1 Hlt) as Hs.
  apply canonical_iff in Hc1, Hc2. unfold emin in *. destruct (dg_bounds m2 H2) as [Hb _].
  assert (Hd : dg m2 = 53) by lia. rewrite Hd in Hb. change (53 - 1) with 52 in Hb.
  eapply Z.lt_le_trans; [exact Hs|]. replace (52 + e2 + 1074) with (52 + (e2 + 1074)) by lia.
  rewrite Z.pow_add_r by lia. apply Z.mul_le_mono_nonneg_r; [|done]. apply Z.lt_le_incl, pow2_pos. lia.
Qed.

(** The order of two positive canonical numbers is that of their values. *)
Lemma compare_positive p1 e1 p2 e2 : canonical (Zpos p1) e1 -> canonical (Zpos p2) e2 ->
  (match Z.compare e1 e2 with Lt => Lt | Gt => Gt | Eq => Pos.compare_cont Eq p1 p2 end) =
  Z.compare (Zpos p1 * 2 ^ (e1 + 1074)) (Zpos p2 * 2 ^ (e2 + 1074)).
Proof.
  intros H1 H2. destruct (Z.compare_spec e1 e2) as [->|Hlt|Hgt].
  - change (Pos.compare_cont Eq p1 p2) with (Z.compare (Zpos p1) (Zpos p2)).
    rewrite !(Z.mul_comm _ (2 ^ _)). apply Zmult_compare_compat_l.
    apply Z.lt_gt, pow2_pos. apply canonical_iff in H2. unfold emin in H2. lia.
  - symmetry. apply Z.compare_lt_iff. by apply canonical_lt.
  - symmetry. apply Z.compare_gt_iff. by apply canonical_lt.
Qed.

Lemma compare_val x y : valid x -> valid y -> is_finite x -> is_finite y ->
  SFcompare x y = Some (Z.compare (val x) (val y)).
Proof.
  assert (Hpos : forall p e, canonical (Zpos p) e -> 0 < 2 ^ (e + 1074)).
  { intros p e Hc%canonical_iff. apply pow2_pos. unfold emin in Hc. lia. }
  intros Hx Hy Fx Fy. destruct x as [s1|s1| |s1 p1 e1], y as [s2|s2| |s2 p2 e2]; try done.
  - apply valid_finite in Hy as [Hc _]. specialize (Hpos _ _ Hc). unfold SFcompare, val, cond_Zopp.
    f_equal. symmetry. destruct s2; [apply Z.compare_gt_iff|apply Z.compare_lt_iff]; nia.
  - apply valid_finite in Hx as [Hc _]. specialize (Hpos _ _ Hc). unfold SFcompare, val, cond_Zopp.
    f_equal. symmetry. destruct s1; [apply Z.compare_lt_iff|apply Z.compare_gt_iff]; nia.
  - apply valid_finite in Hx as [Hc1 _], Hy as [Hc2 _].
    pose proof (Hpos _ _ Hc1). pose proof (Hpos _ _ Hc2).
    pose proof (compare_positive p1 e1 p2 e2 Hc1 Hc2) as HC.
    unfold SFcompare, val, cond_Zopp. f_equal. destruct s1, s2.
    + rewrite !Z.mul_opp_l, Z.compare_opp.
      rewrite (Z.compare_antisym (Zpos p1 * 2 ^ (e1 + 1074))), <- HC. by destruct (Z.compare e1 e2).
    + symmetry. apply Z.compare_lt_iff. nia.
    + symmetry. apply Z.compare_gt_iff. nia.
    + exact HC.
Qed.

Lemma ltb_val x y : valid x -> valid y -> is_finite x -> is_finite y -> ltb x y = (val x <? val y).
Proof.
  intros. unfold ltb, SFltb. rewrite compare_val by done. unfold Z.ltb. by destruct (_ ?= _).
Qed.

Lemma leb_val x y : valid x -> valid y -> is_finite x -> is_finite y -> leb x y = (val x <=? val y).
Proof.
  intros. unfold leb, SFleb. rewrite compare_val by done. unfold Z.leb. by destruct (_ ?= _).
Qed.

(** ** Integers *)

Lemma of_Z_nonneg_valid n : 0 <= n -> valid (of_Z n) /\ sign_of (of_Z n) = Some false.
Proof. intros. by apply normalize_valid. Qed.

(** A natural number of at most 53 bits has a canonical form. *)
Lemma small_repr n : 0 <= n <= 2 ^ 53 -> exists y, nonneg y /\ val y = n * unit.
Proof.
  intros Hn. destruct (Z.eq_dec n 0) as [->|Hnz]; [by exists (S754_zero false)|].
  assert (Hmake : forall p e, canonical (Zpos p) e -> e <= 971 ->
    nonneg (S754_finite false p e) /\ val (S754_finite false p e) = Zpos p * 2 ^ (e + 1074)).
  { intros p e Hc He. split; [|done]. constructor; [by apply valid_finite|done|]. cbn.
    apply Z.mul_nonneg_nonneg; [done|]. apply canonical_iff in Hc. unfold emin in Hc.
    apply Z.lt_le_incl, pow2_pos. lia. }
  destruct (Z.eq_dec n (2 ^ 53)) as [->|Hne].
  { destruct (Hmake (2 ^ 52)%positive 1) as [H1 H2]; [by apply canonical_iff; vm_compute; intuition|lia|].
    eexists. split; [exact H1|]. rewrite H2. unfold unit.
    change (Z.pos (2 ^ 52)) with (2 ^ 52). rewrite <- !Z.pow_add_r by lia. f_equal. }
  destruct n as [|p|p]; [done| |lia].
  assert (Hd : dg (Zpos p) <= 53) by (apply dg_le; lia). pose proof (dg_pos (Zpos p) ltac:(lia)).
  set (d := 53 - dg (Zpos p)).
  pose proof (shl_align_spec p 0 (- d) ltac:(done) ltac:(unfold emin; lia)) as HA.
  destruct (shl_align p 0 (- d)) as [mz ez]. destruct HA as (Hez & Hval & Hdg).
  destruct (Hmake mz ez) as [H1 H2]; [apply canonical_iff; unfold emin; lia|lia|].
  exists (S754_finite false mz ez). split; [done|]. rewrite H2, Hval. done.
Qed.

Lemma of_Z_exact n : 0 <= n <= 2 ^ 53 -> nonneg (of_Z n) /\ val (of_Z n) = n * unit.
Proof.
  intros Hn. destruct (small_repr n Hn) as (y & Hy & Hv).
  destruct (normalize_exact n 0 ltac:(lia) ltac:(done) y Hy Hv) as [H1 H2].
  split; [exact H1|]. unfold of_Z. by rewrite H2.
Qed.

(** Every int64 that is not negative becomes a finite number. *)
Lemma of_Z_nonneg n : 0 <= n <= 2 ^ 64 -> nonneg (of_Z n).
Proof.
  intros Hn. assert (Hy : nonneg (S754_finite false (2 ^ 52) 12)).
  { constructor; [by vm_compute|done|]. by vm_compute. }
  apply (normalize_upper n 0 ltac:(lia) ltac:(done) _ Hy).
  change (val (S754_finite false (2 ^ 52) 12)) with (2 ^ 52 * 2 ^ (12 + 1074)).
  rewrite <- Z.pow_add_r by lia. replace (52 + (12 + 1074)) with (64 + (0 + 1074)) by lia.
  rewrite (Z.pow_add_r 2 64) by lia. apply Z.mul_le_mono_nonneg_r; [|lia].
  apply Z.lt_le_incl, pow2_pos. lia.
Qed.

(** ** Sums, differences and products of numbers that are not negative *)

Lemma aligned p e ez : emin <= ez -> ez <= e ->
  Zpos (fst (shl_align p e ez)) * 2 ^ (ez + 1074) = Zpos p * 2 ^ (e + 1074).
Proof.
  intros H1 H2. pose proof (shl_align_spec p e ez ltac:(lia) H1) as HA.
  destruct (shl_align p e ez) as [mz ez']. destruct HA as (-> & HA & _).
  by rewrite Z.min_r in HA.
Qed.

Lemma nonneg_finite_sign s p e : nonneg (S754_finite s p e) -> s = false /\ canonical (Zpos p) e /\ emin <= e.
Proof.
  intros [Hv _ Hn]. apply valid_finite in Hv as [Hc _]. pose proof Hc as Hc'.
  apply canonical_iff in Hc'. split; [|split; [done|lia]]. destruct s; [|done]. exfalso. cbn in Hn.
  assert (0 < 2 ^ (e + 1074)) by (apply pow2_pos; unfold emin in *; lia). nia.
Qed.

(** Either a finite number that is not negative, or the positive infinity. *)
Definition nonneg_or_inf (x : spec_float) : Prop := nonneg x \/ x = S754_infinity false.

Lemma signed_false_cases x : valid x -> sign_of x = Some false -> nonneg_or_inf x.
Proof.
  intros Hv Hs. destruct x as [s|s| |s p e]; simplify_eq/=; [left; by constructor|by right|left].
  constructor; [done|done|]. cbn. apply Z.mul_nonneg_nonneg; [done|].
  apply valid_finite in Hv as [Hc%canonical_iff _]. apply Z.lt_le_incl, pow2_pos. unfold emin in *. lia.
Qed.

(** A rounded sum is at least each of its terms. *)
Lemma add_nonneg x y : nonneg x -> nonneg y ->
  nonneg_or_inf (add x y) /\
  (nonneg (add x y) -> val x <= val (add x y) /\ val y <= val (add x y)).
Proof.
  intros Hx Hy. destruct x as [s1|s1| |s1 p1 e1]; try (by destruct Hx);
    destruct y as [s2|s2| |s2 p2 e2]; try (by destruct Hy).
  - destruct s1, s2; split; try (left; by constructor); done.
  - split; [by left|]. intros _. destruct Hy. split; [done|]. unfold add, SFadd. lia.
  - split; [by left|]. intros _. destruct Hx. split; [|done]. unfold add, SFadd. lia.
  - destruct (nonneg_finite_sign _ _ _ Hx) as (-> & _ & He1).
    destruct (nonneg_finite_sign _ _ _ Hy) as (-> & _ & He2). unfold add, SFadd, cond_Zopp.
    set (ez := Z.min e1 e2). assert (Hez : emin <= ez) by lia.
    pose proof (aligned p1 e1 ez Hez ltac:(lia)) as HA1. pose proof (aligned p2 e2 ez Hez ltac:(lia)) as HA2.
    set (a1 := Zpos (fst (shl_align p1 e1 ez))) in *. set (a2 := Zpos (fst (shl_align p2 e2 ez))) in *.
    assert (Ha : 0 <= a1 + a2) by (unfold a1, a2; lia).
    assert (Hv1 : val (S754_finite false p1 e1) <= (a1 + a2) * 2 ^ (ez + 1074) /\
                  val (S754_finite false p2 e2) <= (a1 + a2) * 2 ^ (ez + 1074)).
    { cbn. rewrite <- HA1, <- HA2. assert (0 < 2 ^ (ez + 1074)) by (apply pow2_pos; unfold emin in *; lia).
      unfold a1, a2. nia. }
    split.
    + apply signed_false_cases; by apply normalize_valid.
    + intros Hn. split; apply normalize_lower; try done; apply Hv1 || apply Hn.
Qed.

(** A sum bounded by a representable number is finite. *)
Lemma add_bounded x y z : nonneg x -> nonneg y -> nonneg z -> val x + val y <= val z ->
  nonneg (add x y) /\ val (add x y) <= val z.
Proof.
  intros Hx Hy Hz Hle. destruct (add_nonneg x y Hx Hy) as [Hcase _].
  destruct x as [s1|s1| |s1 p1 e1]; try (by destruct Hx);
    destruct y as [s2|s2| |s2 p2 e2]; try (by destruct Hy).
  - destruct Hz. destruct s1, s2; (split; [by constructor|done]).
  - split; [exact Hx|]. unfold add, SFadd. cbn [val] in *. lia.
  - destruct (nonneg_finite_sign _ _ _ Hx) as (-> & _ & He1).
    destruct (nonneg_finite_sign _ _ _ Hy) as (-> & _ & He2). unfold add, SFadd.
    change (cond_Zopp false ?a) with a. set (ez := Z.min e1 e2). assert (Hez : emin <= ez) by lia.
    pose proof (aligned p1 e1 ez Hez ltac:(lia)) as HA1. pose proof (aligned p2 e2 ez Hez ltac:(lia)) as HA2.
    apply normalize_upper; [lia|done|done|]. rewrite Z.mul_add_distr_r, HA1, HA2. exact Hle.
Qed.

(** A rounded difference stays between zero and its first term. *)
Lemma sub_nonneg x y : nonneg x -> nonneg y -> val y <= val x ->
  nonneg (sub x y) /\ val (sub x y) <= val x.
Proof.
  intros Hx Hy Hle. destruct x as [s1|s1| |s1 p1 e1]; try (by destruct Hx);
    destruct y as [s2|s2| |s2 p2 e2]; try (by destruct Hy).
  - destruct s1, s2; (split; [by constructor|done]).
  - exfalso. destruct (nonneg_finite_sign _ _ _ Hy) as (-> & _ & He2). cbn in Hle.
    assert (0 < 2 ^ (e2 + 1074)) by (apply pow2_pos; unfold emin in *; lia). nia.
  - destruct (nonneg_finite_sign _ _ _ Hx) as (-> & _ & He1).
    destruct (nonneg_finite_sign _ _ _ Hy) as (-> & _ & He2).
    unfold sub, SFsub. change (cond_Zopp false ?a) with a.
    set (ez := Z.min e1 e2). assert (Hez : emin <= ez) by lia.
    pose proof (aligned p1 e1 ez Hez ltac:(lia)) as HA1. pose proof (aligned p2 e2 ez Hez ltac:(lia)) as HA2.
    set (a1 := Zpos (fst (shl_align p1 e1 ez))) in *. set (a2 := Zpos (fst (shl_align p2 e2 ez))) in *.
    assert (HP : 0 < 2 ^ (ez + 1074)) by (apply pow2_pos; unfold emin in *; lia).
    unfold val, cond_Zopp in Hle. rewrite <- HA1, <- HA2 in Hle.
    apply Z.mul_le_mono_pos_r in Hle; [|done].
    apply normalize_upper; [lia|done|done|]. unfold val at 1, cond_Zopp. rewrite <- HA1.
    apply Z.mul_le_mono_nonneg_r; [lia|]. unfold a2. lia.
Qed.

(** A rounded difference is at most any representable bound of the difference. *)
Lemma sub_upper x y z : nonneg x -> nonneg y -> nonneg z -> val y <= val x -> val x - val y <= val z ->
  val (sub x y) <= val z.
Proof.
  intros Hx Hy Hz Hle Hb. destruct x as [s1|s1| |s1 p1 e1]; try (by destruct Hx);
    destruct y as [s2|s2| |s2 p2 e2]; try (by destruct Hy).
  - destruct Hz. by destruct s1, s2.
  - exfalso. destruct (nonneg_finite_sign _ _ _ Hy) as (-> & _ & He2). cbn in Hle.
    assert (0 < 2 ^ (e2 + 1074)) by (apply pow2_pos; unfold emin in *; lia). nia.
  - unfold sub, SFsub. cbn [val] in *. lia.
  - destruct (nonneg_finite_sign _ _ _ Hx) as (-> & _ & He1).
    destruct (nonneg_finite_sign _ _ _ Hy) as (-> & _ & He2).
    unfold sub, SFsub. change (cond_Zopp false ?a) with a.
    set (ez := Z.min e1 e2). assert (Hez : emin <= ez) by lia.
    pose proof (aligned p1 e1 ez Hez ltac:(lia)) as HA1. pose proof (aligned p2 e2 ez Hez ltac:(lia)) as HA2.
    assert (HP : 0 < 2 ^ (ez + 1074)) by (apply pow2_pos; unfold emin in *; lia).
    unfold val, cond_Zopp in Hle. rewrite <- HA1, <- HA2 in Hle. apply Z.mul_le_mono_pos_r in Hle; [|done].
    apply normalize_upper; [lia|done|done|]. rewrite Z.mul_sub_distr_r, HA1, HA2. exact Hb.
Qed.

(** A difference that is a number of at most 53 bits is exact. *)
Lemma sub_exact x y n : nonneg x -> nonneg y -> 0 <= n <= 2 ^ 53 -> val x - val y = n * unit ->
  nonneg (sub x y) /\ val (sub x y) = n * unit.
Proof.
  intros Hx Hy Hn Heq. destruct (small_repr n Hn) as (z & Hz & Hvz).
  assert (Hle : val y <= val x) by (unfold unit in *; lia).
  destruct x as [s1|s1| |s1 p1 e1]; try (by destruct Hx);
    destruct y as [s2|s2| |s2 p2 e2]; try (by destruct Hy).
  - destruct s1, s2; (split; [by constructor|cbn in Heq; exact Heq]).
  - exfalso. destruct (nonneg_finite_sign _ _ _ Hy) as (-> & _ & He2). cbn in Hle.
    assert (0 < 2 ^ (e2 + 1074)) by (apply pow2_pos; unfold emin in *; lia). nia.
  - split; [exact Hx|]. unfold sub, SFsub. rewrite <- Heq. cbn. lia.
  - destruct (nonneg_finite_sign _ _ _ Hx) as (-> & _ & He1).
    destruct (nonneg_finite_sign _ _ _ Hy) as (-> & _ & He2).
    unfold sub, SFsub. change (cond_Zopp false ?a) with a.
    set (ez := Z.min e1 e2). assert (Hez : emin <= ez) by lia.
    pose proof (aligned p1 e1 ez Hez ltac:(lia)) as HA1. pose proof (aligned p2 e2 ez Hez ltac:(lia)) as HA2.
    set (a1 := Zpos (fst (shl_align p1 e1 ez))) in *. set (a2 := Zpos (fst (shl_align p2 e2 ez))) in *.
    assert (HP : 0 < 2 ^ (ez + 1074)) by (apply pow2_pos; unfold emin in *; lia).
    unfold val, cond_Zopp in Hle, Heq. rewrite <- HA1, <- HA2 in Hle, Heq.
    apply Z.mul_le_mono_pos_r in Hle; [|done]. rewrite <- Hvz.
    apply normalize_exact; [lia|done|done|]. rewrite Hvz, <- Heq. lia.
Qed.

(** A rounded product is not negative (it may overflow). *)
Lemma mul_nonneg x y : nonneg x -> nonneg y -> nonneg_or_inf (mul x y).
Proof.
  intros Hx Hy. destruct x as [s1|s1| |s1 p1 e1]; try (by destruct Hx);
    destruct y as [s2|s2| |s2 p2 e2]; try (by destruct Hy); try (left; by constructor).
  destruct (nonneg_finite_sign _ _ _ Hx) as (-> & Hc1 & _).
  destruct (nonneg_finite_sign _ _ _ Hy) as (-> & Hc2 & _). unfold mul, SFmul. cbn [xorb].
  apply signed_false_cases; apply round_aux_valid; try done.
  all: rewrite fexp_eq; apply canonical_iff in Hc1, Hc2; unfold emin in *.
  all: destruct (digits_bounds p1) as [L1 _], (digits_bounds p2) as [L2 _].
  all: pose proof (dg_pos (Zpos p1) ltac:(lia)); pose proof (dg_pos (Zpos p2) ltac:(lia)).
  all: assert (HD : dg (Zpos p1) - 1 + (dg (Zpos p2) - 1) + 1 <= dg (Zpos (p1 * p2))).
  1,3: apply dg_ge; [lia|]; rewrite Z.pow_add_r by lia;
    change (Zpos (p1 * p2)) with (Zpos p1 * Zpos p2);
    apply Z.mul_le_mono_nonneg; try done; apply Z.lt_le_incl, pow2_pos; lia.
  all: lia.
Qed.

(** ** Quotients *)

Lemma new_location_exact n r : new_location n r = loc_Exact <-> r = 0.
Proof.
  unfold new_location, new_location_even, new_location_odd.
  destruct (Z.even n), (Z.eqb_spec r 0); split; congruence.
Qed.

(** The quotient and exponent [SFdiv_core_binary] computes. *)
Lemma div_core_spec p1 e1 p2 e2 : canonical (Zpos p1) e1 -> canonical (Zpos p2) e2 ->
  exists q e' r k, SFdiv_core_binary prec emax (Zpos p1) e1 (Zpos p2) e2 = (q, e', new_location (Zpos p2) r) /\
    0 <= q /\ 0 <= r < Zpos p2 /\ 0 <= k /\ k = e1 - e2 - e' /\
    Zpos p1 * 2 ^ k = Zpos p2 * q + r /\ e' <= fexp (dg q + e') /\ Z.min emin (e1 - e2) <= e'.
Proof.
  intros Hc1%canonical_iff Hc2%canonical_iff. unfold SFdiv_core_binary.
  set (D := dg (Zpos p1) + e1 - (dg (Zpos p2) + e2)). set (e' := Z.min (fexp D) (e1 - e2)).
  set (k := e1 - e2 - e'). assert (Hk : 0 <= k) by (unfold k, e'; lia).
  assert (Hm : (match k with Zpos _ => Z.shiftl (Zpos p1) k | Z0 => Zpos p1 | Zneg _ => 0 end) = Zpos p1 * 2 ^ k).
  { destruct k; [lia|apply Z.shiftl_mul_pow2; lia|lia]. }
  fold k. rewrite Hm. pose proof (Z_div_mod (Zpos p1 * 2 ^ k) (Zpos p2) ltac:(lia)) as HD.
  destruct (Z.div_eucl (Zpos p1 * 2 ^ k) (Zpos p2)) as [q r]. destruct HD as [HD Hr].
  assert (HP : 0 < 2 ^ k) by (by apply pow2_pos). assert (Hq : 0 <= q) by nia.
  exists q, e', r, k. split_and!; try done; try lia; [|unfold e'; rewrite fexp_eq; lia].
  destruct (digits_bounds p1) as [L1 _], (digits_bounds p2) as [_ U2].
  pose proof (dg_pos (Zpos p1) ltac:(lia)). pose proof (dg_pos (Zpos p2) ltac:(lia)).
  destruct (Z.le_gt_cases (D - e') 0) as [Hsmall|Hbig].
  { unfold e' in *. rewrite !fexp_eq in *. unfold D, emin in *. lia. }
  assert (Hdq : D - e' <= dg q).
  { replace (D - e') with ((D - e' - 1) + 1) by lia. apply dg_ge; [lia|].
    assert (2 ^ (D - e' - 1) < q + 1); [|lia].
    apply (Z.mul_lt_mono_pos_l (Zpos p2)); [done|].
    eapply Z.lt_le_trans; [apply Z.mul_lt_mono_pos_r; [apply pow2_pos; lia|exact U2]|].
    rewrite <- Z.pow_add_r by lia.
    assert (HL : 2 ^ (dg (Zpos p1) - 1) * 2 ^ k <= Zpos p1 * 2 ^ k)
      by (apply Z.mul_le_mono_nonneg_r; lia).
    rewrite <- Z.pow_add_r in HL by lia.
    replace (dg (Zpos p2) + (D - e' - 1)) with (dg (Zpos p1) - 1 + k) by (unfold D, k; lia). lia. }
  unfold e' in *. rewrite !fexp_eq in *. lia.
Qed.

(** The exact quotient of [x <= y], compared with one at a common exponent. *)
Lemma quotient_le_one p1 e1 p2 e2 q r e' k :
  emin <= e1 -> emin <= e2 -> 0 <= e' + 4096 -> 0 <= r -> 0 <= k -> k = e1 - e2 - e' ->
  Zpos p1 * 2 ^ k = Zpos p2 * q + r -> Zpos p1 * 2 ^ (e1 + 1074) <= Zpos p2 * 2 ^ (e2 + 1074) ->
  q * 2 ^ (e' + 4096) <= 2 ^ 52 * 2 ^ (-52 + 4096) /\
  (r <> 0 -> q * 2 ^ (e' + 4096) < 2 ^ 52 * 2 ^ (-52 + 4096)).
Proof.
  intros He1 He2 He' Hr Hk Hke HD Hle.
  rewrite <- (Z.pow_add_r 2 52) by lia. replace (52 + (-52 + 4096)) with 4096 by lia.
  assert (HP2 : 0 < 2 ^ (e2 + 1074)) by (apply pow2_pos; unfold emin in *; lia).
  assert (HP : 0 < 2 ^ (e' + 4096)) by (by apply pow2_pos).
  assert (HE : Zpos p1 * 2 ^ k * (2 ^ (e' + 4096) * 2 ^ (e2 + 1074)) = Zpos p1 * 2 ^ (e1 + 1074) * 2 ^ 4096).
  { rewrite <- !Z.mul_assoc, <- !Z.pow_add_r by (unfold emin in *; lia). f_equal. f_equal. lia. }
  assert (HU : Zpos p1 * 2 ^ (e1 + 1074) * 2 ^ 4096 <= Zpos p2 * 2 ^ (e2 + 1074) * 2 ^ 4096)
    by (apply Z.mul_le_mono_nonneg_r; [apply Z.lt_le_incl, pow2_pos; lia|done]).
  rewrite HD in HE. set (X := 2 ^ (e' + 4096)) in *. set (Y := 2 ^ (e2 + 1074)) in *.
  set (Z' := 2 ^ 4096) in *. clearbody X Y Z'.
  assert (HC : Zpos p2 * Y * (q * X) + r * (X * Y) <= Zpos p2 * Y * Z').
  { rewrite <- HE in HU. replace (Zpos p2 * Y * (q * X) + r * (X * Y)) with
      ((Zpos p2 * q + r) * (X * Y)) by ring. exact HU. }
  assert (HXY : 0 < X * Y) by (by apply Z.mul_pos_pos).
  assert (HPY : 0 < Zpos p2 * Y) by (by apply Z.mul_pos_pos).
  split; [|intros Hnz].
  - apply (Z.mul_le_mono_pos_l _ _ (Zpos p2 * Y)); [done|].
    assert (0 <= r * (X * Y)) by (apply Z.mul_nonneg_nonneg; lia). lia.
  - apply (Z.mul_lt_mono_pos_l (Zpos p2 * Y)); [done|].
    assert (0 < r * (X * Y)) by (apply Z.mul_pos_pos; lia). lia.
Qed.

(** A quotient of at most one is not negative and at most one. *)
Lemma div_le_one x y : nonneg x -> nonneg y -> 0 < val y -> val x <= val y ->
  nonneg (div x y) /\ val (div x y) <= unit.
Proof.
  intros Hx Hy Hpos Hle. destruct y as [s2|s2| |s2 p2 e2]; try done.
  destruct (nonneg_finite_sign _ _ _ Hy) as (-> & Hc2 & He2).
  destruct x as [s1|s1| |s1 p1 e1]; [|by destruct Hx|by destruct Hx|].
  { split; [apply (zero_nonneg (xorb s1 false))|]. cbn. unfold unit. apply Z.lt_le_incl, pow2_pos. lia. }
  destruct (nonneg_finite_sign _ _ _ Hx) as (-> & Hc1 & He1). unfold div, SFdiv. cbn [xorb].
  destruct (div_core_spec p1 e1 p2 e2 Hc1 Hc2)
    as (q & e' & r & k & -> & Hq & Hr & Hk & Hke & HD & Hf & Hlow).
  pose proof (nn_valid _ Hy) as [_ He2']%valid_finite. unfold val, cond_Zopp in Hle.
  assert (He' : 0 <= e' + 4096) by (unfold emin in *; lia).
  destruct (quotient_le_one p1 e1 p2 e2 q r e' k) as [HS1 HS2]; try done; [apply Hr|].
  destruct (round_upper 4096 ltac:(done) false q e' (new_location (Zpos p2) r) (2 ^ 52) (-52))
    as (mm & ee & E2 & Hmm & Hee & Hc & Hb); try done.
  { rewrite new_location_exact. done. }
  assert (Hee' : mm = 0 \/ mm * 2 ^ (ee + 1074) <= 2 ^ 52 * 2 ^ (-52 + 1074)).
  { right. replace (ee + 4096) with (ee + 1074 + 3022) in Hb by lia.
    replace (-52 + 4096) with (-52 + 1074 + 3022) in Hb by lia.
    rewrite (Z.pow_add_r 2 (ee + 1074)), (Z.pow_add_r 2 (-52 + 1074)), !Z.mul_assoc in Hb
      by (unfold emin in *; lia).
    apply Z.mul_le_mono_pos_r in Hb; [done|]. apply pow2_pos. lia. }
  rewrite E2. destruct (Z.eq_dec mm 0) as [->|Hnz].
  { split; [by constructor|]. cbn. unfold unit. apply Z.lt_le_incl, pow2_pos. lia. }
  destruct Hee' as [|Hee']; [done|].
  assert (H971 : ee <= 971).
  { eapply (no_overflow mm ee (2 ^ 52) (-52)); try done; [lia|apply Hc; lia]. }
  destruct (encode_val mm ee Hmm H971) as [Hfin Hv]. split.
  - constructor; [apply encode_valid; done|done|]. rewrite Hv. apply Z.mul_nonneg_nonneg; [done|].
    apply Z.lt_le_incl, pow2_pos. unfold emin in *. lia.
  - rewrite Hv. unfold unit. rewrite <- Z.pow_add_r in Hee' by lia. exact Hee'.
Qed.

(** ** Elapsed seconds *)

Lemma Duration_Seconds_zero : Duration_Seconds 0 = zero.
Proof. reflexivity. Qed.

(** [d.Seconds()] of a duration that is not negative is a finite number that is
    not negative. *)
Lemma Duration_Seconds_nonneg d : 0 <= d <= int64_max -> nonneg (Duration_Seconds d).
Proof.
  intros Hd. unfold Duration_Seconds, int64_max in *.
  rewrite Z.quot_div_nonneg, Z.rem_mod_nonneg by (unfold Second; lia).
  pose proof (Z.mod_pos_bound d Second ltac:(done)) as Hr.
  assert (Hq : 0 <= d / Second <= 2 ^ 53).
  { split; [apply Z.div_pos; [lia|done]|]. apply Z.div_le_upper_bound; [done|]. unfold Second. lia. }
  destruct (of_Z_exact (d / Second) Hq) as [Nq Vq].
  destruct (of_Z_exact (d mod Second)) as [Nr Vr]; [unfold Second in *; lia|].
  destruct (of_Z_exact Second) as [Ns Vs]; [unfold Second; lia|].
  assert (Hunit : 0 < unit) by (apply pow2_pos; lia).
  destruct (div_le_one (of_Z (d mod Second)) (of_Z Second)) as [Nd Vd]; [done|done| | |].
  - rewrite Vs. apply Z.mul_pos_pos; done.
  - rewrite Vr, Vs. apply Z.mul_le_mono_nonneg_r; lia.
  - destruct (add_nonneg _ _ Nq Nd) as [[Hn|Hinf] _]; [done|exfalso].
    destruct (of_Z_exact (2 ^ 53)) as [Nz Vz]; [lia|].
    destruct (add_bounded _ _ _ Nq Nd Nz) as [[_ Hf _] _]; [|by rewrite Hinf in Hf].
    rewrite Vq, Vz. assert (d / Second + 1 <= 2 ^ 53); [|nia].
    assert (d / Second < 2 ^ 53 - 1); [|lia]. apply Z.div_lt_upper_bound; [done|]. unfold Second. lia.
Qed.

(** ** Integer part *)

Lemma unit_pos : 0 < unit.
Proof. apply pow2_pos. lia. Qed.

(** The floor of a number that is not negative is its value in units, rounded
    down. *)
Lemma floor_val x : nonneg x -> floor_Z x = Some (val x / unit).
Proof.
  intros Hx. destruct x as [s|s| |s p e]; try (by destruct Hx).
  destruct (nonneg_finite_sign _ _ _ Hx) as (-> & _ & He). unfold floor_Z, val, cond_Zopp, unit.
  unfold emin in He. f_equal. destruct (Z.leb_spec 0 e).
  - rewrite Z.pow_add_r, Z.mul_assoc by lia. rewrite Z.div_mul; [done|]. pose proof (pow2_pos 1074). lia.
  - replace (2 ^ 1074) with (2 ^ (- e) * 2 ^ (e + 1074)) by (rewrite <- Z.pow_add_r by lia; f_equal; lia).
    rewrite Z.div_mul_cancel_r; [done| |]; apply Z.neq_sym, Z.lt_neq, pow2_pos; lia.
Qed.

Lemma floor_int64_val oor x : nonneg x -> val x <= int64_max * unit ->
  floor_int64 oor x = val x / unit.
Proof.
  intros Hx Hle. unfold floor_int64. rewrite (floor_val x Hx).
  assert (0 <= val x / unit) by (apply Z.div_pos; [by destruct Hx|apply unit_pos]).
  assert (val x / unit <= int64_max) by (apply Z.div_le_upper_bound; [apply unit_pos|]; lia).
  rewrite (proj2 (Z.leb_le int64_min _)), (proj2 (Z.leb_le _ int64_max)); [done|done|].
  unfold int64_min. lia.
Qed.

(** ** Infinities *)

Lemma ltb_inf x : is_finite x -> ltb x (S754_infinity false) = true.
Proof. by destruct x. Qed.

Lemma add_inf x : is_finite x -> add x (S754_infinity false) = S754_infinity false.
Proof. by destruct x. Qed.

(** Adding a zero changes nothing but the sign of a zero. *)
Lemma add_zero x s : nonneg x -> nonneg (add x (S754_zero s)) /\ val (add x (S754_zero s)) = val x.
Proof.
  intros Hx. destruct x as [s1|s1| |s1 p e]; [|by destruct Hx|by destruct Hx|done].
  destruct s1, s; (split; [apply zero_nonneg|done]).
Qed.

Lemma one_nonneg : nonneg one /\ val one = unit.
Proof. destruct (of_Z_exact 1 ltac:(lia)) as [H1 H2]. split; [exact H1|]. unfold one. rewrite H2. lia. Qed.
End FloatFacts.
