(* ===== verification/GoLib.v ===== *)
(** * The parts of Go's standard library the gateway relies on

    [strings], [strconv] and [net] functions as executable definitions on byte
    strings; [net/url] as an interface ([URLLib]), since the gateway only parses,
    prints and compares URLs. *)

From S2P Require Import Prelude.
From Stdlib Require Import Ascii.

(** ** net/url: the type of parsed URLs and the functions used on it *)
Class URLLib := {
  URL : Type;
  url_Parse : string -> result URL;
  URL_String : URL -> string;
  URL_Scheme : URL -> string;
  URL_Host : URL -> string
}.

(** ** strings *)

Definition HasPrefix (s prefix : string) : bool := String.prefix prefix s.

Definition HasSuffix (s suffix : string) : bool :=
  String.prefix (String.rev suffix) (String.rev s).

Fixpoint string_drop (n : nat) (s : string) : string :=
  match n, s with
  | O, _ => s
  | S n', String _ s' => string_drop n' s'
  | S _, EmptyString => EmptyString
  end.

Fixpoint string_take (n : nat) (s : string) : string :=
  match n, s with
  | O, _ => EmptyString
  | S n', String c s' => String c (string_take n' s')
  | S _, EmptyString => EmptyString
  end.

Definition TrimPrefix (s prefix : string) : string :=
  if HasPrefix s prefix then string_drop (String.length prefix) s else s.

Fixpoint Contains (s substr : string) : bool :=
  String.prefix substr s ||
  match s with
  | EmptyString => false
  | String _ s' => Contains s' substr
  end.

Fixpoint Join (elems : list string) (sep : string) : string :=
  match elems with
  | [] => ""
  | [e] => e
  | e :: es => e +:+ sep +:+ Join es sep
  end.

(** [strings.IndexByte]: the index of the first occurrence, [None] for -1. *)
Fixpoint IndexByte (s : string) (c : ascii) : option nat :=
  match s with
  | EmptyString => None
  | String a s' => if Ascii.eqb a c then Some O else S <$> IndexByte s' c
  end.

Fixpoint LastIndexByte (s : string) (c : ascii) : option nat :=
  match s with
  | EmptyString => None
  | String a s' =>
      match LastIndexByte s' c with
      | Some i => Some (S i)
      | None => if Ascii.eqb a c then Some O else None
      end
  end.

Definition byte_string (l : list nat) : string :=
  String.string_of_list_ascii (ascii_of_nat <$> l).

Definition newline : string := byte_string [10]%nat.

(** The UTF-8 encodings of the code points [unicode.IsSpace] accepts. *)
Definition space_encodings : list string :=
  byte_string <$>
    ([[9]; [10]; [11]; [12]; [13]; [32]; [194; 133]; [194; 160]; [225; 154; 128];
      [226; 128; 168]; [226; 128; 169]; [226; 128; 175]; [226; 129; 159];
      [227; 128; 128]] ++ ((fun k => [226; 128; 128 + k]) <$> seq 0 11))%nat.

Fixpoint trim_left (fuel : nat) (cut : list string) (s : string) : string :=
  match fuel with
  | O => s
  | S fuel' =>
      match list_find (fun e => String.prefix e s = true) cut with
      | Some (_, e) => trim_left fuel' cut (string_drop (String.length e) s)
      | None => s
      end
  end.

(** [strings.TrimSpace]: leading, then trailing white space. *)
Definition TrimSpace (s : string) : string :=
  let s1 := trim_left (String.length s) space_encodings s in
  String.rev (trim_left (String.length s1) (String.rev <$> space_encodings) (String.rev s1)).

Definition is_ascii_byte (c : ascii) : bool := (nat_of_ascii c <? 128)%nat.

Definition lower_ascii (c : ascii) : ascii :=
  let n := nat_of_ascii c in
  if ((65 <=? n) && (n <=? 90))%nat then ascii_of_nat (n + 32) else c.

Fixpoint map_string (f : ascii -> ascii) (s : string) : string :=
  match s with
  | EmptyString => EmptyString
  | String c s' => String (f c) (map_string f s')
  end.

Fixpoint forall_string (p : ascii -> bool) (s : string) : bool :=
  match s with
  | EmptyString => true
  | String c s' => p c && forall_string p s'
  end.

(** [strings.ToLower]: byte-wise on ASCII strings; the Unicode case tables, used
    for every other string, are the argument [unicode]. *)
Definition ToLower (unicode : string -> string) (s : string) : string :=
  if forall_string is_ascii_byte s then map_string lower_ascii s else unicode s.

(** ** unicode/utf8.ValidString *)

Definition byte_in (lo hi : nat) (c : ascii) : bool :=
  ((lo <=? nat_of_ascii c) && (nat_of_ascii c <=? hi))%nat.

(** A first byte of two, three or four, each followed by continuation bytes; the
    second byte has a smaller range where a shorter encoding, a surrogate or a code
    point above the last one is excluded. *)
Fixpoint ValidString (s : string) : bool :=
  match s with
  | EmptyString => true
  | String c s1 =>
      if is_ascii_byte c then ValidString s1
      else if byte_in 194 223 c then
        match s1 with
        | String c1 s2 => byte_in 128 191 c1 && ValidString s2
        | _ => false
        end
      else if byte_in 224 239 c then
        match s1 with
        | String c1 (String c2 s3) =>
            byte_in (if byte_in 224 224 c then 160 else 128) (if byte_in 237 237 c then 159 else 191) c1 &&
            byte_in 128 191 c2 && ValidString s3
        | _ => false
        end
      else if byte_in 240 244 c then
        match s1 with
        | String c1 (String c2 (String c3 s4)) =>
            byte_in (if byte_in 240 240 c then 144 else 128) (if byte_in 244 244 c then 143 else 191) c1 &&
            byte_in 128 191 c2 && byte_in 128 191 c3 && ValidString s4
        | _ => false
        end
      else false
  end.

Lemma ValidString_ascii s : forall_string is_ascii_byte s = true -> ValidString s = true.
Proof.
  induction s as [|c s IH]; [done|]. cbn [forall_string ValidString]. intros [-> Hs]%andb_true_iff. by apply IH.
Qed.

(** ** strconv.Atoi: [None] for a syntax or range error *)

Definition digit_value (c : ascii) : option Z :=
  let n := nat_of_ascii c in
  if ((48 <=? n) && (n <=? 57))%nat then Some (Z.of_nat n - 48) else None.

Fixpoint digits_value (acc : Z) (s : string) : option Z :=
  match s with
  | EmptyString => Some acc
  | String c s' =>
      match digit_value c with
      | Some d => digits_value (10 * acc + d) s'
      | None => None
      end
  end.

Definition unsigned_value (s : string) : option Z :=
  match s with
  | EmptyString => None
  | _ => digits_value 0 s
  end.

Definition Atoi (s : string) : option Z :=
  let signed :=
    match s with
    | String "-" s' => Z.opp <$> unsigned_value s'
    | String "+" s' => unsigned_value s'
    | _ => unsigned_value s
    end%char in
  match signed with
  | Some z => if (int64_min <=? z) && (z <=? int64_max) then Some z else None
  | None => None
  end.

(** ** net.SplitHostPort: the host, [None] for an error *)
Definition SplitHostPort (hostport : string) : option string :=
  match LastIndexByte hostport ":" with
  | None => None
  | Some i =>
      let checked (host : string) (j k : nat) :=
        if bool_decide (IndexByte (string_drop j hostport) "[" = None) &&
           bool_decide (IndexByte (string_drop k hostport) "]" = None)
        then Some host else None in
      if HasPrefix hostport "[" then
        match IndexByte hostport "]" with
        | None => None
        | Some e =>
            if bool_decide (S e = i)
            then checked (string_take (e - 1) (string_drop 1 hostport)) 1%nat (S e)
            else None
        end
      else
        let host := string_take i hostport in
        if bool_decide (IndexByte host ":" = None) then checked host O O else None
  end%char.

(** ** Facts *)

Lemma HasPrefix_spec s p : HasPrefix s p = true <-> exists t, s = p +:+ t.
Proof.
  unfold HasPrefix. revert s. induction p as [|a p IH]; intros s; simpl.
  { split; intros _; [exists s|]; by destruct s. }
  destruct s as [|b s]; simpl.
  { split; [done|]. intros [t Ht]. discriminate Ht. }
  destruct (ascii_dec a b) as [->|Hne].
  - rewrite IH. split; intros [t Ht]; exists t; [rewrite Ht; reflexivity|].
    change (String b s = String b (p +:+ t)) in Ht. congruence.
  - split; [done|]. intros [t Ht].
    change (String b s = String a (p +:+ t)) in Ht. congruence.
Qed.

Lemma string_drop_app p t : string_drop (String.length p) (p +:+ t) = t.
Proof. induction p as [|a p IH]; [reflexivity|exact IH]. Qed.

Lemma TrimPrefix_app p t : TrimPrefix (p +:+ t) p = t.
Proof.
  unfold TrimPrefix. rewrite (proj2 (HasPrefix_spec _ _)) by eauto.
  apply string_drop_app.
Qed.

Lemma string_app_nil_r (s : string) : s +:+ "" = s.
Proof. induction s as [|c s IH]; [done|]. change (String c (s +:+ "") = String c s). by rewrite IH. Qed.

Lemma string_app_assoc (a b c : string) : (a +:+ b) +:+ c = a +:+ (b +:+ c).
Proof. induction a as [|x a IH]; [done|]. change (String x ((a +:+ b) +:+ c) = String x (a +:+ (b +:+ c))). by rewrite IH. Qed.

Lemma string_length_app a b : String.length (a +:+ b) = (String.length a + String.length b)%nat.
Proof. induction a as [|c a IH]; [done|]. change (S (String.length (a +:+ b)) = S (String.length a + String.length b)). by rewrite IH. Qed.

Lemma Contains_spec s sub : Contains s sub = true <-> exists a b, s = a +:+ sub +:+ b.
Proof.
  induction s as [|c s IH]; cbn [Contains]; rewrite orb_true_iff;
    change (String.prefix sub ?x = true) with (HasPrefix x sub = true);
    rewrite HasPrefix_spec.
  - split.
    + intros [[t Ht]|]; [|done]. exists "", t. exact Ht.
    + intros (a & b & Hab). left. exists b. destruct a; [exact Hab|discriminate Hab].
  - rewrite IH. split.
    + intros [[t Ht]|(a & b & ->)]; [exists "", t; exact Ht|].
      exists (String c a), b. reflexivity.
    + intros ([|a0 a] & b & Hab); [left; exists b; exact Hab|].
      right. exists a, b. change (String c s = String a0 (a +:+ sub +:+ b)) in Hab. congruence.
Qed.

(** A URL library for concrete evaluations: absolute http URLs without user
    information, kept as written. *)
Definition plain_url_lib : URLLib := {|
  URL := string;
  url_Parse s := if HasPrefix s "http://" then Ok s else Err (Errorf "invalid URL");
  URL_String s := s;
  URL_Scheme _ := "http";
  URL_Host s := string_drop 7 s
|}.
