(* ===== verification/Config.v ===== *)
(** * internal/config: configuration, defaults, validation and loading

    Records of config.go, [ApplyDefaults], [Validate], the environment overrides
    and [Load] of loader.go.  The file system, the YAML decoder, environment
    expansion and the environment itself are the arguments of [Load]. *)

From S2P Require Import Prelude Float64 GoLib.

(** ** The configuration records *)

Record ServerConfig := mkServerConfig {
  Port : Z;
  ReadTimeout : Duration;
  WriteTimeout : Duration;
  IdleTimeout : Duration
}.

Record TargetConfig := mkTargetConfig {
  tc_URL : string;
  tc_Weight : Z
}.

Record RateLimitConfig := mkRateLimitConfig {
  RequestsPerSecond : spec_float;
  Burst : Z
}.

Record CircuitBreakerConfig := mkCircuitBreakerConfig {
  cbc_FailureThreshold : Z;
  cbc_ResetTimeout : Duration;
  cbc_HalfOpenMaxReqs : Z
}.

(** Pointers to sub-configurations may be nil. *)
Record RouteConfig := mkRouteConfig {
  rc_Path : string;
  rc_Methods : list string;
  rc_Targets : list TargetConfig;
  rc_BalanceStrategy : string;
  rc_StripPrefix : bool;
  rc_Timeout : Duration;
  rc_RateLimit : option RateLimitConfig;
  rc_CircuitBreaker : option CircuitBreakerConfig
}.

Record MetricsConfig := mkMetricsConfig {
  mc_Enabled : bool;
  mc_Path : string
}.

Record LoggingConfig := mkLoggingConfig {
  Level : string;
  Format : string
}.

Record CORSConfig := mkCORSConfig {
  AllowedOrigins : list string;
  AllowedMethods : list string;
  AllowedHeaders : list string;
  MaxAge : Z
}.

Record GatewayConfig := mkGatewayConfig {
  Server : ServerConfig;
  Routes : list RouteConfig;
  Metrics : MetricsConfig;
  Logging : LoggingConfig;
  CORS : CORSConfig
}.

(** ** ApplyDefaults *)

(** [if x == 0 { x = d }] and its analogues for strings and slices. *)
Definition default_Z (d x : Z) : Z := if x =? 0 then d else x.
Definition default_string (d x : string) : string := if bool_decide (x = "") then d else x.
Definition default_list (d x : list string) : list string :=
  match x with [] => d | _ => x end.

Definition ServerConfig_defaults (s : ServerConfig) : ServerConfig :=
  mkServerConfig (default_Z 8080 (Port s)) (default_Z (30 * Second) (ReadTimeout s))
    (default_Z (30 * Second) (WriteTimeout s)) (default_Z (120 * Second) (IdleTimeout s)).

Definition LoggingConfig_defaults (l : LoggingConfig) : LoggingConfig :=
  mkLoggingConfig (default_string "info" (Level l)) (default_string "json" (Format l)).

(** The order matters: [Enabled] is decided on the path before its default. *)
Definition MetricsConfig_defaults (m : MetricsConfig) : MetricsConfig :=
  let enabled :=
    if negb (mc_Enabled m) && bool_decide (mc_Path m = "") then true else mc_Enabled m in
  mkMetricsConfig enabled (default_string "/metrics" (mc_Path m)).

Definition CORSConfig_defaults (c : CORSConfig) : CORSConfig :=
  mkCORSConfig (default_list ["*"] (AllowedOrigins c))
    (default_list ["GET"; "POST"; "PUT"; "DELETE"; "OPTIONS"] (AllowedMethods c))
    (AllowedHeaders c) (default_Z 86400 (MaxAge c)).

Definition TargetConfig_defaults (t : TargetConfig) : TargetConfig :=
  mkTargetConfig (tc_URL t) (default_Z 1 (tc_Weight t)).

Definition CircuitBreakerConfig_defaults (cb : CircuitBreakerConfig) : CircuitBreakerConfig :=
  mkCircuitBreakerConfig (default_Z 5 (cbc_FailureThreshold cb))
    (default_Z (30 * Second) (cbc_ResetTimeout cb)) (default_Z 3 (cbc_HalfOpenMaxReqs cb)).

Definition RouteConfig_defaults (r : RouteConfig) : RouteConfig :=
  mkRouteConfig (rc_Path r) (rc_Methods r) (TargetConfig_defaults <$> rc_Targets r)
    (default_string "round-robin" (rc_BalanceStrategy r)) (rc_StripPrefix r)
    (default_Z (30 * Second) (rc_Timeout r)) (rc_RateLimit r)
    (CircuitBreakerConfig_defaults <$> rc_CircuitBreaker r).

Definition ApplyDefaults (c : GatewayConfig) : GatewayConfig :=
  mkGatewayConfig (ServerConfig_defaults (Server c)) (RouteConfig_defaults <$> Routes c)
    (MetricsConfig_defaults (Metrics c)) (LoggingConfig_defaults (Logging c))
    (CORSConfig_defaults (CORS c)).

(** ** Validate *)

Section Validate.
Context `{UL : URLLib}.

(** [if b { errs = append(errs, msg) }] *)
Definition err_if (b : bool) (msg : string) : list string := if b then [msg] else [].

Definition validateTarget (i j : nat) (target : TargetConfig) : list string :=
  match url_Parse (tc_URL target) with
  | Ok _ => []
  | Err err => ["route[" +:+ itoa (Z.of_nat i) +:+ "].target[" +:+ itoa (Z.of_nat j) +:+ "]: invalid URL: " +:+ error_Error err]
  end ++
  err_if (bool_decide (tc_URL target = ""))
    ("route[" +:+ itoa (Z.of_nat i) +:+ "].target[" +:+ itoa (Z.of_nat j) +:+ "]: URL is required").

Definition validateRateLimit (i : nat) (rl : option RateLimitConfig) : list string :=
  match rl with
  | None => []
  | Some r =>
      err_if (F64.leb (RequestsPerSecond r) F64.zero)
        ("route[" +:+ itoa (Z.of_nat i) +:+ "]: requests_per_second must be > 0") ++
      err_if (Burst r <=? 0) ("route[" +:+ itoa (Z.of_nat i) +:+ "]: burst must be > 0")
  end.

(** The body of the loop over the routes. *)
Definition validateRoute (i : nat) (route : RouteConfig) : list string :=
  let r := "route[" +:+ itoa (Z.of_nat i) +:+ "]: " in
  err_if (bool_decide (rc_Path route = "")) (r +:+ "path is required") ++
  err_if (negb (bool_decide (rc_Path route = "")) && negb (HasPrefix (rc_Path route) "/"))
    (r +:+ "path must start with /") ++
  err_if (Contains (rc_Path route) "..") (r +:+ "path must not contain '..' (path traversal)") ++
  err_if (bool_decide (rc_Targets route = [])) (r +:+ "at least one target required") ++
  concat (imap (validateTarget i) (rc_Targets route)) ++
  err_if (negb (bool_decide (rc_BalanceStrategy route = "")) &&
          negb (bool_decide (rc_BalanceStrategy route = "round-robin")) &&
          negb (bool_decide (rc_BalanceStrategy route = "weighted")))
    (r +:+ "unsupported balance strategy: " +:+ rc_BalanceStrategy route) ++
  validateRateLimit i (rc_RateLimit route).

Definition log_levels : list string := ["debug"; "info"; "warn"; "error"].
Definition log_formats : list string := ["json"; "text"].

Definition validateErrs (c : GatewayConfig) : list string :=
  err_if ((Port (Server c) <? 1) || (65535 <? Port (Server c)))
    ("invalid port: " +:+ itoa (Port (Server c))) ++
  err_if (bool_decide (Routes c = [])) "at least one route required" ++
  concat (imap validateRoute (Routes c)) ++
  err_if (negb (bool_decide (Level (Logging c) ∈ log_levels)))
    ("invalid log level: " +:+ Level (Logging c)) ++
  err_if (negb (bool_decide (Format (Logging c) ∈ log_formats)))
    ("invalid log format: " +:+ Format (Logging c)).

(** [Validate] returns nil or one error that joins every message. *)
Definition Validate (c : GatewayConfig) : option error :=
  match validateErrs c with
  | [] => None
  | errs =>
      Some (Errorf ("config validation failed:" +:+ newline +:+ "  " +:+
                    Join errs (newline +:+ "  ")))
  end.
End Validate.

(** ** Environment overrides and Load *)

Section Load.
Context `{UL : URLLib}.
(** [os.Getenv] (empty when unset), the Unicode part of [strings.ToLower],
    [os.ReadFile], [os.ExpandEnv] and [yaml.Unmarshal]. *)
Variable Getenv : string -> string.
Variable unicode_lower : string -> string.
Variable ReadFile : string -> result string.
Variable ExpandEnv : string -> string.
Variable Unmarshal : string -> result GatewayConfig.

Definition override_port (cfg : GatewayConfig) : GatewayConfig :=
  let v := Getenv "GATEFORGE_PORT" in
  if bool_decide (v = "") then cfg else
  match Atoi v with
  | Some port =>
      mkGatewayConfig
        (mkServerConfig port (ReadTimeout (Server cfg)) (WriteTimeout (Server cfg)) (IdleTimeout (Server cfg)))
        (Routes cfg) (Metrics cfg) (Logging cfg) (CORS cfg)
  | None => cfg
  end.

Definition override_level (cfg : GatewayConfig) : GatewayConfig :=
  let v := Getenv "GATEFORGE_LOG_LEVEL" in
  if bool_decide (v = "") then cfg else
  mkGatewayConfig (Server cfg) (Routes cfg) (Metrics cfg)
    (mkLoggingConfig (ToLower unicode_lower v) (Format (Logging cfg))) (CORS cfg).

Definition override_format (cfg : GatewayConfig) : GatewayConfig :=
  let v := Getenv "GATEFORGE_LOG_FORMAT" in
  if bool_decide (v = "") then cfg else
  mkGatewayConfig (Server cfg) (Routes cfg) (Metrics cfg)
    (mkLoggingConfig (Level (Logging cfg)) (ToLower unicode_lower v)) (CORS cfg).

Definition override_metrics (cfg : GatewayConfig) : GatewayConfig :=
  let v := Getenv "GATEFORGE_METRICS_ENABLED" in
  if bool_decide (v = "") then cfg else
  mkGatewayConfig (Server cfg) (Routes cfg)
    (mkMetricsConfig (bool_decide (v = "true") || bool_decide (v = "1")) (mc_Path (Metrics cfg)))
    (Logging cfg) (CORS cfg).

Definition applyEnvOverrides (cfg : GatewayConfig) : GatewayConfig :=
  override_metrics (override_format (override_level (override_port cfg))).

Definition Load (path : string) : result GatewayConfig :=
  match ReadFile path with
  | Err err => Err (Errorf ("reading config file: " +:+ error_Error err))
  | Ok data =>
      match Unmarshal (ExpandEnv data) with
      | Err err => Err (Errorf ("parsing config file: " +:+ error_Error err))
      | Ok parsed =>
          let cfg := ApplyDefaults (applyEnvOverrides parsed) in
          match Validate cfg with
          | Some err => Err err
          | None => Ok cfg
          end
      end
  end.
End Load.

(** ** Specification: what a valid configuration is *)

Section Spec.
Context `{UL : URLLib}.

Definition valid_target (t : TargetConfig) : Prop :=
  tc_URL t <> "" /\ exists u, url_Parse (tc_URL t) = Ok u.

Record valid_route (r : RouteConfig) : Prop := mk_valid_route {
  vr_path : exists rest, rc_Path r = "/" +:+ rest;
  vr_traversal : ~ exists a b, rc_Path r = a +:+ ".." +:+ b;
  vr_targets : rc_Targets r <> [];
  vr_target : Forall valid_target (rc_Targets r);
  vr_strategy : rc_BalanceStrategy r ∈ [""; "round-robin"; "weighted"];
  vr_rate : forall rl, rc_RateLimit r = Some rl ->
              F64.leb (RequestsPerSecond rl) F64.zero = false /\ 0 < Burst rl
}.

Record valid_config (c : GatewayConfig) : Prop := mk_valid_config {
  vc_port : 1 <= Port (Server c) <= 65535;
  vc_routes : Routes c <> [];
  vc_route : Forall valid_route (Routes c);
  vc_level : Level (Logging c) ∈ log_levels;
  vc_format : Format (Logging c) ∈ log_formats
}.

(** A configuration in which no field is left at its zero value, except those
    that have no default. *)
Record complete_route (r : RouteConfig) : Prop := mk_complete_route {
  cr_timeout : rc_Timeout r <> 0;
  cr_strategy : rc_BalanceStrategy r <> "";
  cr_weights : Forall (fun t => tc_Weight t <> 0) (rc_Targets r);
  cr_breaker : forall cb, rc_CircuitBreaker r = Some cb ->
     cbc_FailureThreshold cb <> 0 /\ cbc_ResetTimeout cb <> 0 /\ cbc_HalfOpenMaxReqs cb <> 0
}.

(** ** Lemmas *)

Lemma err_if_nil b msg : err_if b msg = [] <-> b = false.
Proof. by destruct b. Qed.

Lemma concat_imap_nil {A} (f : nat -> A -> list string) (P : A -> Prop) l :
  (forall i x, f i x = [] <-> P x) -> concat (imap f l) = [] <-> Forall P l.
Proof.
  revert f. induction l as [|x l IH]; intros f Hf; simpl; [by rewrite Forall_nil|].
  rewrite app_nil, Hf, Forall_cons, (IH (f ∘ S)) by (intros; apply Hf). done.
Qed.

Lemma validateTarget_nil i j t : validateTarget i j t = [] <-> valid_target t.
Proof.
  unfold validateTarget, valid_target. rewrite app_nil, err_if_nil, bool_decide_eq_false.
  destruct (url_Parse _) as [u|e]; [naive_solver|].
  split; [by intros [? _]|intros (_ & u & Hu); done].
Qed.

Lemma validateRateLimit_nil i rl :
  validateRateLimit i rl = [] <->
  forall r, rl = Some r -> F64.leb (RequestsPerSecond r) F64.zero = false /\ 0 < Burst r.
Proof.
  destruct rl as [r|]; simpl; [|naive_solver].
  rewrite app_nil, !err_if_nil, Z.leb_gt. naive_solver.
Qed.

Lemma path_conditions (p : string) :
  (p <> "" /\ (p = "" \/ HasPrefix p "/" = true)) <-> exists rest, p = "/" +:+ rest.
Proof.
  rewrite HasPrefix_spec. split; [naive_solver|].
  intros [rest ->]. split; [done|]. right. by exists rest.
Qed.

Lemma strategy_conditions (s : string) :
  negb (bool_decide (s = "")) && negb (bool_decide (s = "round-robin")) &&
    negb (bool_decide (s = "weighted")) = false <-> s ∈ [""; "round-robin"; "weighted"].
Proof.
  rewrite !elem_of_cons, elem_of_nil.
  repeat case_bool_decide; simpl; naive_solver.
Qed.

Lemma validateRoute_nil i r : validateRoute i r = [] <-> valid_route r.
Proof.
  unfold validateRoute. rewrite !app_nil, !err_if_nil, strategy_conditions,
    validateRateLimit_nil, !bool_decide_eq_false, andb_false_iff, !negb_false_iff,
    bool_decide_eq_true, <- not_true_iff_false, Contains_spec.
  rewrite (concat_imap_nil _ valid_target) by apply validateTarget_nil.
  pose proof (path_conditions (rc_Path r)).
  split; [intros; constructor; naive_solver|intros []; naive_solver].
Qed.

Lemma validateErrs_nil c : validateErrs c = [] <-> valid_config c.
Proof.
  unfold validateErrs. rewrite !app_nil, !err_if_nil, !negb_false_iff, !bool_decide_eq_true,
    bool_decide_eq_false, orb_false_iff, !Z.ltb_ge.
  rewrite (concat_imap_nil _ valid_route) by apply validateRoute_nil.
  split; [intros; constructor; naive_solver lia|intros []; naive_solver lia].
Qed.
End Spec.

(** ** Properties *)

Lemma default_Z_idem d x : d <> 0 -> default_Z d (default_Z d x) = default_Z d x.
Proof.
  intros. unfold default_Z. destruct (Z.eqb_spec x 0) as [->|Hx].
  - destruct (Z.eqb_spec d 0); [done|done].
  - by rewrite (proj2 (Z.eqb_neq _ _) Hx).
Qed.

Lemma default_Z_nonzero d x : d <> 0 -> default_Z d x <> 0.
Proof. unfold default_Z. by destruct (Z.eqb_spec x 0). Qed.

Lemma default_string_nonempty d x : d <> "" -> default_string d x <> "".
Proof. unfold default_string. by case_bool_decide. Qed.

Lemma default_string_idem d x :
  d <> "" -> default_string d (default_string d x) = default_string d x.
Proof. intros. unfold default_string at 1. case_bool_decide; [|done]. by apply default_string_nonempty in H0. Qed.

Lemma default_list_idem d x : d <> [] -> default_list d (default_list d x) = default_list d x.
Proof. by destruct x, d. Qed.

Lemma RouteConfig_defaults_idem r :
  RouteConfig_defaults (RouteConfig_defaults r) = RouteConfig_defaults r.
Proof.
  unfold RouteConfig_defaults; cbn. rewrite default_string_idem, default_Z_idem by done. f_equal.
  - rewrite <- list_fmap_compose. apply list_fmap_ext. intros _ t _.
    unfold TargetConfig_defaults; cbn. by rewrite default_Z_idem.
  - destruct (rc_CircuitBreaker r); [|done]. cbn.
    unfold CircuitBreakerConfig_defaults; cbn. by rewrite !default_Z_idem by done.
Qed.

Lemma MetricsConfig_defaults_idem m :
  MetricsConfig_defaults (MetricsConfig_defaults m) = MetricsConfig_defaults m.
Proof.
  unfold MetricsConfig_defaults; cbn. rewrite default_string_idem by done. f_equal.
  rewrite (bool_decide_eq_false_2 (default_string _ _ = ""))
    by (by apply default_string_nonempty). by rewrite andb_false_r.
Qed.

Lemma complete_defaults r : complete_route (RouteConfig_defaults r).
Proof.
  constructor; cbn.
  - by apply default_Z_nonzero.
  - by apply default_string_nonempty.
  - apply Forall_fmap, Forall_true. intros t. by apply default_Z_nonzero.
  - intros cb (cb0 & _ & ->)%fmap_Some_1.
    repeat split; by apply default_Z_nonzero.
Qed.

Lemma ApplyDefaults_fixpoint c : ApplyDefaults (ApplyDefaults c) = ApplyDefaults c.
Proof.
  unfold ApplyDefaults; cbn. rewrite MetricsConfig_defaults_idem. f_equal.
  - unfold ServerConfig_defaults; cbn. by rewrite !default_Z_idem by done.
  - rewrite <- list_fmap_compose. apply list_fmap_ext. intros _ r _. apply RouteConfig_defaults_idem.
  - unfold LoggingConfig_defaults; cbn. by rewrite !default_string_idem by done.
  - unfold CORSConfig_defaults; cbn. by rewrite !default_list_idem, default_Z_idem by done.
Qed.

Lemma Validate_None `{UL : URLLib} c : Validate c = None <-> valid_config c.
Proof. unfold Validate. rewrite <- validateErrs_nil. by destruct (validateErrs c). Qed.

Lemma ApplyDefaults_complete c : Forall complete_route (Routes (ApplyDefaults c)).
Proof. cbn. apply Forall_fmap, Forall_true. intros r. apply complete_defaults. Qed.

#[export] Hint Resolve ApplyDefaults_fixpoint ApplyDefaults_complete : gateforge.

(** C28: [Validate] accepts exactly the valid configurations: it returns nil if and
    only if the port is in range, there is a route, every route has an absolute
    path without a parent reference, at least one target, only parsable non-empty
    target URLs, a known strategy and positive limits, and the log level and
    format are known; every other configuration gets one error that joins one
    message per violated condition. *)
Theorem Validate_correct `{UL : URLLib} c :
  (Validate c = None <-> valid_config c) /\
  (forall e, Validate c = Some e <->
     validateErrs c <> [] /\
     e = Errorf ("config validation failed:" +:+ newline +:+ "  " +:+
                 Join (validateErrs c) (newline +:+ "  "))).
Proof.
  split; [apply Validate_None|]. intros e. unfold Validate.
  destruct (validateErrs c); [naive_solver|]. split; [by intros [= <-]|by intros [_ ->]].
Qed.

(** C14: [Load] succeeds exactly when the file is read and decoded and the decoded
    configuration, with overrides and then defaults applied, is valid; it then
    returns that configuration, in which every route is complete and which is a
    fixed point of [ApplyDefaults]. *)
Theorem Load_correct `{UL : URLLib} Getenv lower ReadFile ExpandEnv Unmarshal path cfg :
  Load Getenv lower ReadFile ExpandEnv Unmarshal path = Ok cfg <->
  exists data parsed,
    ReadFile path = Ok data /\ Unmarshal (ExpandEnv data) = Ok parsed /\
    cfg = ApplyDefaults (applyEnvOverrides Getenv lower parsed) /\
    valid_config cfg /\ Forall complete_route (Routes cfg) /\ ApplyDefaults cfg = cfg.
Proof.
  unfold Load. split.
  - destruct (ReadFile path) as [data|]; [|done].
    destruct (Unmarshal _) as [parsed|] eqn:Hp; [|done].
    destruct (Validate _) eqn:Hv; [done|]. intros [= <-]. apply Validate_None in Hv.
    exists data, parsed. auto 10 with gateforge.
  - intros (data & parsed & -> & -> & -> & Hv%Validate_None & _). by rewrite Hv.
Qed.

(** The metrics switch of the environment is overruled by the defaults: after
    loading, the endpoint is enabled when the variable says so or when the file
    gives no metrics path, whatever the variable says. *)
Theorem metrics_env_switch Getenv lower cfg :
  Getenv "GATEFORGE_METRICS_ENABLED" <> "" ->
  mc_Enabled (Metrics (ApplyDefaults (applyEnvOverrides Getenv lower cfg))) =
  bool_decide (Getenv "GATEFORGE_METRICS_ENABLED" ∈ ["true"; "1"]) ||
  bool_decide (mc_Path (Metrics cfg) = "").
Proof.
  intros Hv. unfold applyEnvOverrides.
  assert (Hpath : mc_Path (Metrics (override_format Getenv lower
            (override_level Getenv lower (override_port Getenv cfg)))) = mc_Path (Metrics cfg)).
  { unfold override_format, override_level, override_port.
    repeat case_bool_decide; try done; destruct (Atoi _); done. }
  unfold override_metrics. rewrite bool_decide_eq_false_2 by done.
  cbn. rewrite Hpath. generalize (Getenv "GATEFORGE_METRICS_ENABLED"). intros v.
  rewrite (bool_decide_ext (v ∈ ["true"; "1"]) (v = "true" \/ v = "1")) by set_solver.
  rewrite bool_decide_or. repeat case_bool_decide; done.
Qed.

(** With the variable set to false and no metrics section, metrics are enabled. *)
Lemma metrics_env_switch_witness :
  let Getenv := fun k => if bool_decide (k = "GATEFORGE_METRICS_ENABLED") then "false" else "" in
  let cfg := mkGatewayConfig (mkServerConfig 0 0 0 0) [] (mkMetricsConfig false "")
               (mkLoggingConfig "" "") (mkCORSConfig [] [] [] 0) in
  mc_Enabled (Metrics (ApplyDefaults (applyEnvOverrides Getenv id cfg))) = true.
Proof.
  intros Getenv cfg. rewrite (metrics_env_switch Getenv id cfg); [|done]. reflexivity.
Defined.
