(* ===== verification/Domain.v ===== *)
(** * internal/domain: validated routes

    [Route], [Target] and [Route.Validate] of route.go, and the well-formedness
    predicate the validation decides. *)

From S2P Require Import Prelude Float64 GoLib Config.

Module Domain.
Section Domain.
Context `{UL : URLLib}.

(** The URL is a pointer and may be nil. *)
Record Target := mkTarget {
  URL : option GoLib.URL;
  Weight : Z
}.

Record Route := mkRoute {
  Path : string;
  Methods : list string;
  Targets : list Target;
  BalanceStrategy : string;
  StripPrefix : bool;
  Timeout : Duration;
  HasRateLimit : bool;
  RPS : spec_float;
  Burst : Z;
  HasCircuitBreak : bool;
  FailThreshold : Z;
  ResetTimeout : Duration;
  HalfOpenMaxReqs : Z
}.

Definition supported_methods : list string :=
  ["GET"; "POST"; "PUT"; "DELETE"; "PATCH"; "HEAD"; "OPTIONS"].

(** The body of the loop over the targets. *)
Definition Target_errs (i : nat) (t : Target) : list string :=
  err_if (match URL t with None => true | Some _ => false end)
    ("target[" +:+ itoa (Z.of_nat i) +:+ "]: URL is nil") ++
  err_if (Weight t <? 0) ("target[" +:+ itoa (Z.of_nat i) +:+ "]: weight must be >= 0").

(** The body of the loop over the methods. *)
Definition Method_errs (m : string) : list string :=
  if bool_decide (m ∈ supported_methods) then [] else ["unsupported method: " +:+ m].

Definition Route_errs (r : Route) : list string :=
  err_if (bool_decide (Path r = "")) "path is required" ++
  err_if (negb (bool_decide (Path r = "")) && negb (HasPrefix (Path r) "/"))
    "path must start with /" ++
  err_if (length (Targets r) =? 0)%nat "at least one target is required" ++
  concat (imap Target_errs (Targets r)) ++
  concat (Method_errs <$> Methods r) ++
  err_if (negb (bool_decide (BalanceStrategy r = "")) &&
          negb (bool_decide (BalanceStrategy r = "round-robin")) &&
          negb (bool_decide (BalanceStrategy r = "weighted")))
    ("unsupported balance strategy: " +:+ BalanceStrategy r) ++
  err_if (Timeout r <? 0) "timeout must be >= 0".

(** [None] is the nil error. *)
Definition Route_Validate (r : Route) : option error :=
  let errs := Route_errs r in
  if (0 <? length errs)%nat
  then Some (Errorf ("route validation failed:" +:+ newline +:+ "  " +:+
                     Join errs (newline +:+ "  ")))
  else None.

(** ** Specification: what a well-formed route is *)

Record valid_target (t : Target) : Prop := {
  vt_url : is_Some (URL t);
  vt_weight : 0 <= Weight t
}.

Record valid_route (r : Route) : Prop := {
  vr_path : exists rest, Path r = "/" +:+ rest;
  vr_targets : Targets r <> [];
  vr_each_target : Forall valid_target (Targets r);
  vr_methods : Forall (fun m => m ∈ supported_methods) (Methods r);
  vr_strategy : BalanceStrategy r ∈ [""; "round-robin"; "weighted"];
  vr_timeout : 0 <= Timeout r
}.

(** The lines the error lists: one constructor per kind of defect. *)
Inductive defect (r : Route) : string -> Prop :=
  | no_path : Path r = "" -> defect r "path is required"
  | relative_path : Path r <> "" -> (forall rest, Path r <> "/" +:+ rest) ->
      defect r "path must start with /"
  | no_targets : Targets r = [] -> defect r "at least one target is required"
  | nil_url i t : Targets r !! i = Some t -> URL t = None ->
      defect r ("target[" +:+ itoa (Z.of_nat i) +:+ "]: URL is nil")
  | negative_weight i t : Targets r !! i = Some t -> Weight t < 0 ->
      defect r ("target[" +:+ itoa (Z.of_nat i) +:+ "]: weight must be >= 0")
  | unknown_method m : m ∈ Methods r -> m ∉ supported_methods ->
      defect r ("unsupported method: " +:+ m)
  | unknown_strategy : BalanceStrategy r ∉ [""; "round-robin"; "weighted"] ->
      defect r ("unsupported balance strategy: " +:+ BalanceStrategy r)
  | negative_timeout : Timeout r < 0 -> defect r "timeout must be >= 0".

(** ** Lemmas *)

Lemma Target_errs_nil i t : Target_errs i t = [] <-> valid_target t.
Proof.
  unfold Target_errs. rewrite app_nil, !err_if_nil, Z.ltb_ge.
  split; [intros [HU HW]|intros [[u ->] HW]; done].
  constructor; [destruct (URL t); [by eexists|done]|done].
Qed.

Lemma Method_errs_nil ms :
  concat (Method_errs <$> ms) = [] <-> Forall (fun m => m ∈ supported_methods) ms.
Proof.
  induction ms as [|m ms IH]; [split; [constructor|done]|].
  rewrite fmap_cons. simpl concat. rewrite app_nil, IH, Forall_cons. unfold Method_errs.
  case_bool_decide; naive_solver.
Qed.

Lemma Route_errs_nil r : Route_errs r = [] <-> valid_route r.
Proof.
  unfold Route_errs. rewrite !app_nil, !err_if_nil, strategy_conditions, Method_errs_nil,
    Z.ltb_ge, Nat.eqb_neq, andb_false_iff, !negb_false_iff, bool_decide_eq_false,
    bool_decide_eq_true.
  rewrite (concat_imap_nil _ valid_target) by apply Target_errs_nil.
  pose proof (path_conditions (Path r)) as Hp.
  assert (length (Targets r) <> O <-> Targets r <> []) as Ht by (by destruct (Targets r)).
  split; [intros; constructor; naive_solver|intros []; naive_solver].
Qed.

Lemma elem_of_err_if e b msg : e ∈ err_if b msg <-> b = true /\ e = msg.
Proof. destruct b; simpl; rewrite ?list_elem_of_singleton, ?elem_of_nil; naive_solver. Qed.

Lemma elem_of_Target_errs e r :
  e ∈ concat (imap Target_errs (Targets r)) <->
  exists i t, Targets r !! i = Some t /\ e ∈ Target_errs i t.
Proof.
  rewrite list_elem_of_In, in_concat. setoid_rewrite <- list_elem_of_In.
  setoid_rewrite elem_of_lookup_imap. naive_solver.
Qed.

Lemma elem_of_Method_errs e ms :
  e ∈ concat (Method_errs <$> ms) <->
  exists m, m ∈ ms /\ (m ∉ supported_methods) /\ e = "unsupported method: " +:+ m.
Proof.
  rewrite list_elem_of_In, in_concat. setoid_rewrite <- list_elem_of_In.
  setoid_rewrite list_elem_of_fmap. unfold Method_errs. split.
  - intros (l & (m & -> & Hm) & He). exists m. case_bool_decide; set_solver.
  - intros (m & Hm & Hs & ->). eexists. split; [by exists m|].
    rewrite bool_decide_eq_false_2 by done. by left.
Qed.

Lemma relative_path_conditions p :
  negb (bool_decide (p = "")) && negb (HasPrefix p "/") = true <->
  p <> "" /\ forall rest, p <> "/" +:+ rest.
Proof.
  pose proof (HasPrefix_spec p "/") as Hp.
  rewrite andb_true_iff, !negb_true_iff, bool_decide_eq_false, <- not_true_iff_false, Hp. naive_solver.
Qed.

Lemma unknown_strategy_conditions s :
  negb (bool_decide (s = "")) && negb (bool_decide (s = "round-robin")) &&
    negb (bool_decide (s = "weighted")) = true <-> s ∉ [""; "round-robin"; "weighted"].
Proof. rewrite <- strategy_conditions. by rewrite not_false_iff_true. Qed.

(** The lines of [Route_errs] are the defects of the route. *)
Lemma Route_errs_defects r e : e ∈ Route_errs r <-> defect r e.
Proof.
  unfold Route_errs. rewrite !elem_of_app, !elem_of_err_if, elem_of_Target_errs, elem_of_Method_errs,
    relative_path_conditions, unknown_strategy_conditions, Nat.eqb_eq, Z.ltb_lt, bool_decide_eq_true,
    length_zero_iff_nil. unfold Target_errs. setoid_rewrite elem_of_app. setoid_rewrite elem_of_err_if.
  setoid_rewrite Z.ltb_lt. split.
  - intros [[? ->]|[[[??] ->]|[[? ->]|[(i & t & Ht & He)|[(m & ? & ? & ->)|[[? ->]|[? ->]]]]]]];
      try by econstructor.
    destruct (URL t) eqn:HU; destruct He as [[??]|[? ->]]; simplify_eq; by econstructor.
  - intros []; try naive_solver.
    do 3 right. left. exists i, t. split; [done|]. left. by rewrite H0.
Qed.

(** ** Properties *)

(** C38: [Route.Validate] decides well-formedness and reports every defect:
    the result is nil exactly for a route with an absolute path, at least one
    target, targets with a URL and a weight of at least 0, supported methods, a
    known strategy and a timeout of at least 0; for every other route the error
    joins a list of lines that contains the line of each defect of the route
    (of each kind, whatever the other defects are) and no other line. *)
Theorem Route_Validate_correct r :
  (Route_Validate r = None <-> valid_route r) /\
  (~ valid_route r -> exists errs, errs <> [] /\
     Route_Validate r = Some (Errorf ("route validation failed:" +:+ newline +:+ "  " +:+
                                      Join errs (newline +:+ "  "))) /\
     forall e, e ∈ errs <-> defect r e).
Proof.
  rewrite <- Route_errs_nil. unfold Route_Validate. split.
  { destruct (Route_errs r); simpl; split; congruence. }
  intros Hne. exists (Route_errs r). split; [done|]. split; [by destruct (Route_errs r)|].
  apply Route_errs_defects.
Qed.

End Domain.
End Domain.
