(* ===== verification/Balancer.v ===== *)
(** * internal/balancer/balancer.go: targets and the balancer interface

    [Balancer] is the Go interface (with the optional [healthSetter] of health.go
    that the health checker discovers by a type assertion); [BalancerSpec] states
    what an implementation promises its clients, on the abstract pool of targets
    with their health.  RoundRobin.v and Weighted.v provide the two instances. *)

From S2P Require Import Prelude GoLib.

Section Types.
Context `{UL : URLLib}.

Record Target := mkTarget {
  Target_URL : URL;
  Target_Weight : Z
}.

Record TargetStatus := mkTargetStatus {
  ts_Target : Target;
  ts_Healthy : bool;
  ts_LastChecked : Time;
  ts_LastError : option error;
  ts_FailureCount : Z;
  ts_SuccessCount : Z
}.

(** [TargetStatus{Target: t, Healthy: h}]: the other fields are zero. *)
Definition status_of (t : Target) (h : bool) : TargetStatus :=
  mkTargetStatus t h zeroTime None 0 0.

(** The loop of both [Targets] methods: one status per target, reading
    [healthy[i]]. *)
Fixpoint target_statuses (i : nat) (targets : list Target) (healthy : list bool)
    : outcome (list TargetStatus) :=
  match targets with
  | [] => Ret []
  | t :: ts =>
      do! h <- slice_get healthy i;
      do! rest <- target_statuses (S i) ts healthy;
      Ret (status_of t h :: rest)
  end.

(** The loop of both [SetHealthy] methods finds the first target whose URL prints
    as [targetURL]. *)
Definition find_target (targetURL : string) (targets : list Target) : option nat :=
  fst <$> list_find (fun t => URL_String (Target_URL t) = targetURL) targets.

Class Balancer (B : Type) := {
  Next : B -> outcome (B * result URL);
  Targets : B -> outcome (list TargetStatus);
  asHealthSetter : option (string -> bool -> B -> outcome B)
}.

(** [m] calls of [Next] in a row, with their results. *)
Fixpoint next_n {B} `{Balancer B} (m : nat) (b : B) : outcome (B * list (result URL)) :=
  match m with
  | O => Ret (b, [])
  | S m' =>
      do! (b1, r) <- Next b;
      do! (b2, rs) <- next_n m' b1;
      Ret (b2, r :: rs)
  end.

(** ** The abstract pool *)

Definition pool_of (targets : list Target) (healthy : list bool) : list (Target * bool) :=
  zip targets healthy.

Fixpoint pool_set (u : string) (h : bool) (pool : list (Target * bool)) : list (Target * bool) :=
  match pool with
  | [] => []
  | (t, b) :: p =>
      if bool_decide (URL_String (Target_URL t) = u) then (t, h) :: p
      else (t, b) :: pool_set u h p
  end.

Definition some_healthy (pool : list (Target * bool)) : Prop :=
  Exists (fun p => p.2 = true) pool.

Class BalancerSpec (B : Type) `{Balancer B} := {
  bal_ok : B -> Prop;
  (** states in which a healthy target is certain to be found *)
  bal_live : B -> Prop;
  pool : B -> list (Target * bool);
  next_total b : bal_ok b ->
    exists b' r, Next b = Ret (b', r) /\ bal_ok b' /\ pool b' = pool b;
  next_healthy b b' u : bal_ok b -> Next b = Ret (b', Ok u) ->
    exists t, (t, true) ∈ pool b /\ Target_URL t = u;
  next_error b b' e : bal_ok b -> Next b = Ret (b', Err e) ->
    e = ErrNoHealthyTargets /\ (bal_live b -> ~ some_healthy (pool b));
  targets_total b : bal_ok b ->
    exists sts, Targets b = Ret sts /\ (fun s => (ts_Target s, ts_Healthy s)) <$> sts = pool b;
  set_total set u h b : asHealthSetter = Some set -> bal_ok b ->
    exists b', set u h b = Ret b' /\ bal_ok b' /\ pool b' = pool_set u h (pool b)
}.

(** ** Shared lemmas *)

Lemma target_statuses_pool i ts hs hs' :
  length hs' = i -> length ts = length hs ->
  exists sts, target_statuses i ts (hs' ++ hs) = Ret sts /\
    (fun s => (ts_Target s, ts_Healthy s)) <$> sts = pool_of ts hs.
Proof.
  revert i hs hs'. induction ts as [|t ts IH]; intros i [|h hs] hs' Hi Hlen; simplify_eq/=.
  { eexists. done. }
  unfold slice_get at 1. rewrite list_lookup_middle by done. simpl.
  rewrite (cons_middle h hs' hs), app_assoc.
  destruct (IH (S (length hs')) hs (hs' ++ [h])) as (sts & Hs & Hp);
    [rewrite length_app; simpl; lia|done|].
  rewrite Hs. simpl. eexists. split; [done|]. by rewrite fmap_cons, Hp.
Qed.

Lemma target_statuses_total ts hs :
  length ts = length hs ->
  exists sts, target_statuses 0 ts hs = Ret sts /\
    (fun s => (ts_Target s, ts_Healthy s)) <$> sts = pool_of ts hs.
Proof. intros. by apply (target_statuses_pool 0 ts hs []). Qed.

Lemma find_target_cons u t ts :
  find_target u (t :: ts) =
  if bool_decide (URL_String (Target_URL t) = u) then Some O else S <$> find_target u ts.
Proof.
  unfold find_target. simpl. rewrite decide_bool_decide.
  case_bool_decide; [done|]. by destruct (list_find _ ts) as [[]|].
Qed.

Lemma find_target_lt u ts i : find_target u ts = Some i -> (i < length ts)%nat.
Proof.
  unfold find_target. intros ([j t] & (Ht & _ & _)%list_find_Some & ->)%fmap_Some_1.
  by apply lookup_lt_Some in Ht.
Qed.

(** Writing [healthy[i]] at the found index is [pool_set]; finding nothing leaves
    the pool as it is. *)
Lemma pool_set_find u h ts hs :
  length ts = length hs ->
  pool_set u h (pool_of ts hs) =
  match find_target u ts with
  | Some i => pool_of ts (<[i := h]> hs)
  | None => pool_of ts hs
  end.
Proof.
  revert hs. induction ts as [|t ts IH]; intros [|b hs] Hlen; simplify_eq/=; [done|].
  rewrite find_target_cons. case_bool_decide; [done|].
  unfold pool_of in *. rewrite IH by done. by destruct (find_target u ts).
Qed.

Lemma some_healthy_lookup ts hs :
  length ts = length hs ->
  some_healthy (pool_of ts hs) <-> exists i, hs !! i = Some true.
Proof.
  intros Hlen. unfold some_healthy, pool_of. rewrite Exists_exists. split.
  - intros ([t b] & [i Hi]%list_elem_of_lookup & Hb). simpl in Hb; subst.
    apply lookup_zip_with_Some in Hi as (x & y & ? & _ & ?). simplify_eq. eauto.
  - intros [i Hi]. destruct (lookup_lt_is_Some_2 ts i) as [t Ht].
    { rewrite Hlen. by eapply lookup_lt_Some. }
    exists (t, true). split; [|done]. apply list_elem_of_lookup. exists i.
    apply lookup_zip_with_Some. eauto.
Qed.

Lemma pool_of_elem ts hs i t :
  ts !! i = Some t -> hs !! i = Some true -> (t, true) ∈ pool_of ts hs.
Proof.
  intros. apply list_elem_of_lookup. exists i. apply lookup_zip_with_Some. eauto.
Qed.

Lemma next_n_app {B} `{Balancer B} m1 m2 b b1 rs1 b2 rs2 :
  next_n m1 b = Ret (b1, rs1) -> next_n m2 b1 = Ret (b2, rs2) ->
  next_n (m1 + m2) b = Ret (b2, rs1 ++ rs2).
Proof.
  revert b rs1. induction m1 as [|m1 IH]; intros b rs1; simpl; [by intros [= -> <-]|].
  destruct (Next b) as [[b' r]|]; [|done]. simpl.
  destruct (next_n m1 b') as [[b'' rs]|] eqn:E; [|done]. simpl. intros [= <- <-] H2.
  by rewrite (IH _ _ E H2).
Qed.
End Types.

Arguments Balancer {UL} B.
Arguments BalancerSpec {UL} B {_}.
