(* ===== verification/RoundRobin.v ===== *)
(** * internal/balancer/roundrobin.go: the round-robin balancer

    The atomic counter is a uint64 that wraps.  Next holds the read lock, so
    concurrent calls of Next only share the counter, whose atomic increment orders them;
    SetHealthy excludes them.  The operations are therefore atomic steps on the
    state. *)

From S2P Require Import Prelude GoLib Balancer.

Section RoundRobin.
Context `{UL : URLLib}.

Record RoundRobin := mkRoundRobin {
  rr_targets : list Target;
  rr_healthy : list bool;
  rr_counter : Z
}.

Definition NewRoundRobin (targets : list Target) : RoundRobin :=
  mkRoundRobin targets (replicate (length targets) true) 0.

(** The scan of [Next]: position [(idx + uint64(i)) % uint64(n)] for the [fuel]
    values of [i] that are left. *)
Fixpoint rr_scan (targets : list Target) (healthy : list bool) (idx n i : Z) (fuel : nat)
    : outcome (result URL) :=
  match fuel with
  | O => Ret (Err ErrNoHealthyTargets)
  | S fuel' =>
      let pos := Z.to_nat (wrapU64 (idx + i) mod n) in
      do! h <- slice_get healthy pos;
      if (h : bool) then
        do! t <- slice_get targets pos;
        Ret (Ok (Target_URL t))
      else rr_scan targets healthy idx n (i + 1) fuel'
  end.

Definition RoundRobin_Next (rr : RoundRobin) : outcome (RoundRobin * result URL) :=
  let n := length (rr_targets rr) in
  if bool_decide (n = O) then Ret (rr, Err ErrNoHealthyTargets) else
  let counter := wrapU64 (rr_counter rr + 1) in
  let idx := wrapU64 (counter - 1) in
  do! r <- rr_scan (rr_targets rr) (rr_healthy rr) idx (Z.of_nat n) 0 n;
  Ret (mkRoundRobin (rr_targets rr) (rr_healthy rr) counter, r).

Definition RoundRobin_Targets (rr : RoundRobin) : outcome (list TargetStatus) :=
  target_statuses 0 (rr_targets rr) (rr_healthy rr).

Definition RoundRobin_SetHealthy (targetURL : string) (healthy : bool) (rr : RoundRobin)
    : outcome RoundRobin :=
  match find_target targetURL (rr_targets rr) with
  | Some i =>
      do! hs <- slice_set (rr_healthy rr) i healthy;
      Ret (mkRoundRobin (rr_targets rr) hs (rr_counter rr))
  | None => Ret rr
  end.

#[export] Instance RoundRobin_Balancer : Balancer RoundRobin := {|
  Next := RoundRobin_Next;
  Targets := RoundRobin_Targets;
  asHealthSetter := Some RoundRobin_SetHealthy
|}.

(** ** Invariant and reference definition *)

Record rr_ok (rr : RoundRobin) : Prop := mk_rr_ok {
  rr_ok_len : length (rr_healthy rr) = length (rr_targets rr);
  rr_ok_counter : 0 <= rr_counter rr < 2 ^ 64
}.

(** The counter does not wrap during one scan. *)
Definition rr_no_wrap (rr : RoundRobin) : Prop :=
  rr_counter rr + Z.of_nat (length (rr_targets rr)) <= 2 ^ 64.

(** The first healthy target of a list. *)
Fixpoint first_healthy (pool : list (Target * bool)) : result URL :=
  match pool with
  | [] => Err ErrNoHealthyTargets
  | (t, true) :: _ => Ok (Target_URL t)
  | (_, false) :: p => first_healthy p
  end.

(** What [Next] is meant to return: the first healthy target of the pool read
    cyclically from position [counter mod n]. *)
Definition rr_reference (rr : RoundRobin) : result URL :=
  first_healthy (rotate (Z.to_nat (rr_counter rr mod Z.of_nat (length (rr_targets rr))))
                        (pool_of (rr_targets rr) (rr_healthy rr))).

(** ** The scan *)

Lemma rr_idx c : 0 <= c < 2 ^ 64 -> wrapU64 (wrapU64 (c + 1) - 1) = c.
Proof.
  intros Hc. unfold wrapU64. rewrite Zminus_mod_idemp_l.
  replace (c + 1 - 1) with c by lia. by apply Z.mod_small.
Qed.

Lemma rr_scan_pos (targets : list Target) (healthy : list bool) idx i :
  length healthy = length targets -> targets <> [] ->
  exists t h, targets !! Z.to_nat (wrapU64 (idx + i) mod Z.of_nat (length targets)) = Some t /\
    healthy !! Z.to_nat (wrapU64 (idx + i) mod Z.of_nat (length targets)) = Some h.
Proof.
  intros Hlen Hne. destruct targets as [|t0 ts]; [done|].
  pose proof (Z.mod_pos_bound (wrapU64 (idx + i)) (Z.of_nat (length (t0 :: ts))) ltac:(simpl; lia)).
  destruct (lookup_lt_is_Some_2 (t0 :: ts) (Z.to_nat (wrapU64 (idx + i) mod Z.of_nat (length (t0 :: ts))))) as [t Ht]; [lia|].
  destruct (lookup_lt_is_Some_2 healthy (Z.to_nat (wrapU64 (idx + i) mod Z.of_nat (length (t0 :: ts))))) as [h Hh]; [lia|].
  eauto.
Qed.

(** The scan never reads out of range, and what it returns is a healthy target or
    the sentinel error. *)
Lemma rr_scan_total targets healthy idx i fuel :
  length healthy = length targets -> targets <> [] ->
  exists r, rr_scan targets healthy idx (Z.of_nat (length targets)) i fuel = Ret r /\
    match r with
    | Ok u => exists t, (t, true) ∈ pool_of targets healthy /\ Target_URL t = u
    | Err e => e = ErrNoHealthyTargets
    end.
Proof.
  intros Hlen Hne. revert i. induction fuel as [|fuel IH]; intros i; simpl; [by eexists|].
  destruct (rr_scan_pos targets healthy idx i Hlen Hne) as (t & h & Ht & Hh).
  unfold slice_get. rewrite Hh, Ht. simpl. destruct h; [|apply IH].
  eexists. split; [done|]. exists t. split; [|done]. by eapply pool_of_elem.
Qed.

(** Without wrap-around, the scan from [i] on is [first_healthy] on what is left of
    the pool read twice. *)
Lemma rr_scan_first targets healthy idx i fuel :
  length healthy = length targets -> targets <> [] -> 0 <= idx -> 0 <= i ->
  i + Z.of_nat fuel <= Z.of_nat (length targets) ->
  idx + Z.of_nat (length targets) <= 2 ^ 64 ->
  rr_scan targets healthy idx (Z.of_nat (length targets)) i fuel =
  Ret (first_healthy
    (take fuel (drop (Z.to_nat i) (rotate (Z.to_nat (idx mod Z.of_nat (length targets)))
                                          (pool_of targets healthy))))).
Proof.
  intros Hlen Hne Hidx. revert i. induction fuel as [|fuel IH]; intros i Hi Hfuel Hw; simpl; [done|].
  destruct (rr_scan_pos targets healthy idx i Hlen Hne) as (t & h & Ht & Hh).
  unfold slice_get. rewrite Hh, Ht. simpl.
  assert (Hpool : length (pool_of targets healthy) = length targets).
  { unfold pool_of. rewrite length_zip_with. lia. }
  assert (Hpos : rotate (Z.to_nat (idx mod Z.of_nat (length targets))) (pool_of targets healthy)
                   !! Z.to_nat i = Some (t, h)).
  { rewrite lookup_rotate_r by lia. rewrite Hpool. unfold rotate_nat_add.
    rewrite wrapU64_id in Ht, Hh by lia.
    apply lookup_zip_with_Some. exists t, h. split; [done|].
    replace (Z.to_nat _) with (Z.to_nat ((idx + i) mod Z.of_nat (length targets))); [done|].
    f_equal. rewrite (Z2Nat.id i), (Z2Nat.id (idx mod _)) by (try apply Z.mod_pos_bound; lia).
    by rewrite Zplus_mod_idemp_l. }
  rewrite (drop_S _ (t, h) _ Hpos). destruct h; [done|].
  rewrite IH by lia. simpl. by replace (Z.to_nat (i + 1)) with (S (Z.to_nat i)) by lia.
Qed.

Lemma first_healthy_Err pool e :
  first_healthy pool = Err e -> e = ErrNoHealthyTargets /\ ~ some_healthy pool.
Proof.
  unfold some_healthy. induction pool as [|[t []] p IH]; simpl; intros H; simplify_eq.
  - split; [done|]. by intros ?%Exists_nil.
  - destruct (IH H) as [-> Hp]. split; [done|]. rewrite Exists_cons. naive_solver.
Qed.

Lemma some_healthy_rotate k (pool : list (Target * bool)) :
  some_healthy (rotate k pool) <-> some_healthy pool.
Proof. unfold some_healthy. rewrite !Exists_exists. by setoid_rewrite elem_of_rotate. Qed.

(** [Next] is the reference definition, up to the wrap-around of the counter. *)
Lemma RoundRobin_Next_reference rr :
  rr_ok rr -> rr_no_wrap rr -> rr_targets rr <> [] ->
  RoundRobin_Next rr =
  Ret (mkRoundRobin (rr_targets rr) (rr_healthy rr) (wrapU64 (rr_counter rr + 1)), rr_reference rr).
Proof.
  intros [Hlen Hc] Hw Hne. unfold RoundRobin_Next, rr_no_wrap in *.
  rewrite bool_decide_eq_false_2 by (by destruct (rr_targets rr)).
  rewrite rr_idx, rr_scan_first by (done || lia). simpl. rewrite drop_0, take_ge; [done|].
  rewrite length_rotate. unfold pool_of. rewrite length_zip_with. lia.
Qed.

(** ** RoundRobin keeps the promises of the interface *)

#[export] Program Instance RoundRobin_Spec : BalancerSpec RoundRobin := {|
  bal_ok := rr_ok;
  bal_live := rr_no_wrap;
  pool rr := pool_of (rr_targets rr) (rr_healthy rr)
|}.
Next Obligation.
  intros rr [Hlen Hc]. simpl. unfold RoundRobin_Next.
  destruct (decide (length (rr_targets rr) = 0%nat)) as [H0|Hn].
  { rewrite bool_decide_eq_true_2 by done. by exists rr, (Err ErrNoHealthyTargets). }
  rewrite bool_decide_eq_false_2 by done.
  destruct (rr_scan_total (rr_targets rr) (rr_healthy rr)
    (wrapU64 (wrapU64 (rr_counter rr + 1) - 1)) 0 (length (rr_targets rr)))
    as (r & Hr & _); [done|by destruct (rr_targets rr)|].
  rewrite Hr. do 2 eexists. repeat split; simpl; auto with gateforge; apply wrapU64_range.
Qed.
Next Obligation.
  intros rr rr' u [Hlen Hc]. simpl. unfold RoundRobin_Next. case_bool_decide; [done|].
  destruct (rr_scan_total (rr_targets rr) (rr_healthy rr)
    (wrapU64 (wrapU64 (rr_counter rr + 1) - 1)) 0 (length (rr_targets rr)))
    as (r & Hr & Hspec); [done|by destruct (rr_targets rr)|].
  rewrite Hr. simpl. by intros [= _ ->].
Qed.
Next Obligation.
  intros rr rr' e Hok HN. simpl in HN.
  destruct (decide (rr_targets rr = [])) as [H0|Hne].
  { unfold RoundRobin_Next in HN. rewrite H0 in HN. simplify_eq/=. split; [done|].
    intros _. rewrite H0. by intros ?%Exists_nil. }
  split.
  - destruct Hok as [Hlen Hc]. unfold RoundRobin_Next in HN. case_bool_decide; [by simplify_eq|].
    destruct (rr_scan_total (rr_targets rr) (rr_healthy rr)
      (wrapU64 (wrapU64 (rr_counter rr + 1) - 1)) 0 (length (rr_targets rr)))
      as (r & Hr & Hspec); [done|done|]. rewrite Hr in HN. simpl in HN. by simplify_eq.
  - intros Hw. rewrite RoundRobin_Next_reference in HN by done. injection HN as _ Hr.
    apply first_healthy_Err in Hr as [_ Hr]. by rewrite some_healthy_rotate in Hr.
Qed.
Next Obligation.
  intros rr [Hlen Hc]. by apply target_statuses_total.
Qed.
Next Obligation.
  intros set u h rr [= <-] [Hlen Hc]. unfold RoundRobin_SetHealthy.
  rewrite pool_set_find by done.
  destruct (find_target u (rr_targets rr)) as [i|] eqn:Hi; [|by eexists].
  apply find_target_lt in Hi. rewrite slice_set_lt by lia. simpl. eexists.
  split; [done|]. split; [|done]. constructor; simpl; [by rewrite length_insert|done].
Qed.

(** ** Fairness *)

Lemma RoundRobin_Next_all_healthy (targets : list Target) c t :
  0 <= c < 2 ^ 64 -> targets !! Z.to_nat (c mod Z.of_nat (length targets)) = Some t ->
  RoundRobin_Next (mkRoundRobin targets (replicate (length targets) true) c) =
  Ret (mkRoundRobin targets (replicate (length targets) true) (wrapU64 (c + 1)), Ok (Target_URL t)).
Proof.
  intros Hc Ht. unfold RoundRobin_Next; simpl.
  rewrite bool_decide_eq_false_2 by (by destruct targets). rewrite rr_idx by done.
  destruct (length targets) as [|n] eqn:Hn; [by destruct targets|].
  cbn [rr_scan]. rewrite Z.add_0_r, wrapU64_id by done. unfold slice_get.
  apply lookup_lt_Some in Ht as Hlt. rewrite lookup_replicate_2 by lia. simpl. by rewrite Ht.
Qed.

(** A block of [j <= n] calls goes once through the rotated targets. *)
Lemma rr_block (targets : list Target) c j :
  targets <> [] -> 0 <= c -> (j <= length targets)%nat -> c + Z.of_nat j < 2 ^ 64 ->
  next_n j (mkRoundRobin targets (replicate (length targets) true) c) =
  Ret (mkRoundRobin targets (replicate (length targets) true) (c + Z.of_nat j),
       take j ((fun t => Ok (Target_URL t)) <$>
               rotate (Z.to_nat (c mod Z.of_nat (length targets))) targets)).
Proof.
  intros Hne Hc Hj Hw. assert (0 < length targets)%nat by (destruct targets; simpl in *; [done|lia]).
  induction j as [|j IH]; [by rewrite Z.add_0_r|].
  replace (S j) with (j + 1)%nat by lia.
  destruct (lookup_lt_is_Some_2 targets (Z.to_nat ((c + Z.of_nat j) mod Z.of_nat (length targets)))) as [t Ht].
  { pose proof (Z.mod_pos_bound (c + Z.of_nat j) (Z.of_nat (length targets))). lia. }
  assert (Hlast : ((fun t => Ok (Target_URL t)) <$>
      rotate (Z.to_nat (c mod Z.of_nat (length targets))) targets) !! j = Some (Ok (Target_URL t))).
  { rewrite list_lookup_fmap, lookup_rotate_r by lia. unfold rotate_nat_add.
    rewrite (Z2Nat.id (c mod _)) by (apply Z.mod_pos_bound; lia).
    rewrite Zplus_mod_idemp_l. by rewrite Ht. }
  assert (Hnext : next_n 1 (mkRoundRobin targets (replicate (length targets) true) (c + Z.of_nat j)) =
    Ret (mkRoundRobin targets (replicate (length targets) true) (c + Z.of_nat (j + 1)), [Ok (Target_URL t)])).
  { cbn [next_n Next RoundRobin_Balancer]. rewrite (RoundRobin_Next_all_healthy _ _ t) by (done || lia).
    simpl. rewrite wrapU64_id by lia. by replace (c + Z.of_nat j + 1) with (c + Z.of_nat (j + 1)) by lia. }
  rewrite (next_n_app _ _ _ _ _ _ _ (IH ltac:(lia) ltac:(lia)) Hnext).
  by rewrite Nat.add_1_r, (take_S_r _ _ _ Hlast).
Qed.

Lemma rotate_Permutation {A} k (l : list A) : rotate k l ≡ₚ l.
Proof.
  unfold rotate. rewrite (Permutation_app_comm _ (take _ _)). by rewrite take_drop.
Qed.
Lemma rr_blocks (targets : list Target) c k :
  targets <> [] -> 0 <= c -> c + Z.of_nat (k * length targets) < 2 ^ 64 ->
  next_n (k * length targets) (mkRoundRobin targets (replicate (length targets) true) c) =
  Ret (mkRoundRobin targets (replicate (length targets) true) (c + Z.of_nat (k * length targets)),
       concat (replicate k ((fun t => Ok (Target_URL t)) <$>
               rotate (Z.to_nat (c mod Z.of_nat (length targets))) targets))).
Proof.
  intros Hne. revert c. induction k as [|k IH]; intros c Hc Hw; [by rewrite Z.add_0_r|].
  assert (0 < length targets)%nat by (destruct targets; simpl in *; [done|lia]).
  pose proof (rr_block targets c (length targets) Hne Hc ltac:(lia) ltac:(lia)) as Hb.
  rewrite take_ge in Hb by (rewrite length_fmap, length_rotate; lia).
  specialize (IH (c + Z.of_nat (length targets)) ltac:(lia) ltac:(lia)).
  rewrite <- Zplus_mod_idemp_r, Z_mod_same_full, Z.add_0_r in IH. cbn [Nat.mul]. rewrite (next_n_app _ _ _ _ _ _ _ Hb IH).
  by replace (c + Z.of_nat (length targets) + Z.of_nat (k * length targets))
    with (c + Z.of_nat (length targets + k * length targets)) by lia.
Qed.

(** One call: the counter advances by one, and when the target at position
    [counter mod n] is healthy it is the one that is returned. *)
Lemma RoundRobin_Next_step rr :
  rr_ok rr -> rr_targets rr <> [] -> rr_counter rr + 1 < 2 ^ 64 ->
  exists r, RoundRobin_Next rr =
      Ret (mkRoundRobin (rr_targets rr) (rr_healthy rr) (rr_counter rr + 1), r) /\
    forall t, rr_targets rr !! Z.to_nat (rr_counter rr mod Z.of_nat (length (rr_targets rr))) = Some t ->
      rr_healthy rr !! Z.to_nat (rr_counter rr mod Z.of_nat (length (rr_targets rr))) = Some true ->
      r = Ok (Target_URL t).
Proof.
  intros [Hlen Hc] Hne Hw. unfold RoundRobin_Next.
  rewrite bool_decide_eq_false_2 by (by destruct (rr_targets rr)). rewrite rr_idx by done.
  destruct (rr_scan_total (rr_targets rr) (rr_healthy rr) (rr_counter rr) 0 (length (rr_targets rr)))
    as (r & Hr & _); [done..|].
  rewrite Hr. simpl. rewrite wrapU64_id by lia. eexists. split; [done|]. intros t Ht Hh.
  destruct (length (rr_targets rr)) as [|n] eqn:Hn; [by destruct (rr_targets rr)|].
  cbn [rr_scan] in Hr. rewrite Z.add_0_r, wrapU64_id in Hr by done.
  unfold slice_get in Hr. rewrite Hh, Ht in Hr. simpl in Hr. by simplify_eq.
Qed.

(** [m] calls: the counter advances by [m], and call [j] returns the target at
    position [(counter + j) mod n] when it is healthy. *)
Lemma rr_cyclic m : forall rr,
  rr_ok rr -> rr_targets rr <> [] -> rr_counter rr + Z.of_nat m < 2 ^ 64 ->
  exists outs, next_n m rr =
      Ret (mkRoundRobin (rr_targets rr) (rr_healthy rr) (rr_counter rr + Z.of_nat m), outs) /\
    length outs = m /\
    forall j i t, (j < m)%nat ->
      i = Z.to_nat ((rr_counter rr + Z.of_nat j) mod Z.of_nat (length (rr_targets rr))) ->
      rr_targets rr !! i = Some t -> rr_healthy rr !! i = Some true ->
      outs !! j = Some (Ok (Target_URL t)).
Proof.
  induction m as [|m IH]; intros rr Hok Hne Hw.
  { exists []. rewrite Z.add_0_r. destruct rr. repeat split; [done..|lia]. }
  destruct (RoundRobin_Next_step rr Hok Hne ltac:(lia)) as (r & Hr & Hret).
  destruct (IH (mkRoundRobin (rr_targets rr) (rr_healthy rr) (rr_counter rr + 1))) as (outs & E & Hl & Hcyc).
  { constructor; cbn; [apply Hok|]. pose proof (rr_ok_counter _ Hok). lia. }
  { done. }
  { cbn. lia. }
  exists (r :: outs). cbn [next_n Next RoundRobin_Balancer]. rewrite Hr. cbn [outcome_bind]. rewrite E. cbn in *.
  split; [do 3 f_equal; lia|]. split; [by rewrite Hl|].
  intros [|j] i t Hj -> Ht Hh; cbn.
  - rewrite Z.add_0_r in Ht, Hh. by rewrite (Hret t Ht Hh).
  - replace (rr_counter rr + Z.of_nat (S j)) with (rr_counter rr + 1 + Z.of_nat j) in * by lia.
    by eapply Hcyc; [lia|done|..].
Qed.

(** ** Properties *)

(** C13: as long as the 64-bit counter does not wrap during the scan, [Next]
    returns the first healthy target of the target list read cyclically from
    position counter mod n, or ErrNoHealthyTargets when no target is healthy;
    it advances the counter by one (not at all without targets) and changes nothing else. *)
Theorem RoundRobin_Next_correct (rr : RoundRobin) :
  rr_ok rr -> rr_no_wrap rr ->
  exists rr', RoundRobin_Next rr = Ret (rr', rr_reference rr) /\ rr_ok rr' /\
    rr_targets rr' = rr_targets rr /\ rr_healthy rr' = rr_healthy rr /\
    rr_counter rr' = (if bool_decide (rr_targets rr = []) then rr_counter rr
                      else wrapU64 (rr_counter rr + 1)).
Proof.
  intros Hok Hw. case_bool_decide as Hne.
  - exists rr. unfold RoundRobin_Next, rr_reference. rewrite Hne.
    unfold pool_of, rotate; simpl. rewrite drop_nil, take_nil. repeat split; done || apply Hok.
  - rewrite RoundRobin_Next_reference by done. eexists. split; [done|]. simpl.
    destruct Hok. repeat split; simpl; auto with gateforge; apply wrapU64_range.
Qed.

(** C27: round robin visits the targets cyclically and starves none.  As long as
    the 64-bit counter does not wrap, call [j] of any [m] consecutive calls from
    counter value [c] returns the target at position [(c + j) mod n] whenever that
    target is healthy, whatever the health of the others, so that a healthy target
    is returned at least once in every [n] consecutive calls; and when every
    target is healthy any [k * n] consecutive calls return each exactly [k] times. *)
Theorem RoundRobin_fair (rr : RoundRobin) m :
  rr_ok rr -> rr_targets rr <> [] -> rr_counter rr + Z.of_nat m < 2 ^ 64 ->
  exists rr' outs, next_n m rr = Ret (rr', outs) /\ length outs = m /\
    (forall j i t, (j < m)%nat ->
       i = Z.to_nat ((rr_counter rr + Z.of_nat j) mod Z.of_nat (length (rr_targets rr))) ->
       rr_targets rr !! i = Some t -> rr_healthy rr !! i = Some true ->
       outs !! j = Some (Ok (Target_URL t))) /\
    (forall k, m = (k * length (rr_targets rr))%nat ->
       rr_healthy rr = replicate (length (rr_targets rr)) true ->
       outs ≡ₚ concat (replicate k ((fun t => Ok (Target_URL t)) <$> rr_targets rr))).
Proof.
  intros Hok Hne Hw. destruct (rr_cyclic m rr Hok Hne Hw) as (outs & E & Hl & Hcyc).
  do 2 eexists. split; [exact E|]. split; [done|]. split; [done|]. intros k -> Hh.
  pose proof (rr_ok_counter _ Hok) as Hc. destruct rr as [ts hs c]; cbn in *. subst hs.
  rewrite (rr_blocks ts c k Hne ltac:(lia) Hw) in E. injection E as <-.
  clear. induction k as [|k IH]; simpl; [done|]. by rewrite IH, rotate_Permutation.
Qed.
End RoundRobin.

Section Examples.
#[local] Existing Instance plain_url_lib.

Definition example_targets : list Target :=
  [mkTarget "http://host1:3001" 1; mkTarget "http://host2:3002" 1; mkTarget "http://host3:3003" 1].

Lemma RoundRobin_Next_correct_witness :
  exists rr', RoundRobin_Next (mkRoundRobin example_targets [true; false; true] 4) =
    Ret (rr', Ok "http://host3:3003").
Proof.
  destruct (RoundRobin_Next_correct (mkRoundRobin example_targets [true; false; true] 4))
    as (rr' & H & _); [constructor; done|done|]. exists rr'. exact H.
Defined.

Lemma RoundRobin_fair_witness :
  (exists rr' outs, next_n 4 (mkRoundRobin example_targets [true; false; true] 4) = Ret (rr', outs) /\
     outs !! 1%nat = Some (Ok "http://host3:3003")) /\
  exists rr' outs, next_n 9 (NewRoundRobin example_targets) = Ret (rr', outs) /\
    outs ≡ₚ concat (replicate 3 ((fun t => Ok (Target_URL t)) <$> example_targets)).
Proof.
  split.
  - destruct (RoundRobin_fair (mkRoundRobin example_targets [true; false; true] 4) 4)
      as (rr' & outs & E & _ & Hcyc & _); [constructor; done|done|done|].
    exists rr', outs. split; [exact E|].
    exact (Hcyc 1%nat 2%nat _ (proj1 (Nat.ltb_lt 1 4) eq_refl) eq_refl eq_refl eq_refl).
  - destruct (RoundRobin_fair (NewRoundRobin example_targets) 9)
      as (rr' & outs & E & _ & _ & Hperm); [constructor; done|done|done|].
    exists rr', outs. split; [exact E|]. by apply Hperm.
Defined.

(** When the counter wraps during a scan, positions repeat and others are never
    visited: in this reachable-in-principle state (counter at its maximum, three
    targets, only the last one healthy) [Next] reports that no target is healthy. *)
Theorem RoundRobin_wrap_misses_target :
  let rr := mkRoundRobin example_targets [false; false; true] (2 ^ 64 - 1) in
  rr_ok rr /\ some_healthy (pool rr) /\
  exists rr', RoundRobin_Next rr = Ret (rr', Err ErrNoHealthyTargets).
Proof.
  intros rr. split; [constructor; done|]. split.
  - apply some_healthy_lookup; [done|]. by exists 2%nat.
  - eexists. vm_compute. reflexivity.
Qed.
End Examples.
