(* ===== verification/WeightedFair.v ===== *)
(** * Fairness of smooth weighted round-robin

    The accounting behind weighted.go: after [t] selections a healthy target's
    current weight is [t * weight - W * (times selected)], the current weights sum
    to zero and stay above [-W].  From this: no overflow, the prefix bounds, and
    the exact distribution over a period of [W] calls. *)

From S2P Require Import Prelude GoLib Balancer Weighted.

Section Fair.
Context `{UL : URLLib}.

(** What one round adds to each current weight. *)
Definition gain (t : Target) (h : bool) : Z := if h then Target_Weight t else 0.
Definition gains (w : WeightedRoundRobin) : list Z := zip_with gain (w_targets w) (w_healthy w).
Definition total (w : WeightedRoundRobin) : Z := sumZ (gains w).

(** [m] selections in a row, with the chosen indices. *)
Fixpoint select_n (m : nat) (w : WeightedRoundRobin) : outcome (WeightedRoundRobin * list nat) :=
  match m with
  | O => Ret (w, [])
  | S m' =>
      do! (w1, b) <- wrr_select w;
      match b with
      | None => Panic "no healthy target"
      | Some b =>
          do! (w2, bs) <- select_n m' w1;
          Ret (w2, b :: bs)
      end
  end.

(** How often index [i] was chosen. *)
Definition picks (i : nat) (bs : list nat) : Z := Z.of_nat (count_occ Nat.eq_dec bs i).

(** The configured weights are positive, and [n * W] fits an int. *)
Record sized (w : WeightedRoundRobin) : Prop := mk_sized {
  sz_weights : Forall (fun t => 1 <= Target_Weight t) (w_targets w);
  sz_total : 1 <= total w;
  sz_fits : Z.of_nat (length (w_targets w)) * total w <= int64_max
}.

Record balanced (w : WeightedRoundRobin) : Prop := mk_balanced {
  bl_ok : wrr_ok w;
  bl_sum : sumZ (w_currentWeights w) = 0;
  bl_low : Forall (fun c => 1 - total w <= c) (w_currentWeights w)
}.

(** ** Sums *)

Lemma sumZ_bounded (l : list Z) L :
  0 <= L -> Forall (fun c => - L <= c) l -> - (L * Z.of_nat (length l)) <= sumZ l.
Proof. intros HL. induction 1; simpl length; [simpl; lia|]. rewrite sumZ_cons. lia. Qed.

(** Entries of a list that sums to zero are bounded above by the others. *)
Lemma sumZ_upper (l : list Z) L :
  0 <= L -> sumZ l = 0 -> Forall (fun c => - L <= c) l ->
  Forall (fun c => c <= L * (Z.of_nat (length l) - 1)) l.
Proof.
  intros HL Hs Hl. apply Forall_lookup. intros i c Hi.
  pose proof (sumZ_insert l i c 0 Hi) as Hins.
  pose proof (sumZ_bounded (<[i:=0]> l) L HL) as Hb.
  assert (Hle : sumZ (<[i:=0]> l) >= - (L * (Z.of_nat (length l) - 1))).
  { clear Hins Hb. revert i Hi. clear Hs. induction Hl as [|x l Hx Hl IH]; intros [|i] Hi; simplify_eq/=.
    - pose proof (sumZ_bounded l L HL Hl). lia.
    - specialize (IH _ Hi). destruct l; [done|]. simpl length in *. lia. }
  lia.
Qed.

Lemma sumZ_zip_add (l k : list Z) :
  length l = length k -> sumZ (zip_with Z.add l k) = sumZ l + sumZ k.
Proof.
  revert k. induction l as [|x l IH]; intros [|y k] H; simplify_eq/=; [done|]. rewrite IH by done. lia.
Qed.

Lemma sumZ_zero (l : list Z) : Forall (Z.le 0) l -> sumZ l = 0 -> Forall (eq 0) l.
Proof.
  induction 1 as [|x l Hx Hl IH]; [done|]. rewrite sumZ_cons. intros Hs.
  pose proof (sumZ_nonneg l Hl). constructor; [lia|]. apply IH. lia.
Qed.

Lemma gains_length w : wrr_ok w -> length (gains w) = length (w_targets w).
Proof. intros [Hh _ _]. unfold gains. rewrite length_zip_with. lia. Qed.

Lemma gains_lookup w i t h :
  w_targets w !! i = Some t -> w_healthy w !! i = Some h -> gains w !! i = Some (gain t h).
Proof. intros Ht Hh. unfold gains. apply lookup_zip_with_Some. eauto. Qed.

Lemma gains_nonneg w : sized w -> Forall (Z.le 0) (gains w).
Proof.
  intros [Hw _ _]. unfold gains. apply Forall_lookup. intros i g Hg.
  apply lookup_zip_with_Some in Hg as (t & h & -> & Ht & _).
  rewrite Forall_lookup in Hw. specialize (Hw _ _ Ht). destruct h; simpl; lia.
Qed.

(** ** One selection without overflow *)

Lemma total_all_exact ts hs tot :
  Forall (fun t => 1 <= Target_Weight t) ts -> 0 <= tot ->
  tot + sumZ (zip_with gain ts hs) <= int64_max ->
  total_all tot ts hs = tot + sumZ (zip_with gain ts hs).
Proof.
  intros Hw. revert hs tot. induction Hw as [|t ts Ht Hw IH]; intros [|h hs] tot Htot Hb; simpl in *; try lia.
  assert (0 <= sumZ (zip_with gain ts hs)).
  { clear IH Hb. revert hs. induction Hw; intros [|[] hs]; simpl; try lia; specialize (IHHw hs); lia. }
  destruct h; simpl in *.
  - rewrite wrap64_id by (unfold in_int64, int64_min in *; lia). rewrite IH by lia. lia.
  - rewrite IH by lia. lia.
Qed.

Lemma bump_all_exact ts hs cs :
  length hs = length ts -> length cs = length ts ->
  Forall (fun x => in_int64 x) (zip_with Z.add cs (zip_with gain ts hs)) ->
  bump_all ts hs cs = zip_with Z.add cs (zip_with gain ts hs).
Proof.
  revert hs cs. induction ts as [|t ts IH]; intros [|h hs] [|c cs] ?? Hf; simplify_eq/=; [done|].
  apply Forall_cons in Hf as [Hx Hf]. rewrite IH by done. f_equal.
  destruct h; simpl in *; [by rewrite wrap64_id|lia].
Qed.

Lemma balanced_upper w :
  sized w -> balanced w ->
  Forall (fun c => c <= (total w - 1) * (Z.of_nat (length (w_targets w)) - 1)) (w_currentWeights w).
Proof.
  intros Hs [[Hh Hc Hz] Hsum Hlow]. rewrite <- Hc. apply sumZ_upper; [destruct Hs; lia|done|].
  eapply Forall_impl; [done|]. simpl. lia.
Qed.

Lemma balanced_fits w :
  sized w -> balanced w ->
  Forall (fun x => in_int64 x) (zip_with Z.add (w_currentWeights w) (gains w)).
Proof.
  intros Hs Hb. pose proof (balanced_upper w Hs Hb) as Hup.
  pose proof (gains_nonneg w Hs) as Hg. destruct Hb as [[Hh Hc Hz] Hsum Hlow].
  apply Forall_lookup. intros i x Hx. apply lookup_zip_with_Some in Hx as (c & g & -> & Hci & Hgi).
  rewrite Forall_lookup in Hup, Hlow, Hg.
  specialize (Hup _ _ Hci). specialize (Hlow _ _ Hci). pose proof (Hg _ _ Hgi).
  assert (g <= total w).
  { unfold total. pose proof (sumZ_insert _ _ _ 0 Hgi) as Hins.
    assert (0 <= sumZ (<[i:=0]> (gains w))); [|lia].
    apply sumZ_nonneg. apply Forall_insert; [by apply gains_nonneg|lia]. }
  apply lookup_lt_Some in Hci. destruct Hs as [_ Ht Hf].
  unfold in_int64, int64_min in *. simpl in Hlow, Hup. unfold int64_max in *. nia.
Qed.

(** The largest bumped weight of a balanced state is positive. *)
Lemma best_positive w b m :
  sized w -> balanced w ->
  w_healthy w !! b = Some true ->
  zip_with Z.add (w_currentWeights w) (gains w) !! b = Some m ->
  (forall k c, w_healthy w !! k = Some true ->
     zip_with Z.add (w_currentWeights w) (gains w) !! k = Some c -> c <= m) ->
  1 <= m.
Proof.
  intros Hs [Hok Hsum Hlow] Hb Hm Hmax. destruct (decide (1 <= m)) as [|Hneg]; [done|exfalso].
  pose proof (gains_length w Hok) as Hgl. destruct Hok as [Hh Hc Hz].
  assert (Hall : Forall (Z.le 0) (Z.opp <$> zip_with Z.add (w_currentWeights w) (gains w))).
  { apply Forall_lookup. intros i x Hx. rewrite list_lookup_fmap in Hx.
    destruct (zip_with Z.add _ _ !! i) as [y|] eqn:Hy; [|done]. simplify_eq/=.
    pose proof Hy as (c & g & -> & Hci & Hgi)%lookup_zip_with_Some.
    destruct (lookup_lt_is_Some_2 (w_healthy w) i) as [h Hhi]; [apply lookup_lt_Some in Hgi; lia|].
    destruct h; [specialize (Hmax _ _ Hhi Hy); lia|].
    rewrite Hz in Hci by done. unfold gains in Hgi.
    apply lookup_zip_with_Some in Hgi as (t & h & -> & _ & ?). simplify_eq/=. lia. }
  apply sumZ_nonneg in Hall.
  assert (Hopp : forall l, sumZ (Z.opp <$> l) = - sumZ l).
  { induction l as [|x l IHl]; [done|]. rewrite fmap_cons, !sumZ_cons, IHl. lia. }
  rewrite Hopp, sumZ_zip_add, Hsum in Hall by lia. destruct Hs as [_ Ht _]. unfold total in Ht. lia.
Qed.

(** One selection from a balanced state. *)
Lemma select_step w :
  sized w -> balanced w ->
  exists w' b m, wrr_select w = Ret (w', Some b) /\ w_healthy w !! b = Some true /\
    w_targets w' = w_targets w /\ w_healthy w' = w_healthy w /\
    zip_with Z.add (w_currentWeights w) (gains w) !! b = Some m /\
    w_currentWeights w' = <[b := m - total w]> (zip_with Z.add (w_currentWeights w) (gains w)) /\
    balanced w'.
Proof.
  intros Hs Hbal. pose proof (balanced_fits w Hs Hbal) as Hfit.
  pose proof Hbal as [Hok Hsum Hlow]. pose proof Hok as [Hh Hc Hz].
  pose proof (gains_length w Hok) as Hgl. pose proof Hs as [Hw Ht Hf].
  assert (Hcs : bump_all (w_targets w) (w_healthy w) (w_currentWeights w) =
    zip_with Z.add (w_currentWeights w) (gains w)) by (by apply bump_all_exact).
  assert (Htot : total_all 0 (w_targets w) (w_healthy w) = total w).
  { rewrite total_all_exact; [unfold total, gains; lia|done|lia|].
    change (0 + total w <= int64_max). destruct (w_targets w) eqn:E; [|simpl length in Hf; nia].
    unfold total, gains in Ht. rewrite E in Ht. simpl in Ht. lia. }
  destruct (wrr_select_spec w Hok) as [[Hnone _]|(b & m & Hsel & Hb & Hm & Hmax)].
  { exfalso. unfold total, gains in Ht. clear - Ht Hnone.
    revert Ht. generalize (w_targets w). induction Hnone as [|h hs <- Hn IH]; intros [|t ts]; simpl; try lia.
    specialize (IH ts). lia. }
  rewrite Hcs, Htot in Hsel. rewrite Hcs in Hm, Hmax.
  pose proof (best_positive w b m Hs Hbal Hb Hm Hmax) as Hpos.
  pose proof Hfit as Hfit'. rewrite Forall_lookup in Hfit'. specialize (Hfit' _ _ Hm).
  assert (total w <= int64_max).
  { apply lookup_lt_Some in Hb. nia. }
  rewrite wrap64_id in Hsel by (unfold in_int64, int64_min, int64_max in *; lia).
  exists (mkWeighted (w_targets w) (w_healthy w)
    (<[b := m - total w]> (zip_with Z.add (w_currentWeights w) (gains w)))), b, m.
  repeat (split; [done|]). constructor.
  - rewrite <- Hcs. by apply wrr_ok_after.
  - simpl. rewrite (sumZ_insert _ _ _ _ Hm), sumZ_zip_add by lia. unfold total in *. lia.
  - change (total (mkWeighted _ _ _)) with (total w). simpl. apply Forall_insert; [|lia].
    pose proof (gains_nonneg w Hs) as Hg. apply Forall_lookup. intros i x Hx.
    apply lookup_zip_with_Some in Hx as (c & g & -> & Hci & Hgi).
    rewrite Forall_lookup in Hlow, Hg. specialize (Hlow _ _ Hci). specialize (Hg _ _ Hgi).
    simpl in *. lia.
Qed.

Lemma sized_ext w w' :
  w_targets w' = w_targets w -> w_healthy w' = w_healthy w -> sized w -> sized w'.
Proof.
  intros Ht Hh [? ? ?]. constructor; unfold total, gains in *; rewrite ?Ht, ?Hh; done.
Qed.

(** Any number of selections: total, and the account of every current weight. *)
Lemma select_n_account m : forall w,
  sized w -> balanced w ->
  exists w' bs, select_n m w = Ret (w', bs) /\ length bs = m /\ balanced w' /\
    w_targets w' = w_targets w /\ w_healthy w' = w_healthy w /\
    Forall (fun b => w_healthy w !! b = Some true) bs /\
    forall i c g, w_currentWeights w !! i = Some c -> gains w !! i = Some g ->
      w_currentWeights w' !! i = Some (c + Z.of_nat m * g - total w * picks i bs).
Proof.
  induction m as [|m IH]; intros w Hs Hb.
  { exists w, []. repeat (split; [done|]). intros i c g Hc Hg. rewrite Hc. f_equal.
    unfold picks; simpl. lia. }
  destruct (select_step w Hs Hb) as (w1 & b & x & Hsel & Hhb & Ht1 & Hh1 & Hx & Hcw & Hb1).
  destruct (IH w1 (sized_ext _ _ Ht1 Hh1 Hs) Hb1) as (w2 & bs & Hn & Hlen & Hb2 & Ht2 & Hh2 & Hall & Hacc).
  exists w2, (b :: bs). simpl. rewrite Hsel. cbn [outcome_bind]. rewrite Hn. cbn [outcome_bind].
  repeat (split; [congruence || (simpl; congruence) |]).
  split; [constructor; [done|by rewrite Hh1 in Hall]|].
  intros i c g Hc Hg.
  assert (Hg1 : gains w1 !! i = Some g) by (unfold gains in *; by rewrite Ht1, Hh1).
  assert (Htot1 : total w1 = total w) by (unfold total, gains; by rewrite Ht1, Hh1).
  assert (Hsum : zip_with Z.add (w_currentWeights w) (gains w) !! i = Some (c + g)).
  { apply lookup_zip_with_Some. eauto. }
  unfold picks in *. simpl count_occ. destruct (Nat.eq_dec b i) as [->|Hne].
  - rewrite Hsum in Hx. injection Hx as <-.
    rewrite (Hacc i (c + g - total w) g);
      [f_equal; lia|rewrite Hcw, list_lookup_insert_eq; [done|by eapply lookup_lt_Some]|done].
  - rewrite (Hacc i (c + g) g); [f_equal; lia|by rewrite Hcw, list_lookup_insert_ne|done].
Qed.

(** ** From indices to the results of Next *)

Definition url_at (w : WeightedRoundRobin) (b : nat) : result URL :=
  match w_targets w !! b with
  | Some t => Ok (Target_URL t)
  | None => Err ErrNoHealthyTargets
  end.

Lemma next_n_select m : forall w w' bs,
  wrr_ok w -> select_n m w = Ret (w', bs) -> next_n m w = Ret (w', url_at w <$> bs).
Proof.
  induction m as [|m IH]; intros w w' bs Hok; cbn [select_n next_n]; [by intros [= <- <-]|].
  cbn [Next Weighted_Balancer].
  destruct (Weighted_Next_total w Hok) as
    [[Hf (w1 & HN & Hok1 & Ht1 & Hh1)]|(w1 & b & t & HN & -> & Ht & Hb & Hok1 & Ht1 & Hh1)].
  { destruct (wrr_select_spec w Hok) as [[_ ->]|(b & mm & _ & Hb & _)]; [done|].
    rewrite Forall_lookup in Hf. by specialize (Hf _ _ Hb). }
  rewrite HN. cbn [outcome_bind]. destruct (select_n m w1) as [[w2 bs']|] eqn:E; [|done].
  cbn [outcome_bind]. intros [= <- <-]. rewrite (IH _ _ _ Hok1 E). cbn [outcome_bind].
  rewrite fmap_cons. unfold url_at. by rewrite Ht1, Ht.
Qed.

(** The list in which index [k + j] occurs as often as the [j]-th number says. *)
Definition spread (k : nat) (l : list Z) : list nat :=
  concat (imap (fun j g => replicate (Z.to_nat g) (k + j)%nat) l).

Lemma spread_cons k g l : spread k (g :: l) = replicate (Z.to_nat g) k ++ spread (S k) l.
Proof.
  unfold spread. simpl. rewrite Nat.add_0_r. f_equal. f_equal. apply imap_ext.
  intros. simpl. by rewrite Nat.add_succ_r.
Qed.

Lemma count_replicate n (x y : nat) :
  count_occ Nat.eq_dec (replicate n x) y = if Nat.eq_dec x y then n else 0%nat.
Proof.
  induction n as [|n IH]; simpl; [by destruct (Nat.eq_dec x y)|]. rewrite IH.
  by destruct (Nat.eq_dec x y).
Qed.

Lemma count_spread l : forall k i : nat,
  count_occ Nat.eq_dec (spread k l) (k + i)%nat = Z.to_nat (default 0 (l !! i)) /\
  ((i < k)%nat -> count_occ Nat.eq_dec (spread k l) i = 0%nat).
Proof.
  induction l as [|g l IH]; intros k i; [done|].
  rewrite spread_cons, !count_occ_app, !count_replicate. split.
  - destruct i as [|i].
    + rewrite Nat.add_0_r. destruct (Nat.eq_dec k k); [|done]. simpl.
      destruct (IH (S k) k) as [_ ->]; lia.
    + destruct (Nat.eq_dec k (k + S i)%nat); [lia|]. simpl.
      replace (k + S i)%nat with (S k + i)%nat by lia. by destruct (IH (S k) i) as [-> _].
  - intros Hi. destruct (Nat.eq_dec k i); [lia|]. destruct (IH (S k) i) as [_ ->]; lia.
Qed.

Lemma url_at_spread w :
  wrr_ok w ->
  url_at w <$> spread 0 (gains w) =
  concat (zip_with (fun t (h : bool) => if h then replicate (Z.to_nat (Target_Weight t)) (Ok (Target_URL t)) else [])
            (w_targets w) (w_healthy w)).
Proof.
  intros [Hh _ _]. unfold gains. revert Hh.
  assert (Hgen : forall ts hs k, length hs = length ts ->
    (forall i t, ts !! i = Some t -> w_targets w !! (k + i)%nat = Some t) ->
    url_at w <$> spread k (zip_with gain ts hs) =
    concat (zip_with (fun t (h : bool) => if h then replicate (Z.to_nat (Target_Weight t)) (Ok (Target_URL t)) else []) ts hs)).
  { induction ts as [|t ts IH]; intros [|h hs] k Hlen Hlk; simplify_eq/=; [done|].
    rewrite spread_cons, fmap_app, fmap_replicate, (IH hs (S k)); [|done|].
    2: { intros i t' Hi. replace (S k + i)%nat with (k + S i)%nat by lia. by apply Hlk. }
    f_equal. specialize (Hlk 0%nat t eq_refl). rewrite Nat.add_0_r in Hlk.
    unfold url_at. rewrite Hlk. by destruct h. }
  intros Hh. by apply (Hgen _ _ 0%nat).
Qed.

(** All current weights are zero. *)
Definition at_rest (w : WeightedRoundRobin) : Prop := Forall (eq 0) (w_currentWeights w).

Lemma at_rest_balanced w : sized w -> wrr_ok w -> at_rest w -> balanced w.
Proof.
  intros [_ Ht _] Hok Hr. unfold at_rest in Hr. constructor; [done| |].
  - induction Hr as [|c cs <- _ IH]; [done|]. rewrite sumZ_cons, IH. done.
  - eapply Forall_impl; [exact Hr|]. simpl. lia.
Qed.

(** A period: [total w] selections from rest. *)
Lemma select_period w :
  sized w -> wrr_ok w -> at_rest w ->
  exists bs, select_n (Z.to_nat (total w)) w = Ret (w, bs) /\ bs ≡ₚ spread 0 (gains w).
Proof.
  intros Hs Hok Hr. pose proof (at_rest_balanced w Hs Hok Hr) as Hb.
  pose proof Hs as [_ Htot _]. pose proof (gains_length w Hok) as Hgl.
  destruct (select_n_account (Z.to_nat (total w)) w Hs Hb)
    as (w' & bs & Hn & Hlen & [Hok' Hsum' Hlow'] & Ht & Hh & Hall & Hacc).
  rewrite Z2Nat.id in Hacc by lia. unfold at_rest in Hr. rewrite Forall_lookup in Hr.
  assert (Htot' : total w' = total w) by (unfold total, gains; by rewrite Ht, Hh).
  assert (Hacc' : forall i g, gains w !! i = Some g ->
            w_currentWeights w' !! i = Some (total w * (g - picks i bs))).
  { intros i g Hg. destruct (lookup_lt_is_Some_2 (w_currentWeights w) i) as [c Hc].
    { destruct Hok. apply lookup_lt_Some in Hg. lia. }
    rewrite (Hacc i c g Hc Hg), <- (Hr i c Hc). f_equal. ring. }
  assert (Hlen' : length (w_currentWeights w') = length (gains w)).
  { destruct Hok' as [_ Hc' _]. rewrite Hc', Ht. lia. }
  assert (Hzero : Forall (eq 0) (w_currentWeights w')).
  { apply sumZ_zero; [|done]. apply Forall_lookup. intros i c Hc.
    destruct (lookup_lt_is_Some_2 (gains w) i) as [g Hg]; [apply lookup_lt_Some in Hc; lia|].
    rewrite Forall_lookup in Hlow'. specialize (Hlow' _ _ Hc). simpl in Hlow'.
    rewrite Htot' in Hlow'. rewrite (Hacc' i g Hg) in Hc. injection Hc as <-.
    destruct (Z.le_gt_cases 0 (g - picks i bs)); nia. }
  assert (Hpicks : forall i g, gains w !! i = Some g -> picks i bs = g).
  { intros i g Hg. rewrite Forall_lookup in Hzero. specialize (Hzero _ _ (Hacc' i g Hg)). nia. }
  exists bs. split.
  - rewrite Hn. do 2 f_equal. destruct w as [ts hs cs], w' as [ts' hs' cs']; simpl in *. subst. f_equal.
    apply list_eq. intros i. destruct (cs' !! i) as [c'|] eqn:Hc', (cs !! i) as [c|] eqn:Hc;
      rewrite ?Forall_lookup in Hzero; destruct Hok as [? Hlc ?]; simpl in *;
      try (apply lookup_lt_Some in Hc' as ?); try (apply lookup_lt_Some in Hc as ?);
      try (apply lookup_ge_None in Hc as ?); try (apply lookup_ge_None in Hc' as ?); try lia; [|done].
    by rewrite <- (Hzero _ _ Hc'), <- (Hr _ _ Hc).
  - apply (Permutation_count_occ Nat.eq_dec). intros i. destruct (count_spread (gains w) 0 i) as [Hc _].
    simpl in Hc. rewrite Hc. destruct (gains w !! i) as [g|] eqn:Hg; simpl.
    + specialize (Hpicks i g Hg). unfold picks in Hpicks. lia.
    + apply count_occ_not_In. intros Hin%list_elem_of_In. rewrite Forall_forall in Hall.
      specialize (Hall i Hin). apply lookup_lt_Some in Hall. apply lookup_ge_None in Hg.
      destruct Hok. lia.
Qed.

(** ** Properties *)

(** C8: exact weighted distribution.  From a state whose current weights are all
    zero (a new balancer, whatever targets are marked unhealthy), the next W calls of [Next], W the
    total weight of the healthy targets, return each healthy target exactly as
    many times as its weight, never an unhealthy one, and bring the balancer back to the same state. *)
Theorem Weighted_period (w : WeightedRoundRobin) :
  sized w -> wrr_ok w -> at_rest w ->
  exists outs, next_n (Z.to_nat (total w)) w = Ret (w, outs) /\
    outs ≡ₚ concat (zip_with (fun t (h : bool) =>
                       if h then replicate (Z.to_nat (Target_Weight t)) (Ok (Target_URL t)) else [])
                     (w_targets w) (w_healthy w)).
Proof.
  intros Hs Hok Hr. destruct (select_period w Hs Hok Hr) as (bs & Hn & Hp).
  exists (url_at w <$> bs). split; [by apply next_n_select|].
  by rewrite <- url_at_spread, Hp.
Qed.

(** C19: smoothness.  After any number m of calls from rest, a target of weight g has
    been selected at most (m * g + W - 1) / W times and lags its share m * g / W by at most (W - 1)(n - 1) / W
    selections; the current weights never overflow an int. *)
Theorem Weighted_smooth (w : WeightedRoundRobin) m :
  sized w -> wrr_ok w -> at_rest w ->
  exists w' bs, next_n m w = Ret (w', url_at w <$> bs) /\ length bs = m /\
    Forall in_int64 (w_currentWeights w') /\
    forall i g, gains w !! i = Some g ->
      total w * picks i bs <= Z.of_nat m * g + (total w - 1) /\
      Z.of_nat m * g <= total w * picks i bs + (total w - 1) * (Z.of_nat (length (w_targets w)) - 1).
Proof.
  intros Hs Hok Hr. pose proof (at_rest_balanced w Hs Hok Hr) as Hb.
  destruct (select_n_account m w Hs Hb) as (w' & bs & Hn & Hlen & Hb' & Ht & Hh & _ & Hacc).
  pose proof (sized_ext _ _ Ht Hh Hs) as Hs'. pose proof (balanced_upper w' Hs' Hb') as Hup.
  pose proof Hb' as [Hok' Hsum' Hlow']. rewrite Forall_lookup in Hup, Hlow'.
  assert (Htot : total w' = total w) by (unfold total, gains; by rewrite Ht, Hh).
  rewrite Htot, Ht in Hup. rewrite Htot in Hlow'.
  exists w', bs. split; [by apply next_n_select|]. split; [done|]. split.
  - apply Forall_lookup. intros i c Hc. specialize (Hup _ _ Hc). specialize (Hlow' _ _ Hc). simpl in *.
    destruct Hs as [_ H1 H2]. apply lookup_lt_Some in Hc. destruct Hok' as [_ Hl _].
    unfold in_int64, int64_min, int64_max in *. rewrite Ht in Hl. nia.
  - intros i g Hg. destruct (lookup_lt_is_Some_2 (w_currentWeights w) i) as [c Hc].
    { apply lookup_lt_Some in Hg. rewrite gains_length in Hg by done. destruct Hok. lia. }
    unfold at_rest in Hr. rewrite Forall_lookup in Hr. specialize (Hacc i c g Hc Hg).
    rewrite <- (Hr i c Hc) in Hacc. specialize (Hup _ _ Hacc). specialize (Hlow' _ _ Hacc).
    simpl in *. lia.
Qed.
End Fair.

Section Examples.
#[local] Existing Instance plain_url_lib.

Definition example_weighted : WeightedRoundRobin :=
  NewWeightedRoundRobin
    [mkTarget "http://a" 5; mkTarget "http://b" 1; mkTarget "http://c" 1].

Lemma example_sized : sized example_weighted.
Proof. constructor; [repeat constructor; done|done|done]. Qed.

Lemma example_ok : wrr_ok example_weighted.
Proof. constructor; [done|done|]. intros i Hi. do 3 (destruct i as [|i]; [done|]). done. Qed.

Lemma Weighted_period_witness :
  exists outs, next_n 7 example_weighted = Ret (example_weighted, outs) /\
    outs ≡ₚ replicate 5 (Ok "http://a") ++ [Ok "http://b"; Ok "http://c"].
Proof.
  apply (Weighted_period example_weighted); [apply example_sized|apply example_ok|].
  repeat constructor.
Defined.

Lemma Weighted_smooth_witness :
  exists w' bs, next_n 4 example_weighted = Ret (w', url_at example_weighted <$> bs) /\
    7 * picks 1 bs <= 4 * 1 + 6.
Proof.
  destruct (Weighted_smooth example_weighted 4) as (w' & bs & H & _ & _ & Hg);
    [apply example_sized|apply example_ok|repeat constructor|].
  exists w', bs. split; [exact H|]. apply (Hg 1%nat 1). reflexivity.
Defined.

(** The interleaving of the Nginx example: a a b a c a a. *)
Example nginx_sequence :
  option_map snd (match next_n 7 example_weighted with Ret p => Some p | Panic _ => None end) =
  Some [Ok "http://a"; Ok "http://a"; Ok "http://b"; Ok "http://a"; Ok "http://c"; Ok "http://a"; Ok "http://a"].
Proof. vm_compute. reflexivity. Qed.
End Examples.
