(* ===== verification/BalancerConfig.v ===== *)
(** * internal/balancer/balancer.go: NewFromConfig

    A value of the Go interface type [Balancer] is one of the two implementations;
    the interface instance dispatches on it. *)

From S2P Require Import Prelude Float64 GoLib Config Balancer RoundRobin Weighted.

Section Factory.
Context `{UL : URLLib}.

Inductive AnyBalancer :=
  | ARoundRobin (rr : RoundRobin)
  | AWeighted (w : WeightedRoundRobin).

Definition lift_state {A} (inj : A -> AnyBalancer) (m : outcome (A * result URL))
    : outcome (AnyBalancer * result URL) :=
  do! (a, r) <- m; Ret (inj a, r).

#[export] Instance AnyBalancer_Balancer : Balancer AnyBalancer := {|
  Next b :=
    match b with
    | ARoundRobin rr => lift_state ARoundRobin (RoundRobin_Next rr)
    | AWeighted w => lift_state AWeighted (Weighted_Next w)
    end;
  Targets b :=
    match b with
    | ARoundRobin rr => RoundRobin_Targets rr
    | AWeighted w => Weighted_Targets w
    end;
  asHealthSetter := Some (fun u h b =>
    match b with
    | ARoundRobin rr => do! rr' <- RoundRobin_SetHealthy u h rr; Ret (ARoundRobin rr')
    | AWeighted w => do! w' <- Weighted_SetHealthy u h w; Ret (AWeighted w')
    end)
|}.

(** The log record of a target that is skipped. *)
Definition skip_record (routeCfg : RouteConfig) (t : TargetConfig) (err : error) : LogRecord :=
  mkLog LevelWarn "skipping target with invalid URL"
    [("route", AString (rc_Path routeCfg)); ("url", AString (tc_URL t));
     ("error", AString (error_Error err))].

(** The loop over the configured targets: the targets kept and what is logged. *)
Fixpoint build_targets (routeCfg : RouteConfig) (ts : list TargetConfig)
    : list Target * list LogRecord :=
  match ts with
  | [] => ([], [])
  | t :: ts' =>
      let (targets, logs) := build_targets routeCfg ts' in
      match url_Parse (tc_URL t) with
      | Err err => (targets, skip_record routeCfg t err :: logs)
      | Ok u =>
          let weight := if tc_Weight t <=? 0 then 1 else tc_Weight t in
          (mkTarget u weight :: targets, logs)
      end
  end.

Definition NewFromConfig (routeCfg : RouteConfig) : AnyBalancer * list LogRecord :=
  let (targets, logs) := build_targets routeCfg (rc_Targets routeCfg) in
  (if bool_decide (rc_BalanceStrategy routeCfg = "weighted")
   then AWeighted (NewWeightedRoundRobin targets)
   else ARoundRobin (NewRoundRobin targets), logs).

(** ** The interface value keeps the promises of what it holds *)

Definition any_ok (b : AnyBalancer) : Prop :=
  match b with ARoundRobin rr => bal_ok rr | AWeighted w => bal_ok w end.
Definition any_live (b : AnyBalancer) : Prop :=
  match b with ARoundRobin rr => bal_live rr | AWeighted w => bal_live w end.
Definition any_pool (b : AnyBalancer) : list (Target * bool) :=
  match b with ARoundRobin rr => pool rr | AWeighted w => pool w end.

#[export] Program Instance AnyBalancer_Spec : BalancerSpec AnyBalancer := {|
  bal_ok := any_ok;
  bal_live := any_live;
  pool := any_pool
|}.
Next Obligation.
  intros [rr|w] Hok; cbn.
  - destruct (@next_total _ _ _ RoundRobin_Spec rr Hok) as (rr' & r & E & ? & ?). cbn in E. rewrite E. cbn.
    by exists (ARoundRobin rr'), r.
  - destruct (@next_total _ _ _ Weighted_Spec w Hok) as (w' & r & E & ? & ?). cbn in E. rewrite E. cbn.
    by exists (AWeighted w'), r.
Qed.
Next Obligation.
  intros [rr|w] b' u Hok; cbn; intros HN.
  - destruct (RoundRobin_Next rr) as [[rr' r]|] eqn:E; [|done]. simplify_eq/=.
    exact (@next_healthy _ _ _ RoundRobin_Spec rr rr' u Hok E).
  - destruct (Weighted_Next w) as [[w' r]|] eqn:E; [|done]. simplify_eq/=.
    exact (@next_healthy _ _ _ Weighted_Spec w w' u Hok E).
Qed.
Next Obligation.
  intros [rr|w] b' e Hok; cbn; intros HN.
  - destruct (RoundRobin_Next rr) as [[rr' r]|] eqn:E; [|done]. simplify_eq/=.
    exact (@next_error _ _ _ RoundRobin_Spec rr rr' e Hok E).
  - destruct (Weighted_Next w) as [[w' r]|] eqn:E; [|done]. simplify_eq/=.
    exact (@next_error _ _ _ Weighted_Spec w w' e Hok E).
Qed.
Next Obligation.
  intros [rr|w] Hok; [exact (@targets_total _ _ _ RoundRobin_Spec rr Hok)|exact (@targets_total _ _ _ Weighted_Spec w Hok)].
Qed.
Next Obligation.
  intros set u h [rr|w] [= <-] Hok.
  - destruct (@set_total _ _ _ RoundRobin_Spec _ u h rr eq_refl Hok) as (rr' & E & ? & ?).
    cbn in E. rewrite E. cbn. by exists (ARoundRobin rr').
  - destruct (@set_total _ _ _ Weighted_Spec _ u h w eq_refl Hok) as (w' & E & ? & ?).
    cbn in E. rewrite E. cbn. by exists (AWeighted w').
Qed.

(** ** Lemmas on NewFromConfig *)

(** The pool [NewFromConfig] builds: the parsable targets in order, all healthy. *)
Definition config_pool (routeCfg : RouteConfig) : list (Target * bool) :=
  omap (fun t => match url_Parse (tc_URL t) with
                 | Ok u => Some (mkTarget u (Z.max 1 (tc_Weight t)), true)
                 | Err _ => None
                 end) (rc_Targets routeCfg).

Lemma build_targets_pool rc ts :
  (fun t => (t, true)) <$> fst (build_targets rc ts) =
  omap (fun t => match url_Parse (tc_URL t) with
                 | Ok u => Some (mkTarget u (Z.max 1 (tc_Weight t)), true)
                 | Err _ => None
                 end) ts.
Proof.
  induction ts as [|t ts IH]; [done|]. simpl.
  destruct (build_targets rc ts) as [targets logs]. simpl in IH.
  destruct (url_Parse (tc_URL t)) as [u|e]; simpl; [|exact IH].
  f_equal; [|exact IH]. do 2 f_equal. destruct (Z.leb_spec (tc_Weight t) 0); lia.
Qed.

Lemma build_targets_no_logs rc ts :
  Forall valid_target ts -> snd (build_targets rc ts) = [].
Proof.
  induction 1 as [|t ts [_ [u Hu]] Hts IH]; [done|]. simpl.
  destruct (build_targets rc ts). by rewrite Hu.
Qed.

Lemma config_pool_length rc :
  Forall valid_target (rc_Targets rc) -> length (config_pool rc) = length (rc_Targets rc).
Proof.
  unfold config_pool. induction 1 as [|t ts [_ [u Hu]] Hts IH]; [done|]. simpl.
  rewrite Hu. simpl. by f_equal.
Qed.

Lemma pool_all_healthy (ts : list Target) :
  pool_of ts (replicate (length ts) true) = (fun t => (t, true)) <$> ts.
Proof. unfold pool_of. induction ts as [|t ts IH]; [done|]. simpl. by rewrite IH. Qed.

Lemma NewFromConfig_pool rc : pool (fst (NewFromConfig rc)) = config_pool rc.
Proof.
  unfold NewFromConfig, config_pool. rewrite <- (build_targets_pool rc).
  destruct (build_targets rc (rc_Targets rc)) as [ts logs].
  case_bool_decide; cbn; apply pool_all_healthy.
Qed.

Lemma NewFromConfig_ok rc :
  Z.of_nat (length (rc_Targets rc)) <= 2 ^ 64 ->
  bal_ok (fst (NewFromConfig rc)) /\ bal_live (fst (NewFromConfig rc)).
Proof.
  intros Hlen. unfold NewFromConfig.
  assert (Hl : (length (fst (build_targets rc (rc_Targets rc))) <= length (rc_Targets rc))%nat).
  { clear Hlen. induction (rc_Targets rc) as [|t ts IH]; simpl; [lia|].
    destruct (build_targets rc ts), (url_Parse _); simpl in *; lia. }
  destruct (build_targets rc (rc_Targets rc)) as [ts logs]. simpl in Hl.
  case_bool_decide; cbn.
  - split; [|done]. constructor; cbn; [by rewrite length_replicate|by rewrite length_replicate|].
    intros i Hi. apply lookup_replicate in Hi as [? _]. done.
  - split; [|unfold rr_no_wrap; cbn; lia]. constructor; cbn; [by rewrite length_replicate|lia].
Qed.

(** Clients of the interface: a healthy target is found exactly when there is one. *)
Lemma Next_finds_healthy {B} `{BB : !Balancer B} `{BS : !BalancerSpec B} (b : B) :
  bal_ok b -> bal_live b ->
  (some_healthy (pool b) /\ exists b' u t, Next b = Ret (b', Ok u) /\ bal_ok b' /\ pool b' = pool b /\
     (t, true) ∈ pool b /\ Target_URL t = u) \/
  (~ some_healthy (pool b) /\ exists b', Next b = Ret (b', Err ErrNoHealthyTargets) /\ bal_ok b' /\ pool b' = pool b).
Proof.
  intros Hok Hlive. destruct (next_total b Hok) as (b' & [u|e] & E & Hok' & Hp).
  - left. destruct (next_healthy b b' u Hok E) as (t & Ht & Hu). split; [|by exists b', u, t].
    apply Exists_exists. by exists (t, true).
  - right. destruct (next_error b b' e Hok E) as [-> Hn]. split; [by apply Hn|eauto].
Qed.

Lemma pool_set_elem u (p : list (Target * bool)) t :
  NoDup ((fun e => URL_String (Target_URL e.1)) <$> p) ->
  (t, true) ∈ pool_set u false p -> URL_String (Target_URL t) <> u.
Proof.
  induction p as [|[t0 b] p IH]; simpl; [by intros _ ?%elem_of_nil|].
  intros [Hnin Hnd]%NoDup_cons. case_bool_decide as Hu.
  - intros [?|Ht]%elem_of_cons; simplify_eq. intros Ht'. apply Hnin. simpl. rewrite <- Ht'.
    apply list_elem_of_fmap. exists (t, true). by split.
  - intros [?|Ht]%elem_of_cons; simplify_eq; auto.
Qed.

(** A sequence of operations on a balancer that can be marked: calls of [Next] by
    the proxy and marks by health checkers, in any order, with the results of the calls. *)
Inductive BalancerOp := OpNext | OpSet (u : string) (h : bool).

#[export] Instance BalancerOp_eq_dec : EqDecision BalancerOp.
Proof. solve_decision. Defined.

Fixpoint run_balancer {B} `{!Balancer B} (set : string -> bool -> B -> outcome B) (ops : list BalancerOp)
    (b : B) : outcome (B * list (result URL)) :=
  match ops with
  | [] => Ret (b, [])
  | OpNext :: ops' =>
      do! (b1, r) <- Next b;
      do! (b2, rs) <- run_balancer set ops' b1;
      Ret (b2, r :: rs)
  | OpSet u h :: ops' =>
      do! b1 <- set u h b;
      run_balancer set ops' b1
  end.

Definition pool_urls (p : list (Target * bool)) : list string :=
  (fun e => URL_String (Target_URL e.1)) <$> p.

(** Every target that prints [u] is unhealthy. *)
Definition marked_down (u : string) (p : list (Target * bool)) : Prop :=
  forall t, (t, true) ∈ p -> URL_String (Target_URL t) <> u.

(** A mark of another URL, or a mark down, leaves [u] down. *)
Lemma marked_down_set u u' h p :
  u' <> u \/ h = false -> marked_down u p -> marked_down u (pool_set u' h p).
Proof.
  intros Hu. unfold marked_down. induction p as [|[t0 b] p IH]; simpl; [done|]. intros Hp t.
  assert (Htl : marked_down u p) by (intros t' Ht'; apply Hp; by right).
  case_bool_decide as Heq.
  - intros [?|Ht]%elem_of_cons; [simplify_eq; naive_solver|by apply Htl].
  - intros [?|Ht]%elem_of_cons; [apply Hp; simplify_eq; by left|by apply IH].
Qed.

(** The results of a sequence without a mark up of [u]. *)
Lemma run_ops_down {B} `{BB : !Balancer B} `{BS : !BalancerSpec B} set u ops : forall b : B,
  asHealthSetter = Some set -> bal_ok b -> marked_down u (pool b) -> OpSet u true ∉ ops ->
  exists b' outs, run_balancer set ops b = Ret (b', outs) /\
    length outs = length (filter (fun o => o = OpNext) ops) /\
    Forall (fun r => forall v, r = Ok v -> URL_String v <> u) outs.
Proof.
  induction ops as [|[|u' h] ops IH]; intros b Hset Hok Hdown Hops; [by exists b, []| |];
    apply not_elem_of_cons in Hops as [Hop Hops]; cbn [run_balancer].
  - destruct (next_total b Hok) as (b1 & r & E & Hok1 & Hp1). rewrite E. cbn.
    destruct (IH b1 Hset Hok1 ltac:(by rewrite Hp1) Hops) as (b2 & rs & -> & Hl & Hall). cbn.
    exists b2, (r :: rs). split; [done|]. split; [by cbn; rewrite Hl|]. constructor; [|done].
    intros v ->. destruct (next_healthy b b1 v Hok E) as (t & Ht & <-). by apply Hdown.
  - destruct (set_total set u' h b Hset Hok) as (b1 & E & Hok1 & Hp1). rewrite E. cbn.
    destruct (IH b1) as (b2 & rs & E2 & Hl & Hall); [done|done| |done|by exists b2, rs].
    rewrite Hp1. apply marked_down_set; [|done].
    destruct (decide (u' = u)) as [->|]; [right; destruct h; congruence|by left].
Qed.

(** ** Properties *)

(** C29: a balancer built from a valid route is ready: it holds every configured
    target in order, all healthy, with a weight of at least one, nothing is skipped or logged, and the first call of
    [Next] returns one of the configured targets. *)
Theorem NewFromConfig_serves (rc : RouteConfig) :
  valid_route rc -> Z.of_nat (length (rc_Targets rc)) <= 2 ^ 64 ->
  let (b, logs) := NewFromConfig rc in
  bal_ok b /\ bal_live b /\ logs = [] /\ pool b = config_pool rc /\
  length (pool b) = length (rc_Targets rc) /\
  Forall (fun e => 1 <= Target_Weight e.1 /\ e.2 = true) (pool b) /\
  exists b' u tc, Next b = Ret (b', Ok u) /\ tc ∈ rc_Targets rc /\ url_Parse (tc_URL tc) = Ok u.
Proof.
  intros Hv Hlen. pose proof (NewFromConfig_ok rc Hlen) as [Hok Hlive].
  pose proof (NewFromConfig_pool rc) as Hpool.
  assert (Hlogs : snd (NewFromConfig rc) = []).
  { unfold NewFromConfig. pose proof (build_targets_no_logs rc _ (vr_target _ Hv)).
    by destruct (build_targets rc (rc_Targets rc)). }
  destruct (NewFromConfig rc) as [b logs]. cbn [fst snd] in *. rewrite Hpool.
  pose proof (vr_targets _ Hv) as Hne. pose proof (vr_target _ Hv) as Hts.
  pose proof (config_pool_length rc Hts) as Hplen.
  assert (Hall : forall e, e ∈ config_pool rc -> exists tc u, tc ∈ rc_Targets rc /\
            url_Parse (tc_URL tc) = Ok u /\ e = (mkTarget u (Z.max 1 (tc_Weight tc)), true)).
  { intros e (tc & Htc & He)%list_elem_of_omap. destruct (url_Parse (tc_URL tc)) as [u|] eqn:Hu; simplify_eq. eauto. }
  repeat (split; [done|]). split.
  { apply Forall_forall. intros e (tc & u & _ & _ & ->)%Hall. simpl. split; [lia|done]. }
  destruct (Next_finds_healthy b Hok Hlive) as [[_ (b' & u & t & E & _ & _ & Ht & Hu)]|[Hn _]].
  - rewrite Hpool in Ht. apply Hall in Ht as (tc & u' & Htc & Hp & [= ->]). simpl in Hu. subst u. by exists b', u', tc.
  - exfalso. apply Hn. rewrite Hpool. destruct (config_pool rc) as [|e p] eqn:Hc.
    { destruct (rc_Targets rc); [done|simpl in Hplen; lia]. }
    apply Exists_cons_hd. destruct (Hall e) as (? & ? & _ & _ & ->); [left|done].
Qed.

(** C30: a target that is marked unhealthy is never returned until it is marked
    healthy again.  For any balancer that keeps the interface's promises and whose
    targets print pairwise distinct URLs: after the mark, in every sequence of
    calls of [Next] and of marks up or down of any URL that does not mark this one
    up, every operation completes and no call returns it. *)
Theorem unhealthy_never_returned {B} `{BB : !Balancer B} `{BS : !BalancerSpec B} set (b : B) u ops :
  asHealthSetter = Some set -> bal_ok b -> NoDup (pool_urls (pool b)) -> OpSet u true ∉ ops ->
  exists b' b'' outs, set u false b = Ret b' /\ run_balancer set ops b' = Ret (b'', outs) /\
    length outs = length (filter (fun o => o = OpNext) ops) /\
    Forall (fun r => forall v, r = Ok v -> URL_String v <> u) outs.
Proof.
  intros Hset Hok Hnd Hops. destruct (set_total set u false b Hset Hok) as (b' & E & Hok' & Hp).
  destruct (run_ops_down set u ops b' Hset Hok') as (b'' & outs & E2 & Hl & Hall); [|done|eauto 10].
  rewrite Hp. intros t. by apply pool_set_elem.
Qed.
End Factory.

Section Examples.
#[local] Existing Instance plain_url_lib.

Definition example_route : RouteConfig :=
  mkRouteConfig "/api/users" [] [mkTargetConfig "http://a" 3; mkTargetConfig "http://b" 0]
    "weighted" false 0 None None.

Lemma example_route_valid : valid_route example_route.
Proof.
  constructor; cbn.
  - by exists "api/users".
  - intros (a & b & Hab). assert (Hc : Contains "/api/users" ".." = true) by (apply Contains_spec; eauto).
    vm_compute in Hc. done.
  - done.
  - repeat constructor; cbn; try done; eexists; reflexivity.
  - set_solver.
  - done.
Qed.

Lemma NewFromConfig_serves_witness :
  exists b' u, Next (fst (NewFromConfig example_route)) = Ret (b', Ok u).
Proof.
  pose proof (NewFromConfig_serves example_route example_route_valid) as H.
  destruct (NewFromConfig example_route) as [b logs] eqn:E.
  destruct H as (_ & _ & _ & _ & _ & _ & b' & u & _ & HN & _); [done|]. exists b', u. exact HN.
Defined.

(** Other targets go down and up, the marked one is marked down twice more. *)
Definition example_ops : list BalancerOp :=
  [OpNext; OpNext; OpSet "http://host1:3001" false; OpNext; OpSet "http://host2:3002" false; OpNext;
   OpSet "http://host1:3001" true; OpSet "http://unknown" true; OpNext; OpNext; OpNext].

Lemma unhealthy_never_returned_witness :
  exists b' b'' outs, RoundRobin_SetHealthy "http://host2:3002" false (NewRoundRobin example_targets) = Ret b' /\
    run_balancer RoundRobin_SetHealthy example_ops b' = Ret (b'', outs) /\ length outs = 7%nat /\
    Forall (fun r => forall v, r = Ok v -> URL_String v <> "http://host2:3002") outs.
Proof.
  apply (unhealthy_never_returned (B := RoundRobin) _ (NewRoundRobin example_targets) _ example_ops).
  - reflexivity.
  - constructor; done.
  - apply (bool_decide_unpack _). vm_compute. exact I.
  - apply (bool_decide_unpack _). vm_compute. exact I.
Defined.

(** [SetHealthy] only updates the first target with the given URL: a second
    target with the same URL keeps receiving requests after it was marked unhealthy. *)
Theorem duplicate_target_still_served :
  let rr := NewRoundRobin [mkTarget "http://a" 1; mkTarget "http://a" 1] in
  exists rr' rr'' , RoundRobin_SetHealthy "http://a" false rr = Ret rr' /\
    RoundRobin_Next rr' = Ret (rr'', Ok "http://a").
Proof.
  intros rr. exists (mkRoundRobin (rr_targets rr) [false; true] 0),
    (mkRoundRobin (rr_targets rr) [false; true] 1). by vm_compute.
Qed.
End Examples.
