(* ===== verification/Health.v ===== *)
(** * internal/balancer/health.go: the health checker

    The checker holds its own status map and shares the balancer with the proxy
    handler: operations take and return the pair of the checker and the shared
    balancer state.  Every probe is an explicit environment ([Probe]: what
    creating and sending the request returns, and the clock).  The theorems are
    proved against the balancer interface. *)

From S2P Require Import Prelude GoLib Balancer RoundRobin.

Record HealthStatus := mkHealthStatus {
  hs_Healthy : bool;
  hs_ConsecutiveFailures : Z;
  hs_LastChecked : Time;
  hs_LastError : option error
}.

(** The fields of [HealthCheckerImpl] beside the balancer; [hc_log] is what was
    written to its logger, newest first. *)
Record HealthChecker := mkHealthChecker {
  hc_log : list LogRecord;
  hc_interval : Duration;
  hc_timeout : Duration;
  hc_threshold : Z;
  hc_clientTimeout : Duration;
  hc_healthPath : string;
  hc_statuses : gmap string HealthStatus
}.

Definition set_statuses (m : gmap string HealthStatus) (hc : HealthChecker) : HealthChecker :=
  mkHealthChecker (hc_log hc) (hc_interval hc) (hc_timeout hc) (hc_threshold hc)
    (hc_clientTimeout hc) (hc_healthPath hc) m.

Definition log_hc (r : LogRecord) (hc : HealthChecker) : HealthChecker :=
  mkHealthChecker (r :: hc_log hc) (hc_interval hc) (hc_timeout hc) (hc_threshold hc)
    (hc_clientTimeout hc) (hc_healthPath hc) (hc_statuses hc).

(** ** Options *)

Definition HealthCheckerOption : Type := HealthChecker -> HealthChecker.

Definition WithInterval (d : Duration) : HealthCheckerOption := fun h =>
  mkHealthChecker (hc_log h) d (hc_timeout h) (hc_threshold h) (hc_clientTimeout h)
    (hc_healthPath h) (hc_statuses h).
Definition WithTimeout (d : Duration) : HealthCheckerOption := fun h =>
  mkHealthChecker (hc_log h) (hc_interval h) d (hc_threshold h) (hc_clientTimeout h)
    (hc_healthPath h) (hc_statuses h).
Definition WithThreshold (n : Z) : HealthCheckerOption := fun h =>
  mkHealthChecker (hc_log h) (hc_interval h) (hc_timeout h) n (hc_clientTimeout h)
    (hc_healthPath h) (hc_statuses h).
Definition WithHealthPath (path : string) : HealthCheckerOption := fun h =>
  mkHealthChecker (hc_log h) (hc_interval h) (hc_timeout h) (hc_threshold h)
    (hc_clientTimeout h) path (hc_statuses h).

(** What one probe of the network returns. *)
Record Probe := mkProbe {
  probe_NewRequest : string -> option error;
  probe_Do : string -> result Z;
  probe_Now : Time
}.

Section Health.
Context `{UL : URLLib} {B : Type} `{BB : !Balancer B}.

Definition HCState : Type := HealthChecker * B.

Definition default_checker : HealthChecker :=
  mkHealthChecker [] (10 * Second) (5 * Second) 3 0 "/health" ∅.

Definition NewHealthChecker (bal : B) (opts : list HealthCheckerOption) : outcome HealthChecker :=
  let hc := fold_left (fun h opt => opt h) opts default_checker in
  let hc := mkHealthChecker (hc_log hc) (hc_interval hc) (hc_timeout hc) (hc_threshold hc)
              (hc_timeout hc) (hc_healthPath hc) (hc_statuses hc) in
  do! sts <- Targets bal;
  Ret (set_statuses
         (fold_left (fun m t => <[URL_String (Target_URL (ts_Target t)) :=
                                    mkHealthStatus true 0 zeroTime None]> m) sts (hc_statuses hc)) hc).

(** [if setter, ok := hc.balancer.(healthSetter); ok { setter.SetHealthy(u, h) }] *)
Definition notify (u : string) (h : bool) (b : B) : outcome B :=
  match asHealthSetter with
  | Some set => set u h b
  | None => Ret b
  end.

Definition recordSuccess (now : Time) (targetURL : string) (st : HCState) : outcome HCState :=
  let (hc, b) := st in
  match hc_statuses hc !! targetURL with
  | None => Ret (hc, b)
  | Some status =>
      let wasUnhealthy := negb (hs_Healthy status) in
      let hc1 := set_statuses (<[targetURL := mkHealthStatus true 0 now None]> (hc_statuses hc)) hc in
      do! b1 <- notify targetURL true b;
      if wasUnhealthy
      then Ret (log_hc (mkLog LevelInfo "upstream recovered" [("target", AString targetURL)]) hc1, b1)
      else Ret (hc1, b1)
  end.

Definition recordFailure (now : Time) (targetURL : string) (err : error) (st : HCState)
    : outcome HCState :=
  let (hc, b) := st in
  match hc_statuses hc !! targetURL with
  | None => Ret (hc, b)
  | Some status =>
      let failures := wrap64 (hs_ConsecutiveFailures status + 1) in
      if (hc_threshold hc <=? failures) && hs_Healthy status then
        let hc1 := set_statuses
          (<[targetURL := mkHealthStatus false failures now (Some err)]> (hc_statuses hc)) hc in
        do! b1 <- notify targetURL false b;
        Ret (log_hc (mkLog LevelWarn "upstream marked unhealthy"
               [("target", AString targetURL); ("consecutive_failures", AInt failures);
                ("error", AString (error_Error err))]) hc1, b1)
      else
        Ret (set_statuses
          (<[targetURL := mkHealthStatus (hs_Healthy status) failures now (Some err)]>
             (hc_statuses hc)) hc, b)
  end.

Definition checkTarget (p : Probe) (targetURL : string) (st : HCState) : outcome HCState :=
  let checkURL := targetURL +:+ hc_healthPath (fst st) in
  match probe_NewRequest p checkURL with
  | Some err => recordFailure (probe_Now p) targetURL err st
  | None =>
      match probe_Do p checkURL with
      | Err err => recordFailure (probe_Now p) targetURL err st
      | Ok statusCode =>
          if (200 <=? statusCode) && (statusCode <? 300)
          then recordSuccess (probe_Now p) targetURL st
          else recordFailure (probe_Now p) targetURL
                 (Errorf ("health check returned status " +:+ itoa statusCode)) st
      end
  end.

(** [checkAll]: the [i]-th target listed at the start is probed in environment
    [probes i]. *)
Fixpoint check_list (probes : nat -> Probe) (i : nat) (ts : list TargetStatus) (st : HCState)
    : outcome HCState :=
  match ts with
  | [] => Ret st
  | t :: ts' =>
      do! st' <- checkTarget (probes i) (URL_String (Target_URL (ts_Target t))) st;
      check_list probes (S i) ts' st'
  end.

Definition checkAll (probes : nat -> Probe) (st : HCState) : outcome HCState :=
  do! targets <- Targets (snd st);
  check_list probes 0 targets st.

(** [time.NewTicker] panics when the interval is not positive. *)
Definition NewTicker (d : Duration) : outcome unit :=
  if d <=? 0 then Panic "non-positive interval for NewTicker" else Ret tt.

(** [Start]: the ticker, an initial pass, one pass per tick, until the context is done. *)
Fixpoint run_ticks (ticks : list (nat -> Probe)) (st : HCState) : outcome HCState :=
  match ticks with
  | [] => Ret st
  | p :: ps => do! st' <- checkAll p st; run_ticks ps st'
  end.

Definition Start (initial : nat -> Probe) (ticks : list (nat -> Probe)) (ctxErr : error)
    (st : HCState) : outcome (HCState * error) :=
  do! _ <- NewTicker (hc_interval (fst st));
  do! st1 <- checkAll initial st;
  do! st2 <- run_ticks ticks st1;
  Ret (st2, ctxErr).

Definition IsHealthy (targetURL : string) (hc : HealthChecker) : bool :=
  match hc_statuses hc !! targetURL with
  | Some status => hs_Healthy status
  | None => false
  end.

(** ** Abstract specification: health as a function of the probe history *)

Inductive ProbeEvent :=
  | PSuccess (u : string) (now : Time)
  | PFailure (u : string) (now : Time) (err : error).

Definition record_event (ev : ProbeEvent) (st : HCState) : outcome HCState :=
  match ev with
  | PSuccess u now => recordSuccess now u st
  | PFailure u now err => recordFailure now u err st
  end.

Fixpoint record_events (evs : list ProbeEvent) (st : HCState) : outcome HCState :=
  match evs with
  | [] => Ret st
  | ev :: evs' => do! st' <- record_event ev st; record_events evs' st'
  end.

(** Failures of [u] since its last success, in a history listed newest first. *)
Fixpoint failures_since (u : string) (hist : list ProbeEvent) : Z :=
  match hist with
  | [] => 0
  | PSuccess u' _ :: h => if bool_decide (u' = u) then 0 else failures_since u h
  | PFailure u' _ _ :: h => failures_since u h + (if bool_decide (u' = u) then 1 else 0)
  end.

(** A target is healthy while it has failed fewer than [threshold] times in a row. *)
Definition healthy_after (threshold : Z) (hist : list ProbeEvent) (u : string) : bool :=
  failures_since u hist <? threshold.

Definition pool_url (e : Target * bool) : string := URL_String (Target_URL e.1).

Definition spec_pool (threshold : Z) (hist : list ProbeEvent) (p : list (Target * bool))
    : list (Target * bool) :=
  (fun e => (e.1, healthy_after threshold hist (pool_url e))) <$> p.
End Health.

Arguments HCState : clear implicits.

Section HealthProofs.
Context `{UL : URLLib} {B : Type} `{BB : !Balancer B} `{BS : !BalancerSpec B}.
Variable set : string -> bool -> B -> outcome B.
Hypothesis has_setter : asHealthSetter = Some set.
Variable pool0 : list (Target * bool).
Hypothesis distinct : NoDup (pool_url <$> pool0).

(** The checker and the balancer agree with the history on every target. *)
Record tracks (threshold : Z) (hist : list ProbeEvent) (st : HCState B) : Prop := mk_tracks {
  tr_ok : bal_ok (snd st);
  tr_threshold : hc_threshold (fst st) = threshold;
  tr_pool : pool (snd st) = spec_pool threshold hist pool0;
  tr_dom : forall u, is_Some (hc_statuses (fst st) !! u) <-> u ∈ pool_url <$> pool0;
  tr_status : forall u s, hc_statuses (fst st) !! u = Some s ->
    hs_ConsecutiveFailures s = failures_since u hist /\
    hs_Healthy s = healthy_after threshold hist u
}.

Lemma failures_bound u hist : 0 <= failures_since u hist <= Z.of_nat (length hist).
Proof. induction hist as [|[] hist IH]; simpl; [lia|case_bool_decide; lia..]. Qed.

(** Setting one URL of a pool without duplicates. *)
Lemma pool_set_spec u h (f : Target * bool -> bool) p :
  NoDup (pool_url <$> p) ->
  pool_set u h ((fun e => (e.1, f e)) <$> p) =
  (fun e => (e.1, if bool_decide (pool_url e = u) then h else f e)) <$> p.
Proof.
  induction p as [|e p IH]; [done|]. intros [Hnin Hnd]%NoDup_cons.
  cbn [fmap list_fmap pool_set]. change (URL_String (Target_URL e.1)) with (pool_url e).
  case_bool_decide as Hu; [|f_equal; by apply IH].
  f_equal. apply list_fmap_ext. intros i e' He'. f_equal.
  rewrite bool_decide_eq_false_2; [done|]. intros Hu'. apply Hnin. rewrite Hu, <- Hu'.
  apply list_elem_of_fmap. exists e'. split; [done|]. by eapply list_elem_of_lookup_2.
Qed.

Definition event_url (ev : ProbeEvent) : string :=
  match ev with PSuccess u _ => u | PFailure u _ _ => u end.

Lemma healthy_after_other thr ev hist u :
  event_url ev <> u -> healthy_after thr (ev :: hist) u = healthy_after thr hist u.
Proof.
  intros Hne. unfold healthy_after. destruct ev; simpl in *;
    rewrite bool_decide_eq_false_2 by done; [done|by rewrite Z.add_0_r].
Qed.

(** The specified pool after an event, when the event's URL gets health [h]. *)
Lemma spec_pool_event thr ev hist h :
  healthy_after thr (ev :: hist) (event_url ev) = h ->
  spec_pool thr (ev :: hist) pool0 = pool_set (event_url ev) h (spec_pool thr hist pool0).
Proof.
  intros Hh. unfold spec_pool. rewrite (pool_set_spec _ _ (fun e => healthy_after thr hist (pool_url e))) by done.
  apply list_fmap_ext. intros _ e _. f_equal. case_bool_decide as Hu; [by rewrite Hu|].
  apply healthy_after_other. congruence.
Qed.

(** An event that leaves the health of its URL as it was. *)
Lemma spec_pool_same thr ev hist :
  healthy_after thr (ev :: hist) (event_url ev) = healthy_after thr hist (event_url ev) ->
  spec_pool thr (ev :: hist) pool0 = spec_pool thr hist pool0.
Proof.
  intros Hh. unfold spec_pool. apply list_fmap_ext. intros _ e _. f_equal.
  destruct (decide (event_url ev = pool_url e)) as [<-|]; [done|]. by apply healthy_after_other.
Qed.

(** Updating the status of the event's URL keeps the map in step. *)
Lemma track_statuses thr ev hist st (hc' : HealthChecker) (b' : B) s :
  tracks thr hist st -> is_Some (hc_statuses (fst st) !! event_url ev) ->
  bal_ok b' -> pool b' = spec_pool thr (ev :: hist) pool0 ->
  hc_threshold hc' = thr ->
  hc_statuses hc' = <[event_url ev := s]> (hc_statuses (fst st)) ->
  hs_ConsecutiveFailures s = failures_since (event_url ev) (ev :: hist) ->
  hs_Healthy s = healthy_after thr (ev :: hist) (event_url ev) ->
  tracks thr (ev :: hist) (hc', b').
Proof.
  intros [_ _ _ Hd Hs] Hin Hok Hp Ht Hm Hf Hh. constructor; simpl; [done..| |].
  - intros u. rewrite <- Hd, Hm, lookup_insert_is_Some'. naive_solver.
  - intros u s'. rewrite Hm. destruct (decide (event_url ev = u)) as [<-|Hne].
    + rewrite lookup_insert_eq. by intros [= <-].
    + rewrite lookup_insert_ne by done. intros [Hf' Hh']%Hs. rewrite healthy_after_other by done.
      split; [|done]. rewrite Hf'. destruct ev; simpl in *;
        rewrite bool_decide_eq_false_2 by done; [done|lia].
Qed.

(** An event about a URL the checker does not know is ignored. *)
Lemma track_unknown thr ev hist st :
  tracks thr hist st -> hc_statuses (fst st) !! event_url ev = None ->
  tracks thr (ev :: hist) st.
Proof.
  intros [Hok Ht Hp Hd Hs] Hn. constructor; [done..| |done|].
  - rewrite Hp. symmetry. unfold spec_pool. apply list_fmap_ext. intros i e He. f_equal.
    apply healthy_after_other. intros Hu. assert (is_Some (hc_statuses (fst st) !! pool_url e)) as [? Hx].
    { apply Hd, list_elem_of_fmap. exists e. split; [done|]. by eapply list_elem_of_lookup_2. }
    rewrite <- Hu, Hn in Hx. done.
  - intros u s Hu. destruct (Hs u s Hu) as [Hf Hh].
    assert (event_url ev <> u) by congruence. rewrite healthy_after_other by done. split; [|done].
    rewrite Hf. destruct ev; simpl in *; rewrite bool_decide_eq_false_2 by done; [done|lia].
Qed.

Lemma record_event_tracks thr ev hist st :
  1 <= thr -> Z.of_nat (S (length hist)) <= int64_max ->
  tracks thr hist st ->
  exists st', record_event ev st = Ret st' /\ tracks thr (ev :: hist) st'.
Proof.
  intros Hthr Hlen Htr. destruct st as [hc b]. pose proof Htr as [Hok Ht Hp Hd Hs]. simpl in *.
  destruct (hc_statuses hc !! event_url ev) as [s|] eqn:Hu.
  2: { exists (hc, b). split; [|by apply track_unknown].
       destruct ev; simpl in *; by rewrite Hu. }
  destruct (Hs _ _ Hu) as [Hf Hh].
  assert (Hset : forall h, healthy_after thr (ev :: hist) (event_url ev) = h ->
    exists b', notify (event_url ev) h b = Ret b' /\ bal_ok b' /\
      pool b' = spec_pool thr (ev :: hist) pool0).
  { intros h Hh'. unfold notify. rewrite has_setter.
    destruct (set_total set (event_url ev) h b has_setter Hok) as (b' & -> & ? & Hp').
    exists b'. by rewrite Hp', Hp, <- (spec_pool_event _ _ _ _ Hh'). }
  destruct ev as [u now|u now err]; simpl in *; rewrite Hu.
  - assert (Hh' : healthy_after thr (PSuccess u now :: hist) u = true).
    { unfold healthy_after; simpl. rewrite bool_decide_eq_true_2 by done. apply Z.ltb_lt. lia. }
    destruct (Hset _ Hh') as (b' & -> & Hok' & Hp'). simpl.
    assert (Hfs : failures_since u (PSuccess u now :: hist) = 0) by (simpl; by rewrite bool_decide_eq_true_2).
    destruct (negb _); eexists; (split; [done|]);
      (eapply (track_statuses _ (PSuccess u now)); [exact Htr|done|done|done|done|done|done|done]).
  - pose proof (failures_bound u hist) as Hb.
    assert (Hfs : failures_since u (PFailure u now err :: hist) = failures_since u hist + 1)
      by (simpl; by rewrite bool_decide_eq_true_2).
    rewrite Hf, Hh, Ht, wrap64_id by (unfold in_int64, int64_min, int64_max in *; lia).
    destruct (thr <=? failures_since u hist + 1) eqn:Hcmp; simpl.
    + assert (Hh' : healthy_after thr (PFailure u now err :: hist) u = false).
      { unfold healthy_after. rewrite Hfs. zbool. apply Z.ltb_ge. lia. }
      destruct (healthy_after thr hist u) eqn:Hold.
      * destruct (Hset _ Hh') as (b' & -> & Hok' & Hp'). simpl. eexists. split; [done|].
        eapply (track_statuses _ (PFailure u now err)); [exact Htr|done|done|done|done|done|done|done].
      * eexists. split; [done|].
        eapply (track_statuses _ (PFailure u now err)); [exact Htr|done|done| |done|done|done|]; [|simpl; congruence].
        rewrite Hp. symmetry. apply spec_pool_same. simpl. congruence.
    + assert (Hh' : healthy_after thr (PFailure u now err :: hist) u = true).
      { unfold healthy_after. rewrite Hfs. zbool. apply Z.ltb_lt. lia. }
      assert (Hold : healthy_after thr hist u = true).
      { unfold healthy_after. zbool. apply Z.ltb_lt. lia. }
      eexists. split; [done|].
      eapply (track_statuses _ (PFailure u now err)); [exact Htr|done|done| |done|done|done|]; [|simpl; congruence].
      rewrite Hp. symmetry. apply spec_pool_same. simpl. congruence.
Qed.

Lemma record_events_tracks thr evs : forall hist st,
  1 <= thr -> Z.of_nat (length evs + length hist) <= int64_max ->
  tracks thr hist st ->
  exists st', record_events evs st = Ret st' /\ tracks thr (rev evs ++ hist) st'.
Proof.
  induction evs as [|ev evs IH]; intros hist st Hthr Hlen Htr; [by exists st|].
  simpl in Hlen. destruct (record_event_tracks thr ev hist st) as (st1 & E1 & Htr1); [done|lia|done|].
  destruct (IH (ev :: hist) st1) as (st2 & E2 & Htr2); [done|simpl; lia|done|].
  exists st2. simpl. rewrite E1. simpl. rewrite E2. by rewrite <- app_assoc.
Qed.

(** ** From probes to events *)

(** The event a probe of [u] amounts to. *)
Definition probe_event (path : string) (p : Probe) (u : string) : ProbeEvent :=
  match probe_NewRequest p (u +:+ path) with
  | Some err => PFailure u (probe_Now p) err
  | None =>
      match probe_Do p (u +:+ path) with
      | Err err => PFailure u (probe_Now p) err
      | Ok code =>
          if (200 <=? code) && (code <? 300) then PSuccess u (probe_Now p)
          else PFailure u (probe_Now p) (Errorf ("health check returned status " +:+ itoa code))
      end
  end.

Lemma checkTarget_event p u (st : HCState B) :
  checkTarget p u st = record_event (probe_event (hc_healthPath (fst st)) p u) st.
Proof.
  unfold checkTarget, probe_event. destruct (probe_NewRequest _ _); [done|].
  destruct (probe_Do _ _); [|done]. by destruct (_ && _).
Qed.

Lemma record_event_path ev (st st' : HCState B) :
  record_event ev st = Ret st' -> hc_healthPath (fst st') = hc_healthPath (fst st).
Proof.
  destruct st as [hc b], ev; simpl; destruct (hc_statuses hc !! u); try (by intros [= <-]).
  - destruct (notify _ _ _); [|done]. simpl. destruct (negb _); by intros [= <-].
  - destruct (_ && _); [|by intros [= <-]]. destruct (notify _ _ _); [|done]. by intros [= <-].
Qed.

Definition round_events (path : string) (probes : nat -> Probe) (i : nat)
    (us : list string) : list ProbeEvent :=
  imap (fun j u => probe_event path (probes (i + j)%nat) u) us.

Lemma check_list_events probes sts : forall i (st : HCState B),
  check_list probes i sts st =
  record_events (round_events (hc_healthPath (fst st)) probes i
    ((fun t => URL_String (Target_URL (ts_Target t))) <$> sts)) st.
Proof.
  induction sts as [|t sts IH]; intros i st; [done|].
  unfold round_events in *. simpl. rewrite checkTarget_event, Nat.add_0_r.
  destruct (record_event _ st) as [st'|] eqn:E; [|done]. simpl.
  apply record_event_path in E. rewrite IH, E. f_equal. apply imap_ext.
  intros j u _. simpl. by rewrite Nat.add_succ_r.
Qed.

Lemma checkAll_tracks thr probes hist st :
  1 <= thr -> Z.of_nat (length pool0 + length hist) <= int64_max ->
  tracks thr hist st ->
  exists st', checkAll probes st = Ret st' /\ hc_healthPath (fst st') = hc_healthPath (fst st) /\
    tracks thr (rev (round_events (hc_healthPath (fst st)) probes 0 (pool_url <$> pool0)) ++ hist) st'.
Proof.
  intros Hthr Hlen Htr. unfold checkAll. pose proof Htr as [Hok _ Hp _ _].
  destruct (targets_total (snd st) Hok) as (sts & -> & Hsts). simpl.
  rewrite check_list_events.
  assert (Hurls : (fun t => URL_String (Target_URL (ts_Target t))) <$> sts = pool_url <$> pool0).
  { rewrite Hp in Hsts. apply (f_equal (fmap pool_url)) in Hsts. unfold spec_pool in Hsts.
    rewrite <- !list_fmap_compose in Hsts. exact Hsts. }
  rewrite Hurls. destruct (record_events_tracks thr
    (round_events (hc_healthPath (fst st)) probes 0 (pool_url <$> pool0)) hist st Hthr) as (st' & E & Htr'); [|done|].
  { unfold round_events. by rewrite length_imap, length_fmap. }
  exists st'. split; [done|]. split; [|done]. revert E. clear.
  generalize (round_events (hc_healthPath (fst st)) probes 0 (pool_url <$> pool0)).
  intros evs. revert st. induction evs as [|ev evs IH]; intros st; simpl; [by intros [= <-]|].
  destruct (record_event ev st) as [st1|] eqn:E; [|done]. simpl. intros E'.
  rewrite (IH _ E'). by eapply record_event_path.
Qed.

(** All events of a run, oldest first. *)
Definition run_events (path : string) (rounds : list (nat -> Probe)) : list ProbeEvent :=
  concat ((fun probes => round_events path probes 0 (pool_url <$> pool0)) <$> rounds).

Lemma run_ticks_tracks thr ticks : forall hist st,
  1 <= thr -> Z.of_nat (length ticks * length pool0 + length hist) <= int64_max ->
  tracks thr hist st ->
  exists st', run_ticks ticks st = Ret st' /\
    tracks thr (rev (run_events (hc_healthPath (fst st)) ticks) ++ hist) st'.
Proof.
  induction ticks as [|p ps IH]; intros hist st Hthr Hlen Htr; [by exists st|]. simpl in Hlen.
  destruct (checkAll_tracks thr p hist st) as (st1 & E1 & Hpath & Htr1); [done|lia|done|].
  destruct (IH (rev (round_events (hc_healthPath (fst st)) p 0 (pool_url <$> pool0)) ++ hist) st1 Hthr)
    as (st2 & E2 & Htr2); [|done|].
  { unfold round_events. rewrite length_app, length_rev, length_imap, length_fmap. lia. }
  exists st2. simpl. rewrite E1. simpl. split; [done|]. rewrite Hpath in Htr2.
  unfold run_events in *. rewrite fmap_cons. simpl concat. by rewrite rev_app_distr, <- app_assoc.
Qed.

(** ** A new checker tracks the empty history *)

Definition keeps_statuses (o : HealthCheckerOption) : Prop :=
  forall h, hc_statuses (o h) = hc_statuses h.

Lemma options_statuses opts : Forall keeps_statuses opts -> forall h,
  hc_statuses (fold_left (fun h (opt : HealthCheckerOption) => opt h) opts h) = hc_statuses h.
Proof. induction 1 as [|o opts Ho _ IH]; intros h; [done|]. simpl. by rewrite IH, Ho. Qed.

Lemma fold_statuses (sts : list TargetStatus) : forall m : gmap string HealthStatus,
  (forall u s, m !! u = Some s -> s = mkHealthStatus true 0 zeroTime None) ->
  let m' := fold_left (fun m t => <[URL_String (Target_URL (ts_Target t)) :=
              mkHealthStatus true 0 zeroTime None]> m) sts m in
  (forall u s, m' !! u = Some s -> s = mkHealthStatus true 0 zeroTime None) /\
  (forall u, is_Some (m' !! u) <-> is_Some (m !! u) \/
     u ∈ (fun t => URL_String (Target_URL (ts_Target t))) <$> sts).
Proof.
  induction sts as [|t sts IH]; intros m Hm; simpl.
  { split; [done|]. intros u. rewrite elem_of_nil. naive_solver. }
  destruct (IH (<[URL_String (Target_URL (ts_Target t)) := mkHealthStatus true 0 zeroTime None]> m)) as [H1 H2].
  { intros u s. rewrite lookup_insert_Some. intros [[_ <-]|[_ ?]]; [done|eauto]. }
  split; [done|]. intros u. rewrite H2, lookup_insert_is_Some', elem_of_cons. naive_solver.
Qed.

Lemma NewHealthChecker_tracks b opts :
  bal_ok b -> pool b = pool0 -> Forall (fun e => e.2 = true) pool0 -> Forall keeps_statuses opts ->
  exists hc, NewHealthChecker b opts = Ret hc /\
    hc_threshold hc = hc_threshold (fold_left (fun h (opt : HealthCheckerOption) => opt h) opts default_checker) /\
    (1 <= hc_threshold hc -> tracks (hc_threshold hc) [] (hc, b)).
Proof.
  intros Hok Hp Hall Hopts. unfold NewHealthChecker.
  destruct (targets_total b Hok) as (sts & -> & Hsts). simpl. eexists. split; [done|]. split; [done|].
  simpl. intros Hthr.
  assert (Hurls : (fun t => URL_String (Target_URL (ts_Target t))) <$> sts = pool_url <$> pool0).
  { rewrite Hp in Hsts. apply (f_equal (fmap pool_url)) in Hsts.
    rewrite <- !list_fmap_compose in Hsts. exact Hsts. }
  rewrite options_statuses by done. destruct (fold_statuses sts ∅) as [H1 H2]; [done|].
  constructor; simpl; [done|done| | |].
  - rewrite Hp. unfold spec_pool. symmetry. transitivity (id <$> pool0); [|by rewrite list_fmap_id].
    apply list_fmap_ext. intros i [t h] Hi. rewrite Forall_lookup in Hall.
    specialize (Hall _ _ Hi). simpl in *. subst. unfold healthy_after; simpl.
    f_equal. apply Z.ltb_lt. lia.
  - intros u. rewrite H2, Hurls. split; [intros [[? ?]|]; done|by right].
  - intros u s Hu. rewrite (H1 _ _ Hu). simpl. split; [done|].
    unfold healthy_after; simpl. symmetry. apply Z.ltb_lt. lia.
Qed.

Lemma tracks_IsHealthy thr hist st e :
  tracks thr hist st -> e ∈ pool0 ->
  IsHealthy (pool_url e) (fst st) = healthy_after thr hist (pool_url e).
Proof.
  intros [_ _ _ Hd Hs] He. unfold IsHealthy.
  destruct (hc_statuses (fst st) !! pool_url e) as [s|] eqn:Hu; [by apply Hs|].
  exfalso. assert (is_Some (hc_statuses (fst st) !! pool_url e)) as [? Hx]; [|by rewrite Hu in Hx].
  apply Hd, list_elem_of_fmap. eauto.
Qed.
End HealthProofs.

Section HealthProperties.
Context `{UL : URLLib} {B : Type} `{BB : !Balancer B} `{BS : !BalancerSpec B}.

(** C4: refinement of the health checker.  For any balancer that keeps the
    interface's promises, starts with every target healthy and prints its targets' URLs
    distinctly, and any threshold of at least one: when the interval is positive,
    after the initial pass and any number of ticks [Start] returns the context's
    error, and both the balancer's health flags and [IsHealthy] are exactly the
    specification: a target is healthy if and only if it failed fewer than
    threshold times in a row since its last success.  When the interval is not
    positive [Start] panics before the first probe. *)
Theorem Start_refines set (b : B) opts initial ticks ctxErr hc :
  asHealthSetter = Some set -> bal_ok b ->
  NoDup (pool_url <$> pool b) -> Forall (fun e => e.2 = true) (pool b) ->
  Forall keeps_statuses opts -> NewHealthChecker b opts = Ret hc -> 1 <= hc_threshold hc ->
  Z.of_nat (S (length ticks) * length (pool b)) <= int64_max ->
  if hc_interval hc <=? 0
  then Start initial ticks ctxErr (hc, b) = Panic "non-positive interval for NewTicker"
  else exists hc' b', Start initial ticks ctxErr (hc, b) = Ret ((hc', b'), ctxErr) /\ bal_ok b' /\
    let hist := rev (run_events (pool b) (hc_healthPath hc) (initial :: ticks)) in
    pool b' = spec_pool (hc_threshold hc) hist (pool b) /\
    forall e, e ∈ pool b ->
      IsHealthy (pool_url e) hc' = healthy_after (hc_threshold hc) hist (pool_url e).
Proof.
  intros Hset Hok Hnd Hall Hopts HN Hthr Hlen. unfold Start, NewTicker. cbn [fst].
  destruct (hc_interval hc <=? 0) eqn:Hint; [done|].
  destruct (NewHealthChecker_tracks (pool b) Hnd b opts Hok eq_refl Hall Hopts) as (hc0 & HN0 & _ & Htr).
  rewrite HN in HN0. injection HN0 as <-. specialize (Htr Hthr).
  destruct (checkAll_tracks set Hset (pool b) Hnd _ initial [] _ Hthr ltac:(simpl in *; lia) Htr)
    as (st1 & E1 & Hpath & Htr1).
  destruct (run_ticks_tracks set Hset (pool b) Hnd _ ticks
    (rev (round_events (hc_healthPath (fst (hc, b))) initial 0 (pool_url <$> pool b)) ++ []) st1 Hthr)
    as (st2 & E2 & Htr2); [|exact Htr1|].
  { rewrite app_nil_r, length_rev. unfold round_events. rewrite length_imap, length_fmap. simpl in *. lia. }
  cbn [outcome_bind]. rewrite E1. simpl. rewrite E2. simpl. destruct st2 as [hc' b']. exists hc', b'.
  split; [done|]. split; [by apply (tr_ok _ _ _ _ Htr2)|].
  rewrite Hpath, app_nil_r, <- rev_app_distr in Htr2. cbv zeta.
  change (run_events (pool b) (hc_healthPath hc) (initial :: ticks)) with
    (round_events (hc_healthPath hc) initial 0 (pool_url <$> pool b) ++
     run_events (pool b) (hc_healthPath hc) ticks).
  split; [by apply (tr_pool _ _ _ _ Htr2)|]. intros e He. by apply (tracks_IsHealthy _ _ _ _ _ Htr2).
Qed.
End HealthProperties.

Section Examples.
#[local] Existing Instance plain_url_lib.

(** Every probe of host1 answers 500, every other probe answers 200. *)
Definition example_probe : Probe :=
  mkProbe (fun _ => None)
    (fun u => if bool_decide (u = "http://host1:3001/health") then Ok 500 else Ok 200) 0.

Lemma Start_refines_witness :
  exists hc hc' b', NewHealthChecker (NewRoundRobin example_targets) [WithThreshold 2] = Ret hc /\
    Start (fun _ => example_probe) [fun _ => example_probe] ErrCanceled (hc, NewRoundRobin example_targets) =
      Ret ((hc', b'), ErrCanceled) /\
    snd <$> pool b' = [false; true; true] /\
    IsHealthy "http://host1:3001" hc' = false.
Proof.
  destruct (NewHealthChecker (NewRoundRobin example_targets) [WithThreshold 2]) as [hc|] eqn:E;
    [|exfalso; vm_compute in E; discriminate].
  assert (Hhc : hc_threshold hc = 2 /\ hc_healthPath hc = "/health" /\ (hc_interval hc <=? 0) = false)
    by (vm_compute in E; injection E as <-; done).
  destruct Hhc as (Hthr & Hpath & Hint).
  pose proof (Start_refines RoundRobin_SetHealthy (NewRoundRobin example_targets) [WithThreshold 2]
    (fun _ => example_probe) [fun _ => example_probe] ErrCanceled hc)
    as HR. rewrite Hint in HR. destruct HR as (hc' & b' & HS & _ & Hp & Hh);
    [done|constructor; done| | |repeat constructor|done|lia|done|].
  - apply (bool_decide_unpack _). vm_compute. exact I.
  - repeat constructor.
  - exists hc, hc', b'. split; [done|]. split; [exact HS|]. rewrite Hthr, Hpath in Hp, Hh. split.
    + rewrite Hp. vm_compute. reflexivity.
    + eapply eq_trans; [apply (Hh (@mkTarget plain_url_lib "http://host1:3001" 1, true)); left|].
      vm_compute. reflexivity.
Defined.
End Examples.
