(* ===== verification/Breaker.v ===== *)
(** * internal/circuit: the circuit breaker

    state.go and breaker.go.  Every method holds the mutex for its whole body
    except [Execute], which runs three critical sections ([beforeRequest], the
    request counter, [onSuccess] or [onFailure]) around the call of [fn]: each
    critical section is one definition, [Execute] composes them, and
    BreakerMachine.v interleaves them.  Clock reads are arguments, in the order the
    code reads them. *)

From S2P Require Import Prelude.

(** ** state.go *)

(** [State] is an int; the last constructor is any value that is not one of the
    three constants. *)
Inductive State :=
  | StateClosed
  | StateOpen
  | StateHalfOpen
  | StateOf (n : Z).

#[export] Instance State_eq_dec : EqDecision State.
Proof. solve_decision. Defined.

Definition State_String (s : State) : string :=
  match s with
  | StateClosed => "closed"
  | StateOpen => "open"
  | StateHalfOpen => "half-open"
  | StateOf _ => "unknown"
  end.

Record BreakerConfig := mkBreakerConfig {
  FailureThreshold : Z;
  ResetTimeout : Duration;
  HalfOpenMaxReqs : Z;
  FailureWindow : Duration
}.

Definition DefaultBreakerConfig : BreakerConfig :=
  mkBreakerConfig 5 (30 * Second) 3 (60 * Second).

Record BreakerStats := mkBreakerStats {
  bs_State : State;
  bs_TotalRequests : Z;
  bs_TotalFailures : Z;
  bs_ConsecutiveFails : Z;
  bs_LastFailure : Time;
  bs_LastSuccess : Time;
  bs_LastStateChange : Time
}.

(** ** breaker.go *)

(** [logger] tells whether the logger is non-nil; [failures] is the content of
    the slice. *)
Record CircuitBreaker := mkBreaker {
  config : BreakerConfig;
  logger : bool;
  state : State;
  consecutiveFails : Z;
  totalRequests : Z;
  totalFailures : Z;
  halfOpenReqs : Z;
  lastFailure : Time;
  lastSuccess : Time;
  lastStateChange : Time;
  failures : list Time
}.

Definition NewBreaker (cfg : BreakerConfig) (logger : bool) (now : Time) : CircuitBreaker :=
  mkBreaker cfg logger StateClosed 0 0 0 0 zeroTime zeroTime now [].

Definition transition_logs (logger : bool) (oldState newState : State) (fails : Z) : list LogRecord :=
  if logger then
    match newState with
    | StateOpen =>
        [mkLog LevelWarn "circuit breaker opened"
           [("from", AString (State_String oldState)); ("failures", AInt fails)]]
    | StateClosed =>
        [mkLog LevelInfo "circuit breaker closed" [("from", AString (State_String oldState))]]
    | StateHalfOpen =>
        [mkLog LevelInfo "circuit breaker half-open" [("from", AString (State_String oldState))]]
    | StateOf _ => []
    end
  else [].

Definition transitionTo (newState : State) (now : Time) (cb : CircuitBreaker) :
    CircuitBreaker * list LogRecord :=
  (mkBreaker (config cb) (logger cb) newState (consecutiveFails cb) (totalRequests cb)
     (totalFailures cb) (halfOpenReqs cb) (lastFailure cb) (lastSuccess cb) now (failures cb),
   transition_logs (logger cb) (state cb) newState (consecutiveFails cb)).

Definition set_halfOpenReqs (n : Z) (cb : CircuitBreaker) : CircuitBreaker :=
  mkBreaker (config cb) (logger cb) (state cb) (consecutiveFails cb) (totalRequests cb)
    (totalFailures cb) n (lastFailure cb) (lastSuccess cb) (lastStateChange cb) (failures cb).

Definition set_failures (l : list Time) (cb : CircuitBreaker) : CircuitBreaker :=
  mkBreaker (config cb) (logger cb) (state cb) (consecutiveFails cb) (totalRequests cb)
    (totalFailures cb) (halfOpenReqs cb) (lastFailure cb) (lastSuccess cb) (lastStateChange cb) l.

(** [now] is read first; [change] is the clock read of [transitionTo]. *)
Definition beforeRequest (now change : Time) (cb : CircuitBreaker) :
    CircuitBreaker * list LogRecord * option error :=
  match state cb with
  | StateClosed => (cb, [], None)
  | StateOpen =>
      if ResetTimeout (config cb) <? Time_Sub now (lastStateChange cb) then
        let '(cb1, logs) := transitionTo StateHalfOpen change cb in
        (set_halfOpenReqs 0 cb1, logs, None)
      else (cb, [], Some ErrCircuitOpen)
  | StateHalfOpen =>
      if HalfOpenMaxReqs (config cb) <=? halfOpenReqs cb then (cb, [], Some ErrCircuitOpen)
      else (set_halfOpenReqs (wrap64 (halfOpenReqs cb + 1)) cb, [], None)
  | StateOf _ => (cb, [], None)
  end.

(** The critical section of [Execute] that counts the request. *)
Definition countRequest (cb : CircuitBreaker) : CircuitBreaker :=
  mkBreaker (config cb) (logger cb) (state cb) (consecutiveFails cb)
    (wrap64 (totalRequests cb + 1)) (totalFailures cb) (halfOpenReqs cb) (lastFailure cb)
    (lastSuccess cb) (lastStateChange cb) (failures cb).

Definition onSuccess (now change : Time) (cb : CircuitBreaker) : CircuitBreaker * list LogRecord :=
  let cb1 :=
    mkBreaker (config cb) (logger cb) (state cb) 0 (totalRequests cb) (totalFailures cb)
      (halfOpenReqs cb) (lastFailure cb) now (lastStateChange cb) (failures cb) in
  if bool_decide (state cb1 = StateHalfOpen) then
    let '(cb2, logs) := transitionTo StateClosed change cb1 in
    (set_failures [] cb2, logs)
  else (cb1, []).

(** The loop that drops old failures.  [cleaned := cb.failures[:0]] shares the
    array [arr] the loop ranges over: element [i] is read, and appending to
    [cleaned], which holds [w] elements, writes element [w] of the same array. *)
Fixpoint clean_loop (cutoff : Time) (arr : list Time) (i w n : nat) : outcome (list Time * nat) :=
  match n with
  | O => Ret (arr, w)
  | S n' =>
      do! ft <- slice_get arr i;
      if Time_After ft cutoff then
        do! arr' <- slice_set arr w ft;
        clean_loop cutoff arr' (S i) (S w) n'
      else clean_loop cutoff arr (S i) w n'
  end.

Definition cleanFailures (cutoff : Time) (fs : list Time) : outcome (list Time) :=
  do! (arr, w) <- clean_loop cutoff fs 0 0 (length fs);
  Ret (take w arr).

(** [now.Add(-cb.config.FailureWindow)] *)
Definition window_cutoff (now : Time) (cfg : BreakerConfig) : Time :=
  Time_Add now (wrap64 (- FailureWindow cfg)).

Definition onFailure (now change : Time) (cb : CircuitBreaker) :
    outcome (CircuitBreaker * list LogRecord) :=
  let appended := failures cb ++ [now] in
  do! cleaned <- cleanFailures (window_cutoff now (config cb)) appended;
  let cb1 :=
    mkBreaker (config cb) (logger cb) (state cb) (wrap64 (consecutiveFails cb + 1))
      (totalRequests cb) (wrap64 (totalFailures cb + 1)) (halfOpenReqs cb) now (lastSuccess cb)
      (lastStateChange cb) cleaned in
  match state cb1 with
  | StateClosed =>
      if FailureThreshold (config cb1) <=? Z.of_nat (length (failures cb1))
      then Ret (transitionTo StateOpen change cb1) else Ret (cb1, [])
  | StateHalfOpen => Ret (transitionTo StateOpen change cb1)
  | _ => Ret (cb1, [])
  end.

Definition CircuitBreaker_State (cb : CircuitBreaker) : State := state cb.

Definition CircuitBreaker_Stats (cb : CircuitBreaker) : BreakerStats :=
  mkBreakerStats (state cb) (totalRequests cb) (totalFailures cb) (consecutiveFails cb)
    (lastFailure cb) (lastSuccess cb) (lastStateChange cb).

Definition CircuitBreaker_Reset (now : Time) (cb : CircuitBreaker) :
    CircuitBreaker * list LogRecord :=
  (mkBreaker (config cb) (logger cb) StateClosed 0 (totalRequests cb) (totalFailures cb) 0
     (lastFailure cb) (lastSuccess cb) now [],
   if logger cb then [mkLog LevelInfo "circuit breaker manually reset" []] else []).

(** The clock reads of one [Execute]: [beforeRequest] and its transition,
    [onSuccess] or [onFailure] and its transition. *)
Record ExecClock := mkExecClock {
  ck_before : Time;
  ck_before_change : Time;
  ck_after : Time;
  ck_after_change : Time
}.

(** A function passed to [Execute]: it acts on a world [W] and returns an error,
    nil, or panics. *)
Abbreviation Fn W := (W -> W * outcome (option error)) (only parsing).

(** What [Execute] leaves: the breaker, the world and the returned error, or the
    panic that went through it. *)
Record Executed (B W : Type) := mkExecuted {
  ex_breaker : B;
  ex_world : W;
  ex_result : outcome (option error)
}.
Arguments mkExecuted {B W}.
Arguments ex_breaker {B W}.
Arguments ex_world {B W}.
Arguments ex_result {B W}.

(** The logger writes each record to the world with [log]. *)
Definition emit_logs {W} (log : LogRecord -> W -> W) (logs : list LogRecord) (w : W) : W :=
  fold_left (fun w r => log r w) logs w.
#[global] Arguments emit_logs : simpl never.

Definition CircuitBreaker_Execute {W} (log : LogRecord -> W -> W) (ck : ExecClock) (fn : Fn W)
    (cb : CircuitBreaker) (w : W) : Executed CircuitBreaker W :=
  match beforeRequest (ck_before ck) (ck_before_change ck) cb with
  | (cb1, logs1, Some err) => mkExecuted cb1 (emit_logs log logs1 w) (Ret (Some err))
  | (cb1, logs1, None) =>
      let cb2 := countRequest cb1 in
      match fn (emit_logs log logs1 w) with
      | (w', Panic msg) => mkExecuted cb2 w' (Panic msg)
      | (w', Ret (Some err)) =>
          match onFailure (ck_after ck) (ck_after_change ck) cb2 with
          | Ret (cb3, logs3) => mkExecuted cb3 (emit_logs log logs3 w') (Ret (Some err))
          | Panic msg => mkExecuted cb2 w' (Panic msg)
          end
      | (w', Ret None) =>
          let '(cb3, logs3) := onSuccess (ck_after ck) (ck_after_change ck) cb2 in
          mkExecuted cb3 (emit_logs log logs3 w') (Ret None)
      end
  end.

(** ** The interface [Breaker] and what it promises to its clients *)

Class Breaker (B : Type) := {
  Execute : forall {W : Type}, (LogRecord -> W -> W) -> ExecClock -> Fn W -> B -> W -> Executed B W;
  Breaker_State : B -> State;
  Breaker_Stats : B -> BreakerStats;
  Breaker_Reset : Time -> B -> B * list LogRecord
}.

#[export] Instance CircuitBreaker_Breaker : Breaker CircuitBreaker := {
  Execute := @CircuitBreaker_Execute;
  Breaker_State := CircuitBreaker_State;
  Breaker_Stats := CircuitBreaker_Stats;
  Breaker_Reset := CircuitBreaker_Reset
}.

(** A call either is rejected, and then neither [fn] nor the logger ran, or ran
    [fn] exactly once, between the log records of the breaker, and hands back its result;
    which of the two happens depends on the clock and the breaker only. *)
Class BreakerSpec (B : Type) `{!Breaker B} := {
  admits : ExecClock -> B -> bool;
  execute_rejected {W} log ck (fn : Fn W) b w : admits ck b = false ->
    Execute log ck fn b w = mkExecuted b w (Ret (Some ErrCircuitOpen));
  execute_admitted {W} log ck (fn : Fn W) b w : admits ck b = true ->
    exists before after,
      ex_world (Execute log ck fn b w) = emit_logs log after (fst (fn (emit_logs log before w))) /\
      ex_result (Execute log ck fn b w) = snd (fn (emit_logs log before w))
}.

(** ** The in-place compaction is a filter *)

(** The failures of [l] inside the window that ends now. *)
Definition recent (cutoff : Time) (l : list Time) : list Time := filter (fun t => cutoff < t) l.

Lemma recent_app cutoff l1 l2 : recent cutoff (l1 ++ l2) = recent cutoff l1 ++ recent cutoff l2.
Proof. apply filter_app. Qed.

Lemma recent_recent c1 c2 l : c1 <= c2 -> recent c2 (recent c1 l) = recent c2 l.
Proof.
  intros Hc. unfold recent. rewrite list_filter_filter.
  apply list_filter_iff. intros t. lia.
Qed.

Lemma recent_all cutoff l : Forall (fun t => cutoff < t) l -> recent cutoff l = l.
Proof.
  induction 1 as [|t l Ht Hl IH]; [done|]. unfold recent in *.
  by rewrite filter_cons_True, IH.
Qed.

Lemma recent_snoc cutoff l t :
  recent cutoff (l ++ [t]) = recent cutoff l ++ (if cutoff <? t then [t] else []).
Proof.
  rewrite recent_app. f_equal. unfold recent. rewrite filter_cons, filter_nil.
  destruct (Z.ltb_spec cutoff t); destruct (decide (cutoff < t)); done || lia.
Qed.

(** The loop invariant: the first [w] elements are the kept ones among the first
    [i], and the elements from [i] on are still the original ones. *)
Lemma clean_loop_spec cutoff l : forall n i w arr,
  (i + n = length l)%nat -> (w <= i)%nat -> length arr = length l ->
  take w arr = recent cutoff (take i l) -> drop i arr = drop i l ->
  exists arr' w', clean_loop cutoff arr i w n = Ret (arr', w') /\
    take w' arr' = recent cutoff l.
Proof.
  induction n as [|n IH]; intros i w arr Hn Hw Hlen Htake Hdrop; simpl.
  { exists arr, w. split; [done|]. by rewrite Htake, firstn_all2 by lia. }
  destruct (slice_get_lt arr i) as (x & Hx & ->); [lia|]. simpl.
  assert (Hlx : l !! i = Some x).
  { rewrite <- Hx, <- (Nat.add_0_r i), <- !lookup_drop. by rewrite Hdrop. }
  assert (Hrec : recent cutoff (take (S i) l) =
    recent cutoff (take i l) ++ (if cutoff <? x then [x] else [])).
  { by rewrite (take_S_r _ _ _ Hlx), recent_snoc. }
  unfold Time_After. destruct (cutoff <? x).
  - rewrite slice_set_lt by lia. simpl. apply IH; [lia|lia|by rewrite length_insert| |].
    + rewrite (take_S_r _ w x) by (apply list_lookup_insert_eq; lia).
      rewrite take_insert_ge by lia. by rewrite Htake, Hrec.
    + rewrite drop_insert_lt by lia.
      apply (f_equal (drop 1)) in Hdrop. rewrite !drop_drop in Hdrop.
      by rewrite Nat.add_1_r in Hdrop.
  - apply IH; [lia|lia|done| |].
    + by rewrite Htake, Hrec, app_nil_r.
    + apply (f_equal (drop 1)) in Hdrop. rewrite !drop_drop in Hdrop.
      by rewrite Nat.add_1_r in Hdrop.
Qed.

Lemma cleanFailures_recent cutoff l : cleanFailures cutoff l = Ret (recent cutoff l).
Proof.
  unfold cleanFailures.
  destruct (clean_loop_spec cutoff l (length l) 0 0 l) as (arr & w & -> & Hw);
    [lia|lia|done|done|done|].
  simpl. by rewrite Hw.
Qed.

Lemma onFailure_eq now change cb :
  let fs := recent (window_cutoff now (config cb)) (failures cb ++ [now]) in
  let cb1 :=
    mkBreaker (config cb) (logger cb) (state cb) (wrap64 (consecutiveFails cb + 1))
      (totalRequests cb) (wrap64 (totalFailures cb + 1)) (halfOpenReqs cb) now (lastSuccess cb)
      (lastStateChange cb) fs in
  onFailure now change cb = Ret
    (match state cb with
     | StateClosed =>
         if FailureThreshold (config cb) <=? Z.of_nat (length fs)
         then transitionTo StateOpen change cb1 else (cb1, [])
     | StateHalfOpen => transitionTo StateOpen change cb1
     | _ => (cb1, [])
     end).
Proof.
  unfold onFailure. rewrite cleanFailures_recent. simpl. destruct (state cb); try done.
  by destruct (_ <=? _).
Qed.

(** ** The breaker keeps the promise of its interface *)

Definition CircuitBreaker_admits (ck : ExecClock) (cb : CircuitBreaker) : bool :=
  match state cb with
  | StateOpen => ResetTimeout (config cb) <? Time_Sub (ck_before ck) (lastStateChange cb)
  | StateHalfOpen => halfOpenReqs cb <? HalfOpenMaxReqs (config cb)
  | _ => true
  end.

Lemma beforeRequest_admits ck cb :
  snd (beforeRequest (ck_before ck) (ck_before_change ck) cb) =
  if CircuitBreaker_admits ck cb then None else Some ErrCircuitOpen.
Proof.
  unfold beforeRequest, CircuitBreaker_admits. destruct (state cb); try done.
  - by destruct (_ <? _).
  - rewrite Z.leb_antisym. by destruct (_ <? _).
Qed.

Lemma beforeRequest_rejects now change cb cb' logs err :
  beforeRequest now change cb = (cb', logs, Some err) -> cb' = cb /\ logs = [] /\ err = ErrCircuitOpen.
Proof.
  unfold beforeRequest, transitionTo. destruct (state cb); intros E; bool_cases; by simplify_eq/=.
Qed.

#[export] Instance CircuitBreaker_BreakerSpec : BreakerSpec CircuitBreaker.
Proof.
  refine {| admits := CircuitBreaker_admits |}.
  - intros W log ck fn cb w Ha. cbn [Execute CircuitBreaker_Breaker]. unfold CircuitBreaker_Execute.
    pose proof (beforeRequest_admits ck cb) as HB. rewrite Ha in HB.
    destruct (beforeRequest _ _ cb) as [[cb1 l1] r] eqn:E. simpl in HB. subst r.
    by destruct (beforeRequest_rejects _ _ _ _ _ _ E) as (-> & -> & _).
  - intros W log ck fn cb w Ha. cbn [Execute CircuitBreaker_Breaker]. unfold CircuitBreaker_Execute.
    pose proof (beforeRequest_admits ck cb) as HB. rewrite Ha in HB.
    destruct (beforeRequest _ _ cb) as [[cb1 l1] r] eqn:E. simpl in HB. subst r.
    exists l1. destruct (fn (emit_logs log l1 w)) as [w' [[err|]|msg]]; simpl; [| |by exists []].
    + rewrite onFailure_eq. destruct (match state _ with StateClosed => _ | _ => _ end) as [cb3 l3].
      by exists l3.
    + destruct (onSuccess _ _ _) as [cb3 l3]. by exists l3.
Defined.
