(* ===== verification/BreakerRefines.v ===== *)
(** * The circuit breaker against its specification

    The breaker as a machine over its critical sections ([BreakerOp]), an ideal
    breaker that remembers every failure since the last clearing and counts the
    requests a half-open episode admitted, and the theorem that the code
    implements it: same decisions, same states, for every interleaving. *)

From S2P Require Import Prelude Breaker.
From Stdlib Require Import Sorted.

(** ** The critical sections as operations *)

Inductive BreakerOp :=
  | OpBefore (now change : Time)
  | OpCount
  | OpSuccess (now change : Time)
  | OpFailure (now change : Time)
  | OpReset (now : Time).

(** One critical section; the second component is the decision of
    [beforeRequest]: [Some true] for an admitted request. *)
Definition apply_op (op : BreakerOp) (cb : CircuitBreaker) :
    outcome (CircuitBreaker * option bool) :=
  match op with
  | OpBefore now change =>
      let '(cb', _, err) := beforeRequest now change cb in
      Ret (cb', Some (bool_decide (err = None)))
  | OpCount => Ret (countRequest cb, None)
  | OpSuccess now change => Ret (fst (onSuccess now change cb), None)
  | OpFailure now change => do! (cb', _) <- onFailure now change cb; Ret (cb', None)
  | OpReset now => Ret (fst (CircuitBreaker_Reset now cb), None)
  end.

Fixpoint run_ops (ops : list BreakerOp) (cb : CircuitBreaker) :
    outcome (CircuitBreaker * list (option bool)) :=
  match ops with
  | [] => Ret (cb, [])
  | op :: ops' =>
      do! (cb', d) <- apply_op op cb;
      do! (cb'', ds) <- run_ops ops' cb';
      Ret (cb'', d :: ds)
  end.

Fixpoint failure_times (ops : list BreakerOp) : list Time :=
  match ops with
  | [] => []
  | OpFailure now _ :: ops' => now :: failure_times ops'
  | _ :: ops' => failure_times ops'
  end.

(** ** The ideal breaker *)

(** [MHalfOpen n]: half-open, with [n] requests let through in this episode. *)
Inductive Mode :=
  | MClosed
  | MOpen (since : Time)
  | MHalfOpen (n : Z).

(** [sp_log]: every failure since the window was last cleared, oldest first. *)
Record SpecBreaker := mkSpec {
  sp_mode : Mode;
  sp_log : list Time
}.

(** The failures of the last [w] nanoseconds. *)
Definition in_window (now w : Z) (log : list Time) : list Time :=
  filter (fun t => now - t < w) log.

Definition spec_op (cfg : BreakerConfig) (op : BreakerOp) (s : SpecBreaker) :
    SpecBreaker * option bool :=
  match op with
  | OpBefore now _ =>
      match sp_mode s with
      | MClosed => (s, Some true)
      | MOpen since =>
          if ResetTimeout cfg <? now - since
          then (mkSpec (MHalfOpen 1) (sp_log s), Some true) else (s, Some false)
      | MHalfOpen n =>
          if n <=? HalfOpenMaxReqs cfg
          then (mkSpec (MHalfOpen (n + 1)) (sp_log s), Some true) else (s, Some false)
      end
  | OpCount => (s, None)
  | OpSuccess _ _ =>
      match sp_mode s with
      | MHalfOpen _ => (mkSpec MClosed [], None)
      | _ => (s, None)
      end
  | OpFailure now change =>
      let log := sp_log s ++ [now] in
      match sp_mode s with
      | MClosed =>
          if FailureThreshold cfg <=? Z.of_nat (length (in_window now (FailureWindow cfg) log))
          then (mkSpec (MOpen change) log, None) else (mkSpec MClosed log, None)
      | MOpen since => (mkSpec (MOpen since) log, None)
      | MHalfOpen _ => (mkSpec (MOpen change) log, None)
      end
  | OpReset _ => (mkSpec MClosed [], None)
  end.

Fixpoint spec_run (cfg : BreakerConfig) (ops : list BreakerOp) (s : SpecBreaker) :
    SpecBreaker * list (option bool) :=
  match ops with
  | [] => (s, [])
  | op :: ops' =>
      let '(s', d) := spec_op cfg op s in
      let '(s'', ds) := spec_run cfg ops' s' in
      (s'', d :: ds)
  end.

(** The state a mode shows. *)
Definition mode_state (m : Mode) : State :=
  match m with
  | MClosed => StateClosed
  | MOpen _ => StateOpen
  | MHalfOpen _ => StateHalfOpen
  end.

(** Configurations in the range of their types, short of the extreme durations. *)
Record breaker_config_ok (cfg : BreakerConfig) : Prop := {
  bc_max : in_int64 (HalfOpenMaxReqs cfg);
  bc_reset : int64_min <= ResetTimeout cfg < int64_max;
  bc_window : int64_min < FailureWindow cfg <= int64_max
}.

(** ** The simulation relation *)

(** [last] bounds every failure recorded so far. *)
Record simulates (cfg : BreakerConfig) (last : option Time) (cb : CircuitBreaker) (s : SpecBreaker)
    : Prop := {
  sim_config : config cb = cfg;
  sim_state : state cb = mode_state (sp_mode s);
  sim_since : forall t, sp_mode s = MOpen t -> lastStateChange cb = t;
  sim_half : forall n, sp_mode s = MHalfOpen n -> 1 <= n /\ halfOpenReqs cb = n - 1;
  sim_log : exists c, failures cb = recent c (sp_log s) /\
    forall t, last = Some t -> c <= t - FailureWindow cfg;
  sim_last : last = None -> sp_log s = []
}.

(** The order on the bound: a failure at [now] comes after every earlier one. *)
Definition after_last (last : option Time) (now : Time) : Prop :=
  forall t, last = Some t -> t <= now.

Section Refinement.
Context (cfg : BreakerConfig) (Hcfg : breaker_config_ok cfg).

Lemma window_cutoff_eq now : window_cutoff now cfg = now - FailureWindow cfg.
Proof.
  unfold window_cutoff, Time_Add. rewrite wrap64_id; [lia|].
  destruct Hcfg as [_ _ ?]. unfold in_int64, int64_min, int64_max in *. lia.
Qed.

Lemma in_window_recent now log : in_window now (FailureWindow cfg) log = recent (now - FailureWindow cfg) log.
Proof. apply list_filter_iff. intros t. lia. Qed.

Lemma timeout_passed now since :
  (ResetTimeout cfg <? Time_Sub now since) = (ResetTimeout cfg <? now - since).
Proof.
  destruct Hcfg as [_ ? _]. unfold Time_Sub, int64_min, int64_max in *.
  apply eq_true_iff_eq. rewrite !Z.ltb_lt. lia.
Qed.

(** The window the code keeps after a failure is the ideal one. *)
Lemma failures_after last cb s now :
  simulates cfg last cb s -> after_last last now ->
  recent (window_cutoff now cfg) (failures cb ++ [now]) =
  in_window now (FailureWindow cfg) (sp_log s ++ [now]).
Proof.
  intros [_ _ _ _ (c & -> & Hc) Hl] Hnow. rewrite window_cutoff_eq, in_window_recent, !recent_app.
  f_equal. destruct last as [t|]; [|by rewrite Hl].
  apply recent_recent. specialize (Hc t eq_refl). specialize (Hnow t eq_refl). lia.
Qed.

Definition op_last (op : BreakerOp) (last : option Time) : option Time :=
  match op with OpFailure now _ => Some now | _ => last end.

Lemma simulates_failure last cb s now change :
  simulates cfg last cb s -> after_last last now ->
  exists cb', apply_op (OpFailure now change) cb = Ret (cb', None) /\
    simulates cfg (Some now) cb' (fst (spec_op cfg (OpFailure now change) s)).
Proof.
  intros Hs Hnow. unfold apply_op. rewrite onFailure_eq. cbv zeta. simpl outcome_bind.
  pose proof (failures_after _ _ _ _ Hs Hnow) as Hf.
  destruct Hs as [Hc Hst Hsi Hh _ _]. rewrite Hc, Hst, Hf.
  unfold spec_op. destruct (sp_mode s) as [|since|n] eqn:Hm; simpl mode_state; cbv iota.
  all: try destruct (FailureThreshold cfg <=? _); eexists; (split; [reflexivity|]);
    constructor; simpl; rewrite ?Hst; try done; try (intros ? [= ->]; done).
  all: exists (now - FailureWindow cfg); rewrite in_window_recent; naive_solver lia.
Qed.

Lemma simulates_before last cb s now change :
  simulates cfg last cb s ->
  exists cb', apply_op (OpBefore now change) cb = Ret (cb', snd (spec_op cfg (OpBefore now change) s)) /\
    simulates cfg last cb' (fst (spec_op cfg (OpBefore now change) s)).
Proof.
  intros [Hc Hst Hsi Hh Hlog Hl]. unfold apply_op, beforeRequest, spec_op. rewrite Hc, Hst.
  destruct (sp_mode s) as [|since|n] eqn:Hm; simpl.
  - eexists. split; [done|]. by constructor; simpl; rewrite ?Hm.
  - rewrite (Hsi _ eq_refl), timeout_passed.
    destruct (_ <? _); (eexists; split; [done|]); constructor; simpl; rewrite ?Hm; try done.
    intros n [= <-]. lia.
  - destruct (Hh _ eq_refl) as [Hn ->]. rewrite Z.leb_antisym.
    replace (n - 1 <? HalfOpenMaxReqs cfg) with (n <=? HalfOpenMaxReqs cfg)
      by (apply eq_true_iff_eq; rewrite Z.leb_le, Z.ltb_lt; lia).
    destruct (Z.leb_spec n (HalfOpenMaxReqs cfg)); simpl;
      (eexists; split; [done|]); constructor; simpl; rewrite ?Hm; try done.
    intros n' [= <-]. split; [lia|]. rewrite wrap64_id; [lia|].
    destruct Hcfg as [? _ _]. unfold in_int64, int64_min, int64_max in *. lia.
Qed.

Lemma simulates_op op last cb s :
  simulates cfg last cb s -> (forall now change, op = OpFailure now change -> after_last last now) ->
  exists cb', apply_op op cb = Ret (cb', snd (spec_op cfg op s)) /\
    simulates cfg (op_last op last) cb' (fst (spec_op cfg op s)).
Proof.
  intros Hs Hnow. destruct op as [now change| |now change|now change|now].
  - by apply simulates_before.
  - eexists. split; [done|]. by destruct Hs; constructor.
  - destruct Hs as [Hc Hst Hsi Hh Hlog Hl]. simpl. unfold onSuccess; simpl. rewrite Hst.
    destruct (sp_mode s) as [|since|n] eqn:Hm; simpl; (eexists; split; [reflexivity|]);
      constructor; simpl; rewrite ?Hst, ?Hm; try done; try naive_solver.
  - destruct (simulates_failure last cb s now change Hs (Hnow _ _ eq_refl)) as (cb' & -> & Hs').
    exists cb'. split; [|done]. f_equal. f_equal. simpl.
    destruct (sp_mode s); [by destruct (_ <=? _)|done|done].
  - eexists. split; [reflexivity|]. destruct Hs as [Hc _ _ _ (c & _ & Hc') _].
    constructor; simpl; try done. by exists c.
Qed.

Lemma simulates_run : forall ops last cb s,
  simulates cfg last cb s ->
  StronglySorted Z.le (option_list last ++ failure_times ops) ->
  exists cb' last', run_ops ops cb = Ret (cb', snd (spec_run cfg ops s)) /\
    simulates cfg last' cb' (fst (spec_run cfg ops s)).
Proof.
  induction ops as [|op ops IH]; intros last cb s Hs Hsort; [by exists cb, last|].
  destruct (simulates_op op last cb s Hs) as (cb1 & E1 & Hs1).
  { intros now change -> t ->. simpl in Hsort. apply StronglySorted_inv in Hsort as [_ HF].
    by apply Forall_inv in HF. }
  destruct (IH _ _ _ Hs1) as (cb2 & last2 & E2 & Hs2).
  { destruct op; simpl in *; try done. destruct last; simpl in *; [|done].
    exact (proj1 (StronglySorted_inv Hsort)). }
  exists cb2, last2. simpl. rewrite E1. simpl. rewrite E2. simpl.
  destruct (spec_op cfg op s) as [s1 d]. simpl in *. by destruct (spec_run cfg ops s1).
Qed.

Lemma simulates_new logger now : simulates cfg None (NewBreaker cfg logger now) (mkSpec MClosed []).
Proof. constructor; simpl; try done. by exists 0. Qed.
End Refinement.

(** ** Properties *)

(** C1: refinement of the circuit breaker.  For every sequence of critical
    sections run on a new breaker, hence for every interleaving of concurrent
    requests, completions and resets, with failures stamped in clock order: the code never
    panics, admits and rejects exactly the requests the ideal breaker admits and
    rejects, and shows its state.  In particular the pruned slice of time stamps
    decides as the full failure history would: a closed breaker opens exactly when
    the failures of the last [FailureWindow] reach [FailureThreshold]. *)
Theorem breaker_refines cfg logger now ops :
  breaker_config_ok cfg -> StronglySorted Z.le (failure_times ops) ->
  let ideal := spec_run cfg ops (mkSpec MClosed []) in
  exists cb, run_ops ops (NewBreaker cfg logger now) = Ret (cb, snd ideal) /\
    CircuitBreaker_State cb = mode_state (sp_mode (fst ideal)).
Proof.
  intros Hcfg Hsort. cbv zeta.
  destruct (simulates_run cfg Hcfg ops None _ _ (simulates_new cfg logger now) Hsort)
    as (cb & last & E & Hs).
  exists cb. split; [done|]. apply (sim_state _ _ _ _ Hs).
Qed.

(** Two failures in the window open a breaker of threshold two; half-open after
    the timeout, it lets one more request through than [HalfOpenMaxReqs]. *)
Definition example_breaker_ops : list BreakerOp :=
  [OpBefore 0 0; OpCount; OpFailure 1 1; OpBefore 2 2; OpCount; OpFailure 200 200;
   OpBefore 201 201; OpCount; OpFailure 202 202;
   OpBefore 300 300; OpBefore 303 303; OpBefore 304 304; OpBefore 305 305; OpSuccess 306 306].

Definition example_breaker_config : BreakerConfig := mkBreakerConfig 2 100 1 100.

Lemma breaker_refines_witness :
  exists cb, run_ops example_breaker_ops (NewBreaker example_breaker_config true 0) =
    Ret (cb, [Some true; None; None; Some true; None; None; Some true; None; None;
              Some false; Some true; Some true; Some false; None]) /\
    CircuitBreaker_State cb = StateClosed.
Proof.
  destruct (breaker_refines example_breaker_config true 0 example_breaker_ops)
    as (cb & E & Hst).
  - constructor; vm_compute; intuition congruence.
  - repeat constructor; vm_compute; congruence.
  - exists cb. split; [exact E|exact Hst].
Defined.
