(* ===== verification/BreakerMachine.v ===== *)
(** * Concurrent requests through one circuit breaker

    [Execute] runs its critical sections separately, so requests interleave
    between them.  The machine below has one step per critical section, keeps
    the requests in flight and counts what happened in ghost fields; its invariants are
    proved by induction on the steps. *)

From S2P Require Import Prelude Breaker.
From Stdlib Require Import Relations.

(** [m_waiting] requests passed [beforeRequest] and are not yet counted,
    [m_running] are counted and inside [fn].  The other fields are ghosts: requests
    admitted so far and by outcome, failures since the last success or reset, and
    for the current half-open episode the requests admitted and the panics. *)
Record Machine := mkMachine {
  m_cb : CircuitBreaker;
  m_clock : Time;
  m_waiting : Z;
  m_running : Z;
  m_admitted : Z;
  m_succeeded : Z;
  m_failed : Z;
  m_panicked : Z;
  m_streak : Z;
  m_probes : Z;
  m_episode_panics : Z
}.

Definition initial (cfg : BreakerConfig) (logger : bool) (now : Time) : Machine :=
  mkMachine (NewBreaker cfg logger now) now 0 0 0 0 0 0 0 0 0.

Inductive Label := LAdmit | LReject | LCount | LSuccess | LFailure | LPanic | LReset.

#[export] Instance Label_eq_dec : EqDecision Label.
Proof. solve_decision. Defined.

Definition half_open (cb : CircuitBreaker) : bool := bool_decide (state cb = StateHalfOpen).

(** A half-open breaker that admits a request counts it in the episode; an
    open one starts an episode with it. *)
Definition probes_after (m : Machine) (cb' : CircuitBreaker) : Z :=
  if half_open cb' then (if half_open (m_cb m) then m_probes m + 1 else 1) else m_probes m.
Definition panics_after (m : Machine) (cb' : CircuitBreaker) : Z :=
  if half_open (m_cb m) then m_episode_panics m
  else if half_open cb' then 0 else m_episode_panics m.

Inductive step : Label -> Machine -> Machine -> Prop :=
  | step_admit m now change cb' logs :
      m_clock m <= now <= change ->
      beforeRequest now change (m_cb m) = (cb', logs, None) ->
      step LAdmit m
        (mkMachine cb' change (m_waiting m + 1) (m_running m) (m_admitted m + 1) (m_succeeded m)
           (m_failed m) (m_panicked m) (m_streak m) (probes_after m cb') (panics_after m cb'))
  | step_reject m now change cb' logs err :
      m_clock m <= now <= change ->
      beforeRequest now change (m_cb m) = (cb', logs, Some err) ->
      step LReject m
        (mkMachine cb' change (m_waiting m) (m_running m) (m_admitted m) (m_succeeded m)
           (m_failed m) (m_panicked m) (m_streak m) (m_probes m) (m_episode_panics m))
  | step_count m :
      0 < m_waiting m ->
      step LCount m
        (mkMachine (countRequest (m_cb m)) (m_clock m) (m_waiting m - 1) (m_running m + 1)
           (m_admitted m) (m_succeeded m) (m_failed m) (m_panicked m) (m_streak m) (m_probes m)
           (m_episode_panics m))
  | step_success m now change cb' logs :
      m_clock m <= now <= change -> 0 < m_running m ->
      onSuccess now change (m_cb m) = (cb', logs) ->
      step LSuccess m
        (mkMachine cb' change (m_waiting m) (m_running m - 1) (m_admitted m) (m_succeeded m + 1)
           (m_failed m) (m_panicked m) 0 (m_probes m) (m_episode_panics m))
  | step_failure m now change cb' logs :
      m_clock m <= now <= change -> 0 < m_running m ->
      onFailure now change (m_cb m) = Ret (cb', logs) ->
      step LFailure m
        (mkMachine cb' change (m_waiting m) (m_running m - 1) (m_admitted m) (m_succeeded m)
           (m_failed m + 1) (m_panicked m) (m_streak m + 1) (m_probes m) (m_episode_panics m))
  | step_panic m :
      0 < m_running m ->
      step LPanic m
        (mkMachine (m_cb m) (m_clock m) (m_waiting m) (m_running m - 1) (m_admitted m)
           (m_succeeded m) (m_failed m) (m_panicked m + 1) (m_streak m) (m_probes m)
           (m_episode_panics m + 1))
  | step_reset m now cb' logs :
      m_clock m <= now -> CircuitBreaker_Reset now (m_cb m) = (cb', logs) ->
      step LReset m
        (mkMachine cb' now (m_waiting m) (m_running m) (m_admitted m) (m_succeeded m)
           (m_failed m) (m_panicked m) 0 (m_probes m) (m_episode_panics m)).

(** Runs: the labels of the steps taken, in order. *)
Inductive steps : list Label -> Machine -> Machine -> Prop :=
  | steps_refl m : steps [] m m
  | steps_cons l ls m1 m2 m3 : step l m1 m2 -> steps ls m2 m3 -> steps (l :: ls) m1 m3.

(** ** The invariant *)

Record invariant (cfg : BreakerConfig) (m : Machine) : Prop := {
  inv_config : config (m_cb m) = cfg;
  inv_state : state (m_cb m) ∈ [StateClosed; StateOpen; StateHalfOpen];
  inv_counts : 0 <= m_waiting m /\ 0 <= m_running m;
  inv_admitted : m_admitted m =
    m_waiting m + m_running m + m_succeeded m + m_failed m + m_panicked m;
  inv_total : totalRequests (m_cb m) = wrap64 (m_admitted m - m_waiting m);
  inv_failures : totalFailures (m_cb m) = wrap64 (m_failed m);
  inv_streak : consecutiveFails (m_cb m) = wrap64 (m_streak m);
  inv_probes : state (m_cb m) = StateHalfOpen ->
    m_probes m = halfOpenReqs (m_cb m) + 1 /\
    0 <= halfOpenReqs (m_cb m) <= Z.max 0 (HalfOpenMaxReqs cfg) /\
    m_probes m <= m_waiting m + m_running m + m_episode_panics m
}.

(** What [beforeRequest] changes when it admits a request. *)
Lemma beforeRequest_cases now change cb cb' logs err :
  beforeRequest now change cb = (cb', logs, err) ->
  config cb' = config cb /\ totalRequests cb' = totalRequests cb /\
  totalFailures cb' = totalFailures cb /\ consecutiveFails cb' = consecutiveFails cb /\
  ((err = None /\ state cb <> StateOpen /\ state cb <> StateHalfOpen /\ cb' = cb) \/
   (err = None /\ state cb = StateOpen /\ state cb' = StateHalfOpen /\ halfOpenReqs cb' = 0) \/
   (err = None /\ state cb = StateHalfOpen /\ state cb' = StateHalfOpen /\
      halfOpenReqs cb < HalfOpenMaxReqs (config cb) /\
      halfOpenReqs cb' = wrap64 (halfOpenReqs cb + 1)) \/
   (err = Some ErrCircuitOpen /\ cb' = cb)).
Proof.
  unfold beforeRequest, transitionTo. intros E. destruct (state cb) eqn:Hst; bool_cases; simplify_eq/=;
    zbool; split_and!; naive_solver.
Qed.

Lemma onSuccess_cases now change cb cb' logs :
  onSuccess now change cb = (cb', logs) ->
  config cb' = config cb /\ totalRequests cb' = totalRequests cb /\
  totalFailures cb' = totalFailures cb /\ consecutiveFails cb' = 0 /\
  state cb' <> StateHalfOpen /\ (state cb <> StateHalfOpen -> state cb' = state cb) /\
  (state cb = StateHalfOpen -> state cb' = StateClosed /\ failures cb' = []).
Proof.
  unfold onSuccess, transitionTo; simpl. intros E. case_bool_decide; simplify_eq/=;
    split_and!; try done; intuition congruence.
Qed.

Lemma onFailure_cases now change cb cb' logs :
  onFailure now change cb = Ret (cb', logs) ->
  config cb' = config cb /\ totalRequests cb' = totalRequests cb /\
  totalFailures cb' = wrap64 (totalFailures cb + 1) /\
  consecutiveFails cb' = wrap64 (consecutiveFails cb + 1) /\
  (state cb' = StateOpen \/ state cb' = state cb /\ state cb <> StateHalfOpen).
Proof.
  rewrite onFailure_eq. cbv zeta. unfold transitionTo. intros [= E].
  destruct (state cb) eqn:Hst; bool_cases; simplify_eq/=;
    split_and!; try done; intuition congruence.
Qed.

Section Invariant.
Context (cfg : BreakerConfig) (Hmax : in_int64 (HalfOpenMaxReqs cfg)).

Lemma invariant_initial logger now : invariant cfg (initial cfg logger now).
Proof. constructor; simpl; try done. by left. Qed.

Lemma invariant_admit m now change cb' logs :
  beforeRequest now change (m_cb m) = (cb', logs, None) -> invariant cfg m ->
  invariant cfg (mkMachine cb' change (m_waiting m + 1) (m_running m) (m_admitted m + 1) (m_succeeded m)
    (m_failed m) (m_panicked m) (m_streak m) (probes_after m cb') (panics_after m cb')).
Proof.
  intros E [Hc Hs Hn Ha Ht Hf Hk Hp].
  destruct (beforeRequest_cases _ _ _ _ _ _ E) as (Ec & Et & Ef & Ek & Hcase).
  constructor; simpl; try congruence; try lia.
  - destruct Hcase as [(_ & _ & _ & ->)|[(_ & _ & -> & _)|[(_ & _ & -> & _)|[? _]]]];
      [done|set_solver|set_solver|done].
  - rewrite Et, Ht. f_equal. lia.
  - unfold probes_after, panics_after, half_open. intros Hst'. rewrite Hst'. simpl.
    destruct Hcase as [(_ & _ & Hne & ->)|[(_ & Hst & _ & ->)|[(_ & Hst & _ & Hlt & ->)|[? _]]]];
      [done| | |done].
    + rewrite Hst. simpl. lia.
    + rewrite Hst. simpl. destruct (Hp Hst) as (-> & ? & ?). rewrite Hc in Hlt.
      unfold in_int64, int64_min, int64_max in Hmax. rewrite wrap64_id;
        unfold in_int64, int64_min, int64_max; lia.
Qed.

Lemma invariant_step l m m' : step l m m' -> invariant cfg m -> invariant cfg m'.
Proof.
  intros Hst Hinv. destruct Hst as
    [m now change cb' logs _ E|m now change cb' logs err _ E|m Hw|m now change cb' logs _ Hr E
    |m now change cb' logs _ Hr E|m Hr|m now cb' logs _ E].
  { by apply (invariant_admit m now change cb' logs). }
  all: destruct Hinv as [Hc Hs Hn Ha Ht Hf Hk Hp].
  - destruct (beforeRequest_cases _ _ _ _ _ _ E) as (_ & _ & _ & _ & Hcase).
    assert (cb' = m_cb m) as -> by naive_solver. by constructor.
  - constructor; simpl; try done; try lia.
    + rewrite Ht, wrap64_add_l. f_equal. lia.
    + intros HS. destruct (Hp HS) as (? & ? & ?). lia.
  - destruct (onSuccess_cases _ _ _ _ _ E) as (Ec & Et & Ef & Ek & Hnh & Hsame & Hclosed).
    constructor; simpl; try congruence; try lia; try done.
    destruct (decide (state (m_cb m) = StateHalfOpen)) as [HS|HS].
    + destruct (Hclosed HS) as [-> _]. set_solver.
    + by rewrite Hsame.
  - destruct (onFailure_cases _ _ _ _ _ E) as (Ec & Et & Ef & Ek & Hcase).
    constructor; simpl; try congruence; try lia.
    + destruct Hcase as [->|[-> _]]; [set_solver|done].
    + by rewrite Ef, Hf, wrap64_add_l.
    + by rewrite Ek, Hk, wrap64_add_l.
    + intros HS. destruct Hcase as [|[]]; congruence.
  - constructor; simpl; try done; try lia. intros HS. destruct (Hp HS) as (? & ? & ?). lia.
  - unfold CircuitBreaker_Reset in E. simplify_eq/=. constructor; simpl; try done; try lia. by left.
Qed.

Lemma invariant_steps ls m m' : steps ls m m' -> invariant cfg m -> invariant cfg m'.
Proof. induction 1; eauto using invariant_step. Qed.

Lemma invariant_reachable ls logger now m :
  steps ls (initial cfg logger now) m -> invariant cfg m.
Proof. intros H. eapply invariant_steps; [exact H|apply invariant_initial]. Qed.
End Invariant.

(** ** Running the machine *)

(** The step with a given label when every clock read gives [t]. *)
Definition exec_step (l : Label) (t : Time) (m : Machine) : option Machine :=
  if negb (m_clock m <=? t) then None else
  match l with
  | LAdmit =>
      match beforeRequest t t (m_cb m) with
      | (cb', _, None) => Some (mkMachine cb' t (m_waiting m + 1) (m_running m) (m_admitted m + 1)
          (m_succeeded m) (m_failed m) (m_panicked m) (m_streak m) (probes_after m cb')
          (panics_after m cb'))
      | _ => None
      end
  | LReject =>
      match beforeRequest t t (m_cb m) with
      | (cb', _, Some _) => Some (mkMachine cb' t (m_waiting m) (m_running m) (m_admitted m)
          (m_succeeded m) (m_failed m) (m_panicked m) (m_streak m) (m_probes m) (m_episode_panics m))
      | _ => None
      end
  | LCount =>
      if 0 <? m_waiting m then
        Some (mkMachine (countRequest (m_cb m)) (m_clock m) (m_waiting m - 1) (m_running m + 1)
          (m_admitted m) (m_succeeded m) (m_failed m) (m_panicked m) (m_streak m) (m_probes m)
          (m_episode_panics m))
      else None
  | LSuccess =>
      if 0 <? m_running m then
        Some (mkMachine (fst (onSuccess t t (m_cb m))) t (m_waiting m) (m_running m - 1) (m_admitted m)
          (m_succeeded m + 1) (m_failed m) (m_panicked m) 0 (m_probes m) (m_episode_panics m))
      else None
  | LFailure =>
      match onFailure t t (m_cb m) with
      | Ret (cb', _) =>
          if 0 <? m_running m then
            Some (mkMachine cb' t (m_waiting m) (m_running m - 1) (m_admitted m) (m_succeeded m)
              (m_failed m + 1) (m_panicked m) (m_streak m + 1) (m_probes m) (m_episode_panics m))
          else None
      | Panic _ => None
      end
  | LPanic =>
      if 0 <? m_running m then
        Some (mkMachine (m_cb m) (m_clock m) (m_waiting m) (m_running m - 1) (m_admitted m)
          (m_succeeded m) (m_failed m) (m_panicked m + 1) (m_streak m) (m_probes m)
          (m_episode_panics m + 1))
      else None
  | LReset =>
      Some (mkMachine (fst (CircuitBreaker_Reset t (m_cb m))) t (m_waiting m) (m_running m)
        (m_admitted m) (m_succeeded m) (m_failed m) (m_panicked m) 0 (m_probes m)
        (m_episode_panics m))
  end.

Lemma exec_step_sound l t m m' : exec_step l t m = Some m' -> step l m m'.
Proof.
  unfold exec_step. destruct (Z.leb_spec (m_clock m) t); simpl; [|done]. intros E. destruct l.
  - destruct (beforeRequest t t (m_cb m)) as [[cb' logs] [err|]] eqn:Eb; simplify_eq.
    eapply step_admit; [|exact Eb]. lia.
  - destruct (beforeRequest t t (m_cb m)) as [[cb' logs] [err|]] eqn:Eb; simplify_eq.
    eapply step_reject; [|exact Eb]. lia.
  - destruct (Z.ltb_spec 0 (m_waiting m)); simplify_eq. by apply step_count.
  - destruct (Z.ltb_spec 0 (m_running m)); simplify_eq.
    eapply step_success with (now := t); [lia|done|apply surjective_pairing].
  - destruct (onFailure t t (m_cb m)) as [[cb' logs]|] eqn:Eb; [|done].
    destruct (Z.ltb_spec 0 (m_running m)); simplify_eq. eapply step_failure; [|done|exact Eb]. lia.
  - destruct (Z.ltb_spec 0 (m_running m)); simplify_eq. by apply step_panic.
  - simplify_eq. eapply step_reset; [done|apply surjective_pairing].
Qed.

Fixpoint exec_steps (ls : list (Label * Time)) (m : Machine) : option Machine :=
  match ls with
  | [] => Some m
  | (l, t) :: ls' => match exec_step l t m with Some m' => exec_steps ls' m' | None => None end
  end.

Lemma exec_steps_sound ls : forall m m', exec_steps ls m = Some m' -> steps ls.*1 m m'.
Proof.
  induction ls as [|[l t] ls IH]; simpl; intros m m' E; [simplify_eq; constructor|].
  destruct (exec_step l t m) as [m1|] eqn:E1; [|done].
  econstructor; eauto using exec_step_sound.
Qed.

(** ** Half-open episodes and panics *)

Lemma no_panic_episode ls m m' :
  steps ls m m' -> LPanic ∉ ls -> m_episode_panics m = 0 -> m_episode_panics m' = 0.
Proof.
  induction 1 as [|l ls m1 m2 m3 Hstep _ IH]; intros Hp Hz; [done|].
  rewrite not_elem_of_cons in Hp. destruct Hp as [Hl Hp]. apply IH; [done|].
  destruct Hstep; simpl; try done. unfold panics_after. by bool_cases.
Qed.

(** Half-open, every slot taken, and no request in flight. *)
Record locked_out (m : Machine) : Prop := {
  lo_state : state (m_cb m) = StateHalfOpen;
  lo_slots : HalfOpenMaxReqs (config (m_cb m)) <= halfOpenReqs (m_cb m);
  lo_idle : m_waiting m = 0 /\ m_running m = 0
}.

Lemma locked_out_step l m m' :
  step l m m' -> l <> LReset -> locked_out m ->
  locked_out m' /\ m_admitted m' = m_admitted m /\ l = LReject.
Proof.
  intros Hst Hl [Hs Hn [Hw Hr]]. destruct Hst; simpl in *; try lia; try done.
  - destruct (beforeRequest_cases _ _ _ _ _ _ H0) as (_ & _ & _ & _ & Hcase). exfalso.
    destruct Hcase as [(_&_&?&_)|[(_&?&_)|[(_&_&_&?&_)|[? _]]]]; congruence || lia.
  - destruct (beforeRequest_cases _ _ _ _ _ _ H0) as (_ & _ & _ & _ & Hcase).
    assert (cb' = m_cb m) as -> by (destruct Hcase as [(?&_)|[(?&_)|[(?&_)|[_ ?]]]]; congruence).
    split; [by constructor|done].
Qed.

Lemma locked_out_steps ls m m' :
  steps ls m m' -> LReset ∉ ls -> locked_out m ->
  locked_out m' /\ m_admitted m' = m_admitted m /\ Forall (eq LReject) ls.
Proof.
  induction 1 as [|l ls m1 m2 m3 Hstep _ IH]; intros Hr Hlo; [done|].
  rewrite not_elem_of_cons in Hr. destruct Hr as [Hl Hr].
  destruct (locked_out_step _ _ _ Hstep) as (Hlo2 & Ha & ->); [congruence|done|].
  destruct (IH Hr Hlo2) as (Hlo3 & Ha3 & Hf). split; [done|]. split; [congruence|by constructor].
Qed.

(** One request, from its admission to its end. *)
Definition fail_once (t : Time) : list (Label * Time) := [(LAdmit, t); (LCount, t); (LFailure, t)].
Definition panic_once (t : Time) : list (Label * Time) := [(LAdmit, t); (LCount, t); (LPanic, t)].

(** Five failures open the breaker of the default configuration; four requests
    that panic after the timeout then take every slot of the half-open state. *)
Definition lockout_trace : list (Label * Time) :=
  concat (fail_once <$> [1; 2; 3; 4; 5]) ++ concat (panic_once <$> [40 * Second; 41 * Second; 42 * Second; 43 * Second]).

Definition default_initial : Machine := initial DefaultBreakerConfig true 0.

(** ** Properties *)

(** C10: the half-open state admits a bounded number of requests: in every
    reachable state of the concurrent machine, an episode that is still half-open
    has let through at most one request more than [HalfOpenMaxReqs] (the request
    that ended the open state takes no slot), and once the slots are
    taken the next request is rejected. *)
Theorem half_open_bound cfg logger now ls m :
  in_int64 (HalfOpenMaxReqs cfg) -> steps ls (initial cfg logger now) m ->
  state (m_cb m) = StateHalfOpen ->
  1 <= m_probes m <= Z.max 0 (HalfOpenMaxReqs cfg) + 1 /\
  (m_probes m = Z.max 0 (HalfOpenMaxReqs cfg) + 1 ->
   forall t t', snd (beforeRequest t t' (m_cb m)) = Some ErrCircuitOpen).
Proof.
  intros Hmax Hsteps HS. pose proof (invariant_reachable cfg Hmax _ _ _ _ Hsteps) as Hinv.
  destruct (inv_probes _ _ Hinv HS) as (-> & ? & _). split; [lia|].
  intros Hfull t t'. unfold beforeRequest. rewrite HS, (inv_config _ _ Hinv).
  rewrite (proj2 (Z.leb_le _ _)); [done|lia].
Qed.

(** After the five failures and the timeout, four requests are in the default
    breaker's half-open state at once: one more than [HalfOpenMaxReqs]. *)
Definition overshoot_trace : list (Label * Time) :=
  concat (fail_once <$> [1; 2; 3; 4; 5]) ++ repeat (LAdmit, 40 * Second) 4.

Lemma half_open_bound_witness :
  exists m, steps overshoot_trace.*1 default_initial m /\ state (m_cb m) = StateHalfOpen /\
    m_probes m = HalfOpenMaxReqs DefaultBreakerConfig + 1 /\ 1 <= m_probes m <= 4.
Proof.
  destruct (exec_steps overshoot_trace default_initial) as [m|] eqn:E;
    [|exfalso; vm_compute in E; discriminate].
  exists m. pose proof (exec_steps_sound _ _ _ E) as Hs.
  assert (HS : state (m_cb m) = StateHalfOpen /\ m_probes m = 4) by (vm_compute in E; injection E as <-; done).
  destruct HS as [HS Hp]. split; [exact Hs|]. split; [exact HS|]. split; [exact Hp|].
  refine (proj1 (half_open_bound DefaultBreakerConfig true 0 _ m _ Hs HS)).
  vm_compute. split; discriminate.
Defined.

(** C23: the statistics are exact.  In every reachable state of the concurrent
    machine [Stats] reports, modulo the width of the counters, the requests that
    entered [fn], the failures that completed and the failures since the last
    success or reset; with no request in flight the requests counted are those that
    succeeded, failed or panicked; and the state is one of the three constants. *)
Theorem stats_exact cfg logger now ls m :
  in_int64 (HalfOpenMaxReqs cfg) -> steps ls (initial cfg logger now) m ->
  let st := CircuitBreaker_Stats (m_cb m) in
  bs_State st ∈ [StateClosed; StateOpen; StateHalfOpen] /\
  bs_TotalRequests st = wrap64 (m_running m + m_succeeded m + m_failed m + m_panicked m) /\
  bs_TotalFailures st = wrap64 (m_failed m) /\
  bs_ConsecutiveFails st = wrap64 (m_streak m) /\
  0 <= m_running m.
Proof.
  intros Hmax Hsteps. pose proof (invariant_reachable cfg Hmax _ _ _ _ Hsteps) as Hinv.
  destruct Hinv as [_ Hs [_ Hn] Ha Ht Hf Hk _]. simpl. split_and!; try done.
  rewrite Ht, Ha. f_equal. lia.
Qed.

Lemma stats_exact_witness :
  exists m, steps lockout_trace.*1 default_initial m /\
    bs_TotalRequests (CircuitBreaker_Stats (m_cb m)) = wrap64 (m_running m + m_succeeded m + m_failed m + m_panicked m) /\
    bs_TotalRequests (CircuitBreaker_Stats (m_cb m)) = 9.
Proof.
  destruct (exec_steps lockout_trace default_initial) as [m|] eqn:E;
    [|exfalso; vm_compute in E; discriminate].
  exists m. pose proof (exec_steps_sound _ _ _ E) as Hs. split; [exact Hs|]. split.
  - refine (proj1 (proj2 (stats_exact DefaultBreakerConfig true 0 _ m _ Hs))).
    vm_compute. split; discriminate.
  - vm_compute in E. injection E as <-. reflexivity.
Defined.

(** C24: without panics the half-open state is never a dead end: in every
    state reached without a panicking request, a half-open breaker has a request in flight,
    so its completion is still to come. *)
Theorem half_open_progress cfg logger now ls m :
  in_int64 (HalfOpenMaxReqs cfg) -> steps ls (initial cfg logger now) m -> LPanic ∉ ls ->
  state (m_cb m) = StateHalfOpen -> 0 < m_waiting m + m_running m.
Proof.
  intros Hmax Hsteps Hp HS. pose proof (invariant_reachable cfg Hmax _ _ _ _ Hsteps) as Hinv.
  destruct (inv_probes _ _ Hinv HS) as (? & ? & ?).
  rewrite (no_panic_episode _ _ _ Hsteps Hp) in * by done. lia.
Qed.

Lemma half_open_progress_witness :
  exists m, steps overshoot_trace.*1 default_initial m /\ 0 < m_waiting m + m_running m.
Proof.
  destruct (exec_steps overshoot_trace default_initial) as [m|] eqn:E;
    [|exfalso; vm_compute in E; discriminate].
  exists m. pose proof (exec_steps_sound _ _ _ E) as Hs. split; [exact Hs|].
  apply (half_open_progress DefaultBreakerConfig true 0 _ m) in Hs; [exact Hs| | |].
  - vm_compute. split; discriminate.
  - apply (bool_decide_unpack _). vm_compute. exact I.
  - vm_compute in E. injection E as <-. reflexivity.
Defined.

(** C39: requests that panic lock a half-open breaker for good.  Nine requests
    of the default configuration (five failures, then after the timeout four
    panics) reach a half-open breaker with every slot taken and nothing in flight; from
    any such state every later request is rejected, however much time passes, until
    [Reset] is called. *)
Theorem panics_lock_breaker :
  (exists m, steps lockout_trace.*1 default_initial m /\ locked_out m) /\
  (forall ls m m', locked_out m -> steps ls m m' -> LReset ∉ ls ->
     state (m_cb m') = StateHalfOpen /\ m_admitted m' = m_admitted m /\ Forall (eq LReject) ls).
Proof.
  split.
  - destruct (exec_steps lockout_trace default_initial) as [m|] eqn:E;
      [|exfalso; vm_compute in E; discriminate].
    exists m. split; [by apply exec_steps_sound|].
    vm_compute in E. injection E as <-. by constructor.
  - intros ls m m' Hlo Hsteps Hr.
    destruct (locked_out_steps _ _ _ Hsteps Hr Hlo) as ([HS _ _] & Ha & Hf). done.
Qed.
