(* ===== verification/BreakerExec.v ===== *)
(** * Requests through the circuit breaker, one after the other

    [Execute] called in sequence: how a breaker trips, rejects and recovers. *)

From S2P Require Import Prelude Breaker BreakerRefines.

(** A logger whose records are not observed. *)
Definition no_log {W} (_ : LogRecord) (w : W) : W := w.

Lemma emit_no_log {W} logs (w : W) : emit_logs no_log logs w = w.
Proof. induction logs; done. Qed.

Section Exec.
Context {W : Type}.

Fixpoint exec_all (calls : list (ExecClock * Fn W)) (cb : CircuitBreaker) (w : W) :
    CircuitBreaker * W * list (outcome (option error)) :=
  match calls with
  | [] => (cb, w, [])
  | (ck, fn) :: calls' =>
      let x := CircuitBreaker_Execute no_log ck fn cb w in
      let '(cb', w', rs) := exec_all calls' (ex_breaker x) (ex_world x) in
      (cb', w', ex_result x :: rs)
  end.

(** Running the functions themselves, with no breaker. *)
Fixpoint call_all (calls : list (ExecClock * Fn W)) (w : W) : W * list (outcome (option error)) :=
  match calls with
  | [] => (w, [])
  | (_, fn) :: calls' =>
      let '(w', rs) := call_all calls' (fst (fn w)) in (w', snd (fn w) :: rs)
  end.

(** A function that always returns an error. *)
Definition failing (fn : Fn W) : Prop := forall w, exists err, snd (fn w) = Ret (Some err).

(** The breaker is closed and [fs] are the failures of its window. *)
Definition closed_with (cfg : BreakerConfig) (fs : list Time) (cb : CircuitBreaker) : Prop :=
  config cb = cfg /\ state cb = StateClosed /\ failures cb = fs.

Section Trip.
Context (cfg : BreakerConfig) (Hcfg : breaker_config_ok cfg) (T : Time).

(** A call inside the window that ends at [T]. *)
Definition in_time (t : Time) : Prop := T - FailureWindow cfg < t <= T.

Lemma Execute_failing ck fn cb w fs :
  closed_with cfg fs cb -> failing fn -> Forall in_time fs -> in_time (ck_after ck) ->
  let x := CircuitBreaker_Execute no_log ck fn cb w in
  let fs' := fs ++ [ck_after ck] in
  ex_world x = fst (fn w) /\ ex_result x = snd (fn w) /\
  (Z.of_nat (length fs') < FailureThreshold cfg -> closed_with cfg fs' (ex_breaker x)) /\
  (FailureThreshold cfg <= Z.of_nat (length fs') ->
     config (ex_breaker x) = cfg /\ state (ex_breaker x) = StateOpen /\
     lastStateChange (ex_breaker x) = ck_after_change ck).
Proof.
  intros (Hc & Hs & Hf) Hfn Hfs Ht. cbv zeta. unfold CircuitBreaker_Execute, beforeRequest.
  rewrite Hs, emit_no_log. destruct (Hfn w) as [err Herr]. destruct (fn w) as [w' r]. simpl in Herr. subst r.
  rewrite onFailure_eq. cbn [countRequest config state failures]. rewrite Hc, Hs, Hf.
  rewrite (window_cutoff_eq cfg Hcfg), recent_all.
  2: { unfold in_time in *. apply Forall_app. split; [|by constructor; [lia|]].
       eapply Forall_impl; [exact Hfs|]. simpl. lia. }
  destruct (Z.leb_spec (FailureThreshold cfg) (Z.of_nat (length (fs ++ [ck_after ck])))); simpl;
    rewrite ?emit_no_log; split_and!; try done; try lia.
Qed.

Lemma exec_failing : forall calls cb w fs,
  closed_with cfg fs cb -> Forall (fun c => failing c.2) calls -> Forall in_time fs ->
  Forall (fun c => in_time (ck_after c.1)) calls ->
  Z.of_nat (length fs + length calls) < FailureThreshold cfg ->
  exists cb', exec_all calls cb w = (cb', (call_all calls w).1, (call_all calls w).2) /\
    closed_with cfg (fs ++ ((fun c => ck_after c.1) <$> calls)) cb'.
Proof.
  induction calls as [|[ck fn] calls IH]; intros cb w fs Hcb Hfail Hfs Ht Hlen; simpl.
  { exists cb. by rewrite app_nil_r. }
  apply Forall_cons in Hfail as [Hfn Hfail]. apply Forall_cons in Ht as [Ht1 Ht].
  destruct (Execute_failing ck fn cb w fs Hcb Hfn Hfs Ht1) as (-> & -> & Hclosed & _).
  destruct (IH (ex_breaker (CircuitBreaker_Execute no_log ck fn cb w)) (fst (fn w)) (fs ++ [ck_after ck]))
    as (cb' & -> & Hcb'); [| |by apply Forall_app; auto| | |].
  - apply Hclosed. rewrite length_app. simpl in *. lia.
  - done.
  - done.
  - rewrite length_app. simpl in *. lia.
  - exists cb'. destruct (call_all calls (fst (fn w))). split; [done|].
    simpl. by rewrite <- app_assoc in Hcb'.
Qed.

Lemma exec_all_app calls1 calls2 cb w :
  exec_all (calls1 ++ calls2) cb w =
  let '(cb1, w1, rs1) := exec_all calls1 cb w in
  let '(cb2, w2, rs2) := exec_all calls2 cb1 w1 in (cb2, w2, rs1 ++ rs2).
Proof.
  revert cb w. induction calls1 as [|[ck fn] calls1 IH]; intros cb w; simpl.
  { by destruct (exec_all calls2 cb w) as [[? ?] ?]. }
  rewrite IH. destruct (exec_all calls1 _ _) as [[? ?] ?].
  by destruct (exec_all calls2 _ _) as [[? ?] ?].
Qed.
End Trip.
End Exec.

Lemma Time_Sub_le t u d : in_int64 d -> d < int64_max -> t - u <= d -> Time_Sub t u <= d.
Proof. unfold Time_Sub, in_int64, int64_min, int64_max. lia. Qed.

(** ** Properties *)

(** C12: how a breaker trips.  On a closed breaker with an empty window, as
    many failing calls as [FailureThreshold], all within one [FailureWindow]: every
    call runs its function and returns its error, the breaker is closed before
    the last one and open after it; and then, until [ResetTimeout] has passed
    since the opening, any call is rejected without running its function. *)
Theorem Execute_trips {W} cfg cb calls ck fn (w : W) T :
  breaker_config_ok cfg -> closed_with cfg [] cb ->
  FailureThreshold cfg = Z.of_nat (S (length calls)) ->
  Forall (fun c => failing c.2) (calls ++ [(ck, fn)]) ->
  Forall (fun c => in_time cfg T (ck_after c.1)) (calls ++ [(ck, fn)]) ->
  exists cb1 cb2,
    exec_all calls cb w = (cb1, (call_all calls w).1, (call_all calls w).2) /\
    state cb1 = StateClosed /\
    exec_all (calls ++ [(ck, fn)]) cb w =
      (cb2, (call_all (calls ++ [(ck, fn)]) w).1, (call_all (calls ++ [(ck, fn)]) w).2) /\
    state cb2 = StateOpen /\
    forall V ck' (fn' : Fn V) v, ck_before ck' - ck_after_change ck <= ResetTimeout cfg ->
      CircuitBreaker_Execute no_log ck' fn' cb2 v = mkExecuted cb2 v (Ret (Some ErrCircuitOpen)).
Proof.
  intros Hcfg Hcb Hthr Hfail Ht.
  apply Forall_app in Hfail as [Hf1 [Hf2 _]%Forall_cons]. apply Forall_app in Ht as [Ht1 [Ht2 _]%Forall_cons].
  destruct (exec_failing cfg Hcfg T calls cb w [] Hcb Hf1) as (cb1 & E1 & Hcb1); [done|done|simpl; lia|].
  assert (HT : Forall (in_time cfg T) ((fun c : ExecClock * Fn W => ck_after c.1) <$> calls))
    by (by apply Forall_fmap).
  destruct (Execute_failing cfg Hcfg T ck fn cb1 (call_all calls w).1 _ Hcb1 Hf2 HT Ht2)
    as (Ew & Er & _ & Hopen).
  destruct Hopen as (Hc2 & Hs2 & Hl2); [rewrite length_app, app_nil_l, length_fmap; simpl; lia|].
  exists cb1, (ex_breaker (CircuitBreaker_Execute no_log ck fn cb1 (call_all calls w).1)).
  split; [done|]. split; [apply Hcb1|]. split; [|split; [done|]].
  - rewrite exec_all_app, E1. simpl. rewrite Ew, Er.
    assert (Happ : call_all (calls ++ [(ck, fn)]) w =
      (fst (fn (call_all calls w).1), (call_all calls w).2 ++ [snd (fn (call_all calls w).1)])).
    { clear. revert w. induction calls as [|[ck0 fn0] calls IH]; intros w; [done|]. simpl. rewrite IH.
      by destruct (call_all calls (fst (fn0 w))). }
    by rewrite Happ.
  - intros V ck' fn' v Hlt. unfold CircuitBreaker_Execute at 1, beforeRequest. rewrite Hs2, Hc2, Hl2.
    destruct Hcfg as [_ ? _].
    rewrite (proj2 (Z.ltb_ge _ _)); [done|]. apply Time_Sub_le; [|lia|done].
    unfold in_int64. lia.
Qed.

Definition example_call (t : Time) : ExecClock * Fn (list Z) :=
  (mkExecClock t t t t, fun w => (t :: w, Ret (Some (Errorf "upstream returned 502")))).

Lemma Execute_trips_witness :
  exists cb2,
    exec_all [example_call 1; example_call 2; example_call 3]
      (NewBreaker (mkBreakerConfig 3 100 1 100) false 0) [] =
    (cb2, [3; 2; 1], repeat (Ret (Some (Errorf "upstream returned 502"))) 3) /\
    state cb2 = StateOpen /\
    CircuitBreaker_Execute no_log (mkExecClock 103 103 103 103) (snd (example_call 103)) cb2 [3; 2; 1] =
      mkExecuted cb2 [3; 2; 1] (Ret (Some ErrCircuitOpen)).
Proof.
  destruct (Execute_trips (mkBreakerConfig 3 100 1 100)
    (NewBreaker (mkBreakerConfig 3 100 1 100) false 0) [example_call 1; example_call 2]
    (mkExecClock 3 3 3 3) (snd (example_call 3)) [] 3) as (cb1 & cb2 & _ & _ & E2 & S2 & R).
  - constructor; vm_compute; intuition congruence.
  - done.
  - reflexivity.
  - repeat constructor; intros v; simpl; eauto.
  - repeat constructor; unfold in_time; simpl; lia.
  - exists cb2. split; [exact E2|]. split; [exact S2|]. apply R. simpl. lia.
Defined.

(** C22: how a breaker recovers.  A call on an open breaker more than
    [ResetTimeout] after it opened runs its function and returns its result;
    a success closes the breaker and empties its window, an error opens it
    again with a new timer, and a panic leaves it half-open with no slot taken. *)
Theorem Execute_recovers {W} ck (fn : Fn W) cb w :
  breaker_config_ok (config cb) -> state cb = StateOpen ->
  ResetTimeout (config cb) < ck_before ck - lastStateChange cb ->
  let x := CircuitBreaker_Execute no_log ck fn cb w in
  let cb' := ex_breaker x in
  ex_world x = fst (fn w) /\ ex_result x = snd (fn w) /\ config cb' = config cb /\
  match snd (fn w) with
  | Ret None => state cb' = StateClosed /\ failures cb' = [] /\ consecutiveFails cb' = 0 /\
                lastStateChange cb' = ck_after_change ck
  | Ret (Some _) => state cb' = StateOpen /\ lastStateChange cb' = ck_after_change ck
  | Panic _ => state cb' = StateHalfOpen /\ halfOpenReqs cb' = 0 /\ failures cb' = failures cb
  end.
Proof.
  intros Hcfg Hs Ht. cbv zeta. unfold CircuitBreaker_Execute, beforeRequest.
  rewrite Hs, (timeout_passed _ Hcfg), (proj2 (Z.ltb_lt _ _) Ht). simpl.
  rewrite emit_no_log. destruct (fn w) as [w' [[err|]|msg]]; simpl; rewrite ?emit_no_log; try done.
  rewrite onFailure_eq. simpl. by rewrite emit_no_log.
Qed.

Definition example_open : CircuitBreaker :=
  mkBreaker (mkBreakerConfig 3 100 1 100) false StateOpen 3 3 3 0 3 zeroTime 3 [1; 2; 3].

Lemma Execute_recovers_witness :
  let x := CircuitBreaker_Execute no_log (mkExecClock 104 104 110 111) (fun w => (w ++ ["ok"], Ret None)) example_open [] in
  ex_world x = ["ok"] /\ state (ex_breaker x) = StateClosed /\ failures (ex_breaker x) = [].
Proof.
  destruct (Execute_recovers (mkExecClock 104 104 110 111) (fun w => (w ++ ["ok"], Ret None)) example_open [])
    as (Hw & _ & _ & Hs & Hf & _).
  - constructor; vm_compute; intuition congruence.
  - reflexivity.
  - simpl. lia.
  - split; [exact Hw|]. split; [exact Hs|exact Hf].
Defined.
