(* ===== verification/TokenBucket.v ===== *)
(** * internal/ratelimit: token buckets per client

    limiter.go, token_bucket.go and store.go.  The state of a client is its
    bucket, kept in a map by key; [Allow] on a key is its critical section on that
    bucket.  Token counts are binary64 numbers (Float64.v), as in the code. *)

From S2P Require Import Prelude Float64 FloatFacts GoLib.
From Stdlib Require Import Ascii.

(** ** Data *)

Record Decision := mkDecision {
  Allowed : bool;
  Limit : Z;
  Remaining : Z;
  ResetAt : Time;
  RetryAfter : Duration
}.

Record TokenBucket := mkTokenBucket {
  tb_rate : spec_float;
  tb_burst : Z
}.

Definition NewTokenBucket (rps : spec_float) (burst : Z) : TokenBucket := mkTokenBucket rps burst.

Record bucket := mkBucket {
  tokens : spec_float;
  lastRefill : Time;
  lastAccess : Time
}.

(** [stopped] tells whether the stop channel is closed. *)
Record TokenBucketStore := mkStore {
  ts_tb : TokenBucket;
  buckets : gmap string bucket;
  stopped : bool
}.

Definition NewTokenBucketStore (tb : TokenBucket) : TokenBucketStore := mkStore tb ∅ false.

Definition set_buckets (m : gmap string bucket) (s : TokenBucketStore) : TokenBucketStore :=
  mkStore (ts_tb s) m (stopped s).

Section Allow.
(** The result of converting an out-of-range float to int64. *)
Variable oor : spec_float -> Z.

(** The bucket [LoadOrStore] stores for a new key. *)
Definition fresh_bucket (tb : TokenBucket) (now : Time) : bucket :=
  mkBucket (F64.of_Z (tb_burst tb)) now now.

Definition LoadOrStore (key : string) (now : Time) (s : TokenBucketStore) : TokenBucketStore * bucket :=
  match buckets s !! key with
  | Some b => (s, b)
  | None =>
      let b := fresh_bucket (ts_tb s) now in
      (set_buckets (<[key := b]> (buckets s)) s, b)
  end.

(** Refilling: the elapsed time at the rate, capped at the burst. *)
Definition refill (tb : TokenBucket) (now : Time) (b : bucket) : spec_float :=
  let elapsed := F64.Duration_Seconds (Time_Sub now (lastRefill b)) in
  let t := F64.add (tokens b) (F64.mul elapsed (tb_rate tb)) in
  if F64.ltb (F64.of_Z (tb_burst tb)) t then F64.of_Z (tb_burst tb) else t.

(** The critical section of [Allow] on the client's bucket. *)
Definition bucket_allow (tb : TokenBucket) (now : Time) (b : bucket) : bucket * Decision :=
  let t := refill tb now b in
  let remaining := F64.floor_int64 oor t in
  let resetAt := Time_Add now (F64.to_int64 oor (F64.div (F64.of_Z Second) (tb_rate tb))) in
  if F64.leb F64.one t then
    let t' := F64.sub t F64.one in
    (mkBucket t' now now,
     mkDecision true (tb_burst tb) (F64.floor_int64 oor t') resetAt 0)
  else
    let deficit := F64.sub F64.one t in
    let retryAfter :=
      F64.to_int64 oor (F64.mul (F64.div deficit (tb_rate tb)) (F64.of_Z Second)) in
    (mkBucket t now now, mkDecision false (tb_burst tb) remaining resetAt retryAfter).

Definition TokenBucketStore_Allow (key : string) (now : Time) (s : TokenBucketStore) :
    TokenBucketStore * Decision :=
  let '(s1, b) := LoadOrStore key now s in
  let '(b', d) := bucket_allow (ts_tb s1) now b in
  (set_buckets (<[key := b']> (buckets s1)) s1, d).
End Allow.

(** ** Cleanup *)

Definition isStale (staleThreshold : Time) (b : bucket) : bool :=
  Time_Before (lastAccess b) staleThreshold.

(** The callback of [Range] on each key in turn. *)
Fixpoint cleanup_range (staleThreshold : Time) (entries : list (string * bucket))
    (m : gmap string bucket) : gmap string bucket :=
  match entries with
  | [] => m
  | (key, b) :: entries' =>
      cleanup_range staleThreshold entries' (if isStale staleThreshold b then delete key m else m)
  end.

Definition RunCleanup (staleThreshold : Time) (s : TokenBucketStore) : TokenBucketStore :=
  set_buckets (cleanup_range staleThreshold (map_to_list (buckets s)) (buckets s)) s.

(** The background goroutine over the ticks it receives (one per 60 seconds),
    until the stop channel is closed. *)
Fixpoint cleanup (ticks : list Time) (s : TokenBucketStore) : TokenBucketStore :=
  match ticks with
  | [] => s
  | now :: ticks' => cleanup ticks' (RunCleanup (Time_Add now (-5 * Minute)) s)
  end.

(** Closing a closed channel panics. *)
Definition TokenBucketStore_Stop (s : TokenBucketStore) : outcome TokenBucketStore :=
  if stopped s then Panic "close of closed channel"
  else Ret (mkStore (ts_tb s) (buckets s) true).

(** ** store.go *)

Record CleanupConfig := mkCleanupConfig {
  Interval : Duration;
  MaxAge : Duration
}.

Definition DefaultCleanupConfig : CleanupConfig := mkCleanupConfig (60 * Second) (5 * Minute).

Record BucketInfo := mkBucketInfo {
  bi_Key : string;
  bi_Tokens : spec_float;
  bi_LastAccess : Time
}.

Definition Entries (s : TokenBucketStore) : list BucketInfo :=
  (fun '(key, b) => mkBucketInfo key (tokens b) (lastAccess b)) <$> map_to_list (buckets s).

(** The interface [Store]; the clock read of [Allow] is an argument. *)
Class Store (S : Type) := {
  Store_Allow : string -> Time -> S -> S * Decision;
  Store_Stop : S -> outcome S
}.

Record InMemoryStore := mkInMemoryStore { inner : TokenBucketStore }.

Definition NewInMemoryStore (rps : spec_float) (burst : Z) : InMemoryStore :=
  mkInMemoryStore (NewTokenBucketStore (NewTokenBucket rps burst)).

Definition InMemoryStore_Allow (oor : spec_float -> Z) (key : string) (now : Time) (s : InMemoryStore) :
    InMemoryStore * Decision :=
  let '(i, d) := TokenBucketStore_Allow oor key now (inner s) in (mkInMemoryStore i, d).

Definition InMemoryStore_Stop (s : InMemoryStore) : outcome InMemoryStore :=
  do! i <- TokenBucketStore_Stop (inner s); Ret (mkInMemoryStore i).

Definition InMemoryStore_Store (oor : spec_float -> Z) : Store InMemoryStore := {|
  Store_Allow := InMemoryStore_Allow oor;
  Store_Stop := InMemoryStore_Stop
|}.

(** ** limiter.go: the key of a request *)

(** What the extractor reads of a request: [Header.Get] and [RemoteAddr]. *)
Definition IPKeyExtractor_Extract (header : string -> string) (remoteAddr : string) : string :=
  let xff := header "X-Forwarded-For" in
  if bool_decide (xff <> "") then
    match IndexByte xff ","%char with
    | Some idx => TrimSpace (string_take idx xff)
    | None => TrimSpace xff
    end
  else
    let xri := header "X-Real-IP" in
    if bool_decide (xri <> "") then xri
    else
      match SplitHostPort remoteAddr with
      | None => remoteAddr
      | Some host => host
      end.
