(* ===== verification/TokenBucketFacts.v ===== *)
(** * What the rate limiter guarantees

    The invariant of the buckets, the exact burst, isolation of clients,
    refilling and cleanup, on the definitions of TokenBucket.v. *)

From S2P Require Import Prelude Float64 FloatFacts GoLib Config TokenBucket.
From Stdlib Require Import Sorted.
Import FloatFacts.

#[local] Opaque unit F64.one F64.of_Z.

(** ** Sequences of requests *)

Section Runs.
Variable oor : spec_float -> Z.

Fixpoint allow_all (reqs : list (string * Time)) (s : TokenBucketStore) :
    TokenBucketStore * list (string * Decision) :=
  match reqs with
  | [] => (s, [])
  | (key, now) :: reqs' =>
      let '(s1, d) := TokenBucketStore_Allow oor key now s in
      let '(s2, ds) := allow_all reqs' s1 in
      (s2, (key, d) :: ds)
  end.
End Runs.

(** ** Invariants *)

(** A finite rate and a burst that binary64 represents exactly. *)
Record limiter_ok (tb : TokenBucket) : Prop := mk_limiter_ok {
  lk_rate : nonneg (tb_rate tb);
  lk_burst : 1 <= tb_burst tb <= 2 ^ 53
}.

Record bucket_ok (tb : TokenBucket) (now : Time) (b : bucket) : Prop := mk_bucket_ok {
  bk_tokens : nonneg (tokens b);
  bk_burst : val (tokens b) <= tb_burst tb * unit;
  bk_time : lastRefill b <= now
}.

Definition store_ok (now : Time) (s : TokenBucketStore) : Prop :=
  limiter_ok (ts_tb s) /\ map_Forall (fun _ => bucket_ok (ts_tb s) now) (buckets s).

(** The promises of one decision. *)
Record decision_ok (tb : TokenBucket) (d : Decision) : Prop := mk_decision_ok {
  do_limit : Limit d = tb_burst tb;
  do_remaining : 0 <= Remaining d < tb_burst tb;
  do_rejected : Allowed d = false -> Remaining d = 0
}.

Section Invariant.
Variable oor : spec_float -> Z.
Context (tb : TokenBucket) (Htb : limiter_ok tb).

Lemma burst_val : nonneg (F64.of_Z (tb_burst tb)) /\ val (F64.of_Z (tb_burst tb)) = tb_burst tb * unit.
Proof. apply of_Z_exact. destruct Htb. lia. Qed.

Lemma fresh_bucket_ok now : bucket_ok tb now (fresh_bucket tb now).
Proof. destruct burst_val as [H1 H2]. constructor; cbn [tokens lastRefill fresh_bucket]; [done|lia|lia]. Qed.

(** Refilling keeps the bucket between empty and full. *)
Lemma refill_ok now b : bucket_ok tb now b ->
  nonneg (refill tb now b) /\ val (refill tb now b) <= tb_burst tb * unit.
Proof.
  intros [Ht Hb Hnow]. destruct burst_val as [Hbn Hbv]. unfold refill.
  assert (He : nonneg (F64.Duration_Seconds (Time_Sub now (lastRefill b)))).
  { apply Duration_Seconds_nonneg. unfold Time_Sub, int64_min, int64_max. lia. }
  set (elapsed := F64.Duration_Seconds _) in *.
  assert (Hsum : nonneg_or_inf (F64.add (tokens b) (F64.mul elapsed (tb_rate tb)))).
  { destruct (mul_nonneg _ _ He (lk_rate _ Htb)) as [Hp|Hinf].
    - by apply add_nonneg.
    - right. rewrite Hinf. apply add_inf, Ht. }
  set (sum := F64.add _ _) in *. destruct Hsum as [Hs|Hinf].
  - rewrite ltb_val by (apply Hbn || apply Hs). destruct (Z.ltb_spec (val (F64.of_Z (tb_burst tb))) (val sum)).
    + split; [done|lia].
    + split; [done|lia].
  - rewrite Hinf, ltb_inf by apply Hbn. split; [done|lia].
Qed.

Lemma bucket_allow_ok now b : bucket_ok tb now b ->
  bucket_ok tb now (fst (bucket_allow oor tb now b)) /\
  decision_ok tb (snd (bucket_allow oor tb now b)) /\
  (Allowed (snd (bucket_allow oor tb now b)) = true <-> unit <= val (refill tb now b)).
Proof.
  intros Hb. destruct (refill_ok now b Hb) as [Hn Hle]. destruct one_nonneg as [Ho Hv].
  pose proof unit_pos. pose proof (lk_burst _ Htb) as HB.
  assert (Hmax : forall z, z <= tb_burst tb * unit -> z <= int64_max * unit).
  { intros z Hz. eapply Z.le_trans; [exact Hz|]. apply Z.mul_le_mono_nonneg_r; [lia|]. unfold int64_max. lia. }
  unfold bucket_allow. rewrite leb_val by (apply Ho || apply Hn). rewrite Hv.
  destruct (Z.leb_spec unit (val (refill tb now b))) as [Hge|Hlt]; cbn.
  - destruct (sub_nonneg (refill tb now b) F64.one Hn Ho) as [Hs Hsle]; [lia|].
    assert (Hrem : val (F64.sub (refill tb now b) F64.one) <= (tb_burst tb - 1) * unit).
    { destruct (small_repr (tb_burst tb - 1)) as (y & Hy & Hvy); [lia|]. rewrite <- Hvy.
      apply sub_upper; try done. rewrite Hv, Hvy. lia. }
    split; [constructor; cbn; [done|lia|lia]|]. split; [|split; [done|done]].
    constructor; cbn; [done| |done]. rewrite floor_int64_val; [|done|by apply Hmax; lia].
    split; [apply Z.div_pos; [apply Hs|done]|]. apply Z.div_lt_upper_bound; lia.
  - split; [constructor; cbn; [done|done|lia]|]. split; [|split; [done|lia]].
    assert (Hz : F64.floor_int64 oor (refill tb now b) = 0).
    { rewrite floor_int64_val; [|done|by apply Hmax]. apply Z.div_small. split; [apply Hn|done]. }
    constructor; cbn; [done|rewrite Hz; lia|done].
Qed.
End Invariant.

Lemma bucket_ok_later tb t1 t2 b : t1 <= t2 -> bucket_ok tb t1 b -> bucket_ok tb t2 b.
Proof. intros Hle [H1 H2 H3]. constructor; [done|done|lia]. Qed.

Lemma store_ok_later t1 t2 s : t1 <= t2 -> store_ok t1 s -> store_ok t2 s.
Proof.
  intros Hle [H1 H2]. split; [done|]. eapply map_Forall_impl; [exact H2|].
  intros k b. by apply bucket_ok_later.
Qed.

(** [Allow] through the bucket of its key. *)
Lemma Allow_eq oor key now s :
  let b := default (fresh_bucket (ts_tb s) now) (buckets s !! key) in
  TokenBucketStore_Allow oor key now s =
    (set_buckets (<[key := fst (bucket_allow oor (ts_tb s) now b)]> (buckets s)) s,
     snd (bucket_allow oor (ts_tb s) now b)).
Proof.
  cbv zeta. unfold TokenBucketStore_Allow, LoadOrStore.
  destruct (buckets s !! key) as [b|].
  - change (default _ (Some b)) with b. by destruct (bucket_allow oor (ts_tb s) now b).
  - change (default ?x None) with x. cbn [ts_tb set_buckets buckets]. destruct (bucket_allow _ _ _ _). cbn. by rewrite insert_insert_eq.
Qed.

Lemma Allow_ok oor key now s : store_ok now s ->
  store_ok now (fst (TokenBucketStore_Allow oor key now s)) /\
  decision_ok (ts_tb s) (snd (TokenBucketStore_Allow oor key now s)) /\
  ts_tb (fst (TokenBucketStore_Allow oor key now s)) = ts_tb s.
Proof.
  intros [Htb Hm]. rewrite Allow_eq. cbn.
  set (b := default _ _). assert (Hb : bucket_ok (ts_tb s) now b).
  { unfold b. destruct (buckets s !! key) as [b0|] eqn:E; [by apply (Hm key)|by apply fresh_bucket_ok]. }
  destruct (bucket_allow_ok oor (ts_tb s) Htb now b Hb) as (H1 & H2 & _).
  split; [|done]. split; [done|]. cbn. by apply map_Forall_insert_2.
Qed.

Lemma allow_all_ok oor : forall reqs t0 s, store_ok t0 s ->
  StronglySorted Z.le (t0 :: reqs.*2) ->
  exists t, store_ok t (fst (allow_all oor reqs s)) /\ ts_tb (fst (allow_all oor reqs s)) = ts_tb s /\
    Forall (fun kd => decision_ok (ts_tb s) kd.2) (snd (allow_all oor reqs s)).
Proof.
  induction reqs as [|[key now] reqs IH]; intros t0 s Hs Hsort; [by exists t0|].
  apply StronglySorted_inv in Hsort as [Hsort HF]. apply Forall_inv in HF. cbn in HF.
  destruct (Allow_ok oor key now s) as (H1 & H2 & H3); [by apply (store_ok_later t0)|].
  cbn [allow_all]. destruct (TokenBucketStore_Allow oor key now s) as [s1 d]. cbn in *.
  destruct (IH now s1 H1 Hsort) as (t & Ht & Htb & Hds). exists t.
  destruct (allow_all oor reqs s1) as [s2 ds]. cbn in *. rewrite H3 in *.
  split; [done|]. split; [done|]. by constructor.
Qed.

(** ** Requests at one instant *)

Section Instant.
Variable oor : spec_float -> Z.
Context (tb : TokenBucket) (Htb : limiter_ok tb).

(** A bucket refilled at [now] that holds exactly [k] tokens. *)
Definition holds (now : Time) (k : Z) (b : bucket) : Prop :=
  lastRefill b = now /\ nonneg (tokens b) /\ val (tokens b) = k * unit.

Lemma refill_same_instant now k b : 0 <= k <= tb_burst tb -> holds now k b ->
  nonneg (refill tb now b) /\ val (refill tb now b) = k * unit.
Proof.
  intros Hk (Ht & Hn & Hv). destruct (burst_val tb Htb) as [Hbn Hbv]. unfold refill. rewrite Ht.
  assert (E : F64.Duration_Seconds (Time_Sub now now) = F64.zero).
  { unfold Time_Sub. rewrite Z.sub_diag. reflexivity. }
  rewrite E. assert (Hz : exists s, F64.mul F64.zero (tb_rate tb) = S754_zero s).
  { destruct (lk_rate _ Htb) as [_ Hf _]. destruct (tb_rate tb); try done; by eexists. }
  destruct Hz as [s ->]. destruct (add_zero (tokens b) s Hn) as [Ha Hav].
  rewrite ltb_val by (apply Hbn || apply Ha). rewrite Hbv, Hav, Hv.
  rewrite (proj2 (Z.ltb_ge _ _)); [by rewrite Hav|].
  apply Z.mul_le_mono_nonneg_r; [|lia]. pose proof unit_pos. lia.
Qed.

Lemma allow_same_instant now k b : 0 <= k <= tb_burst tb -> holds now k b ->
  let '(b', d) := bucket_allow oor tb now b in
  holds now (Z.max 0 (k - 1)) b' /\ Allowed d = (1 <=? k) /\ Remaining d = Z.max 0 (k - 1).
Proof.
  intros Hk Hb. destruct (refill_same_instant now k b Hk Hb) as [Hn Hv]. pose proof (lk_burst _ Htb) as HB.
  destruct one_nonneg as [Ho Hov]. pose proof unit_pos as HU. unfold bucket_allow.
  rewrite leb_val by (apply Ho || apply Hn). rewrite Hov, Hv.
  assert (Hmax : forall j, 0 <= j <= tb_burst tb -> j * unit <= int64_max * unit).
  { intros j Hj. apply Z.mul_le_mono_nonneg_r; [lia|]. unfold int64_max. lia. }
  destruct (Z.leb_spec unit (k * unit)) as [Hle|Hlt]; cbn [Allowed Remaining].
  - assert (H1k : 1 <= k) by nia. rewrite (proj2 (Z.leb_le _ _) H1k), Z.max_r by lia.
    destruct (sub_exact (refill tb now b) F64.one (k - 1)) as [Hs Hsv]; [done|done|lia|lia|].
    split; [done|]. split; [done|]. rewrite floor_int64_val, Hsv; [|done|rewrite Hsv; apply Hmax; lia].
    apply Z.div_mul. lia.
  - assert (H1k : k = 0) by nia. subst k. split; [done|]. split; [done|].
    rewrite floor_int64_val, Hv; [by rewrite Z.mul_0_l|done|rewrite Hv; apply Hmax; lia].
Qed.
End Instant.

(** The answers to requests at one instant from a bucket of [k] tokens. *)
Fixpoint drain (n : nat) (k : Z) : list (bool * Z) :=
  match n with
  | O => []
  | S n' => (1 <=? k, Z.max 0 (k - 1)) :: drain n' (Z.max 0 (k - 1))
  end.

Lemma drain_flags n : forall k, 0 <= k ->
  (drain n k).*1 = replicate (Nat.min n (Z.to_nat k)) true ++ replicate (n - Z.to_nat k) false.
Proof.
  induction n as [|n IH]; intros k Hk; [done|]. cbn [drain]. rewrite fmap_cons, IH by lia. cbn [fst].
  destruct (Z.leb_spec 1 k).
  - rewrite Z.max_r by lia. replace (Z.to_nat k) with (S (Z.to_nat (k - 1))) by lia. done.
  - replace k with 0 by lia. cbn. by rewrite Nat.min_0_r, Nat.sub_0_r.
Qed.

Lemma allow_all_instant oor key now : forall n k s b,
  limiter_ok (ts_tb s) -> 0 <= k <= tb_burst (ts_tb s) ->
  default (fresh_bucket (ts_tb s) now) (buckets s !! key) = b -> holds now k b ->
  (fun kd => (Allowed kd.2, Remaining kd.2)) <$> snd (allow_all oor (replicate n (key, now)) s) = drain n k.
Proof.
  induction n as [|n IH]; intros k s b Htb Hk Hd Hb; [done|]. cbn [replicate allow_all].
  rewrite Allow_eq, Hd. pose proof (allow_same_instant oor (ts_tb s) Htb now k b Hk Hb) as HA.
  destruct (bucket_allow oor (ts_tb s) now b) as [b' d]. destruct HA as (Hb' & Hal & Hr). cbn [fst snd].
  set (s1 := set_buckets _ s).
  specialize (IH (Z.max 0 (k - 1)) s1 b' Htb). destruct (allow_all oor (replicate n (key, now)) s1) as [s2 ds].
  cbn [snd drain] in *. rewrite fmap_cons. cbn [snd]. rewrite Hal, Hr. f_equal. apply IH; [cbn; lia| |done].
  unfold s1. cbn. by rewrite lookup_insert_eq.
Qed.

(** ** Clients do not affect each other *)

Lemma allow_all_isolated oor key : forall reqs s1 s2,
  ts_tb s1 = ts_tb s2 -> buckets s1 !! key = buckets s2 !! key ->
  filter (fun kd => kd.1 = key) (snd (allow_all oor reqs s1)) =
    snd (allow_all oor (filter (fun r => r.1 = key) reqs) s2) /\
  buckets (fst (allow_all oor reqs s1)) !! key =
    buckets (fst (allow_all oor (filter (fun r => r.1 = key) reqs) s2)) !! key.
Proof.
  induction reqs as [|[k now] reqs IH]; intros s1 s2 Htb Hk; [done|]. cbn [allow_all].
  rewrite Allow_eq. destruct (decide (k = key)) as [->|Hne].
  - rewrite (filter_cons_True _ (key, now)) by done. cbn [allow_all]. rewrite Allow_eq, <- Htb, <- Hk.
    set (x := bucket_allow _ _ _ _).
    destruct (IH (set_buckets (<[key := fst x]> (buckets s1)) s1) (set_buckets (<[key := fst x]> (buckets s2)) s2))
      as [H1 H2]; [done|cbn; by rewrite !lookup_insert_eq|].
    destruct (allow_all oor reqs _) as [t1 d1], (allow_all oor (filter _ reqs) _) as [t2 d2]. cbn [fst snd] in *.
    rewrite filter_cons_True by done. by rewrite H1.
  - rewrite (filter_cons_False _ (k, now)) by done. set (x := bucket_allow _ _ _ _).
    destruct (IH (set_buckets (<[k := fst x]> (buckets s1)) s1) s2) as [H1 H2];
      [done|cbn; by rewrite lookup_insert_ne|].
    destruct (allow_all oor reqs _) as [t1 d1]. cbn [fst snd] in *. by rewrite filter_cons_False.
Qed.

(** ** Cleanup *)

Lemma cleanup_range_lookup thr k : forall es m, NoDup es.*1 ->
  cleanup_range thr es m !! k =
  match list_find (fun e => e.1 = k) es with
  | Some (_, (_, b)) => if isStale thr b then None else m !! k
  | None => m !! k
  end.
Proof.
  induction es as [|[k' b] es IH]; intros m Hnd; [done|]. cbn [cleanup_range].
  rewrite fmap_cons in Hnd. apply NoDup_cons in Hnd as [Hni Hnd]. rewrite IH by done. cbn [list_find].
  destruct (decide (k' = k)) as [->|Hne].
  - assert (HN : list_find (fun e : string * bucket => e.1 = k) es = None).
    { apply list_find_None, Forall_forall. intros [k2 b2] Hin Heq. cbn in Heq. subst.
      apply Hni, list_elem_of_fmap. by exists (k, b2). }
    rewrite HN. rewrite decide_True by done. destruct (isStale thr b); [by rewrite lookup_delete_eq|done].
  - rewrite decide_False by done.
    destruct (list_find (fun e : string * bucket => e.1 = k) es) as [[i [k2 b2]]|]; cbn;
      destruct (isStale thr b); rewrite ?lookup_delete_ne by done; done.
Qed.

Lemma RunCleanup_lookup thr s k :
  buckets (RunCleanup thr s) !! k =
  match buckets s !! k with
  | Some b => if isStale thr b then None else Some b
  | None => None
  end.
Proof.
  cbn. rewrite cleanup_range_lookup by apply NoDup_fst_map_to_list.
  destruct (list_find _ _) as [[i [k2 b]]|] eqn:E.
  - apply list_find_Some in E as (Hi & Hk & _). cbn in Hk. subst k2.
    apply list_elem_of_lookup_2, elem_of_map_to_list in Hi. rewrite Hi. done.
  - apply list_find_None in E. rewrite Forall_forall in E.
    destruct (buckets s !! k) as [b|] eqn:Eb; [|done]. exfalso.
    apply elem_of_map_to_list in Eb. by apply (E (k, b)).
Qed.

(** ** Rates that are not finite *)

Lemma add_nan x : F64.add x S754_nan = S754_nan.
Proof. by destruct x. Qed.

Definition all_nan (s : TokenBucketStore) : Prop := map_Forall (fun _ b => tokens b = S754_nan) (buckets s).

Definition not_finite_rate (r : spec_float) : Prop := r = S754_infinity false \/ r = S754_nan.

Lemma nan_rejected oor tb now b : tokens b = S754_nan \/ (b = fresh_bucket tb now /\ not_finite_rate (tb_rate tb)) ->
  tokens (fst (bucket_allow oor tb now b)) = S754_nan /\
  Allowed (snd (bucket_allow oor tb now b)) = false.
Proof.
  intros Hb. assert (Hr : refill tb now b = S754_nan).
  { unfold refill. destruct Hb as [->|[-> Hr]].
    - cbn. by destruct (F64.of_Z (tb_burst tb)).
    - cbn [tokens lastRefill fresh_bucket].
      assert (E : F64.Duration_Seconds (Time_Sub now now) = F64.zero)
        by (unfold Time_Sub; rewrite Z.sub_diag; reflexivity).
      rewrite E. assert (F64.mul F64.zero (tb_rate tb) = S754_nan) as -> by (by destruct Hr as [-> | ->]).
      rewrite add_nan. by destruct (F64.of_Z (tb_burst tb)). }
  unfold bucket_allow. rewrite Hr. by destruct F64.one.
Qed.

Lemma nan_store_rejects oor : forall reqs s, all_nan s -> not_finite_rate (tb_rate (ts_tb s)) ->
  Forall (fun kd => Allowed kd.2 = false) (snd (allow_all oor reqs s)).
Proof.
  induction reqs as [|[key now] reqs IH]; intros s Hs Hr; [constructor|]. cbn [allow_all].
  rewrite Allow_eq. set (b := default _ _).
  destruct (nan_rejected oor (ts_tb s) now b) as [Ht Ha].
  { unfold b. destruct (buckets s !! key) as [b0|] eqn:E; [left; by apply (Hs key)|by right]. }
  specialize (IH (set_buckets (<[key := fst (bucket_allow oor (ts_tb s) now b)]> (buckets s)) s)).
  destruct (allow_all oor reqs _) as [s2 ds]. cbn in *. constructor; [done|]. apply IH; [|done].
  by apply map_Forall_insert_2.
Qed.

(** ** Properties *)

(** C7: the buckets stay within their bounds.  For a finite rate, a burst of
    1 to 2^53 and any requests of any clients in clock order, from a new store: every
    decision states the configured limit and a remaining count from 0 to the burst
    less one, 0 when rejected, and every bucket ends with a number of tokens between zero and
    the burst, in spite of the rounding of every refill and debit. *)
Theorem Allow_bounded oor rps burst t0 reqs :
  nonneg rps -> 1 <= burst <= 2 ^ 53 -> StronglySorted Z.le (t0 :: reqs.*2) ->
  let r := allow_all oor reqs (NewTokenBucketStore (NewTokenBucket rps burst)) in
  Forall (fun kd => Limit kd.2 = burst /\ 0 <= Remaining kd.2 < burst /\
                    (Allowed kd.2 = false -> Remaining kd.2 = 0)) (snd r) /\
  map_Forall (fun _ b => nonneg (tokens b) /\ val (tokens b) <= burst * unit) (buckets (fst r)).
Proof.
  intros Hr Hb Hsort. cbv zeta.
  destruct (allow_all_ok oor reqs t0 (NewTokenBucketStore (NewTokenBucket rps burst))) as (t & Hs & Htb & Hds);
    [split; [by constructor|apply map_Forall_empty]|done|].
  destruct (allow_all oor reqs _) as [s ds]. cbn [fst snd] in *. split.
  - eapply Forall_impl; [exact Hds|]. intros [k d] [H1 H2 H3]. done.
  - destruct Hs as [_ Hm]. rewrite Htb in Hm. eapply map_Forall_impl; [exact Hm|].
    intros k b [H1 H2 _]. done.
Qed.

Definition example_rate : spec_float := F64.of_Z 10.
Definition example_oor (_ : spec_float) : Z := 0.

Definition example_requests : list (string * Time) := [("a", 0); ("b", 50); ("a", 100); ("a", 30000000)].

Lemma Allow_bounded_witness :
  let r := allow_all example_oor example_requests (NewTokenBucketStore (NewTokenBucket example_rate 2)) in
  Forall (fun kd => Limit kd.2 = 2 /\ 0 <= Remaining kd.2 < 2 /\
                    (Allowed kd.2 = false -> Remaining kd.2 = 0)) (snd r) /\
  map_Forall (fun _ b => nonneg (tokens b) /\ val (tokens b) <= 2 * unit) (buckets (fst r)).
Proof.
  assert (H1 : nonneg example_rate) by (apply of_Z_nonneg; lia).
  assert (H2 : 1 <= 2 <= 2 ^ 53) by lia.
  assert (H3 : StronglySorted Z.le (0 :: example_requests.*2)) by (repeat constructor; cbn; lia).
  exact (Allow_bounded example_oor example_rate 2 0 example_requests H1 H2 H3).
Defined.

(** The burst is exact.  Of [n] requests of a new client at one instant,
    the first [burst] are allowed and the rest rejected, and the remaining count goes
    down one by one from the burst less one to zero. *)
Theorem burst_exact oor rps burst key now n :
  nonneg rps -> 1 <= burst <= 2 ^ 53 ->
  let ds := snd (allow_all oor (replicate n (key, now)) (NewTokenBucketStore (NewTokenBucket rps burst))) in
  (fun kd => Allowed kd.2) <$> ds =
    replicate (Nat.min n (Z.to_nat burst)) true ++ replicate (n - Z.to_nat burst) false /\
  forall i kd, ds !! i = Some kd -> Remaining kd.2 = Z.max 0 (burst - 1 - Z.of_nat i).
Proof.
  intros Hr Hb ds.
  assert (HD : (fun kd => (Allowed kd.2, Remaining kd.2)) <$> ds = drain n burst).
  { eapply allow_all_instant; [by constructor|cbn; lia|cbn; rewrite lookup_empty; reflexivity|].
    split; [done|]. by apply burst_val. }
  split.
  - rewrite <- drain_flags, <- HD, <- list_fmap_compose by lia. done.
  - clearbody ds. revert ds HD. assert (Hb0 : 0 <= burst) by lia. clear Hb. revert burst Hb0.
    induction n as [|n IH]; intros k Hk ds HD i kd Hi.
    { by apply fmap_nil_inv in HD as ->. }
    destruct ds as [|kd0 ds]; [done|]. cbn [drain] in HD. rewrite fmap_cons in HD.
    injection HD as HA HRem HD. destruct i as [|i]; cbn in Hi; [simplify_eq; lia|].
    rewrite (IH (Z.max 0 (k - 1)) ltac:(lia) ds HD i kd Hi). lia.
Qed.

Lemma burst_exact_witness :
  (fun kd => Allowed kd.2) <$>
    snd (allow_all example_oor (replicate 5 ("a", 7)) (NewTokenBucketStore (NewTokenBucket example_rate 3))) =
  [true; true; true; false; false].
Proof.
  refine (proj1 (burst_exact example_oor example_rate 3 "a" 7 5 _ _)).
  - apply of_Z_nonneg. lia.
  - lia.
Defined.

(** C18: clients are isolated.  For any interleaved requests on any store, the
    decisions a client gets and the bucket it ends with are those it would have
    got had no other client sent anything. *)
Theorem clients_isolated oor key reqs s :
  filter (fun kd => kd.1 = key) (snd (allow_all oor reqs s)) =
    snd (allow_all oor (filter (fun r => r.1 = key) reqs) s) /\
  buckets (fst (allow_all oor reqs s)) !! key =
    buckets (fst (allow_all oor (filter (fun r => r.1 = key) reqs) s)) !! key.
Proof. by apply allow_all_isolated. Qed.

(** C33: a rejected client is served again.  As soon as the time since the last
    refill at the configured rate amounts to one token (as the code computes
    the product), the next request is allowed, whatever the bucket held. *)
Theorem Allow_refills oor key now t0 s b :
  store_ok t0 s -> t0 <= now -> buckets s !! key = Some b ->
  F64.leb F64.one (F64.mul (F64.Duration_Seconds (Time_Sub now (lastRefill b))) (tb_rate (ts_tb s))) = true ->
  Allowed (snd (TokenBucketStore_Allow oor key now s)) = true.
Proof.
  intros [Htb Hm] Hle Hb Hone. pose proof (bucket_ok_later _ _ _ _ Hle (Hm key b Hb)) as Hok.
  rewrite Allow_eq, Hb. change (default _ (Some b)) with b. cbn [snd].
  apply (bucket_allow_ok oor (ts_tb s) Htb now b Hok). destruct Hok as [Ht Hbt Hnow]. unfold refill.
  destruct (burst_val _ Htb) as [Hbn Hbv]. destruct one_nonneg as [Ho Hov]. pose proof unit_pos.
  pose proof (lk_burst _ Htb) as HB.
  assert (He : nonneg (F64.Duration_Seconds (Time_Sub now (lastRefill b)))).
  { apply Duration_Seconds_nonneg. unfold Time_Sub, int64_min, int64_max. lia. }
  set (p := F64.mul _ _) in *.
  assert (Hcase : nonneg_or_inf p) by (apply mul_nonneg; [done|apply Htb]).
  assert (Hburst : unit <= val (F64.of_Z (tb_burst (ts_tb s)))) by (rewrite Hbv; nia).
  destruct Hcase as [Hp|Hinf].
  - rewrite leb_val in Hone by (apply Ho || apply Hp). apply Z.leb_le in Hone.
    destruct (add_nonneg _ _ Ht Hp) as [[Hs|Hinf] Hge].
    + destruct (Hge Hs) as [_ Hge2]. rewrite ltb_val by (apply Hbn || apply Hs).
      destruct (_ <? _); lia.
    + rewrite Hinf, ltb_inf by apply Hbn. done.
  - rewrite Hinf, add_inf, ltb_inf by (apply Ht || apply Hbn). done.
Qed.

Definition empty_bucket_store : TokenBucketStore :=
  mkStore (NewTokenBucket example_rate 2) {[ "a" := mkBucket F64.zero 0 0 ]} false.

Lemma Allow_refills_witness :
  Allowed (snd (TokenBucketStore_Allow example_oor "a" (Second / 10) empty_bucket_store)) = true.
Proof.
  refine (Allow_refills example_oor "a" (Second / 10) 0 empty_bucket_store (mkBucket F64.zero 0 0) _ _ _ _).
  - split; [constructor; [apply of_Z_nonneg; lia|cbn; lia]|]. apply map_Forall_singleton.
    constructor; [apply zero_nonneg| |reflexivity]. cbn [val tokens F64.zero tb_burst ts_tb empty_bucket_store NewTokenBucket].
    pose proof unit_pos. lia.
  - done.
  - reflexivity.
  - vm_compute. reflexivity.
Defined.

(** Cleanup removes exactly the idle clients, and no others notice: a
    bucket is gone after [RunCleanup] if and only if it was last used before the
    threshold, and a client whose bucket stays gets the same decision as without the cleanup. *)
Theorem RunCleanup_correct oor thr now s key b :
  buckets s !! key = Some b ->
  (buckets (RunCleanup thr s) !! key = None <-> lastAccess b < thr) /\
  (thr <= lastAccess b -> buckets (RunCleanup thr s) !! key = Some b /\
     snd (TokenBucketStore_Allow oor key now (RunCleanup thr s)) =
     snd (TokenBucketStore_Allow oor key now s)).
Proof.
  intros Hb. rewrite !Allow_eq, RunCleanup_lookup, Hb. unfold isStale, Time_Before.
  destruct (Z.ltb_spec (lastAccess b) thr); split; try done; try lia. split; [done|lia].
Qed.

Lemma RunCleanup_correct_witness :
  buckets (RunCleanup 1 empty_bucket_store) !! "a" = None /\
  buckets (RunCleanup 0 empty_bucket_store) !! "a" = Some (mkBucket F64.zero 0 0).
Proof.
  split.
  - apply (RunCleanup_correct example_oor 1 0 empty_bucket_store "a" (mkBucket F64.zero 0 0)); [reflexivity|].
    cbn. lia.
  - apply (RunCleanup_correct example_oor 0 0 empty_bucket_store "a" (mkBucket F64.zero 0 0)); [reflexivity|].
    cbn. lia.
Defined.

(** One token per hundred seconds, ten at once. *)
Definition slow_store : TokenBucketStore :=
  NewTokenBucketStore (NewTokenBucket (F64.div (F64.of_Z 1) (F64.of_Z 100)) 10).

Definition allowed_count (ds : list (string * Decision)) : nat :=
  length (filter (fun kd => Allowed kd.2 = true) ds).

(** Cleanup hands out tokens.  At a rate of one token per 100 seconds with a burst
    of 10, a client that used its burst and comes back after six minutes is allowed
    3 requests; when the background cleanup ran in between, it is allowed 10. *)
Theorem cleanup_restores_burst :
  let spent := fst (allow_all example_oor (replicate 10 ("a", 0)) slow_store) in
  let later := replicate 10 ("a", 6 * Minute) in
  allowed_count (snd (allow_all example_oor later spent)) = 3%nat /\
  allowed_count (snd (allow_all example_oor later (cleanup [6 * Minute] spent))) = 10%nat.
Proof. vm_compute. done. Qed.

(** An infinite or NaN rate passes the validation and rejects everything.
    The configuration check accepts both values of [requests_per_second] (written
    [.inf] and [.nan] in YAML), and a limiter with such a rate rejects every request of every client. *)
Theorem not_finite_rate_rejects oor rps burst i reqs :
  not_finite_rate rps -> 1 <= burst ->
  validateRateLimit i (Some (mkRateLimitConfig rps burst)) = [] /\
  Forall (fun kd => Allowed kd.2 = false)
    (snd (allow_all oor reqs (NewTokenBucketStore (NewTokenBucket rps burst)))).
Proof.
  intros Hr Hb. split.
  - unfold validateRateLimit. cbn [RequestsPerSecond Burst]. rewrite (proj2 (Z.leb_gt _ _)) by lia.
    by destruct Hr as [-> | ->].
  - apply nan_store_rejects; [apply map_Forall_empty|done].
Qed.

Lemma not_finite_rate_rejects_witness :
  validateRateLimit 0 (Some (mkRateLimitConfig (S754_infinity false) 100)) = [] /\
  Forall (fun kd => Allowed kd.2 = false)
    (snd (allow_all example_oor [("a", 0); ("a", Second)] (NewTokenBucketStore (NewTokenBucket (S754_infinity false) 100)))).
Proof.
  refine (not_finite_rate_rejects example_oor (S754_infinity false) 100 0 _ _ _).
  - by left.
  - lia.
Defined.
