(* ===== verification/StoreMachine.v ===== *)
(** * Concurrent requests and cleanup on one rate-limit store

    [Allow] finds the bucket of its key in the [sync.Map] and then locks that
    bucket; the cleanup ranges over the map, locks a bucket to see whether it is stale, and
    later deletes its key.  The machine below has one step for each of these
    actions, so that buckets are shared by address and a bucket can be deleted from the
    map while a request still holds it. *)

From S2P Require Import Prelude Float64 FloatFacts GoLib Config TokenBucket TokenBucketFacts.
Import FloatFacts.

#[local] Opaque unit F64.one F64.of_Z.

(** [sm_heap]: the buckets by address; [sm_map]: the [sync.Map]; [sm_pending]: the
    requests that have loaded their bucket (key, address, clock read) and not yet
    locked it; [sm_ranged] and [sm_stale]: the entries the cleanup has loaded, and the keys it has found
    stale and not yet deleted.  Ghosts: the buckets ever created by key, the decisions made
    (key, address, decision), and the keys deleted. *)
Record StoreMachine := mkStoreMachine {
  sm_heap : gmap nat bucket;
  sm_map : gmap string nat;
  sm_pending : list (string * nat * Time);
  sm_ranged : list (string * nat);
  sm_stale : list string;
  sm_created : list (string * nat);
  sm_log : list (string * nat * Decision);
  sm_deleted : list string
}.

Inductive StoreLabel :=
  | LLoad (key : string) (now : Time)
  | LAllow (key : string) (addr : nat) (now : Time)
  | LRange (key : string) (addr : nat)
  | LCheck (key : string) (addr : nat) (threshold : Time)
  | LDelete (key : string).

Section Machine.
Variable oor : spec_float -> Z.
Variable tb : TokenBucket.

(** An address not in use. *)
Definition next_addr (m : StoreMachine) : nat := length (sm_created m).

(** [s.buckets.LoadOrStore(key, &bucket{...})] *)
Definition load_or_store (key : string) (now : Time) (m : StoreMachine) : StoreMachine :=
  match sm_map m !! key with
  | Some addr =>
      mkStoreMachine (sm_heap m) (sm_map m) ((key, addr, now) :: sm_pending m) (sm_ranged m) (sm_stale m)
        (sm_created m) (sm_log m) (sm_deleted m)
  | None =>
      let addr := next_addr m in
      mkStoreMachine (<[addr := fresh_bucket tb now]> (sm_heap m)) (<[key := addr]> (sm_map m))
        ((key, addr, now) :: sm_pending m) (sm_ranged m) (sm_stale m)
        (sm_created m ++ [(key, addr)]) (sm_log m) (sm_deleted m)
  end.

Inductive store_step : StoreLabel -> StoreMachine -> StoreMachine -> Prop :=
  | step_load key now m : store_step (LLoad key now) m (load_or_store key now m)
  | step_allow key addr now m p1 p2 b b' d :
      sm_pending m = p1 ++ (key, addr, now) :: p2 ->
      sm_heap m !! addr = Some b ->
      bucket_allow oor tb now b = (b', d) ->
      store_step (LAllow key addr now) m
        (mkStoreMachine (<[addr := b']> (sm_heap m)) (sm_map m) (p1 ++ p2) (sm_ranged m) (sm_stale m)
           (sm_created m) (sm_log m ++ [(key, addr, d)]) (sm_deleted m))
  | step_range key addr m :
      sm_map m !! key = Some addr ->
      store_step (LRange key addr) m
        (mkStoreMachine (sm_heap m) (sm_map m) (sm_pending m) ((key, addr) :: sm_ranged m) (sm_stale m)
           (sm_created m) (sm_log m) (sm_deleted m))
  | step_check key addr threshold m r1 r2 b :
      sm_ranged m = r1 ++ (key, addr) :: r2 ->
      sm_heap m !! addr = Some b ->
      store_step (LCheck key addr threshold) m
        (mkStoreMachine (sm_heap m) (sm_map m) (sm_pending m) (r1 ++ r2)
           (if isStale threshold b then key :: sm_stale m else sm_stale m)
           (sm_created m) (sm_log m) (sm_deleted m))
  | step_delete key m s1 s2 :
      sm_stale m = s1 ++ key :: s2 ->
      store_step (LDelete key) m
        (mkStoreMachine (sm_heap m) (delete key (sm_map m)) (sm_pending m) (sm_ranged m) (s1 ++ s2)
           (sm_created m) (sm_log m) (key :: sm_deleted m)).

Inductive store_steps : list StoreLabel -> StoreMachine -> StoreMachine -> Prop :=
  | steps_nil m : store_steps [] m m
  | steps_cons l ls m1 m2 m3 : store_step l m1 m2 -> store_steps ls m2 m3 -> store_steps (l :: ls) m1 m3.

Definition new_store_machine : StoreMachine := mkStoreMachine ∅ ∅ [] [] [] [] [] [].

(** ** Executable steps *)

Fixpoint pick {A} `{EqDecision A} (x : A) (l : list A) : option (list A) :=
  match l with
  | [] => None
  | y :: l' => if decide (x = y) then Some l' else (fun r => y :: r) <$> pick x l'
  end.

Definition exec_store_step (l : StoreLabel) (m : StoreMachine) : option StoreMachine :=
  match l with
  | LLoad key now => Some (load_or_store key now m)
  | LAllow key addr now =>
      match pick (key, addr, now) (sm_pending m), sm_heap m !! addr with
      | Some p, Some b =>
          let '(b', d) := bucket_allow oor tb now b in
          Some (mkStoreMachine (<[addr := b']> (sm_heap m)) (sm_map m) p (sm_ranged m) (sm_stale m)
                  (sm_created m) (sm_log m ++ [(key, addr, d)]) (sm_deleted m))
      | _, _ => None
      end
  | LRange key addr =>
      if decide (sm_map m !! key = Some addr) then
        Some (mkStoreMachine (sm_heap m) (sm_map m) (sm_pending m) ((key, addr) :: sm_ranged m) (sm_stale m)
                (sm_created m) (sm_log m) (sm_deleted m))
      else None
  | LCheck key addr threshold =>
      match pick (key, addr) (sm_ranged m), sm_heap m !! addr with
      | Some r, Some b =>
          Some (mkStoreMachine (sm_heap m) (sm_map m) (sm_pending m) r
                  (if isStale threshold b then key :: sm_stale m else sm_stale m)
                  (sm_created m) (sm_log m) (sm_deleted m))
      | _, _ => None
      end
  | LDelete key =>
      (fun s => mkStoreMachine (sm_heap m) (delete key (sm_map m)) (sm_pending m) (sm_ranged m) s
                  (sm_created m) (sm_log m) (key :: sm_deleted m)) <$> pick key (sm_stale m)
  end.

Fixpoint exec_store_steps (ls : list StoreLabel) (m : StoreMachine) : option StoreMachine :=
  match ls with
  | [] => Some m
  | l :: ls' => m' ← exec_store_step l m; exec_store_steps ls' m'
  end.

Lemma pick_Some {A} `{EqDecision A} (x : A) l : forall r, pick x l = Some r ->
  exists l1 l2, l = l1 ++ x :: l2 /\ r = l1 ++ l2.
Proof.
  induction l as [|y l IH]; intros r; cbn; [done|]. case_decide as Hd.
  - intros [= <-]. subst y. by exists [], l.
  - intros (r' & Hr & ->)%fmap_Some. destruct (IH r' Hr) as (l1 & l2 & -> & ->). by exists (y :: l1), l2.
Qed.

Lemma exec_store_step_sound l m m' : exec_store_step l m = Some m' -> store_step l m m'.
Proof.
  destruct l as [key now|key addr now|key addr|key addr thr|key]; cbn.
  - intros [= <-]. constructor.
  - destruct (pick _ _) as [p|] eqn:E; [|done]. destruct (sm_heap m !! addr) as [b|] eqn:Eb; [|done].
    destruct (pick_Some _ _ _ E) as (p1 & p2 & Hp & ->). destruct (bucket_allow oor tb now b) as [b' d] eqn:Ea.
    intros [= <-]. by econstructor.
  - case_decide; [|done]. intros [= <-]. by constructor.
  - destruct (pick _ _) as [p|] eqn:E; [|done]. destruct (sm_heap m !! addr) as [b|] eqn:Eb; [|done].
    destruct (pick_Some _ _ _ E) as (p1 & p2 & Hp & ->). intros [= <-]. by apply step_check.
  - intros (s & Hs & ->)%fmap_Some. destruct (pick_Some _ _ _ Hs) as (s1 & s2 & Hp & ->). by apply step_delete.
Qed.

Lemma exec_store_steps_sound ls : forall m m', exec_store_steps ls m = Some m' -> store_steps ls m m'.
Proof.
  induction ls as [|l ls IH]; intros m m'; cbn; [intros [= <-]; constructor|].
  destruct (exec_store_step l m) as [m1|] eqn:E; [|done]. intros H. econstructor; [by apply exec_store_step_sound|by apply IH].
Qed.

(** ** Structure *)

(** How often a key has been deleted, the buckets created for it, and its decisions. *)
Definition deletions (key : string) (m : StoreMachine) : nat := length (filter (fun k => k = key) (sm_deleted m)).
Definition created_for (key : string) (m : StoreMachine) : list nat := (filter (fun x => x.1 = key) (sm_created m)).*2.
Definition entries_at (addr : nat) (m : StoreMachine) : list (string * nat * Decision) :=
  filter (fun x => x.1.2 = addr) (sm_log m).
Definition entries_of (key : string) (m : StoreMachine) : list (string * nat * Decision) :=
  filter (fun x => x.1.1 = key) (sm_log m).
Definition allowed_of (l : list (string * nat * Decision)) : nat := length (filter (fun x => Allowed x.2 = true) l).

Record structured (m : StoreMachine) : Prop := mk_structured {
  st_heap : forall addr, is_Some (sm_heap m !! addr) <-> (addr < next_addr m)%nat;
  st_created : (sm_created m).*2 = seq 0 (length (sm_created m));
  st_map : forall key addr, sm_map m !! key = Some addr -> (key, addr) ∈ sm_created m;
  st_pending : forall key addr now, (key, addr, now) ∈ sm_pending m -> (key, addr) ∈ sm_created m;
  st_log : forall key addr d, (key, addr, d) ∈ sm_log m -> (key, addr) ∈ sm_created m;
  st_count : forall key, (length (created_for key m) <= deletions key m + (match sm_map m !! key with Some _ => 1 | None => 0 end))%nat
}.

Lemma structured_new : structured new_store_machine.
Proof.
  constructor; try done.
  - intros addr. cbn. rewrite lookup_empty. split; [by intros []|lia].
  - intros key addr now ?%elem_of_nil. done.
  - intros key addr d ?%elem_of_nil. done.
Qed.

Lemma created_for_app key m x : sm_created m = x -> created_for key m = (filter (fun x => x.1 = key) x).*2.
Proof. by intros <-. Qed.

Lemma structured_load key now m : structured m -> structured (load_or_store key now m).
Proof.
  intros [Hh Hc Hm Hp Hl Hn]. unfold load_or_store. destruct (sm_map m !! key) as [addr|] eqn:E.
  - constructor; try done. intros k a t [[= -> -> ->]|?]%elem_of_cons; [by apply Hm|by eapply Hp].
  - constructor; unfold next_addr; cbn [sm_heap sm_map sm_pending sm_created sm_log].
    + intros addr. rewrite length_app. cbn [length]. rewrite lookup_insert_is_Some, Hh. unfold next_addr. lia.
    + rewrite fmap_app, Hc, length_app. cbn [length]. by rewrite seq_app.
    + intros k a Hk. apply elem_of_app. apply lookup_insert_Some in Hk as [[-> <-]|[_ Hk]]; [right; by left|left; by apply Hm].
    + intros k a t [[= -> -> ->]|?]%elem_of_cons; apply elem_of_app; [right; by left|left; by eapply Hp].
    + intros k a d ?. apply elem_of_app. left. by eapply Hl.
    + intros k. specialize (Hn k). unfold created_for, deletions in *. cbn [sm_created sm_deleted] in *.
      rewrite filter_app, fmap_app, length_app, filter_cons, filter_nil. cbn [fst]. destruct (decide (key = k)) as [->|Hne].
      * rewrite E in Hn. rewrite lookup_insert_eq. cbn. lia.
      * rewrite lookup_insert_ne by done. cbn. lia.
Qed.

Lemma structured_step l m1 m2 : store_step l m1 m2 -> structured m1 -> structured m2.
Proof.
  intros Hstep Hs. destruct Hstep; [by apply structured_load|destruct Hs as [Hh Hc Hm Hp Hl Hn]..].
  - constructor; try done; cbn [sm_heap sm_pending sm_log].
    + intros a. rewrite lookup_insert_is_Some', <- Hh. split; [intros [<-|?]; [by eexists|done]|by right].
    + intros k a t Hin. apply (Hp k a t). rewrite H. set_solver.
    + intros k a d' [?|[= -> -> ->]%list_elem_of_singleton]%elem_of_app; [by eapply Hl|].
      apply (Hp key addr now). rewrite H. set_solver.
  - by constructor.
  - by constructor.
  - constructor; try done; cbn [sm_map].
    + intros k a [_ Hk]%lookup_delete_Some. by apply Hm.
    + intros k. specialize (Hn k). unfold deletions in *. cbn [sm_map sm_deleted] in *. rewrite filter_cons.
      destruct (decide (key = k)) as [->|Hne].
      * rewrite lookup_delete_eq. cbn [length]. change (created_for k _) with (created_for k m). destruct (sm_map m !! k); lia.
      * rewrite lookup_delete_ne by done. exact Hn.
Qed.

Lemma structured_steps ls m1 m2 : store_steps ls m1 m2 -> structured m1 -> structured m2.
Proof. induction 1; eauto using structured_step. Qed.

(** Every entry of the log is about a bucket of its key. *)
Lemma created_unique m k1 k2 addr : structured m -> (k1, addr) ∈ sm_created m -> (k2, addr) ∈ sm_created m -> k1 = k2.
Proof.
  intros Hs (i & Hi)%list_elem_of_lookup (j & Hj)%list_elem_of_lookup. pose proof (st_created m Hs) as Hc.
  assert (i = j) as ->; [|congruence].
  pose proof (NoDup_seq 0 (length (sm_created m))) as Hnd. rewrite <- Hc in Hnd.
  eapply (NoDup_lookup _ i j addr Hnd); rewrite list_lookup_fmap; [by rewrite Hi|by rewrite Hj].
Qed.

(** ** Requests at one instant *)

(** Every request of the run read the clock at [T]. *)
Definition at_instant (T : Time) (l : StoreLabel) : Prop :=
  match l with LLoad _ now | LAllow _ _ now => now = T | _ => True end.

Section PerBucket.
(** What a bucket and the decisions made on it have in common. *)
Context (T : Time) (R : bucket -> list Decision -> Prop).
Hypothesis R_fresh : R (fresh_bucket tb T) [].
Hypothesis R_allow : forall b ds b' d, R b ds -> bucket_allow oor tb T b = (b', d) -> R b' (ds ++ [d]).

Definition all_buckets (m : StoreMachine) : Prop :=
  forall addr b, sm_heap m !! addr = Some b -> R b (entries_at addr m).*2.

Lemma all_buckets_step l m1 m2 : store_step l m1 m2 -> at_instant T l -> structured m1 -> all_buckets m1 -> all_buckets m2.
Proof.
  intros Hstep Hl Hs HR. destruct Hstep; cbn in Hl; try (exact HR); subst.
  - unfold load_or_store. destruct (sm_map m !! key) as [addr|]; [exact HR|].
    intros a b Hb. cbn [sm_heap] in Hb. apply lookup_insert_Some in Hb as [[<- <-]|[_ Hb]]; [|by apply HR].
    assert (entries_at (next_addr m) m = []) as HE.
    { apply elem_of_nil_inv. intros [[k a] d] [Ha Hin]%list_elem_of_filter. cbn in Ha. subst a.
      apply (st_log m Hs), (list_elem_of_fmap_2 snd) in Hin. cbn in Hin. rewrite (st_created m Hs) in Hin.
      apply elem_of_seq in Hin. unfold next_addr in Hin. lia. }
    unfold entries_at in *. cbn [sm_log]. rewrite HE. exact R_fresh.
  - intros a b0 Ha. unfold entries_at. cbn [sm_log sm_heap] in *. rewrite filter_app, filter_cons, filter_nil. cbn [fst snd].
    apply lookup_insert_Some in Ha as [[<- <-]|[Hne Ha]].
    + rewrite decide_True by done. rewrite fmap_app. eapply R_allow; [by apply HR|done].
    + rewrite decide_False by done. rewrite app_nil_r. by apply HR.
Qed.

Lemma all_buckets_steps ls m1 m2 : store_steps ls m1 m2 -> Forall (at_instant T) ls ->
  structured m1 -> all_buckets m1 -> all_buckets m2.
Proof.
  induction 1 as [|l ls m1 m2 m3 H1 _ IH]; [done|]. intros [Hl Hls]%Forall_cons Hs HR.
  apply IH; [done|by eapply structured_step|by eapply all_buckets_step].
Qed.
End PerBucket.

(** The allowed decisions of a key, bucket by bucket. *)
Lemma count_by_bucket (k : nat) (addrs : list nat) : forall (l : list (string * nat * Decision)),
  Forall (fun x => x.1.2 ∈ addrs) l ->
  (forall a, a ∈ addrs -> (allowed_of (filter (fun x => x.1.2 = a) l) <= k)%nat) ->
  (allowed_of l <= k * length addrs)%nat.
Proof.
  unfold allowed_of. induction addrs as [|a addrs IH]; intros l Hl Hk.
  { destruct l as [|x l]; [cbn; lia|]. apply Forall_cons in Hl as [?%elem_of_nil _]. done. }
  assert (HS : length (filter (fun x => Allowed x.2 = true) l) =
    (length (filter (fun x => Allowed x.2 = true) (filter (fun x => x.1.2 = a) l)) +
     length (filter (fun x => Allowed x.2 = true) (filter (fun x => x.1.2 <> a) l)))%nat).
  { clear. induction l as [|x l IH]; [done|]. rewrite !filter_cons.
    destruct (decide (x.1.2 = a)), (decide (x.1.2 <> a)); try done; rewrite !filter_cons;
      destruct (decide (Allowed x.2 = true)); cbn [length]; lia. }
  rewrite HS. pose proof (Hk a ltac:(by left)) as Ha. cbn [length].
  assert (Hrest : (length (filter (fun x => Allowed x.2 = true) (filter (fun x => x.1.2 <> a) l)) <= k * length addrs)%nat); [|lia].
  apply IH.
  - rewrite Forall_forall in *. intros x [Hx Hin]%list_elem_of_filter. specialize (Hl x Hin). set_solver.
  - intros a' Ha'. etransitivity; [|exact (Hk a' ltac:(by right))].
    clear. induction l as [|x l IH]; [done|]. rewrite !filter_cons.
    repeat (case_decide; rewrite ?filter_cons); cbn [length]; try lia; done.
Qed.
End Machine.

(** ** What a bucket can give at one instant *)

Section Instant.
Variable oor : spec_float -> Z.
Context (tb : TokenBucket) (Htb : limiter_ok tb) (T : Time).

Definition allowed_in (ds : list Decision) : nat := length (filter (fun d => Allowed d = true) ds).

Lemma allowed_in_snoc ds d : allowed_in (ds ++ [d]) = (allowed_in ds + (if Allowed d then 1 else 0))%nat.
Proof.
  unfold allowed_in. rewrite filter_app, length_app, filter_cons, filter_nil. by destruct (Allowed d).
Qed.

(** Refilling at the instant of the last refill changes nothing. *)
Lemma refill_instant b : bucket_ok tb T b -> lastRefill b = T -> val (refill tb T b) = val (tokens b).
Proof.
  intros [Hn Hle _] HT. destruct (burst_val tb Htb) as [Hbn Hbv]. unfold refill. rewrite HT.
  assert (E : F64.Duration_Seconds (Time_Sub T T) = F64.zero).
  { unfold Time_Sub. rewrite Z.sub_diag. reflexivity. }
  rewrite E. assert (Hz : exists s, F64.mul F64.zero (tb_rate tb) = S754_zero s).
  { destruct (lk_rate _ Htb) as [_ Hf _]. destruct (tb_rate tb); try done; by eexists. }
  destruct Hz as [s ->]. destruct (add_zero (tokens b) s Hn) as [Ha Hav].
  rewrite ltb_val by (apply Hbn || apply Ha). rewrite Hbv, Hav, (proj2 (Z.ltb_ge _ _)) by lia. exact Hav.
Qed.

(** A bucket of any history gives at most the burst from the instant on. *)
Definition gives_at_most (b : bucket) (ds : list Decision) : Prop :=
  bucket_ok tb T b /\ (lastRefill b <> T -> allowed_in ds = 0%nat) /\
  val (tokens b) <= (tb_burst tb - Z.of_nat (allowed_in ds)) * unit.

Lemma gives_at_most_allow b ds b' d :
  gives_at_most b ds -> bucket_allow oor tb T b = (b', d) -> gives_at_most b' (ds ++ [d]).
Proof.
  intros (Hok & Hfirst & Hle) E. pose proof (bucket_allow_ok oor tb Htb T b Hok) as (Hok' & _ & Hal). rewrite E in Hok', Hal.
  destruct (refill_ok tb Htb T b Hok) as [Hn Hb]. pose proof unit_pos as HU. destruct one_nonneg as [Ho Hov].
  assert (Hr : val (refill tb T b) <= (tb_burst tb - Z.of_nat (allowed_in ds)) * unit).
  { destruct (decide (lastRefill b = T)) as [Ht|Ht]; [by rewrite refill_instant|]. rewrite (Hfirst Ht). lia. }
  unfold gives_at_most. rewrite allowed_in_snoc. cbn [fst snd] in *. unfold bucket_allow in E.
  rewrite leb_val in E by (apply Ho || apply Hn). rewrite Hov in E.
  destruct (Z.leb_spec unit (val (refill tb T b))) as [Hge|Hlt]; injection E as <- <-; cbn [Allowed tokens lastRefill].
  - split; [exact Hok'|]. split; [done|]. pose proof (lk_burst _ Htb) as HB.
    destruct (small_repr (tb_burst tb - Z.of_nat (allowed_in ds) - 1)) as (y & Hy & Hvy); [nia|].
    replace ((tb_burst tb - Z.of_nat (allowed_in ds + 1)) * unit) with (val y) by (rewrite Hvy; lia).
    apply sub_upper; try done; rewrite ?Hov, ?Hvy; lia.
  - split; [exact Hok'|]. split; [done|]. rewrite Nat.add_0_r. exact Hr.
Qed.

(** A bucket created at the instant gives exactly the burst. *)
Definition gives_exactly (b : bucket) (ds : list Decision) : Prop :=
  holds T (Z.max 0 (tb_burst tb - Z.of_nat (length ds))) b /\
  Z.of_nat (allowed_in ds) = Z.min (Z.of_nat (length ds)) (tb_burst tb).

Lemma gives_exactly_allow b ds b' d :
  gives_exactly b ds -> bucket_allow oor tb T b = (b', d) -> gives_exactly b' (ds ++ [d]).
Proof.
  intros [Hh Ha] E. pose proof (lk_burst _ Htb) as HB.
  pose proof (allow_same_instant oor tb Htb T (Z.max 0 (tb_burst tb - Z.of_nat (length ds))) b ltac:(lia) Hh) as HS.
  rewrite E in HS. destruct HS as (Hh' & Hd & _). unfold gives_exactly. rewrite allowed_in_snoc, length_app. cbn [length].
  split.
  - replace (Z.max 0 (tb_burst tb - Z.of_nat (length ds + 1))) with
      (Z.max 0 (Z.max 0 (tb_burst tb - Z.of_nat (length ds)) - 1)) by lia. exact Hh'.
  - rewrite Hd. destruct (Z.leb_spec 1 (Z.max 0 (tb_burst tb - Z.of_nat (length ds)))); lia.
Qed.

Lemma allowed_of_in l : allowed_of l = allowed_in l.*2.
Proof.
  unfold allowed_of, allowed_in. induction l as [|x l IH]; [done|]. rewrite fmap_cons, !filter_cons.
  destruct (decide (Allowed x.2 = true)); cbn; by rewrite IH.
Qed.

Lemma filter_ext_in {A} (P Q : A -> Prop) `{!forall x, base.Decision (P x), !forall x, base.Decision (Q x)} (l : list A) :
  (forall x, x ∈ l -> P x <-> Q x) -> filter P l = filter Q l.
Proof.
  induction l as [|x l IH]; intros HPQ; [done|]. rewrite !filter_cons, IH by (intros; apply HPQ; by right).
  destruct (HPQ x ltac:(by left)). by repeat case_decide; try tauto.
Qed.

Lemma filter_all {A} (P : A -> Prop) `{!forall x, base.Decision (P x)} (l : list A) : Forall P l -> filter P l = l.
Proof. induction 1 as [|x l Hx _ IH]; [done|]. by rewrite filter_cons_True, IH. Qed.

Lemma created_heap key m addr : structured m -> addr ∈ created_for key m -> is_Some (sm_heap m !! addr).
Proof.
  intros Hs Hin. apply (st_heap m Hs). unfold created_for in Hin.
  apply list_elem_of_fmap in Hin as (x & -> & [_ Hin]%list_elem_of_filter). apply (list_elem_of_fmap_2 snd) in Hin.
  rewrite (st_created m Hs) in Hin. apply elem_of_seq in Hin. unfold next_addr. lia.
Qed.

(** The decisions of a key are those on the buckets created for it. *)
Lemma entries_of_at key m addr : structured m -> addr ∈ created_for key m ->
  filter (fun x => x.1.2 = addr) (entries_of key m) = entries_at addr m.
Proof.
  intros Hs Hin. unfold entries_of, entries_at. rewrite list_filter_filter. apply filter_ext_in.
  intros [[k a] d] Hx. cbn. split; [tauto|]. intros ->. split; [done|].
  apply (st_log m Hs) in Hx. unfold created_for in Hin.
  apply list_elem_of_fmap in Hin as ([k' a'] & -> & [Hk Hin]%list_elem_of_filter). cbn in *. subst k'.
  by eapply created_unique.
Qed.

Lemma entries_created key m : structured m -> Forall (fun x => x.1.2 ∈ created_for key m) (entries_of key m).
Proof.
  intros Hs. apply Forall_forall. intros [[k a] d] [Hk Hin]%list_elem_of_filter. cbn in *. subst k.
  apply (st_log m Hs) in Hin. unfold created_for. apply list_elem_of_fmap. exists (key, a). split; [done|].
  by apply list_elem_of_filter.
Qed.
End Instant.

(** ** Properties *)

Section Properties.
Variable oor : spec_float -> Z.

(** C17: concurrent bursts.  Requests of any clients that all read the clock at
    one instant, from an empty store, interleaved in any way with each other and with cleanups: a
    client whose key is not deleted is allowed exactly its first burst of requests, whatever the
    order in which they got the lock. *)
Theorem concurrent_burst rps burst T ls m key :
  nonneg rps -> 1 <= burst <= 2 ^ 53 ->
  store_steps oor (NewTokenBucket rps burst) ls new_store_machine m -> Forall (at_instant T) ls ->
  deletions key m = 0%nat ->
  Z.of_nat (allowed_of (entries_of key m)) = Z.min (Z.of_nat (length (entries_of key m))) burst.
Proof.
  intros Hr Hb Hsteps Hls Hdel. set (tb := NewTokenBucket rps burst) in *.
  assert (Htb : limiter_ok tb) by by constructor.
  pose proof (structured_steps _ _ _ _ _ Hsteps structured_new) as Hs.
  assert (HR : all_buckets (gives_exactly tb T) m).
  { eapply (all_buckets_steps oor tb T); [| |exact Hsteps|exact Hls|apply structured_new|].
    - destruct (burst_val tb Htb) as [H1 H2]. split; [|by cbn; lia]. split; [done|]. split; [done|].
      cbn [length tokens fresh_bucket]. rewrite H2. cbn. lia.
    - intros b ds b' d. by apply gives_exactly_allow.
    - intros addr b Hx. cbn in Hx. by rewrite lookup_empty in Hx. }
  pose proof (st_count m Hs key) as Hc. rewrite Hdel in Hc.
  destruct (created_for key m) as [|addr rest] eqn:EC.
  { assert (entries_of key m = []) as ->; [|cbn; lia]. pose proof (entries_created key m Hs) as HE. rewrite EC in HE.
    destruct (entries_of key m) as [|x l]; [done|]. by apply Forall_cons in HE as [?%elem_of_nil _]. }
  assert (rest = []) as -> by (destruct rest; [done|]; cbn in Hc; destruct (sm_map m !! key); lia).
  assert (HE : entries_of key m = entries_at addr m).
  { rewrite <- (entries_of_at key m addr Hs) by (rewrite EC; by left).
    symmetry. apply filter_all. pose proof (entries_created key m Hs) as HE. rewrite EC in HE.
    eapply Forall_impl; [exact HE|]. intros x ?%list_elem_of_singleton. done. }
  assert (Haddr : is_Some (sm_heap m !! addr)) by (apply (created_heap key); [done|rewrite EC; by left]).
  destruct Haddr as [b Hb']. destruct (HR addr b Hb') as [_ Ha]. rewrite HE, allowed_of_in, Ha. by rewrite length_fmap.
Qed.

(** C11: what the race with the cleanup can cost.  From a store with buckets of
    any history, requests at one instant and cleanups with any threshold, interleaved in any way: a
    bucket deleted while requests hold it goes on being used by them beside its successor,
    but each deletion of a client's key gives it at most one more burst. *)
Theorem cleanup_race_bound tb T ls m0 m key :
  limiter_ok tb -> structured m0 -> sm_log m0 = [] ->
  map_Forall (fun _ => bucket_ok tb T) (sm_heap m0) ->
  store_steps oor tb ls m0 m -> Forall (at_instant T) ls ->
  Z.of_nat (allowed_of (entries_of key m)) <= tb_burst tb * (Z.of_nat (deletions key m) + 1).
Proof.
  intros Htb Hs0 Hlog Hok Hsteps Hls. pose proof (structured_steps _ _ _ _ _ Hsteps Hs0) as Hs.
  assert (HR : all_buckets (gives_at_most tb T) m).
  { eapply (all_buckets_steps oor tb T); [| |exact Hsteps|exact Hls|exact Hs0|].
    - destruct (burst_val tb Htb) as [H1 H2]. split; [by apply fresh_bucket_ok|]. split; [done|].
      cbn [tokens fresh_bucket]. rewrite H2. cbn. lia.
    - intros b ds b' d. by apply gives_at_most_allow.
    - intros addr b Hx. unfold entries_at. rewrite Hlog. pose proof (Hok addr b Hx) as Hbk. split; [exact Hbk|]. split; [done|].
      cbn. pose proof (bk_burst _ _ _ Hbk). lia. }
  pose proof (lk_burst _ Htb) as HB.
  assert (Hcount : (allowed_of (entries_of key m) <= Z.to_nat (tb_burst tb) * length (created_for key m))%nat).
  { apply count_by_bucket; [by apply entries_created|]. intros addr Hin. rewrite (entries_of_at key m addr Hs Hin).
    destruct (sm_heap m !! addr) as [b|] eqn:Eb.
    - destruct (HR addr b Eb) as (Hbk & _ & Hle). rewrite allowed_of_in.
      pose proof (nn_val _ (bk_tokens _ _ _ Hbk)). pose proof unit_pos. nia.
    - destruct (created_heap key m addr Hs Hin). congruence. }
  pose proof (st_count m Hs key) as Hc. destruct (sm_map m !! key); nia.
Qed.
End Properties.

(** ** Examples *)

Section Examples.
Definition no_oor (_ : spec_float) : Z := 0.

(** Two buckets' worth of requests of one client, interleaved. *)
Definition burst_trace : list StoreLabel :=
  [LLoad "a" 7; LLoad "a" 7; LLoad "b" 7; LAllow "a" 0 7; LLoad "a" 7; LAllow "a" 0 7; LAllow "b" 1 7; LAllow "a" 0 7].

Lemma concurrent_burst_witness :
  exists m, store_steps no_oor (NewTokenBucket (F64.of_Z 10) 2) burst_trace new_store_machine m /\
    length (entries_of "a" m) = 3%nat /\ Z.of_nat (allowed_of (entries_of "a" m)) = 2.
Proof.
  destruct (exec_store_steps no_oor (NewTokenBucket (F64.of_Z 10) 2) burst_trace new_store_machine) as [m|] eqn:E;
    [|vm_compute in E; discriminate].
  pose proof (exec_store_steps_sound _ _ _ _ _ E) as Hs. exists m. split; [exact Hs|].
  assert (Hn : length (entries_of "a" m) = 3%nat) by (vm_compute in E; injection E as <-; reflexivity).
  split; [exact Hn|].
  rewrite (concurrent_burst no_oor (F64.of_Z 10) 2 7 burst_trace m "a"); [rewrite Hn; reflexivity| | |exact Hs| |].
  - apply (of_Z_nonneg 10). lia.
  - lia.
  - repeat constructor.
  - vm_compute in E. injection E as <-. reflexivity.
Defined.

(** A client whose full bucket has been idle since the epoch. *)
Definition idle_machine : StoreMachine :=
  mkStoreMachine {[ 0%nat := mkBucket (F64.of_Z 2) 0 0 ]} {[ "a" := 0%nat ]} [] [] [] [("a", 0%nat)] [] [].

(** The cleanup finds the bucket stale, two requests load it, and only then is it deleted. *)
Definition race_trace (now : Time) : list StoreLabel :=
  [LRange "a" 0; LCheck "a" 0 (now - 5 * Minute); LLoad "a" now; LLoad "a" now; LDelete "a";
   LAllow "a" 0 now; LAllow "a" 0 now; LLoad "a" now; LLoad "a" now; LAllow "a" 1 now; LAllow "a" 1 now].

Lemma idle_structured : structured idle_machine.
Proof.
  constructor.
  - intros addr. unfold idle_machine, next_addr. cbn. rewrite lookup_singleton_is_Some. lia.
  - reflexivity.
  - intros key addr Hk. cbn [idle_machine sm_map] in Hk.
    apply lookup_singleton_Some in Hk as [<- <-]. left.
  - intros key addr now ?%elem_of_nil. done.
  - intros key addr d ?%elem_of_nil. done.
  - intros key. destruct (decide (key = "a")) as [->|Hne]; [vm_compute; lia|].
    unfold created_for. change (sm_created idle_machine) with [("a", 0%nat)].
    rewrite filter_cons_False by (intros E; by apply Hne). cbn [filter list_filter fmap list_fmap length]. lia.
Qed.

(** The bound is reached: four requests of a client with a burst of two. *)
Lemma cleanup_race_bound_witness :
  exists m, store_steps no_oor (NewTokenBucket (F64.of_Z 1) 2) (race_trace (6 * Minute)) idle_machine m /\
    allowed_of (entries_of "a" m) = 4%nat /\ Z.of_nat (allowed_of (entries_of "a" m)) <= 2 * (Z.of_nat (deletions "a" m) + 1).
Proof.
  destruct (exec_store_steps no_oor (NewTokenBucket (F64.of_Z 1) 2) (race_trace (6 * Minute)) idle_machine) as [m|] eqn:E;
    [|vm_compute in E; discriminate].
  pose proof (exec_store_steps_sound _ _ _ _ _ E) as Hs. exists m. split; [exact Hs|]. split.
  - vm_compute in E. injection E as <-. reflexivity.
  - apply (cleanup_race_bound no_oor (NewTokenBucket (F64.of_Z 1) 2) (6 * Minute) (race_trace (6 * Minute)) idle_machine m "a");
      [| |reflexivity| |exact Hs|].
    + constructor; [apply (of_Z_nonneg 1); lia|cbn; lia].
    + exact idle_structured.
    + apply map_Forall_singleton. destruct (of_Z_exact 2 ltac:(lia)) as [H1 H2]. constructor; cbn [tokens lastRefill].
      * exact H1.
      * rewrite H2. cbn. lia.
      * vm_compute. discriminate.
    + repeat constructor.
Defined.

(** A request that read the clock before another one, and locks the bucket after it, refills
    it by a negative amount: with 1000 tokens per second and a burst of 10, the
    second request of a new client is rejected with a remaining count of -1. *)
Theorem late_request_rejected :
  exists m d1 d2,
    store_steps no_oor (NewTokenBucket (F64.of_Z 1000) 10)
      [LLoad "a" 0; LLoad "a" (10 * Millisecond); LAllow "a" 0 (10 * Millisecond); LAllow "a" 0 0] new_store_machine m /\
    (fun x => x.2) <$> sm_log m = [d1; d2] /\
    Allowed d1 = true /\ Remaining d1 = 9 /\ Allowed d2 = false /\ Remaining d2 = -1.
Proof.
  destruct (exec_store_steps no_oor (NewTokenBucket (F64.of_Z 1000) 10)
      [LLoad "a" 0; LLoad "a" (10 * Millisecond); LAllow "a" 0 (10 * Millisecond); LAllow "a" 0 0] new_store_machine) as [m|] eqn:E;
    [|vm_compute in E; discriminate].
  pose proof (exec_store_steps_sound _ _ _ _ _ E) as Hs. vm_compute in E. injection E as <-.
  eexists _, _, _. split; [exact Hs|]. split; [reflexivity|]. done.
Qed.
End Examples.
