(* ===== verification/Http.v ===== *)
(** * net/http and internal/observability: requests, responses, handlers

    The parts of net/http the gateway's handlers use (headers, requests, what a
    sequence of calls on a response writer sends: one final status, informational ones before it, and the
    bytes of the body the server takes), the request context of
    observability/context.go, the log levels of observability/logger.go and the
    metrics of observability/metrics.go.  A handler is a computation ([M])
    that emits calls on its response writer, acts on the gateway's state and
    returns or panics. *)

From S2P Require Import Prelude Float64 GoLib Config Balancer BalancerConfig Breaker TokenBucket.
From Stdlib Require Import Ascii.

(** ** Headers *)

Definition is_lower (c : ascii) : bool := ((97 <=? nat_of_ascii c) && (nat_of_ascii c <=? 122))%nat.
Definition upper_ascii (c : ascii) : ascii := if is_lower c then ascii_of_nat (nat_of_ascii c - 32) else c.

(** [textproto.CanonicalMIMEHeaderKey] on the bytes of a header name. *)
Fixpoint canonical_from (upper : bool) (s : string) : string :=
  match s with
  | EmptyString => EmptyString
  | String c s' =>
      String (if upper then upper_ascii c else lower_ascii c) (canonical_from (Ascii.eqb c "-"%char) s')
  end.

Definition CanonicalHeaderKey (s : string) : string := canonical_from true s.

(** A header map: canonical names to the list of values. *)
Abbreviation Header := (gmap string (list string)).

Definition Header_Get (h : Header) (key : string) : string :=
  match h !! CanonicalHeaderKey key with
  | Some (v :: _) => v
  | _ => ""
  end.

Definition Header_Set (h : Header) (key value : string) : Header :=
  <[CanonicalHeaderKey key := [value]]> h.

Definition Header_Add (h : Header) (key value : string) : Header :=
  <[CanonicalHeaderKey key := default [] (h !! CanonicalHeaderKey key) ++ [value]]> h.
#[global] Arguments Header_Get : simpl never.
#[global] Arguments Header_Set : simpl never.
#[global] Arguments Header_Add : simpl never.

Lemma Header_Get_Set h k v : Header_Get (Header_Set h k v) k = v.
Proof. unfold Header_Get, Header_Set. by rewrite lookup_insert_eq. Qed.

Lemma Header_Get_Set_ne h k k' v :
  CanonicalHeaderKey k <> CanonicalHeaderKey k' -> Header_Get (Header_Set h k v) k' = Header_Get h k'.
Proof. intros. unfold Header_Get, Header_Set. by rewrite lookup_insert_ne. Qed.

(** *** Tokens in header values (golang.org/x/net/http/httpguts) *)

Definition is_ows (c : ascii) : bool := Ascii.eqb c " " || (nat_of_ascii c =? 9)%nat.

Fixpoint trim_ows_left (s : string) : string :=
  match s with
  | EmptyString => EmptyString
  | String c s' => if is_ows c then trim_ows_left s' else s
  end.

Fixpoint trim_ows_right (s : string) : string :=
  match s with
  | EmptyString => EmptyString
  | String c s' =>
      let t := trim_ows_right s' in
      if is_ows c && bool_decide (t = "") then EmptyString else String c t
  end.

Fixpoint split_commas (s : string) : list string :=
  match s with
  | EmptyString => [EmptyString]
  | String c s' =>
      if Ascii.eqb c "," then EmptyString :: split_commas s'
      else match split_commas s' with
           | part :: parts => String c part :: parts
           | [] => [String c EmptyString]
           end
  end.

(** [HeaderValuesContainsToken], for a token in lower case. *)
Definition contains_token (values : list string) (token : string) : bool :=
  existsb (fun v => existsb (fun part =>
    bool_decide (map_string lower_ascii (trim_ows_left (trim_ows_right part)) = token)) (split_commas v)) values.

Definition Header_Values (h : Header) (key : string) : list string := default [] (h !! CanonicalHeaderKey key).

(** ** observability/context.go *)

Inductive ContextKey := requestIDKey | loggerKey | upstreamTargetKey.

#[export] Instance ContextKey_eq_dec : EqDecision ContextKey.
Proof. solve_decision. Defined.

(** What the gateway stores in a context: strings and loggers (by name). *)
Inductive ContextValue :=
  | CtxString (s : string)
  | CtxLogger (name : string).

(** [context.WithValue] adds a binding in front; [ctx.Value] finds the first. *)
Definition RequestContext : Type := list (ContextKey * ContextValue).

Definition ctx_Value (ctx : RequestContext) (k : ContextKey) : option ContextValue :=
  snd <$> (snd <$> list_find (fun b => b.1 = k) ctx).

Definition WithRequestID (ctx : RequestContext) (id : string) : RequestContext :=
  (requestIDKey, CtxString id) :: ctx.

Definition GetRequestID (ctx : RequestContext) : string :=
  match ctx_Value ctx requestIDKey with Some (CtxString id) => id | _ => "" end.

Definition WithLogger (ctx : RequestContext) (logger : string) : RequestContext :=
  (loggerKey, CtxLogger logger) :: ctx.

(** The default logger is named by [slog_Default]. *)
Definition GetLogger (slog_Default : string) (ctx : RequestContext) : string :=
  match ctx_Value ctx loggerKey with Some (CtxLogger l) => l | _ => slog_Default end.

Definition WithUpstreamTarget (ctx : RequestContext) (target : string) : RequestContext :=
  (upstreamTargetKey, CtxString target) :: ctx.

Definition GetUpstreamTarget (ctx : RequestContext) : string :=
  match ctx_Value ctx upstreamTargetKey with Some (CtxString t) => t | _ => "" end.

(** ** observability/logger.go *)

Definition parseLevel (level : string) : LogLevel :=
  if bool_decide (level = "debug") then LevelDebug
  else if bool_decide (level = "warn") then LevelWarn
  else if bool_decide (level = "error") then LevelError
  else LevelInfo.

Inductive LogFormat := TextHandler | JSONHandler.

(** A logger: the format of its handler and the least level it writes. *)
Record Logger := mkLogger {
  lg_format : LogFormat;
  lg_level : LogLevel
}.

Definition NewLoggerWithWriter (cfg : LoggingConfig) : Logger :=
  mkLogger (if bool_decide (Format cfg = "text") then TextHandler else JSONHandler) (parseLevel (Level cfg)).

(** The writer is the standard output. *)
Definition NewLogger (cfg : LoggingConfig) : Logger := NewLoggerWithWriter cfg.

(** ** Requests *)

Record Request := mkRequest {
  Method : string;
  URL_Path : string;
  RawQuery : string;
  req_URL_Scheme : string;
  req_URL_Host : string;
  req_Host : string;
  req_Header : Header;
  RemoteAddr : string;
  TLS : bool;
  Context : RequestContext
}.

(** [r.WithContext(ctx)]: a copy of the request with another context. *)
Definition WithContext (r : Request) (ctx : RequestContext) : Request :=
  mkRequest (Method r) (URL_Path r) (RawQuery r) (req_URL_Scheme r) (req_URL_Host r) (req_Host r)
    (req_Header r) (RemoteAddr r) (TLS r) ctx.

Definition UserAgent (r : Request) : string := Header_Get (req_Header r) "User-Agent".

(** ** Responses *)

(** A call on a response writer: [Header().Set], [Header().Add], [clear] of the header
    map, [WriteHeader] and [Write].  [AWrite b n]: if the server passes the write
    on, the connection takes [n] bytes of [b]. *)
Inductive WAct :=
  | ASet (key value : string)
  | AAdd (key value : string)
  | AClear
  | AWriteHeader (code : Z)
  | AWrite (b : string) (n : nat).

(** The response the server sends: whether it answers a HEAD request, the header
    map, the status and header once they are sent, informational responses
    sent before, the number of body bytes the handler wrote, and the body sent. *)
Record Response := mkResponse {
  rs_head : bool;
  rs_header : Header;
  rs_sent : option (Z * Header);
  rs_informational : list Z;
  rs_written : Z;
  rs_body : string
}.

Definition new_response_to (head : bool) : Response := mkResponse head ∅ None [] 0 "".

(** [WriteHeader] panics for any other status. *)
Definition valid_code (code : Z) : bool := (100 <=? code) && (code <=? 999).

(** An informational response can be followed by others; 101 cannot. *)
Definition informational_code (code : Z) : bool := (100 <=? code) && (code <=? 199) && negb (code =? 101).

(** [bodyAllowedForStatus] *)
Definition body_allowed (code : Z) : bool :=
  negb ((100 <=? code) && (code <=? 199) || (code =? 204) || (code =? 304)).

(** The length a header declares, if it is a number and not negative. *)
Definition declared_length (h : Header) : option Z :=
  match Atoi (Header_Get h "Content-Length") with
  | Some n => if 0 <=? n then Some n else None
  | None => None
  end.

(** Whether a response whose header is sent takes [len] more bytes: not when its status
    has no body, nor past the declared length. *)
Definition takes (rs : Response) (len : Z) : bool :=
  match rs_sent rs with
  | None => false
  | Some (code, h) =>
      body_allowed code &&
      match declared_length h with Some m => rs_written rs + len <=? m | None => true end
  end.

Definition has_body (rs : Response) : bool :=
  match rs_sent rs with None => false | Some (code, _) => body_allowed code end.

(** The first [Write] sends status 200. *)
Definition begin_body (rs : Response) : Response :=
  match rs_sent rs with
  | Some _ => rs
  | None => mkResponse (rs_head rs) (rs_header rs) (Some (200, rs_header rs)) (rs_informational rs) (rs_written rs) (rs_body rs)
  end.

(** What [Write] returns: none of the bytes is taken when the server refuses the write. *)
Definition write_count (rs : Response) (b : string) (n : nat) : nat :=
  if takes (begin_body rs) (Z.of_nat (String.length b)) then Nat.min n (String.length b) else O.

Definition set_rs_header (h : Header) (rs : Response) : Response :=
  mkResponse (rs_head rs) h (rs_sent rs) (rs_informational rs) (rs_written rs) (rs_body rs).

(** [WriteHeader] sends an informational response at once; any other valid status is
    final, and later calls are ignored (an invalid one panics in the caller, see
    [copy_status] of Proxy.v).  A refused [Write] counts as written all the same,
    unless the status has no body.  The body of the answer to a HEAD request is dropped. *)
Definition response_act (rs : Response) (a : WAct) : Response :=
  match a with
  | ASet k v => set_rs_header (Header_Set (rs_header rs) k v) rs
  | AAdd k v => set_rs_header (Header_Add (rs_header rs) k v) rs
  | AClear => set_rs_header ∅ rs
  | AWriteHeader code =>
      match rs_sent rs with
      | Some _ => rs
      | None =>
          if negb (valid_code code) then rs
          else if informational_code code
          then mkResponse (rs_head rs) (rs_header rs) None (rs_informational rs ++ [code]) (rs_written rs) (rs_body rs)
          else mkResponse (rs_head rs) (rs_header rs) (Some (code, rs_header rs)) (rs_informational rs) (rs_written rs) (rs_body rs)
      end
  | AWrite b n =>
      let rs1 := begin_body rs in
      mkResponse (rs_head rs1) (rs_header rs1) (rs_sent rs1) (rs_informational rs1)
        (if has_body rs1 then rs_written rs1 + Z.of_nat (String.length b) else rs_written rs1)
        (rs_body rs1 +:+ (if rs_head rs1 then "" else string_take (write_count rs b n) b))
  end.

Definition respond_to (head : bool) (acts : list WAct) : Response :=
  fold_left response_act acts (new_response_to head).

(** The response to a request that is not HEAD. *)
Definition respond (acts : list WAct) : Response := respond_to false acts.

(** The status the client gets: 200 when the handler sent none. *)
Definition final_status (acts : list WAct) : Z :=
  match rs_sent (respond acts) with Some (code, _) => code | None => 200 end.

(** ** Metrics (observability/metrics.go), by label values *)

Record MetricsState := mkMetrics {
  HTTPRequestsTotal : gmap (string * string * string) Z;
  HTTPRequestDuration : list (string * string * spec_float);
  HTTPActiveRequests : gmap (string * string) Z;
  CircuitBreakerState : gmap string Z;
  UpstreamHealth : gmap (string * string) Z;
  RateLimitRejections : gmap (string * string) Z
}.

Definition counter_add {K} `{Countable K} (k : K) (d : Z) (m : gmap K Z) : gmap K Z :=
  <[k := default 0 (m !! k) + d]> m.
#[global] Arguments counter_add : simpl never.

(** ** The gateway's state and handlers *)

Section Handlers.
Context `{UL : URLLib}.

(** [wd_store], [wd_breaker] and [wd_balancer] are the route's rate-limit store,
    circuit breaker and balancer, captured by the handlers of the route; [wd_calls] is the
    trace of the requests sent to upstreams, oldest first. *)
Record World := mkWorld {
  wd_logs : list LogRecord;
  wd_metrics : MetricsState;
  wd_store : InMemoryStore;
  wd_breaker : CircuitBreaker;
  wd_balancer : AnyBalancer;
  wd_calls : list Request
}.

Definition set_logs (l : list LogRecord) (wd : World) : World :=
  mkWorld l (wd_metrics wd) (wd_store wd) (wd_breaker wd) (wd_balancer wd) (wd_calls wd).
Definition set_metrics (ms : MetricsState) (wd : World) : World :=
  mkWorld (wd_logs wd) ms (wd_store wd) (wd_breaker wd) (wd_balancer wd) (wd_calls wd).
Definition set_store (s : InMemoryStore) (wd : World) : World :=
  mkWorld (wd_logs wd) (wd_metrics wd) s (wd_breaker wd) (wd_balancer wd) (wd_calls wd).
Definition set_breaker (cb : CircuitBreaker) (wd : World) : World :=
  mkWorld (wd_logs wd) (wd_metrics wd) (wd_store wd) cb (wd_balancer wd) (wd_calls wd).
Definition set_balancer (b : AnyBalancer) (wd : World) : World :=
  mkWorld (wd_logs wd) (wd_metrics wd) (wd_store wd) (wd_breaker wd) b (wd_calls wd).
Definition set_calls (l : list Request) (wd : World) : World :=
  mkWorld (wd_logs wd) (wd_metrics wd) (wd_store wd) (wd_breaker wd) (wd_balancer wd) l.

(** A computation of a handler: the calls on its writer, the new state, and its
    result or panic. *)
Definition M (A : Type) : Type := World -> list WAct * World * outcome A.

Definition ret {A} (a : A) : M A := fun wd => ([], wd, Ret a).

Definition bind {A B} (m : M A) (f : A -> M B) : M B := fun wd =>
  match m wd with
  | (acts, wd1, Panic msg) => (acts, wd1, Panic msg)
  | (acts, wd1, Ret a) =>
      let '(acts2, wd2, o) := f a wd1 in (acts ++ acts2, wd2, o)
  end.

(** Calls on the writer the handler was given; the statuses the gateway's own handlers
    write are valid ones. *)
Definition emit (a : WAct) : M unit := fun wd => ([a], wd, Ret tt).
Definition setHeader (k v : string) : M unit := emit (ASet k v).
Definition writeHeader (code : Z) : M unit := emit (AWriteHeader code).
Definition write (b : string) : M unit := emit (AWrite b (String.length b)).
Definition panic {A} (msg : string) : M A := fun wd => ([], wd, Panic msg).

Definition logRecord (r : LogRecord) : M unit := fun wd => ([], set_logs (wd_logs wd ++ [r]) wd, Ret tt).
Definition modifyMetrics (f : MetricsState -> MetricsState) : M unit :=
  fun wd => ([], set_metrics (f (wd_metrics wd)) wd, Ret tt).

(** [defer f()]: [f] runs after [m], on a return and on a panic. *)
Definition deferred {A} (m : M A) (f : M unit) : M A := fun wd =>
  let '(acts, wd1, o) := m wd in
  let '(acts2, wd2, o2) := f wd1 in
  (acts ++ acts2, wd2, match o2 with Panic msg => Panic msg | Ret _ => o end).

(** [defer func() { if rec := recover(); rec != nil { f(rec) } }()] *)
Definition recovering (m : M unit) (f : string -> M unit) : M unit := fun wd =>
  match m wd with
  | (acts, wd1, Panic msg) =>
      let '(acts2, wd2, o) := f msg wd1 in (acts ++ acts2, wd2, o)
  | r => r
  end.

Definition Handler : Type := Request -> M unit.
Definition Middleware : Type := Handler -> Handler.
End Handlers.

Notation "'let!' x <- m ; k" := (bind m (fun x => k))
  (at level 10, x name, m at level 100, k at level 200) : go_scope.
Notation "'run!' m ; k" := (bind m (fun _ => k))
  (at level 10, m at level 100, k at level 200) : go_scope.

(** ** encoding/json *)

Definition hex_digit (n : nat) : ascii :=
  ascii_of_nat (if (n <? 10)%nat then 48 + n else 87 + n).

Definition backslash : ascii := ascii_of_nat 92.
Definition quote : ascii := ascii_of_nat 34.

(** A byte below 128 inside a JSON string: quotes and backslashes are escaped,
    control characters and the characters unsafe in HTML are written as code
    points. *)
Definition json_byte (c : ascii) : string :=
  let n := nat_of_ascii c in
  if (n =? 34)%nat || (n =? 92)%nat then String backslash (String c EmptyString)
  else if (n =? 10)%nat then String backslash (String "n" EmptyString)
  else if (n =? 13)%nat then String backslash (String "r" EmptyString)
  else if (n =? 9)%nat then String backslash (String "t" EmptyString)
  else if (n =? 8)%nat then String backslash (String "b" EmptyString)
  else if (n =? 12)%nat then String backslash (String "f" EmptyString)
  else if (n <? 32)%nat || (n =? 60)%nat || (n =? 62)%nat || (n =? 38)%nat then
    String backslash ("u00" +:+ String (hex_digit (n / 16)) (String (hex_digit (n mod 16)) EmptyString))
  else String c EmptyString.

Fixpoint json_bytes (s : string) : string :=
  match s with
  | EmptyString => EmptyString
  | String c s' => json_byte c +:+ json_bytes s'
  end.

(** A JSON string literal; [utf8] encodes the strings with bytes of 128 and
    above. *)
Definition json_quote (utf8 : string -> string) (s : string) : string :=
  String quote (if forall_string is_ascii_byte s then json_bytes s else utf8 s) +:+
  String quote EmptyString.

Definition json_field (k v : string) : string := json_quote id k +:+ ":" +:+ v.

(** An object from its fields, already in the order of their keys. *)
Definition json_object (fields : list (string * string)) : string :=
  "{" +:+ Join ((fun '(k, v) => json_field k v) <$> fields) "," +:+ "}".

(** [Encode] writes the value and a newline in one [Write]. *)
Definition encode_json `{UL : URLLib} (v : string) : M unit := write (v +:+ newline).

(** The body of an error answer; the fields in the order of their keys. *)
Definition error_body (utf8 : string -> string) (code message : string) (extra : list (string * string)) : string :=
  json_object [("error", json_object
    ([("code", json_quote utf8 code); ("message", json_quote utf8 message)] ++ extra))].
