(* ===== verification/Middleware.v ===== *)
(** * internal/middleware

    chain.go, recovery.go, requestid.go, logging.go, metrics.go, cors.go and
    ratelimit.go.  Each middleware takes the next handler and gives a handler; the
    wrapper [responseWriter] forwards every call and reads the status and the
    byte count off the calls that passed through it. *)

From S2P Require Import Prelude Float64 GoLib Config Breaker TokenBucket Http.

(** What one request reads from its environment: the clock, once per read in
    the order of the chain, a new UUID, the stack trace, conversions of
    out-of-range floats, the JSON encoding of text that is not ASCII, [strconv.Quote], and what
    Prometheus says about a label value ([None]: it takes it). *)
Record Env := mkEnv {
  env_stack : string;
  env_uuid : result string;
  env_log_start : Time;
  env_log_end : Time;
  env_metrics_start : Time;
  env_metrics_end : Time;
  env_rate_now : Time;
  env_exec : ExecClock;
  env_oor : spec_float -> Z;
  env_utf8 : string -> string;
  env_quote : string -> string;
  env_label_err : string -> option string
}.

(** ** chain.go *)

Section Chain.
Context `{UL : URLLib}.

(** The loop runs from the last middleware to the first. *)
Fixpoint Chain_loop (middlewares : list Middleware) (i : nat) (final : Handler) : outcome Handler :=
  match i with
  | O => Ret final
  | S i' => do! m <- slice_get middlewares i'; Chain_loop middlewares i' (m final)
  end.

Definition Chain (middlewares : list Middleware) (final : Handler) : outcome Handler :=
  Chain_loop middlewares (length middlewares) final.
End Chain.

(** ** logging.go: the wrapper *)

Record responseWriter := mkResponseWriter {
  statusCode : Z;
  bytesWritten : Z;
  written : bool
}.

Definition newResponseWriter : responseWriter := mkResponseWriter 200 0 false.

Definition responseWriter_WriteHeader (code : Z) (rw : responseWriter) : responseWriter :=
  if negb (written rw) then mkResponseWriter code (bytesWritten rw) true else rw.

Definition responseWriter_Write (n : nat) (rw : responseWriter) : responseWriter :=
  let rw1 := if negb (written rw) then mkResponseWriter 200 (bytesWritten rw) true else rw in
  mkResponseWriter (statusCode rw1) (wrap64 (bytesWritten rw1 + Z.of_nat n)) (written rw1).

(** A call on the wrapper; [Header] is the one of the wrapped writer.  [Write] adds the
    count that the wrapped writer returns, where its response is [rs]. *)
Definition rw_act (rw : responseWriter) (rs : Response) (a : WAct) : responseWriter :=
  match a with
  | ASet _ _ | AAdd _ _ | AClear => rw
  | AWriteHeader code => responseWriter_WriteHeader code rw
  | AWrite b n => responseWriter_Write (write_count rs b n) rw
  end.

Definition rw_step (x : responseWriter * Response) (a : WAct) : responseWriter * Response :=
  (rw_act x.1 x.2 a, response_act x.2 a).

(** The wrapper after the calls made on it.  The middleware of the gateway sends and
    declares nothing on the wrapped writer before it hands it over. *)
Definition rw_of (acts : list WAct) : responseWriter :=
  (fold_left rw_step acts (newResponseWriter, new_response_to false)).1.

(** [rw := newResponseWriter(w); next.ServeHTTP(rw, r)]: the calls go on to [w]. *)
Definition with_rw `{UL : URLLib} (m : M unit) : M responseWriter := fun wd =>
  let '(acts, wd1, o) := m wd in
  (acts, wd1, match o with Ret _ => Ret (rw_of acts) | Panic msg => Panic msg end).

Definition status_level (status : Z) : LogLevel :=
  if 500 <=? status then LevelError else if 400 <=? status then LevelWarn else LevelInfo.

(** The key of a request ([IPKeyExtractor.Extract]). *)
Definition client_key (r : Request) : string :=
  IPKeyExtractor_Extract (Header_Get (req_Header r)) (RemoteAddr r).

Section Middlewares.
Context `{UL : URLLib} (env : Env).

Definition Logging : Middleware := fun next r =>
  let! rw <- with_rw (next r);
  let duration := Time_Sub (env_log_end env) (env_log_start env) in
  let upstream := GetUpstreamTarget (Context r) in
  let attrs :=
    [("request_id", AString (GetRequestID (Context r)));
     ("method", AString (Method r));
     ("path", AString (URL_Path r));
     ("query", AString (RawQuery r));
     ("status", AInt (statusCode rw));
     ("bytes", AInt (bytesWritten rw));
     ("latency", ADuration duration);
     ("client_ip", AString (client_key r));
     ("user_agent", AString (UserAgent r))] in
  let attrs := if bool_decide (upstream <> "") then attrs ++ [("upstream", AString upstream)] else attrs in
  logRecord (mkLog (status_level (statusCode rw)) "request completed" attrs).

(** ** recovery.go *)
Definition Recovery : Middleware := fun next r =>
  recovering (next r) (fun rec =>
    let requestID := GetRequestID (Context r) in
    run! logRecord (mkLog LevelError "panic recovered"
      [("panic", AString rec); ("stack", AString (env_stack env)); ("request_id", AString requestID);
       ("path", AString (URL_Path r)); ("method", AString (Method r))]);
    run! setHeader "Content-Type" "application/json";
    run! writeHeader 500;
    encode_json (error_body (env_utf8 env) "INTERNAL_ERROR" "an unexpected error occurred"
      [("request_id", json_quote (env_utf8 env) requestID)])).

(** ** requestid.go *)

Definition requestIDHeader : string := "X-Request-ID".

Definition RequestID : Middleware := fun next r =>
  let id := Header_Get (req_Header r) requestIDHeader in
  let! id <- (if bool_decide (id = "") then
                match env_uuid env with
                | Ok u => ret u
                | Err err => panic (error_Error err)
                end
              else ret id);
  let ctx := WithRequestID (Context r) id in
  run! setHeader requestIDHeader id;
  next (WithContext r ctx).

(** ** metrics.go *)
Definition add_active (method path : string) (d : Z) (ms : MetricsState) : MetricsState :=
  mkMetrics (HTTPRequestsTotal ms) (HTTPRequestDuration ms)
    (counter_add (method, path) d (HTTPActiveRequests ms)) (CircuitBreakerState ms) (UpstreamHealth ms)
    (RateLimitRejections ms).

Definition observe_request (method path status : string) (duration : spec_float) (ms : MetricsState) : MetricsState :=
  mkMetrics (counter_add (method, path, status) 1 (HTTPRequestsTotal ms))
    (HTTPRequestDuration ms ++ [(method, path, duration)]) (HTTPActiveRequests ms)
    (CircuitBreakerState ms) (UpstreamHealth ms) (RateLimitRejections ms).

Definition MetricsMiddleware (routePath : string) : Middleware := fun next r =>
  let method := Method r in
  run! modifyMetrics (add_active method routePath 1);
  deferred
    (let! rw <- with_rw (next r);
     let duration := F64.Duration_Seconds (Time_Sub (env_metrics_end env) (env_metrics_start env)) in
     let status := itoa (statusCode rw) in
     modifyMetrics (observe_request method routePath status duration))
    (modifyMetrics (add_active method routePath (-1))).

(** ** cors.go *)
Fixpoint isOriginAllowed (origin : string) (allowed : list string) : bool :=
  match allowed with
  | [] => false
  | a :: allowed' =>
      if bool_decide (a = "*") || bool_decide (a = origin) then true else isOriginAllowed origin allowed'
  end.

Definition allowed_headers (cfg : CORSConfig) : string :=
  let allowedHeaders := Join (AllowedHeaders cfg) ", " in
  if bool_decide (allowedHeaders = "") then "Content-Type, Authorization, X-Request-ID" else allowedHeaders.

Definition CORSMiddleware (cfg : CORSConfig) : Middleware := fun next r =>
  let origin := Header_Get (req_Header r) "Origin" in
  run! (if bool_decide (origin <> "") && isOriginAllowed origin (AllowedOrigins cfg) then
          run! setHeader "Access-Control-Allow-Origin" origin;
          run! setHeader "Access-Control-Allow-Methods" (Join (AllowedMethods cfg) ", ");
          run! setHeader "Access-Control-Allow-Headers" (allowed_headers cfg);
          run! setHeader "Access-Control-Max-Age" (itoa (Config.MaxAge cfg));
          setHeader "Access-Control-Allow-Credentials" "true"
        else ret tt);
  if bool_decide (Method r = "OPTIONS") then writeHeader 204 else next r.

(** ** ratelimit.go *)

(** [RateLimitRejections.WithLabelValues(route, key).Inc()], for label values that
    Prometheus takes. *)
Definition count_rejection (route key : string) (ms : MetricsState) : MetricsState :=
  mkMetrics (HTTPRequestsTotal ms) (HTTPRequestDuration ms) (HTTPActiveRequests ms)
    (CircuitBreakerState ms) (UpstreamHealth ms) (counter_add (route, key) 1 (RateLimitRejections ms)).

(** [WithLabelValues] panics for a label value that is not valid UTF-8, and the key is what
    the client sends as its address.  (The other label values of the gateway are methods, which
    net/http restricts to tokens, status numbers, and the route's path from the
    configuration.) *)
Definition RateLimitRejections_Inc (route key : string) : M unit :=
  match env_label_err env key with
  | None => modifyMetrics (count_rejection route key)
  | Some msg => panic msg
  end.

(** [store.Allow] on the route's store. *)
Definition allow (key : string) : M Decision := fun wd =>
  let '(s, d) := InMemoryStore_Allow (env_oor env) key (env_rate_now env) (wd_store wd) in
  ([], set_store s wd, Ret d).

(** [int(decision.RetryAfter.Seconds()) + 1] *)
Definition retry_after_secs (d : Decision) : Z :=
  wrap64 (F64.to_int64 (env_oor env) (F64.Duration_Seconds (RetryAfter d)) + 1).

Definition RateLimit (routePath : string) : Middleware := fun next r =>
  let key := client_key r in
  let! decision <- allow key;
  run! setHeader "X-RateLimit-Limit" (itoa (Limit decision));
  run! setHeader "X-RateLimit-Remaining" (itoa (Remaining decision));
  run! setHeader "X-RateLimit-Reset" (itoa (Time_Unix (ResetAt decision)));
  if negb (Allowed decision) then
    let secs := retry_after_secs decision in
    run! setHeader "Retry-After" (itoa secs);
    run! RateLimitRejections_Inc routePath key;
    run! logRecord (mkLog LevelWarn "rate limit exceeded"
      [("client_ip", AString key); ("route", AString routePath); ("retry_after", ADuration (RetryAfter decision))]);
    run! setHeader "Content-Type" "application/json";
    run! writeHeader 429;
    encode_json (error_body (env_utf8 env) "RATE_LIMITED" "rate limit exceeded"
      [("retry_after_seconds", itoa secs)])
  else next r.

(** [float64(breaker.State())] *)
Definition state_number (s : State) : Z :=
  match s with StateClosed => 0 | StateOpen => 1 | StateHalfOpen => 2 | StateOf n => n end.

Definition gauge_breaker (route : string) (v : Z) (ms : MetricsState) : MetricsState :=
  mkMetrics (HTTPRequestsTotal ms) (HTTPRequestDuration ms) (HTTPActiveRequests ms)
    (<[route := v]> (CircuitBreakerState ms)) (UpstreamHealth ms) (RateLimitRejections ms).

(** The function the breaker runs: a status of 500 or more is a failure. *)
Definition upstream_call (next : Handler) (r : Request) : M (option error) :=
  let! rw <- with_rw (next (WithContext r (Context r)));
  ret (if 500 <=? statusCode rw then Some (Errorf ("upstream returned " +:+ itoa (statusCode rw))) else None).

(** The logger of the breaker, on the calls made so far and the state. *)
Definition log_to (rec : LogRecord) (x : list WAct * World) : list WAct * World :=
  (fst x, set_logs (wd_logs (snd x) ++ [rec]) (snd x)).

(** [breaker.Execute] on the route's breaker, around a computation. *)
Definition execute (m : M (option error)) : M (option error) := fun wd =>
  let fn (x : list WAct * World) :=
    let '(acts, wd1, o) := m (snd x) in ((fst x ++ acts, wd1), o) in
  let x := Execute log_to (env_exec env) fn (wd_breaker wd) ([], wd) in
  (fst (ex_world x), set_breaker (ex_breaker x) (snd (ex_world x)), ex_result x).

Definition CircuitBreak (routePath : string) : Middleware := fun next r =>
  run! (fun wd => modifyMetrics (gauge_breaker routePath (state_number (Breaker_State (wd_breaker wd)))) wd);
  let! err <- execute (upstream_call next r);
  if bool_decide (err = Some ErrCircuitOpen) then
    run! setHeader "Content-Type" "application/json";
    run! writeHeader 503;
    encode_json (error_body (env_utf8 env) "SERVICE_UNAVAILABLE"
      "service temporarily unavailable, please try again later" [])
  else ret tt.
End Middlewares.
