(* ===== verification/MiddlewareFacts.v ===== *)
(** * What the middleware guarantees

    For an arbitrary next handler: order of the chain, recovery from panics,
    request identifiers, the captured status, balanced metrics, cross-origin
    answers, rate limiting and circuit breaking as seen by the client. *)

From S2P Require Import Prelude Float64 GoLib Config Balancer RoundRobin BalancerConfig Breaker TokenBucket Http Middleware.

(** ** Responses *)

Lemma respond_to_app head a b : respond_to head (a ++ b) = fold_left response_act b (respond_to head a).
Proof. apply fold_left_app. Qed.

Lemma respond_app a b : respond (a ++ b) = fold_left response_act b (respond a).
Proof. apply respond_to_app. Qed.

Lemma rw_state acts : (fold_left rw_step acts (newResponseWriter, new_response_to false)).2 = respond acts.
Proof.
  induction acts as [|a acts IH] using rev_ind; [done|]. rewrite respond_app, fold_left_app. cbn. by rewrite IH.
Qed.

Lemma rw_of_snoc acts a : rw_of (acts ++ [a]) = rw_act (rw_of acts) (respond acts) a.
Proof. unfold rw_of. rewrite fold_left_app. cbn. by rewrite rw_state. Qed.

Definition regular (a : WAct) : bool :=
  match a with AWriteHeader code => valid_code code && negb (informational_code code) | _ => true end.

(** The wrapper and the server agree, once and for all after each call. *)
Definition agree (rw : responseWriter) (rs : Response) : Prop :=
  match rs_sent rs with
  | Some (code, _) => written rw = true /\ statusCode rw = code
  | None => written rw = false /\ statusCode rw = 200
  end.

Lemma begin_body_200 rs : rs_sent rs = None -> begin_body rs = response_act rs (AWriteHeader 200).
Proof. intros Hs. unfold begin_body. cbn [response_act]. by rewrite Hs. Qed.

Lemma begin_write rs b n : response_act rs (AWrite b n) = response_act (begin_body rs) (AWrite b n).
Proof.
  assert (E : begin_body (begin_body rs) = begin_body rs) by (unfold begin_body; by destruct (rs_sent rs) eqn:E; rewrite ?E).
  cbn [response_act]. unfold write_count. by rewrite E.
Qed.

Lemma begin_body_sent rs :
  rs_sent (begin_body rs) = Some (match rs_sent rs with Some s => s | None => (200, rs_header rs) end).
Proof. unfold begin_body. by destruct (rs_sent rs) eqn:E; cbn. Qed.

Lemma agree_act rw rs a : regular a = true -> agree rw rs -> agree (rw_act rw rs a) (response_act rs a).
Proof.
  unfold agree. intros Ha H. destruct a as [k v|k v| |code|b n]; cbn [rw_act response_act set_rs_header rs_sent] in *; try done.
  - unfold responseWriter_WriteHeader. destruct (rs_sent rs) as [[c h]|] eqn:E.
    + destruct H as [Hw Hc]. by rewrite E, Hw.
    + destruct H as [-> _]. cbn in Ha. apply andb_true_iff in Ha as [-> Ha%negb_true_iff]. by rewrite Ha.
  - rewrite begin_body_sent. unfold responseWriter_Write.
    destruct (rs_sent rs) as [[c h]|] eqn:E; destruct H as [Hw Hs]; rewrite Hw; cbn; by rewrite ?Hw.
Qed.

Lemma agree_acts acts : Forall (fun a => regular a = true) acts -> agree (rw_of acts) (respond acts).
Proof.
  induction acts as [|a acts IH] using rev_ind; [done|].
  intros [H1 H2]%Forall_app. apply Forall_inv in H2. rewrite rw_of_snoc, respond_app.
  apply agree_act; [done|by apply IH].
Qed.

Lemma string_take_all s : string_take (String.length s) s = s.
Proof. induction s as [|c s IH]; [done|]. cbn. by rewrite IH. Qed.

Lemma string_take_length n s : String.length (string_take n s) = Nat.min n (String.length s).
Proof. revert s. induction n as [|n IH]; intros [|c s]; cbn; auto. Qed.

Lemma rs_head_respond head acts : rs_head (respond_to head acts) = head.
Proof.
  induction acts as [|a acts IH] using rev_ind; [done|]. rewrite respond_to_app. cbn [fold_left].
  revert IH. generalize (respond_to head acts). intros rs <-. destruct a as [k v|k v| |code|b n]; try done.
  - cbn. destruct (rs_sent rs); [done|]. destruct (negb _); [done|]. by destruct (informational_code code).
  - unfold response_act, begin_body. by destruct (rs_sent rs).
Qed.

(** Without a header sent there is no body. *)
Lemma unsent_body head acts : rs_sent (respond_to head acts) = None -> rs_body (respond_to head acts) = "".
Proof.
  induction acts as [|a acts IH] using rev_ind; [done|]. rewrite respond_to_app. cbn [fold_left].
  revert IH. generalize (respond_to head acts). intros rs IH. destruct a as [k v|k v| |code|b n]; try done.
  - cbn. destruct (rs_sent rs) eqn:E; [by rewrite E|]. destruct (negb _); [auto|].
    destruct (informational_code code); [auto|done].
  - cbn [response_act rs_sent]. by rewrite begin_body_sent.
Qed.

(** The bytes counted are those of the body sent. *)
Lemma rw_bytes acts : bytesWritten (rw_of acts) = wrap64 (Z.of_nat (String.length (rs_body (respond acts)))).
Proof.
  induction acts as [|a acts IH] using rev_ind; [done|]. rewrite rw_of_snoc, respond_app. cbn [fold_left].
  pose proof (rs_head_respond false acts) as HH. change (respond_to false acts) with (respond acts) in HH.
  revert IH HH. generalize (rw_of acts) (respond acts). intros rw rs IH HH.
  destruct a as [k v|k v| |code|b n]; cbn [rw_act response_act set_rs_header rs_body]; try done.
  - unfold responseWriter_WriteHeader. destruct (rs_sent rs); [by destruct (written rw)|].
    destruct (negb (valid_code code)); [by destruct (written rw)|].
    by destruct (informational_code code), (written rw).
  - assert (rs_body (begin_body rs) = rs_body rs /\ rs_head (begin_body rs) = false) as [-> ->]
      by (unfold begin_body; by destruct (rs_sent rs)).
    rewrite string_length_app, string_take_length.
    assert ((write_count rs b n <= String.length b)%nat) as Hle by (unfold write_count; destruct (takes _ _); lia).
    unfold responseWriter_Write. destruct (written rw); cbn; rewrite IH, wrap64_add_l; f_equal; lia.
Qed.

(** A write to a response whose header is sent. *)
Lemma write_sent rs b : rs_sent rs <> None ->
  rs_sent (response_act rs (AWrite b (String.length b))) = rs_sent rs /\
  rs_body (response_act rs (AWrite b (String.length b))) =
    rs_body rs +:+ (if takes rs (Z.of_nat (String.length b)) && negb (rs_head rs) then b else "").
Proof.
  intros Hs. assert (Hb : begin_body rs = rs) by (unfold begin_body; by destruct (rs_sent rs)).
  cbn [response_act rs_sent rs_body]. unfold write_count. rewrite Hb, Nat.min_id. split; [done|]. f_equal.
  destruct (rs_head rs), (takes rs _); cbn [andb negb]; try done; apply string_take_all.
Qed.

(** A header sent by the handler, then one write: the body is what was written. *)
Lemma single_write pre code b :
  rs_sent (respond pre) = None -> declared_length (rs_header (respond pre)) = None ->
  regular (AWriteHeader code) = true -> body_allowed code = true ->
  rs_body (respond (pre ++ [AWriteHeader code; AWrite b (String.length b)])) = b.
Proof.
  intros Hs Hd Hr Hb. cbn in Hr. apply andb_true_iff in Hr as [Hv Hi%negb_true_iff].
  rewrite respond_app. cbn [fold_left]. set (rs := response_act (respond pre) (AWriteHeader code)).
  assert (rs_sent rs = Some (code, rs_header (respond pre)) /\ rs_body rs = "" /\ rs_head rs = false) as (H1 & H2 & H3).
  { unfold rs. cbn [response_act]. rewrite Hs, Hv, Hi. cbn. split; [done|]. split; [by apply unsent_body|apply rs_head_respond]. }
  destruct (write_sent rs b) as [_ ->]; [by rewrite H1|]. rewrite H2, H3. unfold takes. rewrite H1, Hb, Hd. done.
Qed.

(** One write without a header: status 200 is implicit. *)
Lemma single_write_200 pre b :
  rs_sent (respond pre) = None -> declared_length (rs_header (respond pre)) = None ->
  rs_body (respond (pre ++ [AWrite b (String.length b)])) = b.
Proof.
  intros Hs Hd. rewrite respond_app. cbn [fold_left].
  rewrite begin_write, (begin_body_200 _ Hs).
  pose proof (single_write pre 200 b Hs Hd eq_refl eq_refl) as HS. by rewrite respond_app in HS.
Qed.

(** ** Computations *)

Section Properties.
Context `{UL : URLLib}.

Lemma bind_Panic {A B} (m : M A) (f : A -> M B) wd acts wd1 msg :
  m wd = (acts, wd1, Panic msg) -> bind m f wd = (acts, wd1, Panic msg).
Proof. unfold bind. by intros ->. Qed.

Lemma Chain_foldr ms h : Chain ms h = Ret (foldr (fun m h => m h) h ms).
Proof.
  unfold Chain. assert (HL : forall k h, (k <= length ms)%nat ->
    Chain_loop ms k h = Ret (foldr (fun m h => m h) h (take k ms))).
  { induction k as [|k IH]; intros h0 Hk; [done|]. cbn [Chain_loop].
    destruct (slice_get_lt ms k) as (m & Hm & ->); [lia|]. cbn [outcome_bind]. rewrite IH by lia.
    by rewrite (take_S_r _ _ _ Hm), foldr_app. }
  rewrite HL by lia. by rewrite firstn_all.
Qed.

Lemma isOriginAllowed_spec o l : isOriginAllowed o l = true <-> "*" ∈ l \/ o ∈ l.
Proof.
  induction l as [|a l IH]; cbn [isOriginAllowed].
  { split; [done|]. intros [H|H]; by apply not_elem_of_nil in H. }
  rewrite !elem_of_cons. repeat case_bool_decide; cbn; rewrite ?IH; naive_solver.
Qed.

(** ** Properties *)

(** The chain applies the middleware in order: the first one is the
    outermost, around the chain of the others, down to the final handler, and
    the loop never reads out of range. *)
Theorem Chain_order m ms final :
  Chain [] final = Ret final /\
  exists h, Chain ms final = Ret h /\ Chain (m :: ms) final = Ret (m h).
Proof. rewrite !Chain_foldr. eauto. Qed.

(** The answer [Recovery] writes. *)
Definition recovery_body (env : Env) (r : Request) : string :=
  error_body (env_utf8 env) "INTERNAL_ERROR" "an unexpected error occurred"
    [("request_id", json_quote (env_utf8 env) (GetRequestID (Context r)))] +:+ newline.

(** What is added to a response by [Recovery]'s answer. *)
Definition recovery_acts (env : Env) (r : Request) : list WAct :=
  [ASet "Content-Type" "application/json"; AWriteHeader 500;
   AWrite (recovery_body env r) (String.length (recovery_body env r))].

Definition recovery_record (env : Env) (r : Request) (rec : string) : LogRecord :=
  mkLog LevelError "panic recovered"
    [("panic", AString rec); ("stack", AString (env_stack env)); ("request_id", AString (GetRequestID (Context r)));
     ("path", AString (URL_Path r)); ("method", AString (Method r))].

(** The response at the time the error body is written: as it was if it had begun, otherwise
    with status 500 and the header map of the moment. *)
Definition after_500 (rs : Response) : Response :=
  fold_left response_act [ASet "Content-Type" "application/json"; AWriteHeader 500] rs.

Lemma after_500_spec rs :
  rs_head (after_500 rs) = rs_head rs /\ rs_body (after_500 rs) = rs_body rs /\ rs_written (after_500 rs) = rs_written rs /\
  rs_sent (after_500 rs) = Some match rs_sent rs with
    | Some s => s | None => (500, Header_Set (rs_header rs) "Content-Type" "application/json") end.
Proof. unfold after_500. cbn. destruct (rs_sent rs) as [s|] eqn:E; cbn; by rewrite ?E. Qed.

Lemma Recovery_panic env next r wd acts wd1 msg : next r wd = (acts, wd1, Panic msg) ->
  Recovery env next r wd =
    (acts ++ recovery_acts env r, set_logs (wd_logs wd1 ++ [recovery_record env r msg]) wd1, Ret tt).
Proof. intros E. unfold Recovery, recovering. rewrite E. reflexivity. Qed.

(** The answer to a panic before the response has begun. *)
Lemma recovery_body_sent env r acts :
  rs_sent (respond_to false acts) = None -> declared_length (rs_header (respond_to false acts)) = None ->
  rs_body (respond_to false (acts ++ recovery_acts env r)) = rs_body (respond_to false acts) +:+ recovery_body env r.
Proof.
  intros Hs Hd. rewrite respond_to_app. unfold recovery_acts. generalize (recovery_body env r). intros body.
  destruct (after_500_spec (respond_to false acts)) as (HH & HB & _ & HS). rewrite Hs in HS.
  change (fold_left response_act _ _) with
    (response_act (after_500 (respond_to false acts)) (AWrite body (String.length body))).
  destruct (write_sent (after_500 (respond_to false acts)) body) as [_ ->]; [by rewrite HS|].
  rewrite HB, HH, (rs_head_respond false). f_equal. unfold takes. rewrite HS. cbn [body_allowed].
  unfold declared_length in *. rewrite Header_Get_Set_ne by (vm_compute; discriminate). by rewrite Hd.
Qed.

(** C32: no panic leaves [Recovery].  A handler that returns is not affected.  When it
    panics, the panic is logged and [Recovery] returns; the client gets status 500 unless the
    response had begun, and then the status stays the one sent.  The error body
    follows what the client already received exactly when net/http takes it: the
    status allows a body, the length the response declared leaves room for it and the request is not
    HEAD; otherwise nothing more is sent. *)
Theorem Recovery_correct env next r wd head :
  match next r wd with
  | (acts, wd1, Ret _) => Recovery env next r wd = next r wd
  | (acts, wd1, Panic msg) =>
      exists acts' rec,
        Recovery env next r wd = (acts ++ acts', set_logs (wd_logs wd1 ++ [rec]) wd1, Ret tt) /\
        log_level rec = LevelError /\
        let before := respond_to head acts in
        let after := respond_to head (acts ++ acts') in
        let code := match rs_sent before with Some (code, _) => code | None => 500 end in
        let hdr := match rs_sent before with Some (_, h) => h | None => rs_header before end in
        final_status (acts ++ acts') = match rs_sent (respond acts) with Some (code, _) => code | None => 500 end /\
        (exists h, rs_sent after = Some (code, h)) /\
        rs_body after = rs_body before +:+
          (if body_allowed code && negb head &&
              match declared_length hdr with
              | Some m => rs_written before + Z.of_nat (String.length (recovery_body env r)) <=? m
              | None => true
              end
           then recovery_body env r else "")
  end.
Proof.
  destruct (next r wd) as [[acts wd1] [u|msg]] eqn:E; [unfold Recovery, recovering; by rewrite E|].
  exists (recovery_acts env r), (recovery_record env r msg).
  split; [by apply Recovery_panic|]. split; [done|]. cbv zeta. clear E.
  assert (HR : forall head0, respond_to head0 (acts ++ recovery_acts env r) =
    response_act (after_500 (respond_to head0 acts)) (AWrite (recovery_body env r) (String.length (recovery_body env r))))
    by (intros; by rewrite respond_to_app).
  unfold final_status. change (respond (acts ++ recovery_acts env r)) with (respond_to false (acts ++ recovery_acts env r)).
  change (respond acts) with (respond_to false acts). rewrite !HR. clear HR.
  generalize (recovery_body env r). intros body.
  destruct (after_500_spec (respond_to false acts)) as (_ & _ & _ & HS0).
  destruct (after_500_spec (respond_to head acts)) as (HH & HB & HW & HS).
  rewrite (rs_head_respond head) in HH.
  destruct (write_sent (after_500 (respond_to false acts)) body) as [-> _]; [by rewrite HS0|]. rewrite HS0.
  destruct (write_sent (after_500 (respond_to head acts)) body) as [-> ->]; [by rewrite HS|]. rewrite HS, HB, HH.
  unfold takes. rewrite HS, HW. split; [by destruct (rs_sent (respond_to false acts)) as [[]|]|].
  destruct (rs_sent (respond_to head acts)) as [[code h]|].
  - split; [by eexists|]. f_equal. rewrite <- !andb_assoc, (andb_comm (negb head)). done.
  - split; [by eexists|]. f_equal. cbn [body_allowed]. unfold declared_length.
    rewrite Header_Get_Set_ne by (vm_compute; discriminate). by rewrite andb_comm.
Qed.

(** Every request has one identifier.  The one the client sent or, if it
    sent none, the generated one: it is set on the response before anything
    else happens, and the next handler finds the same one in the request's context. *)
Theorem RequestID_correct env next r wd u :
  env_uuid env = Ok u ->
  let sent := Header_Get (req_Header r) "X-Request-ID" in
  let id := if bool_decide (sent = "") then u else sent in
  exists r', GetRequestID (Context r') = id /\ req_Header r' = req_Header r /\
    RequestID env next r wd =
      let '(acts, wd1, o) := next r' wd in (ASet "X-Request-ID" id :: acts, wd1, o).
Proof.
  intros Hu sent id. exists (WithContext r (WithRequestID (Context r) id)). split; [done|]. split; [done|].
  unfold RequestID. change (Header_Get (req_Header r) requestIDHeader) with sent. rewrite Hu. unfold id.
  clearbody sent. case_bool_decide; cbn; by destruct (next _ wd) as [[acts wd1] o].
Qed.

(** The wrapper reports what the client got.  As long as the handler sends
    no informational response and no invalid status, the captured status is the status sent to the client (200 when
    none was written) and the byte count the length of the body sent (to a request that is not
    HEAD), modulo the width of the counter. *)
Theorem captured_status acts :
  Forall (fun a => regular a = true) acts ->
  statusCode (rw_of acts) = final_status acts /\
  bytesWritten (rw_of acts) = wrap64 (Z.of_nat (String.length (rs_body (respond acts)))).
Proof.
  intros H. split; [|apply rw_bytes]. pose proof (agree_acts acts H) as HA. unfold agree, final_status in *.
  destruct (rs_sent (respond acts)) as [[code h]|]; apply HA.
Qed.

(** The gauge of active requests. *)
Definition active (wd : World) (k : string * string) : Z :=
  default 0 (HTTPActiveRequests (wd_metrics wd) !! k).

Definition keeps_active (next : Handler) : Prop := forall r wd,
  let '(_, wd1, _) := next r wd in HTTPActiveRequests (wd_metrics wd1) = HTTPActiveRequests (wd_metrics wd).

Lemma counter_add_lookup {K} `{Countable K} (k k' : K) d m :
  default 0 (counter_add k d m !! k') = default 0 (m !! k') + (if bool_decide (k = k') then d else 0).
Proof.
  unfold counter_add. case_bool_decide; subst; [by rewrite lookup_insert_eq|].
  rewrite lookup_insert_ne by done. lia.
Qed.

(** C36: the gauge of active requests is balanced.  Around any handler that does
    not touch the gauge, [Metrics] leaves it as it was, whether the handler
    returns or panics, and shows one more active request while the handler runs. *)
Theorem Metrics_balanced env path next r wd k :
  keeps_active next ->
  let '(_, wd2, _) := MetricsMiddleware env path next r wd in
  active wd2 k = active wd k /\
  active (set_metrics (add_active (Method r) path 1 (wd_metrics wd)) wd) (Method r, path) =
    active wd (Method r, path) + 1.
Proof.
  intros Hn. unfold MetricsMiddleware. cbn [bind modifyMetrics].
  set (wd0 := set_metrics _ wd). specialize (Hn r wd0).
  assert (H0 : forall k, active wd0 k = active wd k + (if bool_decide ((Method r, path) = k) then 1 else 0)).
  { intros k0. unfold active, wd0. cbn. apply counter_add_lookup. }
  unfold deferred, bind at 1, with_rw.
  destruct (next r wd0) as [[acts wd1] [[]|msg]]; cbn;
    (split; [|pose proof (H0 (Method r, path)) as HR; rewrite bool_decide_eq_true_2 in HR by done; exact HR]);
    specialize (H0 k); unfold active in *; cbn in *; rewrite counter_add_lookup, Hn;
    case_bool_decide; lia.
Qed.

(** ** Cross-origin requests *)

(** The headers of an allowed origin. *)
Definition cors_acts (cfg : CORSConfig) (origin : string) : list WAct :=
  [ASet "Access-Control-Allow-Origin" origin;
   ASet "Access-Control-Allow-Methods" (Join (AllowedMethods cfg) ", ");
   ASet "Access-Control-Allow-Headers" (allowed_headers cfg);
   ASet "Access-Control-Max-Age" (itoa (Config.MaxAge cfg));
   ASet "Access-Control-Allow-Credentials" "true"].

(** C37: cross-origin answers.  The headers that open the response to another
    origin are set exactly when the request names an origin that is
    listed, or the list has a star; an OPTIONS request is answered 204 and never reaches the next
    handler; every other request goes on to it with those headers set first. *)
Theorem CORS_correct cfg next r wd :
  let origin := Header_Get (req_Header r) "Origin" in
  exists pre,
    ((origin <> "" /\ ("*" ∈ AllowedOrigins cfg \/ origin ∈ AllowedOrigins cfg)) /\ pre = cors_acts cfg origin \/
     ~ (origin <> "" /\ ("*" ∈ AllowedOrigins cfg \/ origin ∈ AllowedOrigins cfg)) /\ pre = []) /\
    (Method r = "OPTIONS" ->
       CORSMiddleware cfg next r wd = (pre ++ [AWriteHeader 204], wd, Ret tt)) /\
    (Method r <> "OPTIONS" ->
       CORSMiddleware cfg next r wd = let '(acts, wd1, o) := next r wd in (pre ++ acts, wd1, o)).
Proof.
  intros origin. unfold CORSMiddleware. fold origin.
  pose proof (isOriginAllowed_spec origin (AllowedOrigins cfg)) as HS.
  destruct (bool_decide (origin <> "") && isOriginAllowed origin (AllowedOrigins cfg)) eqn:E.
  - exists (cors_acts cfg origin). apply andb_true_iff in E as [E1%bool_decide_eq_true E2].
    split; [left; split; [split; [done|by apply HS]|done]|]. split; intros Hm; [by rewrite bool_decide_eq_true_2|].
    rewrite bool_decide_eq_false_2 by done. cbn. by destruct (next r wd) as [[acts wd1] o].
  - exists []. split; [right; split; [|done]|].
    { intros [H1 H2%HS]. rewrite H2, (bool_decide_eq_true_2 _ H1) in E. done. }
    split; intros Hm; [by rewrite bool_decide_eq_true_2|].
    rewrite bool_decide_eq_false_2 by done. cbn. by destruct (next r wd) as [[acts wd1] o].
Qed.

(** The default configuration gives every site credentialed access.  With no
    [allowed_origins] configured the default is the star, and any origin a
    request names is sent back as allowed together with the permission to use credentials. *)
Theorem default_cors_reflects_any_origin cfg next r wd :
  AllowedOrigins cfg = [] -> Header_Get (req_Header r) "Origin" <> "" ->
  exists acts o wd1, CORSMiddleware (CORSConfig_defaults cfg) next r wd =
    (cors_acts (CORSConfig_defaults cfg) (Header_Get (req_Header r) "Origin") ++ acts, wd1, o).
Proof.
  intros Hc Ho. unfold CORSMiddleware. rewrite (bool_decide_eq_true_2 _ Ho).
  assert (isOriginAllowed (Header_Get (req_Header r) "Origin") (AllowedOrigins (CORSConfig_defaults cfg)) = true) as ->.
  { apply isOriginAllowed_spec. left. cbn. rewrite Hc. by left. }
  cbn [andb]. case_bool_decide; [by eexists _, _, _|].
  destruct (next r wd) as [[acts wd1] o] eqn:E. exists acts, o, wd1. cbn. by rewrite E.
Qed.

(** ** Rate limiting *)

Definition limit_acts (d : Decision) : list WAct :=
  [ASet "X-RateLimit-Limit" (itoa (Limit d)); ASet "X-RateLimit-Remaining" (itoa (Remaining d));
   ASet "X-RateLimit-Reset" (itoa (Time_Unix (ResetAt d)))].

(** The header the client gets, once it is sent. *)
Definition sent_header (acts : list WAct) (key : string) : string :=
  match rs_sent (respond acts) with Some (_, h) => Header_Get h key | None => "" end.

(** C26: the rate limit decides before the next handler.  The decision of
    the store for the client's key is announced in the headers; an allowed request
    goes on with the updated store.  A rejected one never reaches the next handler, and
    breaker, balancer and upstreams are left alone: if Prometheus takes the key
    as a label value, the request is answered 429 with a [Retry-After], counted and
    logged; if not, the handler panics with the headers set, and nothing is counted, logged or sent. *)
Theorem RateLimit_correct env path next r wd :
  let '(s, d) := InMemoryStore_Allow (env_oor env) (client_key r) (env_rate_now env) (wd_store wd) in
  if Allowed d then
    RateLimit env path next r wd =
      let '(acts, wd1, o) := next r (set_store s wd) in (limit_acts d ++ acts, wd1, o)
  else match env_label_err env (client_key r) with
  | None => exists acts wd1,
      (forall next', RateLimit env path next' r wd = (acts, wd1, Ret tt)) /\
      final_status acts = 429 /\
      sent_header acts "Retry-After" = itoa (retry_after_secs env d) /\
      sent_header acts "X-RateLimit-Remaining" = itoa (Remaining d) /\
      wd_store wd1 = s /\ wd_breaker wd1 = wd_breaker wd /\
      wd_balancer wd1 = wd_balancer wd /\ wd_calls wd1 = wd_calls wd /\
      length (wd_logs wd1) = S (length (wd_logs wd)) /\
      RateLimitRejections (wd_metrics wd1) =
        counter_add (path, client_key r) 1 (RateLimitRejections (wd_metrics wd))
  | Some msg => forall next', RateLimit env path next' r wd =
      (limit_acts d ++ [ASet "Retry-After" (itoa (retry_after_secs env d))], set_store s wd, Panic msg)
  end.
Proof.
  destruct (InMemoryStore_Allow (env_oor env) (client_key r) (env_rate_now env) (wd_store wd)) as [s d] eqn:E.
  destruct (Allowed d) eqn:Ha.
  { unfold RateLimit, bind at 1, allow. rewrite E, Ha. cbn.
    by destruct (next r (set_store s wd)) as [[acts wd1] o]. }
  destruct (env_label_err env (client_key r)) as [msg|] eqn:Hl.
  { intros next'. unfold RateLimit, RateLimitRejections_Inc, bind at 1, allow. rewrite E, Ha, Hl. reflexivity. }
  eexists _, _. split.
  { intros next'. unfold RateLimit, RateLimitRejections_Inc, bind at 1, allow. rewrite E, Ha, Hl. reflexivity. }
  split; [done|]. unfold sent_header. cbn. split; [|split].
  - by rewrite Header_Get_Set_ne, Header_Get_Set by (vm_compute; discriminate).
  - by rewrite !Header_Get_Set_ne, Header_Get_Set by (vm_compute; discriminate).
  - rewrite length_app. cbn. split_and!; done || lia.
Qed.

(** ** Circuit breaking *)

Lemma emit_log_to l : forall x, emit_logs log_to l x = (fst x, set_logs (wd_logs (snd x) ++ l) (snd x)).
Proof.
  induction l as [|rec l IH]; intros [a w].
  - cbn. rewrite app_nil_r. by destruct w.
  - change (emit_logs log_to (rec :: l) (a, w)) with (emit_logs log_to l (log_to rec (a, w))).
    rewrite IH. cbn. by rewrite <- app_assoc.
Qed.

(** A computation that returns, through a closed breaker. *)
Lemma execute_closed env m wd acts wd1 err :
  state (wd_breaker wd) = StateClosed -> m wd = (acts, wd1, Ret err) ->
  exists wd2, execute env m wd = (acts, wd2, Ret err) /\
    let ck := env_exec env in
    let cb := countRequest (wd_breaker wd) in
    match err with
    | None => wd_breaker wd2 = fst (onSuccess (ck_after ck) (ck_after_change ck) cb)
    | Some _ => exists logs, onFailure (ck_after ck) (ck_after_change ck) cb = Ret (wd_breaker wd2, logs)
    end.
Proof.
  intros Hs Hm. unfold execute. cbn [Execute CircuitBreaker_Breaker].
  unfold CircuitBreaker_Execute, beforeRequest. rewrite Hs, emit_log_to. cbn [fst snd]. rewrite app_nil_r.
  replace (set_logs (wd_logs wd) wd) with wd by (by destruct wd). rewrite Hm. cbn [app].
  destruct err as [err|].
  - rewrite onFailure_eq. set (res := match state _ with StateClosed => _ | _ => _ end).
    destruct res as [cb3 l3]. rewrite emit_log_to. eexists. split; [reflexivity|]. by exists l3.
  - destruct (onSuccess _ _ _) as [cb3 l3]. rewrite emit_log_to. eexists. by split; [reflexivity|].
Qed.

(** C20: the circuit breaker as the client sees it.  When the breaker
    rejects, the answer is 503 whatever the next handler is, and the breaker and
    its counters stay as they are; when it admits, the next handler runs exactly once and the client
    gets its answer and no other, or the panic goes on. *)
Theorem CircuitBreak_correct env path next r wd :
  if admits (env_exec env) (wd_breaker wd) then
    exists logs, let '(acts, wd1, o) := next (WithContext r (Context r))
                   (set_logs (wd_logs wd ++ logs)
                      (set_metrics (gauge_breaker path (state_number (state (wd_breaker wd))) (wd_metrics wd)) wd)) in
    exists wd2, CircuitBreak env path next r wd = (acts, wd2, o)
  else exists acts wd1,
    (forall next', CircuitBreak env path next' r wd = (acts, wd1, Ret tt)) /\
    final_status acts = 503 /\ wd_breaker wd1 = wd_breaker wd /\ wd_logs wd1 = wd_logs wd.
Proof.
  unfold CircuitBreak. set (wd0 := set_metrics (gauge_breaker path _ (wd_metrics wd)) wd).
  destruct (admits (env_exec env) (wd_breaker wd)) eqn:Ha.
  - unfold bind at 1, modifyMetrics. change (Breaker_State (wd_breaker wd)) with (state (wd_breaker wd)).
    fold wd0. unfold bind at 1, execute.
    set (fn := fun x : list WAct * World => _).
    destruct (execute_admitted log_to (env_exec env) fn (wd_breaker wd0) ([], wd0) Ha) as (before & after & Hw & Hr).
    set (x := Execute log_to (env_exec env) fn (wd_breaker wd0) ([], wd0)) in *. clearbody x.
    exists before. rewrite (emit_log_to after) in Hw. rewrite (emit_log_to before) in Hw, Hr. cbn [fst snd] in Hw, Hr.
    change (wd_logs wd0) with (wd_logs wd) in *. set (wdb := set_logs (wd_logs wd ++ before) wd0) in *.
    unfold fn, upstream_call, bind, with_rw in Hw, Hr. cbn [fst snd] in Hw, Hr.
    destruct (next (WithContext r (Context r)) wdb) as [[acts wd1] [[]|msg]]; cbn in Hw, Hr; rewrite Hr, Hw; cbn.
    + rewrite bool_decide_eq_false_2 by (by destruct (500 <=? _)). cbn. rewrite !app_nil_r. by eexists.
    + by eexists.
  - eexists _, _. split.
    { intros next'. unfold bind at 1, modifyMetrics. change (Breaker_State (wd_breaker wd)) with (state (wd_breaker wd)).
      fold wd0. unfold bind at 1, execute. rewrite (execute_rejected _ _ _ (wd_breaker wd0) _ Ha). cbn. reflexivity. }
    split; [done|]. done.
Qed.

(** C21: an upstream failure is what trips the breaker.  A closed breaker and a
    next handler that returns: a status of 500 or more is recorded as a
    failure, any other status as a success, and nothing else is. *)
Theorem CircuitBreak_records env path next r wd acts wd1 :
  state (wd_breaker wd) = StateClosed ->
  next (WithContext r (Context r))
    (set_metrics (gauge_breaker path 0 (wd_metrics wd)) wd) = (acts, wd1, Ret tt) ->
  exists wd2, CircuitBreak env path next r wd = (acts, wd2, Ret tt) /\
    totalRequests (wd_breaker wd2) = wrap64 (totalRequests (wd_breaker wd) + 1) /\
    if 500 <=? statusCode (rw_of acts)
    then totalFailures (wd_breaker wd2) = wrap64 (totalFailures (wd_breaker wd) + 1) /\
         consecutiveFails (wd_breaker wd2) = wrap64 (consecutiveFails (wd_breaker wd) + 1)
    else totalFailures (wd_breaker wd2) = totalFailures (wd_breaker wd) /\
         consecutiveFails (wd_breaker wd2) = 0 /\ state (wd_breaker wd2) = StateClosed.
Proof.
  intros Hs Hn. unfold CircuitBreak, bind at 1, modifyMetrics.
  change (Breaker_State (wd_breaker wd)) with (state (wd_breaker wd)). rewrite Hs. cbn [state_number].
  set (wd0 := set_metrics _ wd) in *.
  destruct (execute_closed env (upstream_call next r) wd0 acts wd1
    (if 500 <=? statusCode (rw_of acts) then Some (Errorf ("upstream returned " +:+ itoa (statusCode (rw_of acts)))) else None))
    as (wd2 & E & Hcb); [done|unfold upstream_call, bind, with_rw; rewrite Hn; cbn; by rewrite app_nil_r|].
  unfold bind. rewrite E. change (wd_breaker wd0) with (wd_breaker wd) in Hcb. cbv zeta in Hcb.
  rewrite bool_decide_eq_false_2 by (by destruct (500 <=? _)). cbn. rewrite app_nil_r. exists wd2.
  split; [done|]. destruct (500 <=? statusCode (rw_of acts)).
  - destruct Hcb as [logs Hcb]. rewrite onFailure_eq in Hcb. cbn in Hcb. rewrite Hs in Hcb.
    by destruct (_ <=? _); simplify_eq/=; destruct wd2; simplify_eq/=.
  - rewrite Hcb. unfold onSuccess. cbn. rewrite Hs. done.
Qed.
End Properties.

(** ** Examples *)

Section Examples.
#[local] Existing Instance plain_url_lib.

Definition example_env : Env :=
  mkEnv "" (Ok "018f-uuid") 0 0 0 0 0 (mkExecClock 0 0 0 0) (fun _ => 0) id id
    (fun v => if ValidString v then None else Some "label value is not valid UTF-8").

Definition example_request : Request :=
  mkRequest "GET" "/api/users" "" "" "" "gw.local" ∅ "10.0.0.1:1234" false [].

Definition example_metrics : MetricsState := mkMetrics ∅ [] ∅ ∅ ∅ ∅.

Definition example_world : World :=
  mkWorld [] example_metrics (NewInMemoryStore (F64.of_Z 10) 2) (NewBreaker DefaultBreakerConfig true 0)
    (ARoundRobin (NewRoundRobin [])) [].

Lemma RequestID_correct_witness :
  exists r', GetRequestID (Context r') = "018f-uuid" /\
    RequestID example_env (fun _ => writeHeader 200) example_request example_world =
      ([ASet "X-Request-ID" "018f-uuid"; AWriteHeader 200], example_world, Ret tt).
Proof.
  destruct (RequestID_correct example_env (fun _ => writeHeader 200) example_request example_world "018f-uuid" eq_refl)
    as (r' & Hid & _ & HE).
  exists r'. split; [exact Hid|exact HE].
Defined.

Lemma captured_status_witness :
  statusCode (rw_of [ASet "A" "b"; AWriteHeader 404; AWriteHeader 500; AWrite "abc" 2]) =
    final_status [ASet "A" "b"; AWriteHeader 404; AWriteHeader 500; AWrite "abc" 2] /\
  final_status [ASet "A" "b"; AWriteHeader 404; AWriteHeader 500; AWrite "abc" 2] = 404.
Proof.
  split; [|reflexivity].
  apply (captured_status [ASet "A" "b"; AWriteHeader 404; AWriteHeader 500; AWrite "abc" 2]).
  repeat constructor.
Defined.

(** An upstream that sends early hints (103) and then fails. *)
Definition hints_then_500 : Handler := fun _ => run! writeHeader 103; writeHeader 500.

(** An informational response hides a failure.  When the upstream's answer
    starts with a 1xx status, the wrapper keeps that status: the client
    gets 500, and the circuit breaker records a success. *)
Theorem early_hints_hide_failure :
  let '(acts, wd, _) := CircuitBreak example_env "/api" hints_then_500 example_request example_world in
  final_status acts = 500 /\ statusCode (rw_of acts) = 103 /\
  totalRequests (wd_breaker wd) = 1 /\ totalFailures (wd_breaker wd) = 0.
Proof. vm_compute. done. Qed.

Lemma Metrics_balanced_witness :
  let '(_, wd2, _) := MetricsMiddleware example_env "/api" (fun _ wd => ([], wd, Panic "boom")) example_request example_world in
  active wd2 ("GET", "/api") = active example_world ("GET", "/api") /\
  active (set_metrics (add_active "GET" "/api" 1 example_metrics) example_world) ("GET", "/api") =
    active example_world ("GET", "/api") + 1.
Proof.
  exact (Metrics_balanced example_env "/api" (fun _ wd => ([], wd, Panic "boom")) example_request example_world
    ("GET", "/api") ltac:(intros r wd; reflexivity)).
Defined.

Definition evil_request : Request :=
  mkRequest "GET" "/api/me" "" "" "" "gw.local" {[ "Origin" := ["https://evil.example"] ]} "10.0.0.1:1" false [].

Lemma default_cors_reflects_any_origin_witness :
  exists acts o wd1, CORSMiddleware (CORSConfig_defaults (mkCORSConfig [] [] [] 0)) (fun _ => ret tt) evil_request example_world =
    (cors_acts (CORSConfig_defaults (mkCORSConfig [] [] [] 0)) (Header_Get (req_Header evil_request) "Origin") ++ acts, wd1, o).
Proof.
  exact (default_cors_reflects_any_origin (mkCORSConfig [] [] [] 0) (fun _ => ret tt) evil_request example_world
    eq_refl ltac:(vm_compute; discriminate)).
Defined.

Lemma CircuitBreak_records_witness :
  exists wd2, CircuitBreak example_env "/api" (fun _ => writeHeader 502) example_request example_world =
      ([AWriteHeader 502], wd2, Ret tt) /\
    totalRequests (wd_breaker wd2) = 1 /\ totalFailures (wd_breaker wd2) = 1.
Proof.
  destruct (CircuitBreak_records example_env "/api" (fun _ => writeHeader 502) example_request example_world
    [AWriteHeader 502] _ eq_refl eq_refl) as (wd2 & H1 & H2 & H3).
  exists wd2. split; [exact H1|]. split; [exact H2|]. apply H3.
Defined.
End Examples.
