(* ===== verification/Proxy.v ===== *)
(** * internal/proxy: the reverse-proxy handler

    handler.go and transport.go.  [httputil.ReverseProxy] is modelled by the steps
    that matter for the request it sends (the director, hop-by-hop headers, the
    client address appended to [X-Forwarded-For]) and for the answer (informational
    responses forwarded as they come, the header, status and body copied to the writer, the error
    handler, or the panic that aborts a broken body); the network
    ([RoundTrip]) is an argument, and every request given to it is recorded. *)

From S2P Require Import Prelude Float64 GoLib Config Balancer RoundRobin BalancerConfig Breaker.
From S2P Require Import TokenBucket Http Middleware.

(** ** transport.go *)

Record TransportConfig := mkTransportConfig {
  tr_MaxIdleConns : Z;
  tr_MaxIdleConnsPerHost : Z;
  tr_IdleConnTimeout : Duration;
  tr_TLSHandshakeTimeout : Duration;
  tr_ResponseTimeout : Duration;
  tr_InsecureSkipVerify : bool
}.

Definition DefaultTransportConfig : TransportConfig :=
  mkTransportConfig 100 10 (90 * Second) (10 * Second) (30 * Second) false.

(** The fields of the [http.Transport] the gateway sets. *)
Record Transport := mkTransport {
  dialer_Timeout : Duration;
  dialer_KeepAlive : Duration;
  MaxIdleConns : Z;
  MaxIdleConnsPerHost : Z;
  IdleConnTimeout : Duration;
  TLSHandshakeTimeout : Duration;
  ResponseHeaderTimeout : Duration;
  InsecureSkipVerify : bool;
  ForceAttemptHTTP2 : bool
}.

Definition NewTransport (cfg : TransportConfig) : Transport :=
  mkTransport (30 * Second) (30 * Second) (tr_MaxIdleConns cfg) (tr_MaxIdleConnsPerHost cfg)
    (tr_IdleConnTimeout cfg) (tr_TLSHandshakeTimeout cfg) (tr_ResponseTimeout cfg)
    (tr_InsecureSkipVerify cfg) true.

(** ** handler.go *)

Definition stripPrefix (path prefix : string) : string :=
  let p := TrimPrefix path prefix in
  if bool_decide (p = "") then "/"
  else if negb (HasPrefix p "/") then "/" +:+ p
  else p.

Definition schemeFromRequest (r : Request) : string := if TLS r then "https" else "http".

(** The final answer of an upstream, and how the connection to the client took
    it: each piece of the body with the number of bytes taken. *)
Record UpstreamResponse := mkUpstreamResponse {
  ur_StatusCode : Z;
  ur_Header : Header;
  ur_Body : list (string * nat);
  ur_Trailer : Header
}.

(** An informational response: its status and header. *)
Definition Hint : Type := Z * Header.

(** What one call of the transport gave, after informational responses: an error (the
    transport's, or that of an upstream that wants to switch protocols, which the
    gateway's wrapped writer cannot), an answer, or an answer with a failure while copying
    its body. *)
Inductive UpstreamResult :=
  | UpstreamError (hints : list Hint) (err : error)
  | UpstreamAnswer (hints : list Hint) (res : UpstreamResponse)
  | UpstreamBroken (hints : list Hint) (res : UpstreamResponse).

Section Proxy.
Context `{UL : URLLib}.

(** The balancer and the logger are in the state. *)
Record ProxyHandler := mkProxyHandler {
  ph_routeCfg : RouteConfig;
  ph_transport : Transport
}.

Definition NewHandler (routeCfg : RouteConfig) : ProxyHandler :=
  mkProxyHandler routeCfg (NewTransport DefaultTransportConfig).

Definition set_req_header (h : Header) (r : Request) : Request :=
  mkRequest (Method r) (URL_Path r) (RawQuery r) (req_URL_Scheme r) (req_URL_Host r) (req_Host r)
    h (RemoteAddr r) (TLS r) (Context r).

(** The assignments to the URL and the host of the outgoing request. *)
Definition retarget (target : URL) (path : string) (r : Request) : Request :=
  mkRequest (Method r) path (RawQuery r) (URL_Scheme target) (URL_Host target) (URL_Host target)
    (req_Header r) (RemoteAddr r) (TLS r) (Context r).

(** The director: it changes the outgoing copy [req] of the request. *)
Definition Director (h : ProxyHandler) (target : URL) (req : Request) : Request :=
  let path :=
    if rc_StripPrefix (ph_routeCfg h) then stripPrefix (URL_Path req) (rc_Path (ph_routeCfg h))
    else URL_Path req in
  let req := retarget target path req in
  let clientIP := Header_Get (req_Header req) "X-Forwarded-For" in
  let hdr :=
    if bool_decide (clientIP <> "") then Header_Set (req_Header req) "X-Forwarded-For" clientIP
    else Header_Set (req_Header req) "X-Forwarded-For" (RemoteAddr req) in
  let hdr := Header_Set hdr "X-Forwarded-Host" (req_Host req) in
  let hdr := Header_Set hdr "X-Forwarded-Proto" (schemeFromRequest req) in
  let reqID := GetRequestID (Context req) in
  let hdr := if bool_decide (reqID <> "") then Header_Set hdr "X-Request-ID" reqID else hdr in
  set_req_header hdr req.

(** ReverseProxy appends the address of its client to [X-Forwarded-For]. *)
Definition append_forwarded_for (remoteAddr : string) (h : Header) : Header :=
  match SplitHostPort remoteAddr with
  | None => h
  | Some clientIP =>
      match h !! CanonicalHeaderKey "X-Forwarded-For" with
      | Some (v :: vs) => Header_Set h "X-Forwarded-For" (Join (v :: vs) ", " +:+ ", " +:+ clientIP)
      | _ => Header_Set h "X-Forwarded-For" clientIP
      end
  end.

(** A sequence of calls on the writer. *)
Definition emit_all (acts : list WAct) : M unit := fun wd => (acts, wd, Ret tt).

(** [copyHeader(rw.Header(), src)] *)
Definition copyHeader (src : Header) : list WAct :=
  concat ((fun kv : string * list string => AAdd kv.1 <$> kv.2) <$> map_to_list src).

(** [Got1xxResponse]: the header map is cleared after each informational response. *)
Definition Got1xxResponse (hint : Hint) : list WAct :=
  copyHeader hint.2 ++ [AWriteHeader hint.1; AClear].

Definition forward_hints (hints : list Hint) : M unit := emit_all (concat (Got1xxResponse <$> hints)).

(** [rw.WriteHeader(res.StatusCode)] on a response that is not sent yet: an invalid status panics. *)
Definition copy_status (code : Z) : M unit :=
  run! writeHeader code;
  if valid_code code then ret tt else panic ("invalid WriteHeader code " +:+ itoa code).

Section Serve.
(** The removal of hop-by-hop headers and the network. *)
Variable removeHopByHop : Header -> Header.
Variable RoundTrip : Request -> UpstreamResult.

(** [transport.RoundTrip(outreq)] *)
Definition round_trip (outreq : Request) : M UpstreamResult := fun wd =>
  ([], set_calls (wd_calls wd ++ [outreq]) wd, Ret (RoundTrip outreq)).

(** The protocol a client asks to switch to, if any. *)
Definition upgradeType (h : Header) : string :=
  if contains_token (Header_Values h "Connection") "upgrade" then Header_Get h "Upgrade" else "".

Definition ascii_print (s : string) : bool := forall_string (byte_in 32 126) s.

(** The headers of the request sent, from those the director left: hop-by-hop headers are
    removed, trailer support and a protocol switch put back. *)
Definition end_to_end (te : list string) (hdr : Header) : Header :=
  let upType := upgradeType hdr in
  let out := removeHopByHop hdr in
  let out := if contains_token te "trailers" then Header_Set out "Te" "trailers" else out in
  if bool_decide (upType <> "") then Header_Set (Header_Set out "Connection" "Upgrade") "Upgrade" upType else out.

(** The user agent of Go's client is not sent in place of a missing one. *)
Definition own_user_agent (hdr : Header) : Header :=
  match hdr !! "User-Agent" with Some _ => hdr | None => Header_Set hdr "User-Agent" "" end.

(** The request sent to the upstream for the incoming request [r]. *)
Definition outgoing (h : ProxyHandler) (target : URL) (r : Request) : Request :=
  let req := Director h target r in
  set_req_header (own_user_agent (append_forwarded_for (RemoteAddr r)
    (end_to_end (Header_Values (req_Header r) "Te") (req_Header req)))) req.

Definition bad_gateway (utf8 : string -> string) (message : string) : M unit :=
  run! setHeader "Content-Type" "application/json";
  run! writeHeader 502;
  encode_json (error_body utf8 "BAD_GATEWAY" message []).

(** The error handler. *)
Definition ErrorHandler (env : Env) (h : ProxyHandler) (target : URL) (err : error) : M unit :=
  run! logRecord (mkLog LevelError "upstream request failed"
    [("target", AString (URL_String target)); ("route", AString (rc_Path (ph_routeCfg h)));
     ("error", AString (error_Error err))]);
  bad_gateway (env_utf8 env) "upstream request failed".

(** Header, status and body of the upstream's answer. *)
Definition copy_answer (res : UpstreamResponse) : M unit :=
  run! emit_all (copyHeader (removeHopByHop (ur_Header res)));
  run! copy_status (ur_StatusCode res);
  emit_all ((fun c => AWrite c.1 c.2) <$> ur_Body res).

(** A protocol that is not printable is refused before the upstream is called; a failure while
    copying the body ends in [panic(http.ErrAbortHandler)]. *)
Definition ReverseProxy_ServeHTTP (env : Env) (h : ProxyHandler) (target : URL) (r : Request) : M unit :=
  let upType := upgradeType (req_Header (Director h target r)) in
  if negb (ascii_print upType) then
    ErrorHandler env h target (Errorf ("client tried to switch to invalid protocol " +:+ env_quote env upType))
  else
  let! result <- round_trip (outgoing h target r);
  match result with
  | UpstreamError hints err => run! forward_hints hints; ErrorHandler env h target err
  | UpstreamAnswer hints res =>
      run! forward_hints hints;
      run! copy_answer res;
      emit_all (copyHeader (ur_Trailer res))
  | UpstreamBroken hints res =>
      run! forward_hints hints;
      run! copy_answer res;
      panic "net/http: abort Handler"
  end.

(** [h.balancer.Next()] on the route's balancer. *)
Definition balancer_Next : M (result URL) := fun wd =>
  match Next (wd_balancer wd) with
  | Ret (b, res) => ([], set_balancer b wd, Ret res)
  | Panic msg => ([], wd, Panic msg)
  end.

(** The timeout of the route is a deadline of the network call, in [RoundTrip]. *)
Definition Handler_ServeHTTP (env : Env) (h : ProxyHandler) : Handler := fun r =>
  let! res <- balancer_Next;
  match res with
  | Err err =>
      run! logRecord (mkLog LevelError "no healthy upstream targets"
        [("route", AString (rc_Path (ph_routeCfg h))); ("error", AString (error_Error err))]);
      bad_gateway (env_utf8 env) "no healthy upstream targets available"
  | Ok target =>
      let ctx := WithUpstreamTarget (Context r) (URL_String target) in
      ReverseProxy_ServeHTTP env h target (WithContext r ctx)
  end.
End Serve.
End Proxy.

(** ** Upstreams for examples: one answers 200, the other breaks off after its status *)

Definition ok_response : UpstreamResponse := mkUpstreamResponse 200 ∅ [] ∅.

Definition ok_upstream : Request -> UpstreamResult := fun _ => UpstreamAnswer [] ok_response.
Definition broken_upstream : Request -> UpstreamResult := fun _ => UpstreamBroken [] ok_response.
