(* ===== verification/ProxyFacts.v ===== *)
(** * What the reverse-proxy handler guarantees *)

From S2P Require Import Prelude Float64 GoLib Config Balancer RoundRobin BalancerConfig Breaker.
From S2P Require Import TokenBucket Http Middleware MiddlewareFacts Proxy.

(** ** Paths *)

Lemma TrimPrefix_self p : TrimPrefix p p = "".
Proof. rewrite <- (string_app_nil_r p) at 1. apply TrimPrefix_app. Qed.

(** The stripped path.  The upstream always gets an absolute path: the
    part after the prefix with exactly the missing slash added, the root when
    nothing is left, and a path outside the prefix as it was. *)
Theorem stripPrefix_correct path prefix :
  HasPrefix (stripPrefix path prefix) "/" = true /\
  (forall rest, path = prefix +:+ "/" +:+ rest -> stripPrefix path prefix = "/" +:+ rest) /\
  (path = prefix -> stripPrefix path prefix = "/") /\
  (forall rest, path = prefix +:+ rest -> rest <> "" -> HasPrefix rest "/" = false ->
     stripPrefix path prefix = "/" +:+ rest) /\
  (HasPrefix path prefix = false -> HasPrefix path "/" = true -> stripPrefix path prefix = path).
Proof.
  split_and!.
  - unfold stripPrefix. case_bool_decide; [done|].
    destruct (HasPrefix (TrimPrefix path prefix) "/") eqn:E; [done|]. apply HasPrefix_spec. by eexists.
  - intros rest ->. unfold stripPrefix. rewrite TrimPrefix_app.
    rewrite bool_decide_eq_false_2 by done. rewrite (proj2 (HasPrefix_spec _ _)) by (by eexists). done.
  - intros ->. unfold stripPrefix. by rewrite TrimPrefix_self.
  - intros rest -> Hne Hp. unfold stripPrefix. rewrite TrimPrefix_app, bool_decide_eq_false_2, Hp by done. done.
  - intros Hn Hp. unfold stripPrefix, TrimPrefix. rewrite Hn, Hp. case_bool_decide; [by subst|done].
Qed.

Ltac end_header := rewrite !not_elem_of_cons; split_and!; first [discriminate|apply not_elem_of_nil].

Section Outgoing.
Context `{UL : URLLib} (removeHopByHop : Header -> Header).

(** The headers the director sets are end-to-end headers, which the removal of
    hop-by-hop headers keeps. *)
Definition keeps (h : Header) (key : string) : Prop :=
  removeHopByHop h !! CanonicalHeaderKey key = h !! CanonicalHeaderKey key.

Lemma append_forwarded_for_other addr h key :
  CanonicalHeaderKey "X-Forwarded-For" <> CanonicalHeaderKey key ->
  Header_Get (append_forwarded_for addr h) key = Header_Get h key.
Proof.
  intros Hne. unfold append_forwarded_for. destruct (SplitHostPort addr); [|done].
  destruct (h !! _) as [[|v vs]|]; by rewrite Header_Get_Set_ne.
Qed.

Lemma own_user_agent_other h key : "User-Agent" <> CanonicalHeaderKey key ->
  Header_Get (own_user_agent h) key = Header_Get h key.
Proof.
  intros Hne. unfold own_user_agent. destruct (h !! _); [done|]. by rewrite Header_Get_Set_ne.
Qed.

Lemma end_to_end_lookup te h k : k <> "Te" -> k <> "Connection" -> k <> "Upgrade" ->
  end_to_end removeHopByHop te h !! k = removeHopByHop h !! k.
Proof.
  intros H1 H2 H3. unfold end_to_end, Header_Set.
  change (CanonicalHeaderKey "Te") with "Te". change (CanonicalHeaderKey "Connection") with "Connection".
  change (CanonicalHeaderKey "Upgrade") with "Upgrade".
  destruct (contains_token te "trailers"), (bool_decide _); by rewrite ?lookup_insert_ne.
Qed.

(** The end-to-end headers of the request sent are those the director set. *)
Lemma outgoing_header h target r key : keeps (req_Header (Director h target r)) key ->
  CanonicalHeaderKey key ∉ ["Te"; "Connection"; "Upgrade"; "User-Agent"; "X-Forwarded-For"] ->
  Header_Get (req_Header (outgoing removeHopByHop h target r)) key = Header_Get (req_Header (Director h target r)) key.
Proof.
  intros HK Hn. rewrite !not_elem_of_cons in Hn. destruct Hn as (H1 & H2 & H3 & H4 & H5 & _).
  change (req_Header (outgoing removeHopByHop h target r)) with
    (own_user_agent (append_forwarded_for (RemoteAddr r) (end_to_end removeHopByHop
      (Header_Values (req_Header r) "Te") (req_Header (Director h target r))))).
  rewrite own_user_agent_other by congruence.
  rewrite append_forwarded_for_other by (change (CanonicalHeaderKey "X-Forwarded-For") with "X-Forwarded-For"; congruence).
  unfold Header_Get. rewrite end_to_end_lookup by done. by rewrite HK.
Qed.

(** C31: the request the upstream receives goes to the chosen target: its
    scheme and host, the method, query and (stripped if configured) path of the client's
    request, the request's identifier and the scheme the client used. *)
Theorem outgoing_correct h target r :
  keeps (req_Header (Director h target r)) "X-Request-ID" ->
  keeps (req_Header (Director h target r)) "X-Forwarded-Proto" ->
  let req := outgoing removeHopByHop h target r in
  req_URL_Scheme req = URL_Scheme target /\ req_URL_Host req = URL_Host target /\
  req_Host req = URL_Host target /\ Method req = Method r /\ RawQuery req = RawQuery r /\
  URL_Path req = (if rc_StripPrefix (ph_routeCfg h)
                  then stripPrefix (URL_Path r) (rc_Path (ph_routeCfg h)) else URL_Path r) /\
  Header_Get (req_Header req) "X-Forwarded-Proto" = (if TLS r then "https" else "http") /\
  Header_Get (req_Header req) "X-Request-ID" =
    (if bool_decide (GetRequestID (Context r) <> "") then GetRequestID (Context r)
     else Header_Get (req_Header r) "X-Request-ID").
Proof.
  intros HK1 HK2. cbv zeta. do 6 (split; [done|]).
  rewrite (outgoing_header h target r "X-Forwarded-Proto" HK2), (outgoing_header h target r "X-Request-ID" HK1) by end_header.
  clear HK1 HK2.
  unfold Director. cbn [req_Header set_req_header retarget RemoteAddr req_Host Context].
  set (hf := if bool_decide (Header_Get (req_Header r) "X-Forwarded-For" <> "") then _ else _).
  assert (Hf : Header_Get hf "X-Request-ID" = Header_Get (req_Header r) "X-Request-ID").
  { unfold hf. by destruct (bool_decide _); rewrite Header_Get_Set_ne by (vm_compute; discriminate). }
  case_bool_decide.
  - split; [|by rewrite Header_Get_Set].
    rewrite Header_Get_Set_ne, Header_Get_Set by (vm_compute; discriminate). done.
  - split; [by rewrite Header_Get_Set|].
    by rewrite !Header_Get_Set_ne by (vm_compute; discriminate).
Qed.

(** What the upstream is told about the client is wrong.  For a client that
    sends no [X-Forwarded-For], the upstream gets the client's address twice, first with its port;
    and [X-Forwarded-Host] is always the upstream's own host, because the
    director replaces the host of the request before it copies it. *)
Theorem forwarded_headers h target r ip :
  keeps (req_Header (Director h target r)) "X-Forwarded-For" ->
  keeps (req_Header (Director h target r)) "X-Forwarded-Host" ->
  Header_Get (req_Header r) "X-Forwarded-For" = "" -> SplitHostPort (RemoteAddr r) = Some ip ->
  Header_Get (req_Header (outgoing removeHopByHop h target r)) "X-Forwarded-For" =
    RemoteAddr r +:+ ", " +:+ ip /\
  Header_Get (req_Header (outgoing removeHopByHop h target r)) "X-Forwarded-Host" = URL_Host target.
Proof.
  intros HK1 HK2 Hx Hip.
  rewrite (outgoing_header h target r "X-Forwarded-Host" HK2) by end_header.
  change (req_Header (outgoing removeHopByHop h target r)) with
    (own_user_agent (append_forwarded_for (RemoteAddr r) (end_to_end removeHopByHop
      (Header_Values (req_Header r) "Te") (req_Header (Director h target r))))).
  rewrite own_user_agent_other by (vm_compute; discriminate).
  unfold append_forwarded_for. rewrite Hip, end_to_end_lookup by (vm_compute; discriminate). rewrite HK1.
  assert (HF : req_Header (Director h target r) !! CanonicalHeaderKey "X-Forwarded-For" = Some [RemoteAddr r] /\
    Header_Get (req_Header (Director h target r)) "X-Forwarded-Host" = URL_Host target).
  { unfold Director. cbn [req_Header set_req_header retarget RemoteAddr req_Host Context].
    rewrite Hx, (bool_decide_eq_false_2 ("" <> "")) by (intros Hc; by apply Hc).
    case_bool_decide; split.
    - unfold Header_Set. by rewrite !lookup_insert_ne, lookup_insert_eq by (vm_compute; discriminate).
    - by rewrite !Header_Get_Set_ne, Header_Get_Set by (vm_compute; discriminate).
    - unfold Header_Set. by rewrite !lookup_insert_ne, lookup_insert_eq by (vm_compute; discriminate).
    - by rewrite !Header_Get_Set_ne, Header_Get_Set by (vm_compute; discriminate). }
  destruct HF as [-> HH]. rewrite Header_Get_Set. done.
Qed.

(** Serving a request once the balancer has answered. *)
Lemma serve_next RT env h r wd b res : Next (wd_balancer wd) = Ret (b, res) ->
  Handler_ServeHTTP removeHopByHop RT env h r wd =
  (match res with
   | Err err =>
       run! logRecord (mkLog LevelError "no healthy upstream targets"
         [("route", AString (rc_Path (ph_routeCfg h))); ("error", AString (error_Error err))]);
       bad_gateway (env_utf8 env) "no healthy upstream targets available"
   | Ok target => ReverseProxy_ServeHTTP removeHopByHop RT env h target
       (WithContext r (WithUpstreamTarget (Context r) (URL_String target)))
   end) (set_balancer b wd).
Proof.
  intros HN. unfold Handler_ServeHTTP, bind at 1, balancer_Next. rewrite HN.
  destruct res; [by destruct (ReverseProxy_ServeHTTP _ _ _ _ _ _ _) as [[acts wd1] o]|done].
Qed.

(** What net/http's transport guarantees of its answers: it hands over informational
    responses only, and never an informational response as the final answer. *)
Record transport_result_ok (res : UpstreamResult) : Prop := mk_transport_result_ok {
  hints_informational : Forall (fun hint : Hint => informational_code hint.1 = true)
    match res with UpstreamError hints _ | UpstreamAnswer hints _ | UpstreamBroken hints _ => hints end;
  answer_final : match res with
    | UpstreamError _ _ => True
    | UpstreamAnswer _ a | UpstreamBroken _ a => informational_code (ur_StatusCode a) = false
    end
}.

Lemma informational_valid code : informational_code code = true -> valid_code code = true.
Proof.
  unfold informational_code, valid_code. rewrite !andb_true_iff, !Z.leb_le. intros [[H1 H2] _]. split; [done|lia].
Qed.

(** Calls that leave a response unsent. *)
Definition unsending (a : WAct) : Prop :=
  match a with
  | ASet _ _ | AAdd _ _ | AClear => True
  | AWriteHeader code => informational_code code = true
  | AWrite _ _ => False
  end.

Lemma unsent_act a rs : unsending a -> rs_sent rs = None -> rs_sent (response_act rs a) = None.
Proof.
  destruct a as [k v|k v| |code|b n]; cbn; intros Ha Hn; [done..| |done].
  rewrite Hn, (informational_valid _ Ha), Ha. done.
Qed.

Lemma unsent_acts acts : Forall unsending acts -> forall rs, rs_sent rs = None ->
  rs_sent (fold_left response_act acts rs) = None.
Proof. induction 1 as [|a acts Ha _ IH]; intros rs Hn; [done|]. cbn. apply IH. by apply unsent_act. Qed.

Lemma sent_acts acts : forall rs s, rs_sent rs = Some s -> rs_sent (fold_left response_act acts rs) = Some s.
Proof.
  induction acts as [|a acts IH]; intros rs s Hs; [done|]. cbn [fold_left]. apply IH.
  destruct a as [k v|k v| |code|b n]; cbn; rewrite ?Hs; [done..|]. unfold begin_body. by rewrite !Hs.
Qed.

(** The first final status is the status of the response. *)
Lemma final_status_first pre code post :
  Forall unsending pre -> regular (AWriteHeader code) = true ->
  final_status (pre ++ AWriteHeader code :: post) = code.
Proof.
  intros Hp Hi. unfold final_status. rewrite respond_app. cbn [fold_left].
  assert (Hn : rs_sent (respond pre) = None) by (by apply unsent_acts).
  cbn in Hi. apply andb_true_iff in Hi as [Hv Hi%negb_true_iff].
  rewrite (sent_acts post _ (code, rs_header (respond pre))); [done|].
  cbn [response_act]. by rewrite Hn, Hv, Hi.
Qed.

Lemma copyHeader_unsending h : Forall unsending (copyHeader h).
Proof.
  apply Forall_concat, Forall_fmap, Forall_forall. intros kv _. cbn. apply Forall_fmap, Forall_forall. done.
Qed.

Lemma hints_unsending hints : Forall (fun hint : Hint => informational_code hint.1 = true) hints ->
  Forall unsending (concat (Got1xxResponse <$> hints)).
Proof.
  intros H. apply Forall_concat, Forall_fmap. eapply Forall_impl; [exact H|]. intros hint Hh. cbn. unfold Got1xxResponse.
  apply Forall_app. split; [apply copyHeader_unsending|]. by repeat constructor.
Qed.

(** The calls of an answer copied up to its status, and up to the end of its body. *)
Definition head_acts (hints : list Hint) (res : UpstreamResponse) : list WAct :=
  concat (Got1xxResponse <$> hints) ++ copyHeader (removeHopByHop (ur_Header res)) ++ [AWriteHeader (ur_StatusCode res)].

Definition answer_acts (hints : list Hint) (res : UpstreamResponse) : list WAct :=
  head_acts hints res ++ ((fun c => AWrite c.1 c.2) <$> ur_Body res).

Definition invalid_code_msg (code : Z) : string := "invalid WriteHeader code " +:+ itoa code.

Lemma copied_answer hints res (k : M unit) wd :
  (run! forward_hints hints; run! copy_answer removeHopByHop res; k) wd =
  if valid_code (ur_StatusCode res)
  then let '(acts, wd1, o) := k wd in (answer_acts hints res ++ acts, wd1, o)
  else (head_acts hints res, wd, Panic (invalid_code_msg (ur_StatusCode res))).
Proof.
  unfold copy_answer, copy_status, answer_acts, head_acts, bind, forward_hints, emit_all, writeHeader, emit.
  destruct (valid_code _); cbn; [|by rewrite ?app_nil_r].
  destruct (k wd) as [[acts wd1] o]. by rewrite <- !app_assoc.
Qed.

(** The director leaves the request to switch protocols as the client made it. *)
Lemma Director_lookup h target r k : k ∉ ["X-Forwarded-For"; "X-Forwarded-Host"; "X-Forwarded-Proto"; "X-Request-Id"] ->
  req_Header (Director h target r) !! k = req_Header r !! k.
Proof.
  rewrite !not_elem_of_cons. intros (H1 & H2 & H3 & H4 & _).
  unfold Director. cbn [req_Header set_req_header retarget RemoteAddr req_Host Context]. unfold Header_Set.
  change (CanonicalHeaderKey "X-Forwarded-For") with "X-Forwarded-For". change (CanonicalHeaderKey "X-Forwarded-Host") with "X-Forwarded-Host".
  change (CanonicalHeaderKey "X-Forwarded-Proto") with "X-Forwarded-Proto". change (CanonicalHeaderKey "X-Request-ID") with "X-Request-Id".
  destruct (bool_decide (GetRequestID _ <> "")), (bool_decide (Header_Get _ _ <> "")); by rewrite !lookup_insert_ne by congruence.
Qed.

Lemma Director_upgrade h target r : upgradeType (req_Header (Director h target r)) = upgradeType (req_Header r).
Proof.
  unfold upgradeType, Header_Values, Header_Get. change (CanonicalHeaderKey "Connection") with "Connection".
  change (CanonicalHeaderKey "Upgrade") with "Upgrade". by rewrite !Director_lookup by end_header.
Qed.

(** The reverse proxy on each result of its one upstream call. *)
Lemma ReverseProxy_serves RT env h target r wd :
  ascii_print (upgradeType (req_Header r)) = true ->
  let req := outgoing removeHopByHop h target r in
  let wd1 := set_calls (wd_calls wd ++ [req]) wd in
  ReverseProxy_ServeHTTP removeHopByHop RT env h target r wd =
  match RT req with
  | UpstreamError hints err =>
      let '(acts, wd2, o) := ErrorHandler env h target err wd1 in (concat (Got1xxResponse <$> hints) ++ acts, wd2, o)
  | UpstreamAnswer hints res =>
      if valid_code (ur_StatusCode res) then (answer_acts hints res ++ copyHeader (ur_Trailer res), wd1, Ret tt)
      else (head_acts hints res, wd1, Panic (invalid_code_msg (ur_StatusCode res)))
  | UpstreamBroken hints res =>
      if valid_code (ur_StatusCode res) then (answer_acts hints res, wd1, Panic "net/http: abort Handler")
      else (head_acts hints res, wd1, Panic (invalid_code_msg (ur_StatusCode res)))
  end.
Proof.
  intros Hup. cbv zeta. unfold ReverseProxy_ServeHTTP, round_trip, bind at 1. rewrite Director_upgrade, Hup. cbn [negb]. set (req := outgoing _ _ _ _).
  destruct (RT req) as [hints err|hints res|hints res].
  - unfold bind at 1, forward_hints, emit_all. by destruct (ErrorHandler env h target err _) as [[acts wd2] o].
  - rewrite copied_answer. by destruct (valid_code _).
  - rewrite copied_answer. destruct (valid_code _); [|done]. cbn. by rewrite app_nil_r.
Qed.

Lemma ErrorHandler_answer env h target err wd : exists post rec,
  ErrorHandler env h target err wd =
    ([ASet "Content-Type" "application/json"] ++ AWriteHeader 502 :: post, set_logs (wd_logs wd ++ [rec]) wd, Ret tt).
Proof. by eexists _, _. Qed.

Lemma head_status hints res post : Forall (fun hint : Hint => informational_code hint.1 = true) hints ->
  informational_code (ur_StatusCode res) = false -> valid_code (ur_StatusCode res) = true ->
  final_status (head_acts hints res ++ post) = ur_StatusCode res.
Proof.
  intros Hh Hi Hv. unfold head_acts. rewrite <- !app_assoc. rewrite app_assoc. apply final_status_first.
  - apply Forall_app. split; [by apply hints_unsending|apply copyHeader_unsending].
  - cbn. by rewrite Hv, Hi.
Qed.

End Outgoing.

(** ** Examples *)

Section Examples.
#[local] Existing Instance plain_url_lib.

Definition host1 : @URL plain_url_lib := "http://host1:3001".

Definition example_route_config : RouteConfig :=
  mkRouteConfig "/api" [] [mkTargetConfig "http://host1:3001" 1] "round-robin" true (30 * Second) None None.

Definition client_request : Request :=
  mkRequest "GET" "/api/users" "q=1" "" "" "gw.example" ∅ "10.0.0.1:1234" true [(requestIDKey, CtxString "id-1")].

Lemma outgoing_correct_witness :
  let req := outgoing id (NewHandler example_route_config) host1 client_request in
  req_URL_Host req = "host1:3001" /\ URL_Path req = "/users" /\
  Header_Get (req_Header req) "X-Request-ID" = "id-1".
Proof.
  destruct (outgoing_correct id (NewHandler example_route_config) host1 client_request
    eq_refl eq_refl) as (_ & H2 & _ & _ & _ & H6 & _ & H8).
  split; [exact H2|]. split; [exact H6|exact H8].
Defined.

Lemma forwarded_headers_witness :
  let req := outgoing id (NewHandler example_route_config) host1 client_request in
  Header_Get (req_Header req) "X-Forwarded-For" = "10.0.0.1:1234, 10.0.0.1" /\
  Header_Get (req_Header req) "X-Forwarded-Host" = "host1:3001".
Proof.
  exact (forwarded_headers id (NewHandler example_route_config) host1 client_request "10.0.0.1"
    eq_refl eq_refl eq_refl eq_refl).
Defined.

Definition proxy_world : World :=
  mkWorld [] example_metrics (NewInMemoryStore (F64.of_Z 10) 2) (NewBreaker DefaultBreakerConfig true 0)
    (fst (NewFromConfig example_route_config)) [].

(** An upstream that sends early hints and then a short text. *)
Definition hinting_upstream : Request -> UpstreamResult := fun _ =>
  UpstreamAnswer [(103, {["Link" := ["</style.css>"]]})]
    (mkUpstreamResponse 200 {["Content-Type" := ["text/plain"]]} [("hello", 5%nat)] ∅).

End Examples.
