(* ===== verification/Mux.v ===== *)
(** * net/http: ServeMux patterns

    The pattern language of [http.ServeMux] (Go 1.22) as the router uses it:
    parsing of "[METHOD ][HOST]/[PATH]" patterns, the relation of two patterns, and
    registration, which panics on a pattern that does not parse or conflicts
    with one already registered. *)

From S2P Require Import Prelude GoLib.
From Stdlib Require Import Ascii.

(** ** Patterns *)

(** A path segment: a literal, a wildcard for one segment, a wildcard for the
    rest of the path (a trailing slash is one with an empty name), or the end
    of the path after a slash. *)
Inductive segment :=
  | Lit (s : string)
  | Wild (name : string)
  | Multi (name : string)
  | EndSlash.

#[export] Instance segment_eq_dec : EqDecision segment.
Proof. solve_decision. Defined.

Record pattern := mkPattern {
  pat_method : string;
  pat_host : string;
  pat_segments : list segment
}.

(** ** Paths *)

Fixpoint split_slash (s : string) : list string :=
  match s with
  | EmptyString => [""]
  | String c s' =>
      match split_slash s' with
      | seg :: segs => if Ascii.eqb c "/" then "" :: seg :: segs else String c seg :: segs
      | [] => [String c EmptyString]
      end
  end.

(** The lexical cleaning of [path.Clean] on the segments, [acc] in reverse. *)
Fixpoint clean_segments (acc segs : list string) : list string :=
  match segs with
  | [] => rev acc
  | seg :: segs' =>
      if bool_decide (seg = "") || bool_decide (seg = ".") then clean_segments acc segs'
      else if bool_decide (seg = "..") then clean_segments (tail acc) segs'
      else clean_segments (seg :: acc) segs'
  end.

Definition slash_join (segs : list string) : string := foldr (fun seg s => "/" +:+ seg +:+ s) "" segs.

(** [cleanPath] of a path that begins with a slash: a trailing slash is kept. *)
Definition cleanPath (p : string) : string :=
  let np := slash_join (clean_segments [] (split_slash p)) in
  if bool_decide (np = "") then "/"
  else if HasSuffix p "/" then np +:+ "/" else np.

Definition hex_value (c : ascii) : option nat :=
  let n := nat_of_ascii c in
  if ((48 <=? n) && (n <=? 57))%nat then Some (n - 48)%nat
  else if ((97 <=? n) && (n <=? 102))%nat then Some (n - 87)%nat
  else if ((65 <=? n) && (n <=? 70))%nat then Some (n - 55)%nat
  else None.

(** [url.PathUnescape]: [None] for a malformed escape. *)
Fixpoint unescape (s : string) : option string :=
  match s with
  | EmptyString => Some EmptyString
  | String "%" (String a (String b s')) =>
      match hex_value a, hex_value b, unescape s' with
      | Some x, Some y, Some r => Some (String (ascii_of_nat (16 * x + y)) r)
      | _, _, _ => None
      end
  | String "%" _ => None
  | String c s' => String c <$> unescape s'
  end%char.

(** A malformed segment is kept as it is. *)
Definition pathUnescape (s : string) : string := default s (unescape s).

(** ** Parsing *)

(** A method is a token of RFC 9110. *)
Definition is_token_byte (c : ascii) : bool :=
  let n := nat_of_ascii c in
  ((48 <=? n) && (n <=? 57) || (65 <=? n) && (n <=? 90) || (97 <=? n) && (n <=? 122))%nat ||
  bool_decide (IndexByte "!#$%&'*+-.^_`|~" c <> None).

Definition validMethod (m : string) : bool := negb (bool_decide (m = "")) && forall_string is_token_byte m.

Definition is_blank (c : ascii) : bool := Ascii.eqb c " " || (nat_of_ascii c =? 9)%nat.

(** The text before the first space or tab, and the text after it and the
    blanks that follow. *)
Fixpoint cut_blank (s : string) : option (string * string) :=
  match s with
  | EmptyString => None
  | String c s' =>
      if is_blank c then Some ("", s') else
      match cut_blank s' with Some (a, b) => Some (String c a, b) | None => None end
  end.

Fixpoint trim_blanks (s : string) : string :=
  match s with String c s' => if is_blank c then trim_blanks s' else s | EmptyString => s end.

(** [isValidWildcardName]; names that are not ASCII are decided by [unicode_name]. *)
Definition is_name_byte (first : bool) (c : ascii) : bool :=
  let n := nat_of_ascii c in
  ((65 <=? n) && (n <=? 90) || (97 <=? n) && (n <=? 122) || (n =? 95))%nat ||
  (negb first && ((48 <=? n) && (n <=? 57))%nat).

Definition wildcard_name (unicode_name : string -> bool) (s : string) : bool :=
  if forall_string is_ascii_byte s then
    match s with
    | EmptyString => false
    | String c s' => is_name_byte true c && forall_string (is_name_byte false) s'
    end
  else unicode_name s.

Section Parse.
Variable unicode_name : string -> bool.

(** The wildcard between braces; [last] tells whether it ends the pattern. *)
Definition parse_wildcard (seg : string) (last : bool) (seen : list string) : result segment :=
  if negb (HasPrefix seg "{") then Err (Errorf "bad wildcard segment (must start with '{')")
  else if negb (HasSuffix seg "}") then Err (Errorf "bad wildcard segment (must end with '}')")
  else
    let name := string_take (String.length seg - 2) (string_drop 1 seg) in
    if bool_decide (name = "$") then
      if last then Ok EndSlash else Err (Errorf "{$} not at end")
    else
      let multi := HasSuffix name "..." in
      let name := if multi then string_take (String.length name - 3) name else name in
      if multi && negb last then Err (Errorf "{...} wildcard not at end")
      else if bool_decide (name = "") then Err (Errorf "empty wildcard")
      else if negb (wildcard_name unicode_name name) then Err (Errorf "bad wildcard name")
      else if bool_decide (name ∈ seen) then Err (Errorf "duplicate wildcard name")
      else Ok (if multi then Multi name else Wild name).

Definition segment_names (s : segment) : list string :=
  match s with Wild n | Multi n => [n] | _ => [] end.

(** The segments after the first slash. *)
Fixpoint parse_segments (segs : list string) (seen : list string) : result (list segment) :=
  match segs with
  | [] => Ok []
  | [seg] =>
      if bool_decide (seg = "") then Ok [Multi ""]
      else match IndexByte seg "{"%char with
      | None => Ok [Lit (pathUnescape seg)]
      | Some _ => match parse_wildcard seg true seen with Ok s => Ok [s] | Err e => Err e end
      end
  | seg :: segs' =>
      match IndexByte seg "{"%char with
      | None => match parse_segments segs' seen with Ok ss => Ok (Lit (pathUnescape seg) :: ss) | Err e => Err e end
      | Some _ =>
          match parse_wildcard seg false seen with
          | Err e => Err e
          | Ok s => match parse_segments segs' (segment_names s ++ seen) with Ok ss => Ok (s :: ss) | Err e => Err e end
          end
      end
  end.

Definition parsePattern (s : string) : result pattern :=
  if bool_decide (s = "") then Err (Errorf "empty pattern") else
  let '(method, rest) :=
    match cut_blank s with Some (m, r) => (m, trim_blanks r) | None => ("", s) end in
  if negb (bool_decide (method = "")) && negb (validMethod method) then Err (Errorf ("invalid method " +:+ method))
  else
    match IndexByte rest "/"%char with
    | None => Err (Errorf "host/path missing /")
    | Some i =>
        let host := string_take i rest in
        let path := string_drop i rest in
        if bool_decide (IndexByte host "{"%char <> None) then
          Err (Errorf "host contains '{' (missing initial '/'?)")
        else if negb (bool_decide (method = "")) && negb (bool_decide (method = "CONNECT")) &&
                negb (bool_decide (path = cleanPath path)) then
          Err (Errorf "non-CONNECT pattern with unclean path can never match")
        else
          match parse_segments (tail (split_slash path)) [] with
          | Ok segs => Ok (mkPattern method host segs)
          | Err e => Err e
          end
    end.
End Parse.

(** ** The relation of two patterns *)

Inductive relationship := equivalent | moreGeneral | moreSpecific | disjoint | overlaps.

#[export] Instance relationship_eq_dec : EqDecision relationship.
Proof. solve_decision. Defined.

Definition combineRelationships (r1 r2 : relationship) : relationship :=
  match r1 with
  | equivalent => r2
  | disjoint => disjoint
  | overlaps => match r2 with disjoint => disjoint | _ => overlaps end
  | moreGeneral => match r2 with equivalent => moreGeneral | moreSpecific => overlaps | _ => r2 end
  | moreSpecific => match r2 with equivalent => moreSpecific | moreGeneral => overlaps | _ => r2 end
  end.

Definition compareMethods (m1 m2 : string) : relationship :=
  if bool_decide (m1 = m2) then equivalent
  else if bool_decide (m1 = "") then moreGeneral
  else if bool_decide (m2 = "") then moreSpecific
  else if bool_decide (m1 = "GET") && bool_decide (m2 = "HEAD") then moreGeneral
  else if bool_decide (m2 = "GET") && bool_decide (m1 = "HEAD") then moreSpecific
  else disjoint.

Definition compareSegments (s1 s2 : segment) : relationship :=
  match s1, s2 with
  | Multi _, Multi _ => equivalent
  | Multi _, _ => moreGeneral
  | _, Multi _ => moreSpecific
  | Wild _, Wild _ => equivalent
  | Wild _, EndSlash => disjoint
  | Wild _, Lit _ => moreGeneral
  | EndSlash, Wild _ => disjoint
  | Lit _, Wild _ => moreSpecific
  | Lit a, Lit b => if bool_decide (a = b) then equivalent else disjoint
  | EndSlash, EndSlash => equivalent
  | _, _ => disjoint
  end.

Definition ends_multi (segs : list segment) : bool :=
  match last segs with Some (Multi _) => true | _ => false end.

(** The loop over corresponding segments, [rel] so far. *)
Fixpoint compare_loop (rel : relationship) (multi1 multi2 : bool) (s1 s2 : list segment) : relationship :=
  match s1, s2 with
  | [], [] => rel
  | [], _ => if multi1 then combineRelationships rel moreGeneral else disjoint
  | _, [] => if multi2 then combineRelationships rel moreSpecific else disjoint
  | a :: s1', b :: s2' =>
      let rel' := combineRelationships rel (compareSegments a b) in
      if bool_decide (rel' = disjoint) then disjoint else compare_loop rel' multi1 multi2 s1' s2'
  end.

Definition comparePaths (s1 s2 : list segment) : relationship :=
  if negb (length s1 =? length s2)%nat && negb (ends_multi s1) && negb (ends_multi s2) then disjoint
  else compare_loop equivalent (ends_multi s1) (ends_multi s2) s1 s2.

Definition comparePathsAndMethods (p1 p2 : pattern) : relationship :=
  let mrel := compareMethods (pat_method p1) (pat_method p2) in
  if bool_decide (mrel = disjoint) then disjoint
  else combineRelationships mrel (comparePaths (pat_segments p1) (pat_segments p2)).

Definition conflictsWith (p1 p2 : pattern) : bool :=
  bool_decide (pat_host p1 = pat_host p2) &&
  match comparePathsAndMethods p1 p2 with equivalent | overlaps => true | _ => false end.

(** ** Registration *)

Section Register.
Context {H : Type} (unicode_name : string -> bool).

Definition ServeMux : Type := list (pattern * H).

(** [mux.Handle] *)
Definition mux_Handle (patstr : string) (handler : H) (mux : ServeMux) : outcome ServeMux :=
  match parsePattern unicode_name patstr with
  | Err e => Panic ("parsing " +:+ patstr +:+ ": " +:+ error_Error e)
  | Ok pat =>
      if existsb (fun e => conflictsWith pat (fst e)) mux
      then Panic ("pattern " +:+ patstr +:+ " conflicts with another pattern")
      else Ret (mux ++ [(pat, handler)])
  end.

Fixpoint mux_Handle_all (regs : list (string * H)) (mux : ServeMux) : outcome ServeMux :=
  match regs with
  | [] => Ret mux
  | (p, h) :: regs' => do! mux' <- mux_Handle p h mux; mux_Handle_all regs' mux'
  end.
End Register.
