(* ===== verification/Patterns.v ===== *)
(** * Patterns of plain paths

    What the mux makes of the patterns of plain routes: how a method and a plain
    path parse, and exactly when two such patterns conflict.  A plain path has
    nonempty segments without wildcards, escapes or blanks. *)

From S2P Require Import Prelude GoLib Mux.
From Stdlib Require Import Ascii.

(** ** Plain paths *)

(** A byte a plain segment may have: no slash, brace, percent sign or blank. *)
Definition plain_byte (c : ascii) : bool :=
  negb (Ascii.eqb c "/") && negb (Ascii.eqb c "{") && negb (Ascii.eqb c "%") && negb (is_blank c).

Definition plain_segment (s : string) : bool :=
  negb (bool_decide (s = "")) && negb (bool_decide (s = ".")) && negb (bool_decide (s = "..")) &&
  forall_string plain_byte s.

Lemma split_slash_cons s : exists seg segs, split_slash s = seg :: segs.
Proof.
  destruct s as [|c s]; cbn; [by eexists _, _|].
  destruct (split_slash s); [by eexists _, _|]. destruct (Ascii.eqb c "/"); by eexists _, _.
Qed.

(** A slash splits. *)
Lemma split_slash_slash s : split_slash ("/" +:+ s) = "" :: split_slash s.
Proof.
  change (split_slash ("/" +:+ s)) with (split_slash (String "/" s)). cbn.
  by destruct (split_slash_cons s) as (seg & segs & ->).
Qed.

(** Plain bytes stay together. *)
Lemma split_slash_plain a s seg segs : forall_string plain_byte a = true -> split_slash s = seg :: segs ->
  split_slash (a +:+ s) = (a +:+ seg) :: segs.
Proof.
  intros Ha Hs. induction a as [|c a IH]; [exact Hs|]. cbn in Ha. apply andb_true_iff in Ha as [Hc Ha].
  change (split_slash (String c a +:+ s)) with (split_slash (String c (a +:+ s))). cbn. rewrite (IH Ha).
  unfold plain_byte in Hc. destruct (Ascii.eqb c "/"); [done|]. done.
Qed.

Lemma plain_segment_bytes s : plain_segment s = true -> forall_string plain_byte s = true.
Proof. unfold plain_segment. rewrite !andb_true_iff. tauto. Qed.

(** The segments of a plain path, followed by what is not part of it. *)
Lemma split_slash_join segs tail_s rest : Forall (fun s => plain_segment s = true) segs ->
  split_slash tail_s = "" :: rest -> split_slash (slash_join segs +:+ tail_s) = "" :: segs ++ rest.
Proof.
  induction 1 as [|s segs Hs Hsegs IH]; intros Ht; [exact Ht|].
  change (slash_join (s :: segs)) with ("/" +:+ s +:+ slash_join segs).
  rewrite !string_app_assoc, split_slash_slash. f_equal. cbn [app].
  rewrite (split_slash_plain s _ "" (segs ++ rest)); [by rewrite string_app_nil_r|by apply plain_segment_bytes|].
  by apply IH.
Qed.

Lemma cut_blank_plain a : forall_string (fun c => negb (is_blank c)) a = true -> cut_blank a = None.
Proof.
  induction a as [|c a IH]; [done|]. cbn. rewrite andb_true_iff. intros [Hc Ha].
  rewrite negb_true_iff in Hc. by rewrite Hc, IH.
Qed.

Lemma forall_string_app p a b : forall_string p (a +:+ b) = forall_string p a && forall_string p b.
Proof.
  induction a as [|c a IH]; [done|].
  change (forall_string p (String c a +:+ b)) with (p c && forall_string p (a +:+ b)). rewrite IH. cbn.
  apply andb_assoc.
Qed.

Lemma forall_string_impl p q s : (forall c, p c = true -> q c = true) -> forall_string p s = true -> forall_string q s = true.
Proof.
  intros Hpq. induction s as [|c s IH]; [done|]. cbn. rewrite !andb_true_iff. intros [H1 H2]. auto.
Qed.

Lemma slash_join_no_blank segs : Forall (fun s => plain_segment s = true) segs ->
  forall_string (fun c => negb (is_blank c)) (slash_join segs) = true.
Proof.
  induction 1 as [|s segs Hs _ IH]; [done|].
  change (slash_join (s :: segs)) with ("/" +:+ s +:+ slash_join segs).
  rewrite !forall_string_app, IH. apply andb_true_iff. split; [done|]. rewrite andb_true_r.
  apply plain_segment_bytes in Hs. eapply forall_string_impl; [|exact Hs].
  unfold plain_byte. intros c. rewrite !andb_true_iff. tauto.
Qed.

Lemma IndexByte_absent c s : forall_string (fun x => negb (Ascii.eqb x c)) s = true -> IndexByte s c = None.
Proof.
  induction s as [|x s IH]; [done|]. cbn. rewrite andb_true_iff, negb_true_iff. intros [-> H]. by rewrite IH.
Qed.

Lemma unescape_plain s : forall_string plain_byte s = true -> unescape s = Some s.
Proof.
  induction s as [|c s IH]; [done|]. cbn [forall_string]. rewrite andb_true_iff. intros [Hc Hs].
  specialize (IH Hs). unfold plain_byte in Hc.
  destruct c as [[] [] [] [] [] [] [] []]; try (cbn in *; by rewrite IH); done.
Qed.

(** ** Trailing slashes *)

Lemma rev_app_eq a : forall b, String.rev_app a b = String.rev a +:+ b.
Proof.
  unfold String.rev. induction a as [|c a IH]; intros b; [done|]. cbn. rewrite (IH (String c b)), (IH (String c "")).
  by rewrite string_app_assoc.
Qed.

Lemma prefix_slash c r : String.prefix "/" (String c r) = Ascii.eqb c "/".
Proof. destruct c as [[] [] [] [] [] [] [] []]; try reflexivity; by destruct r. Qed.

(** The last byte decides. *)
Lemma HasSuffix_slash_cons c s :
  HasSuffix (String c s) "/" = if bool_decide (s = "") then Ascii.eqb c "/" else HasSuffix s "/".
Proof.
  unfold HasSuffix. change (String.rev "/") with "/". change (String.rev (String c s)) with (String.rev_app s (String c "")).
  rewrite rev_app_eq. case_bool_decide as Hs; [subst; apply prefix_slash|].
  assert (Hr : String.rev s <> "").
  { destruct s as [|a s]; [done|]. change (String.rev (String a s)) with (String.rev_app s (String a "")).
    rewrite rev_app_eq. by destruct (String.rev s). }
  destruct (String.rev s) as [|a r]; [done|].
  change (String a r +:+ String c "") with (String a (r +:+ String c "")). by rewrite !prefix_slash.
Qed.

Lemma HasSuffix_slash_app a b : b <> "" -> HasSuffix (a +:+ b) "/" = HasSuffix b "/".
Proof.
  intros Hb. induction a as [|c a IH]; [done|].
  change (String c a +:+ b) with (String c (a +:+ b)). rewrite HasSuffix_slash_cons, bool_decide_eq_false_2; [exact IH|].
  destruct a; [exact Hb|done].
Qed.

Lemma HasSuffix_plain s : forall_string plain_byte s = true -> HasSuffix s "/" = false.
Proof.
  induction s as [|c s IH]; [done|]. cbn [forall_string]. rewrite andb_true_iff. intros [Hc Hs].
  rewrite HasSuffix_slash_cons. case_bool_decide; [|by apply IH]. unfold plain_byte in Hc. by destruct (Ascii.eqb c "/").
Qed.

Lemma HasSuffix_join segs : segs <> [] -> Forall (fun s => plain_segment s = true) segs ->
  HasSuffix (slash_join segs) "/" = false.
Proof.
  intros Hne H. induction H as [|s segs Hs Hsegs IH]; [done|].
  change (slash_join (s :: segs)) with ("/" +:+ s +:+ slash_join segs).
  pose proof (plain_segment_bytes s Hs) as Hb.
  assert (Hs0 : s <> "") by (intros ->; done).
  destruct segs as [|s2 segs].
  - rewrite string_app_nil_r, HasSuffix_slash_app by done. by apply HasSuffix_plain.
  - rewrite <- string_app_assoc, HasSuffix_slash_app by done. by apply IH.
Qed.

(** ** Patterns of plain paths *)

Definition lit_path (segs : list string) (subtree : bool) : list segment :=
  (Lit <$> segs) ++ (if subtree then [Multi ""] else []).

Lemma parse_plain_segments un segs (subtree : bool) seen : segs <> [] -> Forall (fun s => plain_segment s = true) segs ->
  parse_segments un (segs ++ (if subtree then [""] else [])) seen = Ok (lit_path segs subtree).
Proof.
  intros Hne H. unfold lit_path. revert Hne. induction H as [|s segs Hs Hsegs IH]; intros Hne; [done|].
  assert (Hb : IndexByte s "{" = None).
  { apply IndexByte_absent. eapply forall_string_impl; [|by apply plain_segment_bytes].
    unfold plain_byte. intros c. rewrite !andb_true_iff. tauto. }
  assert (Hu : pathUnescape s = s).
  { unfold pathUnescape. by rewrite (unescape_plain _ (plain_segment_bytes _ Hs)). }
  assert (Hse : bool_decide (s = "") = false).
  { unfold plain_segment in Hs. by destruct (bool_decide (s = "")). }
  destruct segs as [|s2 segs].
  - destruct subtree; cbn; rewrite ?Hse, Hb, Hu; done.
  - specialize (IH ltac:(done)).
    change (parse_segments un ((s :: s2 :: segs) ++ (if subtree then [""] else [])) seen) with
      (match IndexByte s "{"%char with
       | None => match parse_segments un ((s2 :: segs) ++ (if subtree then [""] else [])) seen with
                 | Ok ss => Ok (Lit (pathUnescape s) :: ss) | Err e => Err e end
       | Some _ => match parse_wildcard un s false seen with
                   | Err e => Err e
                   | Ok s0 => match parse_segments un ((s2 :: segs) ++ (if subtree then [""] else [])) (segment_names s0 ++ seen) with
                              | Ok ss => Ok (s0 :: ss) | Err e => Err e end end
       end).
    rewrite Hb, IH, Hu. done.
Qed.

(** ** Keys: a method, a plain path and whether everything below it belongs to it *)

Record plain_key := mkKey {
  key_method : string;
  key_segs : list string;
  key_subtree : bool
}.

#[export] Instance plain_key_eq_dec : EqDecision plain_key.
Proof. solve_decision. Defined.

Definition key_pattern (k : plain_key) : pattern :=
  mkPattern (key_method k) "" (lit_path (key_segs k) (key_subtree k)).

Lemma lit_path_inj A a : forall B b, lit_path A a = lit_path B b -> A = B /\ a = b.
Proof.
  unfold lit_path. induction A as [|x A IH]; intros [|y B] b; rewrite ?fmap_cons; cbn.
  - destruct a, b; done.
  - by destruct a.
  - by destruct b.
  - intros [= -> [-> ->]%IH]. done.
Qed.

#[export] Instance key_pattern_inj : Inj (=) (=) key_pattern.
Proof. intros [m1 A a] [m2 B b] E. unfold key_pattern in E. by injection E as -> [-> ->]%lit_path_inj. Qed.

Lemma ends_multi_lit segs b : ends_multi (lit_path segs b) = b.
Proof.
  unfold ends_multi, lit_path. destruct b; [by rewrite last_snoc|]. rewrite app_nil_r, fmap_last.
  by destruct (last segs).
Qed.

(** ** Conflicts *)

(** A method that covers another: none, or GET, which also serves HEAD. *)
Definition method_above (m1 m2 : string) : bool :=
  negb (bool_decide (m1 = m2)) && (bool_decide (m1 = "") || bool_decide (m1 = "GET") && bool_decide (m2 = "HEAD")).

(** A path strictly below that of a key with everything below it. *)
Definition path_above (k1 k2 : plain_key) : bool :=
  key_subtree k1 && bool_decide (key_segs k1 `prefix_of` key_segs k2) && negb (bool_decide (key_segs k1 = key_segs k2)).

(** Two keys conflict when they are the same, or when one has the more general
    method and the other the more general path. *)
Definition keys_conflict (k1 k2 : plain_key) : bool :=
  bool_decide (k1 = k2) ||
  method_above (key_method k1) (key_method k2) && path_above k2 k1 ||
  method_above (key_method k2) (key_method k1) && path_above k1 k2.

Lemma compareMethods_above m1 m2 :
  compareMethods m1 m2 = if bool_decide (m1 = m2) then equivalent
    else if method_above m1 m2 then moreGeneral else if method_above m2 m1 then moreSpecific else disjoint.
Proof.
  unfold compareMethods, method_above. destruct (decide (m1 = m2)) as [->|Hne].
  { by rewrite !bool_decide_eq_true_2. }
  rewrite (bool_decide_eq_false_2 (m1 = m2)), (bool_decide_eq_false_2 (m2 = m1)) by congruence. cbn [negb andb].
  repeat case_bool_decide; subst; done.
Qed.

(** The relation of two plain paths. *)
Definition path_relation (k1 k2 : plain_key) : relationship :=
  if bool_decide (key_segs k1 = key_segs k2) && bool_decide (key_subtree k1 = key_subtree k2) then equivalent
  else if path_above k1 k2 then moreGeneral else if path_above k2 k1 then moreSpecific else disjoint.

Lemma compare_loop_lit A a : forall B b,
  compare_loop equivalent a b (lit_path A a) (lit_path B b) = path_relation (mkKey "" A a) (mkKey "" B b).
Proof.
  unfold path_relation, path_above. cbn [key_segs key_subtree]. unfold lit_path.
  assert (HN : forall x (l : list string), bool_decide (x :: l = []) = false) by (intros; by apply bool_decide_eq_false_2).
  assert (HN' : forall x (l : list string), bool_decide ([] = x :: l) = false) by (intros; by apply bool_decide_eq_false_2).
  assert (HP : forall x (l : list string), bool_decide ((x :: l) `prefix_of` []) = false)
    by (intros; apply bool_decide_eq_false_2; by intros [? ?]).
  assert (HP' : forall l : list string, bool_decide ([] `prefix_of` l) = true)
    by (intros; apply bool_decide_eq_true_2; by eexists).
  induction A as [|x A IH]; intros [|y B] b.
  - destruct a, b; reflexivity.
  - rewrite HN, HN', HP, HP'. destruct a, b; cbn; try done; by destruct B.
  - rewrite HN, HN', HP, HP'. destruct a, b; cbn; try done; by destruct A.
  - rewrite !fmap_cons. cbn [app compare_loop compareSegments combineRelationships].
    destruct (decide (x = y)) as [<-|Hxy].
    + rewrite (bool_decide_eq_true_2 (x = x)), (bool_decide_eq_false_2 (equivalent = disjoint)) by done. rewrite IH.
      assert (HE : forall l1 l2, bool_decide (x :: l1 = x :: l2) = bool_decide (l1 = l2))
        by (intros; apply bool_decide_ext; naive_solver).
      assert (HQ : forall l1 l2, bool_decide ((x :: l1) `prefix_of` (x :: l2)) = bool_decide (l1 `prefix_of` l2)).
      { intros l1 l2. apply bool_decide_ext. split; [apply prefix_cons_inv_2|apply prefix_cons]. }
      by rewrite !HE, !HQ.
    + rewrite (bool_decide_eq_false_2 (x = y)) by done.
      assert (HQ : forall (u v : string) (l1 l2 : list string), u <> v -> bool_decide ((u :: l1) `prefix_of` (v :: l2)) = false).
      { intros u v l1 l2 Huv. apply bool_decide_eq_false_2. by intros ?%prefix_cons_inv_1. }
      rewrite !HQ by congruence. rewrite (bool_decide_eq_false_2 (x :: A = y :: B)) by congruence.
      by rewrite !andb_false_r.
Qed.

Lemma comparePaths_lit k1 k2 :
  comparePaths (lit_path (key_segs k1) (key_subtree k1)) (lit_path (key_segs k2) (key_subtree k2)) = path_relation k1 k2.
Proof.
  destruct k1 as [m1 A a], k2 as [m2 B b]. unfold comparePaths. rewrite !ends_multi_lit, compare_loop_lit. cbn [key_segs key_subtree].
  change (path_relation (mkKey "" A a) (mkKey "" B b)) with (path_relation (mkKey m1 A a) (mkKey m2 B b)).
  destruct (_ && negb a && negb b) eqn:E; [|done]. rewrite !andb_true_iff, !negb_true_iff in E. destruct E as [[Hl ->] ->].
  unfold path_relation, path_above. cbn [key_segs key_subtree andb]. rewrite bool_decide_eq_false_2; [done|].
  intros ->. by rewrite Nat.eqb_refl in Hl.
Qed.

(** The mux refuses a key exactly when it conflicts. *)
Lemma conflictsWith_keys k1 k2 : conflictsWith (key_pattern k1) (key_pattern k2) = keys_conflict k1 k2.
Proof.
  unfold conflictsWith, comparePathsAndMethods, key_pattern. cbn [pat_method pat_host pat_segments].
  rewrite comparePaths_lit, compareMethods_above. rewrite (bool_decide_eq_true_2 ("" = "")) by done. cbn [andb].
  unfold keys_conflict, path_relation.
  assert (Hk : bool_decide (k1 = k2) = bool_decide (key_method k1 = key_method k2) &&
    (bool_decide (key_segs k1 = key_segs k2) && bool_decide (key_subtree k1 = key_subtree k2))).
  { apply eq_bool_prop_intro. rewrite !Is_true_true, !andb_true_iff, !bool_decide_eq_true.
    destruct k1 as [m1 A a], k2 as [m2 B b]; cbn. naive_solver congruence. }
  rewrite Hk. destruct (decide (key_method k1 = key_method k2)) as [Hm|Hm].
  { unfold method_above. rewrite Hm, !(bool_decide_eq_true_2 (key_method k2 = key_method k2)) by done.
    rewrite (bool_decide_eq_false_2 (equivalent = disjoint)) by done. cbn [negb andb orb combineRelationships].
    destruct (bool_decide (key_segs k1 = _) && _); [done|]. destruct (path_above k1 k2); [done|]. by destruct (path_above k2 k1). }
  rewrite (bool_decide_eq_false_2 (key_method k1 = key_method k2)) by done. cbn [andb orb].
  assert (HA : method_above (key_method k1) (key_method k2) = true -> method_above (key_method k2) (key_method k1) = false).
  { unfold method_above. repeat case_bool_decide; subst; cbn; congruence. }
  destruct (method_above (key_method k1) (key_method k2)); [rewrite HA by done|].
  all: destruct (method_above (key_method k2) (key_method k1)); try done.
  all: cbn; destruct (_ && bool_decide (key_subtree k1 = _)) eqn:E; cbn.
  all: try (apply andb_true_iff in E as [E1 E2]; unfold path_above; apply bool_decide_eq_true in E1; rewrite E1;
    rewrite !(bool_decide_eq_true_2 (key_segs k2 = key_segs k2)), !andb_false_r by done; done).
  all: destruct (path_above k1 k2) eqn:E1, (path_above k2 k1) eqn:E2; try done.
  all: exfalso; unfold path_above in E1, E2; rewrite !andb_true_iff, !negb_true_iff, !bool_decide_eq_true, !bool_decide_eq_false in E1, E2;
    destruct E1 as [[_ P1] N1], E2 as [[_ P2] _]; apply N1; by apply (anti_symm prefix).
Qed.

Lemma keys_conflict_sym k1 k2 : keys_conflict k1 k2 = keys_conflict k2 k1.
Proof.
  unfold keys_conflict. rewrite (bool_decide_ext (k1 = k2) (k2 = k1)) by (split; congruence).
  destruct (bool_decide _); [done|]. cbn. apply orb_comm.
Qed.

(** ** Parsing *)

Lemma slash_join_head segs : segs <> [] -> exists rest, slash_join segs = "/" +:+ rest.
Proof. destruct segs as [|s segs]; [done|]. intros _. by exists (s +:+ slash_join segs). Qed.

Lemma clean_plain acc segs : Forall (fun s => plain_segment s = true) segs ->
  clean_segments acc segs = rev acc ++ segs.
Proof.
  intros H. revert acc. induction H as [|s segs Hs _ IH]; intros acc; cbn; [by rewrite app_nil_r|].
  unfold plain_segment in Hs. destruct (bool_decide (s = "")), (bool_decide (s = ".")), (bool_decide (s = "..")); try done.
  cbn. rewrite IH. cbn. by rewrite <- app_assoc.
Qed.

Lemma cleanPath_plain segs : segs <> [] -> Forall (fun s => plain_segment s = true) segs ->
  cleanPath (slash_join segs) = slash_join segs.
Proof.
  intros Hne Hp. unfold cleanPath. rewrite (HasSuffix_join segs Hne Hp).
  assert (split_slash (slash_join segs) = "" :: segs) as ->.
  { rewrite <- (string_app_nil_r (slash_join segs)). by rewrite (split_slash_join segs "" [] Hp eq_refl), app_nil_r. }
  cbn [clean_segments]. rewrite (bool_decide_eq_true_2 ("" = "")) by done. cbn [orb]. rewrite clean_plain by done.
  cbn [rev app]. destruct (slash_join_head segs Hne) as [rest ->]. by rewrite bool_decide_eq_false_2.
Qed.

(** A path with or without a slash at the end. *)
Definition request_path (xs : list string) (slash : bool) : string := slash_join xs +:+ (if slash then "/" else "").

(** Its segments: the slash at the end is one of its own. *)
Definition request_segments (xs : list string) (slash : bool) : list string := xs ++ (if slash then [""] else []).

Abbreviation all_plain := (Forall (fun s => plain_segment s = true)).

Lemma HasSuffix_request xs slash : xs <> [] -> all_plain xs -> HasSuffix (request_path xs slash) "/" = slash.
Proof.
  intros Hne Hxs. unfold request_path. destruct slash; [by rewrite HasSuffix_slash_app|].
  rewrite string_app_nil_r. by apply HasSuffix_join.
Qed.

Lemma split_request xs slash : all_plain xs -> xs <> [] -> split_slash (request_path xs slash) = "" :: request_segments xs slash.
Proof. intros Hxs Hne. apply split_slash_join; [done|]. by destruct slash. Qed.

Lemma cleanPath_request xs slash : xs <> [] -> all_plain xs -> cleanPath (request_path xs slash) = request_path xs slash.
Proof.
  intros Hne Hxs. unfold request_path. destruct slash; [|rewrite string_app_nil_r; by apply cleanPath_plain].
  unfold cleanPath. rewrite HasSuffix_slash_app by done. rewrite (split_slash_join xs "/" [""] Hxs eq_refl).
  assert (HC : clean_segments [] ("" :: xs ++ [""]) = xs).
  { cbn [clean_segments]. rewrite (bool_decide_eq_true_2 ("" = "")) by done. cbn [orb].
    assert (HG : forall acc, clean_segments acc (xs ++ [""]) = rev acc ++ xs).
    { clear Hne. induction Hxs as [|s segs Hs _ IH]; intros acc; cbn; [by rewrite app_nil_r|].
      unfold plain_segment in Hs. destruct (bool_decide (s = "")), (bool_decide (s = ".")), (bool_decide (s = "..")); try done.
      cbn. rewrite IH. cbn. by rewrite <- app_assoc. }
    by rewrite HG. }
  rewrite HC. destruct (slash_join_head xs Hne) as [rest ->]. by rewrite bool_decide_eq_false_2.
Qed.

Lemma request_path_head xs slash : xs <> [] -> exists rest, request_path xs slash = String "/" rest.
Proof.
  intros Hne. unfold request_path. destruct (slash_join_head xs Hne) as [rest ->]. rewrite string_app_assoc. by eexists.
Qed.

Lemma parse_plain_path un segs (subtree : bool) : segs <> [] -> all_plain segs ->
  parsePattern un (request_path segs subtree) = Ok (key_pattern (mkKey "" segs subtree)).
Proof.
  intros Hne Hp. set (p := request_path segs subtree).
  destruct (request_path_head segs subtree Hne) as [rest Hhead]. fold p in Hhead.
  assert (Hblank : cut_blank p = None).
  { apply cut_blank_plain. unfold p, request_path. rewrite forall_string_app, slash_join_no_blank by done. by destruct subtree. }
  unfold parsePattern. rewrite bool_decide_eq_false_2 by (by rewrite Hhead).
  rewrite Hblank. cbv iota beta. rewrite (bool_decide_eq_true_2 ("" = "")) by done. cbn [negb andb].
  assert (IndexByte p "/"%char = Some O) as -> by (by rewrite Hhead).
  change (string_take 0 p) with "". change (string_drop 0 p) with p.
  rewrite (bool_decide_eq_false_2 (IndexByte "" _ <> None)) by (intros Hc; by apply Hc).
  unfold p. rewrite split_request by done. cbn [tail]. unfold request_segments. by rewrite parse_plain_segments.
Qed.

(** A method that can stand in a pattern: none, or a token. *)
Definition method_ok (m : string) : Prop := m = "" \/ validMethod m = true.

Lemma cut_blank_method m rest : forall_string is_token_byte m = true ->
  cut_blank (m +:+ " " +:+ rest) = Some (m, rest).
Proof.
  induction m as [|c m IH]; [done|]. cbn [forall_string]. rewrite andb_true_iff. intros [Hc Hm].
  change (String c m +:+ " " +:+ rest) with (String c (m +:+ " " +:+ rest)). cbn [cut_blank]. rewrite (IH Hm).
  assert (is_blank c = false) as ->; [|done].
  destruct c as [[] [] [] [] [] [] [] []]; try reflexivity; vm_compute in Hc; discriminate.
Qed.

(** A method and a plain path. *)
Lemma parse_plain_method un m segs (subtree : bool) : method_ok m -> segs <> [] -> all_plain segs ->
  parsePattern un (m +:+ " " +:+ request_path segs subtree) = Ok (key_pattern (mkKey m segs subtree)).
Proof.
  intros Hm Hne Hp. set (p := request_path segs subtree).
  destruct (request_path_head segs subtree Hne) as [rest Hhead]. fold p in Hhead.
  unfold parsePattern. rewrite bool_decide_eq_false_2 by (by destruct m).
  assert (Ht : forall_string is_token_byte m = true).
  { destruct Hm as [->|Hv]; [done|]. unfold validMethod in Hv. by apply andb_true_iff in Hv as [_ ?]. }
  rewrite cut_blank_method by done. assert (trim_blanks p = p) as -> by (by rewrite Hhead).
  cbv iota beta. assert (negb (bool_decide (m = "")) && negb (validMethod m) = false) as ->.
  { destruct Hm as [->|Hv]; [done|]. rewrite Hv. by rewrite andb_false_r. }
  assert (IndexByte p "/"%char = Some O) as -> by (by rewrite Hhead).
  change (string_take 0 p) with "". change (string_drop 0 p) with p.
  rewrite (bool_decide_eq_false_2 (IndexByte "" _ <> None)) by (intros Hc; by apply Hc).
  rewrite (bool_decide_eq_true_2 (p = cleanPath p)) by (symmetry; by apply cleanPath_request).
  cbn [negb]. rewrite andb_false_r. unfold p. rewrite split_request by done. cbn [tail]. unfold request_segments. by rewrite parse_plain_segments.
Qed.
