(* ===== verification/ClientKey.v ===== *)
(** * internal/ratelimit/limiter.go: the key of a client behind proxies

    What the key extractor makes of an [X-Forwarded-For] header: the loops that trim white space
    end, and they remove all of it. *)

From S2P Require Import Prelude GoLib TokenBucket Http Middleware Mux Patterns.
From Stdlib Require Import Ascii.

(** ** Reversal *)

Lemma string_rev_app a b : String.rev (a +:+ b) = String.rev b +:+ String.rev a.
Proof.
  induction a as [|c a IH]; [by rewrite string_app_nil_r|].
  change (String.rev (String c a +:+ b)) with (String.rev_app (a +:+ b) (String c "")).
  change (String.rev (String c a)) with (String.rev_app a (String c "")).
  by rewrite !rev_app_eq, IH, string_app_assoc.
Qed.

Lemma string_rev_rev a : String.rev (String.rev a) = a.
Proof.
  induction a as [|c a IH]; [done|]. change (String.rev (String c a)) with (String.rev_app a (String c "")).
  by rewrite rev_app_eq, string_rev_app, IH.
Qed.

Lemma string_length_rev a : String.length (String.rev a) = String.length a.
Proof.
  induction a as [|c a IH]; [done|]. change (String.rev (String c a)) with (String.rev_app a (String c "")).
  rewrite rev_app_eq, string_length_app, IH. cbn. lia.
Qed.

(** ** Trimming *)

(** A text made of words of a list. *)
Definition made_of (cut : list string) (s : string) : Prop :=
  exists ws, Forall (fun w => w ∈ cut) ws /\ s = foldr String.append "" ws.

Lemma made_of_nil cut : made_of cut "".
Proof. by exists []. Qed.

Lemma made_of_app cut a b : made_of cut a -> made_of cut b -> made_of cut (a +:+ b).
Proof.
  intros (wa & Ha & ->) (wb & Hb & ->). exists (wa ++ wb). split; [by apply Forall_app|].
  rewrite foldr_app. induction wa as [|w wa IH]; [done|]. cbn [foldr]. apply Forall_cons in Ha as [_ Ha].
  by rewrite <- IH, string_app_assoc.
Qed.

Lemma made_of_word cut w : w ∈ cut -> made_of cut w.
Proof. intros Hw. exists [w]. split; [by constructor|]. cbn. by rewrite string_app_nil_r. Qed.

Lemma made_of_rev cut s : made_of (String.rev <$> cut) s -> made_of cut (String.rev s).
Proof.
  intros (ws & Hw & ->). induction Hw as [|w ws Hw _ IH]; [apply made_of_nil|]. cbn [foldr].
  rewrite string_rev_app. apply made_of_app; [exact IH|]. apply list_elem_of_fmap in Hw as (e & -> & He).
  rewrite string_rev_rev. by apply made_of_word.
Qed.

(** With as many steps as bytes the loop ends: no word of the list is left at the beginning. *)
Lemma trim_left_spec cut : Forall (fun e => e <> "") cut -> forall fuel s, (String.length s <= fuel)%nat ->
  exists a, made_of cut a /\ s = a +:+ trim_left fuel cut s /\
    Forall (fun e => String.prefix e (trim_left fuel cut s) = false) cut.
Proof.
  intros Hne. induction fuel as [|fuel IH]; intros s Hl.
  - destruct s; [|cbn in Hl; lia]. exists "". split; [apply made_of_nil|]. split; [done|]. cbn [trim_left].
    eapply Forall_impl; [exact Hne|]. intros [|c e]; done.
  - cbn [trim_left]. destruct (list_find (fun e => String.prefix e s = true) cut) as [[i e]|] eqn:E.
    + apply list_find_Some in E as (Hi & Hp & _). pose proof (list_elem_of_lookup_2 _ _ _ Hi) as Hin.
      change (HasPrefix s e = true) in Hp. apply HasPrefix_spec in Hp as [t ->]. rewrite string_drop_app.
      rewrite Forall_forall in Hne. specialize (Hne e Hin). rewrite string_length_app in Hl.
      destruct (IH t) as (a & Ha & Ht & HF); [destruct e; [done|cbn in Hl; lia]|].
      exists (e +:+ a). split; [apply made_of_app; [by apply made_of_word|done]|]. split; [|done].
      rewrite string_app_assoc. by rewrite <- Ht.
    + exists "". split; [apply made_of_nil|]. split; [done|]. apply list_find_None in E.
      eapply Forall_impl; [exact E|]. intros e He. by apply not_true_iff_false.
Qed.

Lemma HasPrefix_app s t p : HasPrefix s p = true -> HasPrefix (s +:+ t) p = true.
Proof. rewrite !HasPrefix_spec. intros [u ->]. exists (u +:+ t). by rewrite string_app_assoc. Qed.

(** White space is removed at both ends, all of it and nothing else. *)
Lemma TrimSpace_spec s : exists a b, made_of space_encodings a /\ made_of space_encodings b /\
  s = a +:+ TrimSpace s +:+ b /\
  Forall (fun e => HasPrefix (TrimSpace s) e = false /\ HasSuffix (TrimSpace s) e = false) space_encodings.
Proof.
  assert (HN : Forall (fun e => e <> "") space_encodings) by (repeat constructor; discriminate).
  assert (HR : Forall (fun e => e <> "") (String.rev <$> space_encodings)) by (repeat constructor; discriminate).
  unfold TrimSpace. destruct (trim_left_spec _ HN (String.length s) s (le_n _)) as (a & Ha & Hs & HF).
  set (s1 := trim_left (String.length s) space_encodings s) in *.
  destruct (trim_left_spec _ HR (String.length (String.rev s1)) (String.rev s1) (le_n _)) as (b & Hb & Hs1 & HG).
  rewrite string_length_rev in Hs1, HG. set (t := trim_left (String.length s1) (String.rev <$> space_encodings) (String.rev s1)) in *.
  assert (Hk : s1 = String.rev t +:+ String.rev b) by (by rewrite <- string_rev_app, <- Hs1, string_rev_rev).
  exists a, (String.rev b). split; [done|]. split; [by apply made_of_rev|]. split; [by rewrite <- Hk|].
  rewrite Forall_forall in HF, HG. apply Forall_forall. intros e He. split.
  - specialize (HF e He). apply not_true_iff_false. intros HC. apply (HasPrefix_app _ (String.rev b)) in HC.
    rewrite <- Hk in HC. unfold HasPrefix in HC. congruence.
  - unfold HasSuffix. rewrite string_rev_rev. apply HG. apply list_elem_of_fmap. eauto.
Qed.

(** ** Properties *)

(** The part of a header value before its first comma. *)
Definition first_element (xff : string) : string :=
  match IndexByte xff ","%char with Some idx => string_take idx xff | None => xff end.

(** C34: the key of a forwarded request.  For every request with an
    [X-Forwarded-For] header, whatever its bytes, the extraction ends and the key is the first
    element of the header without the white space around it: what was
    removed at both ends is white space (in UTF-8), and the key neither begins nor ends with any. *)
Theorem forwarded_key_trimmed r :
  let xff := Header_Get (req_Header r) "X-Forwarded-For" in
  xff <> "" ->
  exists a b, made_of space_encodings a /\ made_of space_encodings b /\
    first_element xff = a +:+ client_key r +:+ b /\
    Forall (fun e => HasPrefix (client_key r) e = false /\ HasSuffix (client_key r) e = false) space_encodings.
Proof.
  intros xff Hne. assert (client_key r = TrimSpace (first_element xff)) as ->; [|apply TrimSpace_spec].
  unfold client_key, IPKeyExtractor_Extract, first_element. fold xff. rewrite bool_decide_eq_true_2 by done.
  by destruct (IndexByte xff ",").
Qed.

Definition forwarded_request : Request :=
  mkRequest "GET" "/" "" "" "" "gw.local" {[ "X-Forwarded-For" := [" 203.0.113.7 , 10.0.0.2"] ]} "10.0.0.2:80" false [].

Lemma forwarded_key_trimmed_witness :
  client_key forwarded_request = "203.0.113.7" /\
  exists a b, made_of space_encodings a /\ made_of space_encodings b /\
    " 203.0.113.7 " = a +:+ client_key forwarded_request +:+ b.
Proof.
  split; [vm_compute; reflexivity|].
  destruct (forwarded_key_trimmed forwarded_request ltac:(vm_compute; discriminate)) as (a & b & Ha & Hb & E & _).
  exists a, b. split; [exact Ha|]. split; [exact Hb|]. rewrite <- E. vm_compute. reflexivity.
Defined.
