(* ===== verification/Router.v ===== *)
(** * internal/server/router.go: wiring the gateway

    [BuildRouter]: per route a balancer with its health checker, a rate-limit
    store and a circuit breaker if configured, the middleware chain around the proxy
    handler, and the patterns registered with the mux; the system endpoints. *)

From S2P Require Import Prelude Float64 GoLib Config Balancer RoundRobin BalancerConfig Health Breaker.
From S2P Require Import TokenBucket Http Middleware MiddlewareFacts Proxy Mux.

(** ** System endpoints *)

Section System.
Context `{UL : URLLib}.

Definition healthHandler : Handler := fun _ =>
  run! setHeader "Content-Type" "application/json";
  run! writeHeader 200;
  encode_json (json_object [("status", json_quote id "healthy")]).

Definition readinessHandler (cfg : GatewayConfig) : Handler := fun _ =>
  run! setHeader "Content-Type" "application/json";
  run! writeHeader 200;
  encode_json (json_object
    [("routes", itoa (Z.of_nat (length (Routes cfg)))); ("status", json_quote id "ready")]).
End System.

(** ** One route *)

Section Route.
Context `{UL : URLLib}.

(** What [BuildRouter] creates for a route. *)
Record RouteRuntime := mkRouteRuntime {
  rt_cfg : RouteConfig;
  rt_balancer : AnyBalancer;
  rt_checker : HealthChecker;
  rt_store : option InMemoryStore;
  rt_breaker : option CircuitBreaker
}.

Definition breaker_config (cb : CircuitBreakerConfig) : BreakerConfig :=
  mkBreakerConfig (cbc_FailureThreshold cb) (cbc_ResetTimeout cb) (cbc_HalfOpenMaxReqs cb) (60 * Second).

(** The clock is read when the breaker is created; the logger is not nil. *)
Definition new_runtime (now : Time) (rc : RouteConfig) : outcome (RouteRuntime * list LogRecord) :=
  let '(bal, logs) := NewFromConfig rc in
  do! hc <- NewHealthChecker bal [];
  let store := (fun rl => NewInMemoryStore (RequestsPerSecond rl) (Burst rl)) <$> rc_RateLimit rc in
  let breaker := (fun cb => NewBreaker (breaker_config cb) true now) <$> rc_CircuitBreaker rc in
  Ret (mkRouteRuntime rc bal hc store breaker, logs).

(** The middleware of a route, outermost first. *)
Definition route_chain (env : Env) (cfg : GatewayConfig) (rc : RouteConfig) : list Middleware :=
  [Recovery env; RequestID env; Logging env; MetricsMiddleware env (rc_Path rc); CORSMiddleware (CORS cfg)] ++
  (match rc_RateLimit rc with Some _ => [RateLimit env (rc_Path rc)] | None => [] end) ++
  (match rc_CircuitBreaker rc with Some _ => [CircuitBreak env (rc_Path rc)] | None => [] end).

Definition route_handler (removeHopByHop : Header -> Header) (RoundTrip : Request -> UpstreamResult)
    (env : Env) (cfg : GatewayConfig) (rc : RouteConfig) : outcome Handler :=
  Chain (route_chain env cfg rc) (Handler_ServeHTTP removeHopByHop RoundTrip env (NewHandler rc)).
End Route.

(** ** Patterns *)

(** What a pattern leads to. *)
Inductive Endpoint :=
  | SystemHealth
  | SystemReady
  | SystemMetrics
  | RouteEndpoint (i : nat).

Definition subtree_pattern (path : string) : string :=
  if negb (HasSuffix path "/") then path +:+ "/" else path.

Definition route_patterns (i : nat) (rc : RouteConfig) : list (string * Endpoint) :=
  let pattern := subtree_pattern (rc_Path rc) in
  match rc_Methods rc with
  | [] => [(pattern, RouteEndpoint i); (rc_Path rc, RouteEndpoint i)]
  | methods =>
      concat ((fun method => [(method +:+ " " +:+ pattern, RouteEndpoint i);
                              (method +:+ " " +:+ rc_Path rc, RouteEndpoint i)]) <$> methods)
  end.

Definition system_patterns (cfg : GatewayConfig) : list (string * Endpoint) :=
  [("GET /health", SystemHealth); ("GET /ready", SystemReady)] ++
  (if mc_Enabled (Metrics cfg) then [("GET " +:+ mc_Path (Metrics cfg), SystemMetrics)] else []).

(** ** BuildRouter *)

Section Build.
Context `{UL : URLLib} (unicode_name : string -> bool).

Record Router := mkRouter {
  rt_mux : ServeMux (H := Endpoint);
  rt_routes : list RouteRuntime
}.

Definition registered_record (rc : RouteConfig) : LogRecord :=
  mkLog LevelInfo "route registered"
    [("path", AString (rc_Path rc)); ("targets", AInt (Z.of_nat (length (rc_Targets rc))));
     ("strategy", AString (rc_BalanceStrategy rc))].

(** The loop over the routes, [i] counting them. *)
Fixpoint build_routes (now : Time) (i : nat) (rcs : list RouteConfig) (rt : Router) :
    outcome (Router * list LogRecord) :=
  match rcs with
  | [] => Ret (rt, [])
  | rc :: rcs' =>
      do! (runtime, logs) <- new_runtime now rc;
      do! mux <- mux_Handle_all unicode_name (route_patterns i rc) (rt_mux rt);
      do! (rt', logs') <- build_routes now (S i) rcs' (mkRouter mux (rt_routes rt ++ [runtime]));
      Ret (rt', logs ++ [registered_record rc] ++ logs')
  end.

Definition BuildRouter (now : Time) (cfg : GatewayConfig) : outcome (Router * list LogRecord) :=
  do! mux <- mux_Handle_all unicode_name (system_patterns cfg) [];
  build_routes now 0 (Routes cfg) (mkRouter mux []).
End Build.

(** ** Registration lemmas *)

Lemma compareSegments_refl s : compareSegments s s = equivalent.
Proof. destruct s; cbn; [by rewrite bool_decide_eq_true_2|done..]. Qed.

Lemma compare_loop_refl m1 m2 s : compare_loop equivalent m1 m2 s s = equivalent.
Proof.
  induction s as [|a s IH]; [done|]. cbn [compare_loop]. rewrite compareSegments_refl. cbn [combineRelationships].
  by rewrite bool_decide_eq_false_2.
Qed.

(** A pattern conflicts with itself. *)
Lemma conflictsWith_refl p : conflictsWith p p = true.
Proof.
  unfold conflictsWith, comparePathsAndMethods, compareMethods, comparePaths.
  rewrite (bool_decide_eq_true_2 (pat_host p = pat_host p)), (bool_decide_eq_true_2 (pat_method p = pat_method p)) by done.
  rewrite (bool_decide_eq_false_2 (equivalent = disjoint)), Nat.eqb_refl by done.
  cbn. by rewrite compare_loop_refl.
Qed.

Section Registration.
Context {H : Type} (un : string -> bool).

Lemma mux_Handle_all_app (r1 r2 : list (string * H)) mux :
  mux_Handle_all un (r1 ++ r2) mux = do! mux' <- mux_Handle_all un r1 mux; mux_Handle_all un r2 mux'.
Proof.
  revert mux. induction r1 as [|[p h] r1 IH]; intros mux; [done|]. cbn.
  destruct (mux_Handle un p h mux); [apply IH|done].
Qed.

(** Registering the same pattern text twice panics. *)
Lemma mux_Handle_twice p h1 h2 rest (mux : ServeMux (H := H)) :
  exists msg, mux_Handle_all un ((p, h1) :: (p, h2) :: rest) mux = Panic msg.
Proof.
  cbn. unfold mux_Handle at 1. destruct (parsePattern un p) as [pat|e] eqn:E; [|by eexists].
  destruct (existsb _ mux); [by eexists|]. cbn. unfold mux_Handle. rewrite E.
  assert (existsb (fun e => conflictsWith pat (fst e)) (mux ++ [(pat, h1)]) = true) as ->.
  { rewrite existsb_app. cbn. by rewrite conflictsWith_refl, orb_true_r. }
  by eexists.
Qed.
End Registration.

Lemma route_patterns_slash un i rc mux : HasSuffix (rc_Path rc) "/" = true ->
  exists msg, mux_Handle_all un (route_patterns i rc) mux = Panic msg.
Proof.
  intros Hs. unfold route_patterns, subtree_pattern. rewrite Hs. cbn [negb].
  destruct (rc_Methods rc) as [|m ms]; [apply mux_Handle_twice|]. rewrite fmap_cons. cbn [concat app].
  apply mux_Handle_twice.
Qed.

Section BuildLemmas.
Context `{UL : URLLib} (un : string -> bool).

Lemma build_routes_slash now : forall rcs i rt rc, rc ∈ rcs -> HasSuffix (rc_Path rc) "/" = true ->
  exists msg, build_routes un now i rcs rt = Panic msg.
Proof.
  induction rcs as [|rc0 rcs IH]; intros i rt rc Hin Hs; [by apply not_elem_of_nil in Hin|].
  cbn [build_routes]. destruct (new_runtime now rc0) as [[runtime logs]|msg]; [|by eexists]. cbn [outcome_bind].
  apply elem_of_cons in Hin as [->|Hin].
  - destruct (route_patterns_slash un i rc0 (rt_mux rt) Hs) as [msg ->]. by eexists.
  - destruct (mux_Handle_all un (route_patterns i rc0) (rt_mux rt)) as [mux|msg]; [|by eexists]. cbn [outcome_bind].
    destruct (IH (S i) (mkRouter mux (rt_routes rt ++ [runtime])) rc Hin Hs) as [msg ->]. by eexists.
Qed.
End BuildLemmas.

(** ** Properties *)

Section Properties.
Context `{UL : URLLib} (un : string -> bool).

(** C40: a route whose path ends in a slash stops the gateway.  Its pattern is
    then registered twice, and the second registration panics: [BuildRouter]
    returns for no configuration with such a route, the catch-all path included,
    although the validation accepts it. *)
Theorem trailing_slash_panics now cfg rc :
  rc ∈ Routes cfg -> HasSuffix (rc_Path rc) "/" = true -> exists msg, BuildRouter un now cfg = Panic msg.
Proof.
  intros Hin Hs. unfold BuildRouter.
  destruct (mux_Handle_all un (system_patterns cfg) []) as [mux|msg]; [|by eexists]. cbn [outcome_bind].
  by apply (build_routes_slash un now (Routes cfg) 0 _ rc).
Qed.

(** No panic reaches the server.  For every configuration and route, the
    composed handler exists and returns for every request, whatever the
    upstream or the handlers inside do, and the first thing on the response is the request's identifier. *)
Theorem route_handler_total removeHop RoundTrip env cfg rc r wd u :
  env_uuid env = Ok u ->
  let sent := Header_Get (req_Header r) "X-Request-ID" in
  exists h acts wd', route_handler removeHop RoundTrip env cfg rc = Ret h /\
    h r wd = (ASet "X-Request-ID" (if bool_decide (sent = "") then u else sent) :: acts, wd', Ret tt).
Proof.
  intros Hu sent. unfold route_handler, route_chain. rewrite Chain_foldr. cbn [app foldr].
  set (inner := Logging env _). exists (Recovery env (RequestID env inner)).
  destruct (RequestID env inner r wd) as [[acts wd1] o] eqn:E.
  assert (HE : exists acts', acts = ASet "X-Request-ID" (if bool_decide (sent = "") then u else sent) :: acts').
  { unfold RequestID, bind at 1 in E. change (Header_Get (req_Header r) requestIDHeader) with sent in E.
    rewrite Hu in E. clearbody sent inner.
    destruct (bool_decide (sent = "")); cbn in E; destruct (inner _ wd) as [[a w] o'] in E; simplify_eq/=; by eexists. }
  destruct HE as [acts' ->]. unfold Recovery, recovering.
  destruct o as [[]|msg]; [|].
  - exists acts', wd1. split; [reflexivity|]. by rewrite E.
  - eexists _, _. split; [reflexivity|]. rewrite E. reflexivity.
Qed.
End Properties.

(** ** Examples *)

Section Examples.
#[local] Existing Instance plain_url_lib.

Definition gateway_config (routes : list RouteConfig) : GatewayConfig :=
  ApplyDefaults (mkGatewayConfig (mkServerConfig 8080 0 0 0) routes (mkMetricsConfig true "/metrics")
    (mkLoggingConfig "info" "json") (mkCORSConfig [] [] [] 0)).

Definition catch_all_route : RouteConfig :=
  mkRouteConfig "/" [] [mkTargetConfig "http://host1:3001" 1] "round-robin" false (30 * Second) None None.

(** The catch-all route passes the validation. *)
Lemma trailing_slash_panics_witness :
  Validate (gateway_config [catch_all_route]) = None /\
  exists msg, BuildRouter (fun _ => false) 0 (gateway_config [catch_all_route]) = Panic msg.
Proof.
  split; [vm_compute; reflexivity|].
  apply (trailing_slash_panics (fun _ => false) 0 (gateway_config [catch_all_route]) catch_all_route).
  - vm_compute. left.
  - vm_compute. reflexivity.
Defined.

(** An upstream whose answer breaks off, so that the proxy panics. *)
Lemma route_handler_total_witness :
  exists h acts wd', route_handler id broken_upstream example_env
      (gateway_config [catch_all_route]) catch_all_route = Ret h /\
    h example_request example_world = (ASet "X-Request-ID" "018f-uuid" :: acts, wd', Ret tt).
Proof.
  exact (route_handler_total id broken_upstream example_env
    (gateway_config [catch_all_route]) catch_all_route example_request example_world "018f-uuid" eq_refl).
Defined.
End Examples.
