(* ===== verification/RouterFacts.v ===== *)
(** * Which configurations build a router

    [BuildRouter] on configurations with plain paths: the patterns it
    registers, and that it succeeds exactly when no two of them conflict. *)

From S2P Require Import Prelude Float64 GoLib Config Balancer RoundRobin BalancerConfig Health Breaker.
From S2P Require Import TokenBucket Http Middleware MiddlewareFacts Proxy ProxyFacts Mux Patterns Router.

(** ** Registering plain patterns *)

(** Each key is free of conflicts with those before it. *)
Fixpoint compatible_after (ks0 ks : list plain_key) : bool :=
  match ks with
  | [] => true
  | k :: ks' => negb (existsb (keys_conflict k) ks0) && compatible_after (ks0 ++ [k]) ks'
  end.

Definition compatible (ks : list plain_key) : bool := compatible_after [] ks.

Lemma compatible_after_app a b : forall ks0,
  compatible_after ks0 (a ++ b) = compatible_after ks0 a && compatible_after (ks0 ++ a) b.
Proof.
  induction a as [|k a IH]; intros ks0; [by rewrite app_nil_r|]. cbn. by rewrite IH, <- app_assoc, andb_assoc.
Qed.

(** Compatible keys are pairwise without conflicts, in particular different. *)
Lemma compatible_after_spec ks : forall ks0, compatible_after ks0 ks = true ->
  (forall i k1 k2, ks !! i = Some k2 -> k1 ∈ ks0 ++ take i ks -> keys_conflict k2 k1 = false).
Proof.
  induction ks as [|k ks IH]; intros ks0 Hc i k1 k2 Hi Hin; [done|].
  cbn in Hc. apply andb_true_iff in Hc as [Hk Hc]. destruct i as [|i]; cbn in Hi, Hin.
  - injection Hi as ->. rewrite app_nil_r in Hin. apply negb_true_iff, not_true_iff_false in Hk.
    apply not_true_iff_false. intros HC. apply Hk, existsb_exists. exists k1. split; [by apply list_elem_of_In|done].
  - apply (IH _ Hc i k1 k2 Hi). by rewrite <- app_assoc.
Qed.

Lemma compatible_NoDup ks : compatible ks = true -> NoDup ks.
Proof.
  intros Hc. apply NoDup_alt. intros i j k Hi Hj.
  assert (HW : forall i j, (i < j)%nat -> ks !! i = Some k -> ks !! j = Some k -> False).
  { clear i j Hi Hj. intros i j Hlt Hi Hj.
    assert (Hx : keys_conflict k k = false).
    { apply (compatible_after_spec ks [] Hc j k k Hj). cbn. apply list_elem_of_lookup. exists i. by rewrite lookup_take_lt. }
    unfold keys_conflict in Hx. by rewrite bool_decide_eq_true_2 in Hx. }
  destruct (Nat.lt_trichotomy i j) as [Hlt|[->|Hgt]]; [by destruct (HW i j)|done|by destruct (HW j i)].
Qed.

Section Register.
Context (un : string -> bool) {H : Type}.

(** A registration whose pattern parses to a plain pattern. *)
Definition plain_reg (reg : string * H) (k : plain_key) : Prop :=
  parsePattern un (fst reg) = Ok (key_pattern k).

Lemma register_keys (regs : list (string * H)) : forall ks ks0 hs0,
  Forall2 plain_reg regs ks -> length hs0 = length ks0 ->
  if compatible_after ks0 ks then
    mux_Handle_all un regs (zip (key_pattern <$> ks0) hs0) =
      Ret (zip (key_pattern <$> (ks0 ++ ks)) (hs0 ++ regs.*2))
  else exists msg, mux_Handle_all un regs (zip (key_pattern <$> ks0) hs0) = Panic msg.
Proof.
  induction regs as [|[p h] regs IH]; intros ks ks0 hs0 HF Hlen.
  { apply Forall2_nil_inv_l in HF as ->. cbn. by rewrite !app_nil_r. }
  apply Forall2_cons_inv_l in HF as (k & ks' & Hk & HF & ->). cbn [mux_Handle_all compatible_after].
  unfold mux_Handle. unfold plain_reg in Hk. cbn [fst] in Hk. rewrite Hk.
  assert (HE : existsb (fun e => conflictsWith (key_pattern k) (fst e)) (zip (key_pattern <$> ks0) hs0) =
    existsb (keys_conflict k) ks0).
  { clear -Hlen. revert hs0 Hlen. induction ks0 as [|k0 ks0 IH]; intros [|h0 hs0] Hlen; try done.
    rewrite fmap_cons. cbn. rewrite conflictsWith_keys. f_equal. apply IH. by injection Hlen. }
  rewrite HE. destruct (existsb _ ks0); cbn [negb andb]; [by eexists|]. cbn [outcome_bind].
  assert (HZ : zip (key_pattern <$> ks0) hs0 ++ [(key_pattern k, h)] = zip (key_pattern <$> (ks0 ++ [k])) (hs0 ++ [h])).
  { rewrite fmap_app, zip_with_app by (by rewrite length_fmap). done. }
  rewrite HZ. specialize (IH ks' (ks0 ++ [k]) (hs0 ++ [h]) HF). rewrite !length_app, Hlen in IH. specialize (IH eq_refl).
  by rewrite <- !app_assoc in IH.
Qed.
End Register.

(** ** Plain routes *)

(** Valid methods (none stands for every method) and a plain path; the bound on the
    targets is that of the balancer's counter. *)
Record plain_route (rc : RouteConfig) (segs : list string) : Prop := mk_plain_route {
  pr_path : rc_Path rc = slash_join segs;
  pr_nonempty : segs <> [];
  pr_plain : all_plain segs;
  pr_methods : Forall method_ok (rc_Methods rc);
  pr_targets : Z.of_nat (length (rc_Targets rc)) <= 2 ^ 64
}.

(** The methods of a route's patterns. *)
Definition route_methods (rc : RouteConfig) : list string :=
  match rc_Methods rc with [] => [""] | methods => methods end.

Definition method_keys (segs : list string) (m : string) : list plain_key := [mkKey m segs true; mkKey m segs false].

Definition route_keys (rc : RouteConfig) (segs : list string) : list plain_key :=
  concat (method_keys segs <$> route_methods rc).

(** What the routes register, from the [i]-th on. *)
Fixpoint config_patterns (i : nat) (rcs : list RouteConfig) : list (string * Endpoint) :=
  match rcs with [] => [] | rc :: rcs' => route_patterns i rc ++ config_patterns (S i) rcs' end.

Definition config_keys (rcs : list RouteConfig) (segss : list (list string)) : list plain_key :=
  concat (zip_with route_keys rcs segss).

Lemma route_patterns_plain un i rc segs : plain_route rc segs ->
  Forall2 (plain_reg un) (route_patterns i rc) (route_keys rc segs).
Proof.
  intros [Hp Hne Hpl Hm _]. unfold route_patterns, route_keys, route_methods, subtree_pattern.
  rewrite Hp, (HasSuffix_join segs Hne Hpl). cbn [negb].
  assert (Hf : request_path segs false = slash_join segs) by apply string_app_nil_r.
  destruct (rc_Methods rc) as [|m ms].
  - constructor; [|constructor; [|constructor]]; unfold plain_reg; cbn [fst].
    + exact (parse_plain_path un segs true Hne Hpl).
    + rewrite <- Hf. exact (parse_plain_path un segs false Hne Hpl).
  - revert Hm. generalize (m :: ms). intros methods Hm. induction Hm as [|m' ms' Hm' _ IH]; [constructor|].
    rewrite !fmap_cons. cbn [concat method_keys app]. constructor; [|constructor; [|exact IH]]; unfold plain_reg; cbn [fst].
    + exact (parse_plain_method un m' segs true Hm' Hne Hpl).
    + rewrite <- Hf. exact (parse_plain_method un m' segs false Hm' Hne Hpl).
Qed.

Section Build.
Context `{UL : URLLib} (un : string -> bool).

Lemma new_runtime_total now rc : Z.of_nat (length (rc_Targets rc)) <= 2 ^ 64 ->
  exists rt logs, new_runtime now rc = Ret (rt, logs) /\ rt_cfg rt = rc.
Proof.
  intros Hlen. pose proof (NewFromConfig_ok rc Hlen) as [Hok _]. unfold new_runtime.
  destruct (NewFromConfig rc) as [bal logs]. cbn [fst] in Hok. unfold NewHealthChecker.
  destruct (targets_total bal Hok) as (sts & -> & _). cbn. by eexists _, _.
Qed.

Lemma build_routes_keys now : forall rcs segss, Forall2 plain_route rcs segss -> forall i ks0 hs0 rts,
  length hs0 = length ks0 ->
  if compatible_after ks0 (config_keys rcs segss) then
    exists rts' logs, build_routes un now i rcs (mkRouter (zip (key_pattern <$> ks0) hs0) rts) =
      Ret (mkRouter (zip (key_pattern <$> (ks0 ++ config_keys rcs segss)) (hs0 ++ (config_patterns i rcs).*2))
             (rts ++ rts'), logs) /\ rt_cfg <$> rts' = rcs
  else exists msg, build_routes un now i rcs (mkRouter (zip (key_pattern <$> ks0) hs0) rts) = Panic msg.
Proof.
  induction 1 as [|rc segs rcs segss Hrc Hrcs IH]; intros i ks0 hs0 rts Hlen.
  { exists [], []. cbn. by rewrite !app_nil_r. }
  destruct (new_runtime_total now rc (pr_targets _ _ Hrc)) as (rt & logs & E & Hc).
  unfold config_keys. cbn [zip_with concat]. fold (config_keys rcs segss). rewrite compatible_after_app.
  cbn [build_routes config_patterns]. rewrite E. cbn [outcome_bind rt_mux].
  pose proof (route_patterns_plain un i rc segs Hrc) as HP.
  pose proof (register_keys un (route_patterns i rc) (route_keys rc segs) ks0 hs0 HP Hlen) as HR.
  destruct (compatible_after ks0 (route_keys rc segs)); cbn [andb]; [|destruct HR as [msg ->]; by eexists].
  rewrite HR. cbn [outcome_bind rt_routes].
  specialize (IH (S i) (ks0 ++ route_keys rc segs) (hs0 ++ (route_patterns i rc).*2) (rts ++ [rt])).
  rewrite !length_app, Hlen, length_fmap, (Forall2_length _ _ _ HP) in IH. specialize (IH eq_refl).
  destruct (compatible_after _ (config_keys rcs segss)); [|destruct IH as [msg ->]; by eexists].
  destruct IH as (rts' & logs' & -> & Hcs). exists (rt :: rts'). eexists. cbn [outcome_bind]. split.
  - by rewrite (fmap_app snd (route_patterns i rc)), <- !app_assoc.
  - rewrite fmap_cons. by rewrite Hc, Hcs.
Qed.
End Build.

(** ** The system endpoints *)

(** The system patterns of a configuration with a plain metrics path. *)
Definition system_keys (metrics : option (list string)) : list plain_key :=
  [mkKey "GET" ["health"] false; mkKey "GET" ["ready"] false] ++
  match metrics with Some segs => [mkKey "GET" segs false] | None => [] end.

(** The metrics endpoint is off, or on a plain path. *)
Definition plain_metrics (m : MetricsConfig) (metrics : option (list string)) : Prop :=
  match metrics with
  | None => mc_Enabled m = false
  | Some segs => mc_Enabled m = true /\ mc_Path m = slash_join segs /\ segs <> [] /\ all_plain segs
  end.

Lemma system_patterns_plain un cfg metrics : plain_metrics (Metrics cfg) metrics ->
  Forall2 (plain_reg un) (system_patterns cfg) (system_keys metrics).
Proof.
  intros Hm. unfold system_patterns, system_keys. constructor; [by vm_compute|]. constructor; [by vm_compute|].
  destruct metrics as [segs|]; cbn in Hm.
  - destruct Hm as (-> & Hp & Hne & Hpl). constructor; [|constructor]. unfold plain_reg. cbn [fst]. rewrite Hp.
    rewrite <- (string_app_nil_r (slash_join segs)). apply (parse_plain_method un "GET" segs false); [by right|done..].
  - rewrite Hm. constructor.
Qed.

(** The keys of everything a configuration registers. *)
Definition gateway_keys (metrics : option (list string)) (rcs : list RouteConfig) (segss : list (list string)) : list plain_key :=
  system_keys metrics ++ config_keys rcs segss.

(** The router of a plain configuration, or a panic. *)
Lemma BuildRouter_keys `{UL : URLLib} un now cfg segss metrics :
  Forall2 plain_route (Routes cfg) segss -> plain_metrics (Metrics cfg) metrics ->
  if compatible (gateway_keys metrics (Routes cfg) segss) then
    exists rts logs, rt_cfg <$> rts = Routes cfg /\
      BuildRouter un now cfg =
        Ret (mkRouter (zip (key_pattern <$> gateway_keys metrics (Routes cfg) segss)
               ((system_patterns cfg).*2 ++ (config_patterns 0 (Routes cfg)).*2)) rts, logs)
  else exists msg, BuildRouter un now cfg = Panic msg.
Proof.
  intros Hr Hm. unfold BuildRouter, gateway_keys, compatible. rewrite compatible_after_app. cbn [app].
  pose proof (system_patterns_plain un cfg metrics Hm) as HP.
  pose proof (register_keys un (system_patterns cfg) (system_keys metrics) [] [] HP eq_refl) as HR.
  change (zip (key_pattern <$> []) []) with (@nil (pattern * Endpoint)) in HR.
  destruct (compatible_after [] (system_keys metrics)); cbn [andb]; [|destruct HR as [msg ->]; by eexists].
  rewrite HR. cbn [outcome_bind app].
  pose proof (build_routes_keys un now _ _ Hr 0 (system_keys metrics) (system_patterns cfg).*2 []) as HB.
  rewrite length_fmap, (Forall2_length _ _ _ HP) in HB. specialize (HB eq_refl).
  destruct (compatible_after _ (config_keys _ _)); [|exact HB].
  destruct HB as (rts & logs & E & Hc). exists rts, logs. split; [exact Hc|exact E].
Qed.

Lemma config_lengths rcs segss : Forall2 plain_route rcs segss -> forall i,
  length (config_patterns i rcs) = length (config_keys rcs segss).
Proof.
  induction 1 as [|rc segs rcs segss Hrc _ IH]; intros i; [done|]. unfold config_keys. cbn. rewrite !length_app, IH.
  by rewrite (Forall2_length _ _ _ (route_patterns_plain (fun _ => false) i rc segs Hrc)).
Qed.

(** ** Properties *)

(** C15: which configurations build.  With routes of any valid methods on plain
    paths (of nonempty segments without wildcards, escapes or blanks) and a metrics
    endpoint that is off or on a plain path, [BuildRouter] returns if no two of the
    keys conflict (the same method and path, or one with the more general method and the other
    with the more general path) and panics otherwise.  When it returns, every route has its runtime, in order,
    and exactly its patterns: for each method the path and everything below it. *)
Theorem BuildRouter_plain `{UL : URLLib} un now cfg segss metrics :
  Forall2 plain_route (Routes cfg) segss -> plain_metrics (Metrics cfg) metrics ->
  let keys := gateway_keys metrics (Routes cfg) segss in
  if compatible keys then
    exists rt logs, BuildRouter un now cfg = Ret (rt, logs) /\
      rt_cfg <$> rt_routes rt = Routes cfg /\
      (rt_mux rt).*1 = key_pattern <$> keys /\
      (rt_mux rt).*2 = (system_patterns cfg ++ config_patterns 0 (Routes cfg)).*2
  else exists msg, BuildRouter un now cfg = Panic msg.
Proof.
  intros Hr Hm keys. unfold keys. pose proof (BuildRouter_keys un now cfg segss metrics Hr Hm) as HB.
  destruct (compatible (gateway_keys metrics (Routes cfg) segss)); [|exact HB].
  destruct HB as (rts & logs & Hc & E). eexists _, _. split; [exact E|]. split; [exact Hc|]. cbn [rt_mux].
  assert (HL : length (key_pattern <$> gateway_keys metrics (Routes cfg) segss) =
               length ((system_patterns cfg).*2 ++ (config_patterns 0 (Routes cfg)).*2)).
  { unfold gateway_keys. rewrite length_fmap, !length_app, !length_fmap, (config_lengths _ _ Hr).
    by rewrite (Forall2_length _ _ _ (system_patterns_plain un cfg metrics Hm)). }
  rewrite fmap_app. split; [by apply fst_zip; lia|by apply snd_zip; lia].
Qed.

(** ** Examples *)

Section Examples.
#[local] Existing Instance plain_url_lib.

Definition method_route (path : string) (methods : list string) : RouteConfig :=
  mkRouteConfig path methods [mkTargetConfig "http://host1:3001" 1] "round-robin" false (30 * Second) None None.

Definition mixed_config : GatewayConfig :=
  gateway_config [method_route "/api" ["GET"; "POST"]; method_route "/api/users" ["POST"]; method_route "/web" []].

Lemma BuildRouter_plain_witness :
  exists rt logs, BuildRouter (fun _ => false) 0 mixed_config = Ret (rt, logs) /\
    rt_cfg <$> rt_routes rt = Routes mixed_config.
Proof.
  assert (Hr : Forall2 plain_route (Routes mixed_config) [["api"]; ["api"; "users"]; ["web"]]).
  { repeat constructor; first [by right|vm_compute; congruence]. }
  assert (Hm : plain_metrics (Metrics mixed_config) (Some ["metrics"])).
  { cbn. split_and!; try (vm_compute; congruence). repeat constructor. }
  pose proof (BuildRouter_plain (fun _ => false) 0 mixed_config _ _ Hr Hm) as HB. cbv zeta in HB.
  assert (HC : compatible (gateway_keys (Some ["metrics"]) (Routes mixed_config) [["api"]; ["api"; "users"]; ["web"]]) = true)
    by (vm_compute; reflexivity).
  rewrite HC in HB. destruct HB as (rt & logs & H1 & H2 & _). exists rt, logs. split; [exact H1|exact H2].
Defined.

(** A configuration that passes the validation and cannot be built: a
    route of some methods, and below it one of all methods. *)
Lemma nested_methods_panic :
  let cfg := gateway_config [method_route "/api" ["GET"]; method_route "/api/users" []] in
  Validate cfg = None /\ exists msg, BuildRouter (fun _ => false) 0 cfg = Panic msg.
Proof. split; [vm_compute; reflexivity|]. eexists. vm_compute. reflexivity. Qed.
End Examples.
