(* ===== verification/Dispatch.v ===== *)
(** * net/http: how the mux chooses the handler of a request

    The search of [http.ServeMux] (Go 1.22) through its routing tree, redirects and
    rejections included, on the registered patterns; and which route of the gateway a request
    reaches. *)

From S2P Require Import Prelude Float64 GoLib Config Balancer RoundRobin BalancerConfig Health Breaker.
From S2P Require Import TokenBucket Http Middleware MiddlewareFacts Proxy ProxyFacts Mux Patterns Router RouterFacts.

(** ** The search *)

Section Search.
Context {H : Type}.

(** A node of the tree: the patterns below it, each with the segments still to match. *)
Definition node : Type := list (list segment * (pattern * H)).

(** The child for a first segment of a certain form. *)
Definition child (form : segment -> bool) (n : node) : node :=
  omap (fun x => match fst x with
                 | s :: rest => if form s then Some (rest, snd x) else None
                 | [] => None
                 end) n.

(** A segment of the request path; the slash at the end of a path is one of its own. *)
Definition segment_key (seg : string) (rest : list string) : string :=
  if bool_decide (seg = "") && bool_decide (rest = []) then "/" else pathUnescape seg.

Definition is_literal (key : string) (s : segment) : bool :=
  match s with Lit a => bool_decide (a = key) | EndSlash => bool_decide (key = "/") | _ => false end.
Definition is_wild (s : segment) : bool := match s with Wild _ => true | _ => false end.
Definition is_multi (s : segment) : bool := match s with Multi _ => true | _ => false end.

Definition first_some {A} (a b : option A) : option A := match a with Some _ => a | None => b end.

(** [matchPath]: literals first, then a wildcard for one segment, then one for the rest. *)
Fixpoint matchPath (path : list string) (n : node) : option (pattern * H) :=
  match path with
  | [] => snd <$> (snd <$> list_find (fun x => fst x = []) n)
  | seg :: rest =>
      let key := segment_key seg rest in
      first_some (matchPath rest (child (is_literal key) n))
        (first_some (if bool_decide (key = "/") then None else matchPath rest (child is_wild n))
           (snd <$> head (child is_multi n)))
  end.

(** The tree below a host and a method. *)
Definition method_node (mux : ServeMux (H := H)) (host method : string) : node :=
  (fun e => (pat_segments (fst e), e)) <$>
    filter (fun e : pattern * H => pat_host (fst e) = host /\ pat_method (fst e) = method) mux.

(** The segments of a path that begins with a slash. *)
Definition path_segments (path : string) : list string := tail (split_slash path).

Definition matchMethodAndPath (mux : ServeMux (H := H)) (host method path : string) : option (pattern * H) :=
  first_some (matchPath (path_segments path) (method_node mux host method))
    (first_some (if bool_decide (method = "HEAD") then matchPath (path_segments path) (method_node mux host "GET") else None)
       (matchPath (path_segments path) (method_node mux host ""))).

Definition tree_match (mux : ServeMux (H := H)) (host method path : string) : option (pattern * H) :=
  if bool_decide (host = "") then matchMethodAndPath mux "" method path
  else first_some (matchMethodAndPath mux host method path) (matchMethodAndPath mux "" method path).

(** [exactMatch]: [strings.Count(path, "/")] is the number of segments. *)
Definition exactMatch (found : option (pattern * H)) (path : string) : bool :=
  match found with
  | None => false
  | Some (p, _) =>
      if negb (ends_multi (pat_segments p)) then true
      else if negb (HasSuffix path "/") then false
      else bool_decide (length (pat_segments p) = length (path_segments path))
  end.

(** [matchOrRedirect]: [None] for the redirect to the path with a slash. *)
Definition matchOrRedirect (mux : ServeMux (H := H)) (host method path : string) : option (option (pattern * H)) :=
  let n := tree_match mux host method path in
  if negb (exactMatch n path) && negb (HasSuffix path "/") &&
     exactMatch (tree_match mux host method (path +:+ "/")) (path +:+ "/")
  then None else Some n.

Inductive Found :=
  | FoundHandler (h : H)
  | RedirectTo (path : string)
  | MethodNotAllowed
  | NotFound.

(** Some pattern with a method matches the path, or the path with a slash. *)
Definition some_method_matches (mux : ServeMux (H := H)) (host path : string) : bool :=
  existsb (fun m => negb (bool_decide (m = "")) &&
      bool_decide (is_Some (matchPath (path_segments path) (method_node mux host m))))
    ((fun e => pat_method (fst e)) <$> mux).

Definition matchingMethods (mux : ServeMux (H := H)) (host path : string) : bool :=
  let at_path path :=
    (negb (bool_decide (host = "")) && some_method_matches mux host path) || some_method_matches mux "" path in
  at_path path || (negb (HasSuffix path "/") && at_path (path +:+ "/")).

(** What [findHandler] answers with the node it found for a host and a path. *)
Definition handler_of (mux : ServeMux (H := H)) (host path : string) (n : option (pattern * H)) : Found :=
  match n with
  | Some (_, h) => FoundHandler h
  | None => if matchingMethods mux host path then MethodNotAllowed else NotFound
  end.

Definition stripHostPort (h : string) : string :=
  if Contains h ":" then match SplitHostPort h with Some host => host | None => h end else h.

(** [findHandler]: for the host of the request's URL, the host it names, its method and its escaped path.
    The path of a CONNECT request is not cleaned; it is searched with the host of the URL for the
    redirect and the methods, and with the host of the request for the handler. *)
Definition findHandler (mux : ServeMux (H := H)) (urlHost rHost method escapedPath : string) : Found :=
  if bool_decide (method = "CONNECT") then
    match matchOrRedirect mux urlHost method escapedPath with
    | None => RedirectTo (cleanPath escapedPath +:+ "/")
    | Some _ => handler_of mux urlHost escapedPath (tree_match mux rHost method escapedPath)
    end
  else
    let host := stripHostPort rHost in
    let path := cleanPath escapedPath in
    match matchOrRedirect mux host method path with
    | None => RedirectTo (path +:+ "/")
    | Some n =>
        if negb (bool_decide (path = escapedPath)) then RedirectTo path
        else handler_of mux host path n
    end.
End Search.

(** ** Plain patterns and paths *)

(** A plain pattern matches: its path exactly, or everything strictly below it. *)
Definition key_matches (A : list string) (subtree : bool) (path : list string) : Prop :=
  if subtree then exists r, r <> [] /\ path = A ++ r else path = A.

Lemma segment_key_plain seg rest : plain_segment seg = true -> segment_key seg rest = seg /\ seg <> "/" /\ seg <> "".
Proof.
  intros Hs. pose proof (plain_segment_bytes seg Hs) as Hb.
  assert (seg <> "") by (by intros ->). assert (seg <> "/") by (by intros ->).
  unfold segment_key. rewrite (bool_decide_eq_false_2 (seg = "")) by done. cbn [andb].
  unfold pathUnescape. by rewrite (unescape_plain seg Hb).
Qed.

Section Plain.
Context {H : Type}.
Implicit Types (n : node (H := H)) (e : pattern * H).

Definition plain_node n : Prop := Forall (fun x => exists A b, fst x = lit_path A b /\ all_plain A) n.

Lemma elem_of_child form n rest e : (rest, e) ∈ child form n <-> exists s, (s :: rest, e) ∈ n /\ form s = true.
Proof.
  unfold child. rewrite list_elem_of_omap. split.
  - intros ([[|s res] e'] & Hin & Hx); cbn in Hx; [done|]. destruct (form s) eqn:Hf; [|done].
    injection Hx as -> ->. by exists s.
  - intros (s & Hin & Hf). exists (s :: rest, e). cbn. by rewrite Hf.
Qed.

Lemma plain_node_elem n res e : plain_node n -> (res, e) ∈ n -> exists A b, res = lit_path A b /\ all_plain A.
Proof. unfold plain_node. rewrite Forall_forall. intros Hn Hin. exact (Hn _ Hin). Qed.

(** The child of a plain node for a literal. *)
Lemma literal_child n key A b e : plain_node n -> (lit_path A b, e) ∈ child (is_literal key) n ->
  (lit_path (key :: A) b, e) ∈ n /\ all_plain (key :: A).
Proof.
  intros Hn (s & Hin & Hf)%elem_of_child. destruct (plain_node_elem n _ e Hn Hin) as ([|a A'] & b' & Heq & HA').
  - destruct b'; [|done]. cbn in Heq. injection Heq as -> ?. done.
  - unfold lit_path in Heq. rewrite fmap_cons in Heq. injection Heq as -> Heq.
    apply (lit_path_inj A b A' b') in Heq as [-> ->]. cbn in Hf. apply bool_decide_eq_true in Hf as ->. done.
Qed.

Lemma plain_child n key : plain_node n -> plain_node (child (is_literal key) n).
Proof.
  intros Hn. apply Forall_forall. intros [res e] Hin. pose proof Hin as (s & Hs & Hf)%elem_of_child.
  destruct (plain_node_elem n _ e Hn Hs) as ([|a A] & b & Heq & HA).
  - destruct b; [|done]. cbn in Heq. injection Heq as -> ->. done.
  - unfold lit_path in Heq. rewrite fmap_cons in Heq. injection Heq as -> ->.
    exists A, b. split; [done|]. by apply Forall_cons in HA as [_ ?].
Qed.

Lemma wild_child n : plain_node n -> child is_wild n = [].
Proof.
  intros Hn. apply elem_of_nil_inv. intros [res e] (s & Hs & Hf)%elem_of_child.
  destruct (plain_node_elem n _ e Hn Hs) as ([|a A] & b & Heq & HA).
  - destruct b; [|done]. cbn in Heq. by injection Heq as -> ->.
  - unfold lit_path in Heq. rewrite fmap_cons in Heq. by injection Heq as -> ->.
Qed.

Lemma matchPath_nil path : matchPath path ([] : node (H := H)) = None.
Proof.
  induction path as [|seg rest IH]; [done|]. cbn [matchPath]. unfold child. cbn [omap list_omap]. rewrite IH. cbn.
  by destruct (bool_decide _).
Qed.

(** The multi-segment child: the pattern that ends here with a slash. *)
Lemma multi_child n e : plain_node n -> snd <$> head (child is_multi n) = Some e -> (lit_path [] true, e) ∈ n.
Proof.
  intros Hn He. destruct (child is_multi n) as [|[res e'] l] eqn:E; [done|]. cbn in He. injection He as ->.
  assert (Hin : (res, e) ∈ child is_multi n) by (rewrite E; left).
  apply elem_of_child in Hin as (s & Hs & Hf). destruct (plain_node_elem n _ e Hn Hs) as ([|a A] & b & Heq & HA).
  - destruct b; [|done]. cbn in Heq. injection Heq as -> ->. exact Hs.
  - unfold lit_path in Heq. rewrite fmap_cons in Heq. by injection Heq as -> ->.
Qed.

Lemma no_multi_child n e : snd <$> head (child is_multi n) = None -> ~ (lit_path [] true, e) ∈ n.
Proof.
  intros He Hin. assert (Hc : ([], e) ∈ child is_multi n) by (apply elem_of_child; by exists (Multi "")).
  destruct (child is_multi n); [by apply elem_of_nil in Hc|done].
Qed.

(** What the search finds in a plain node: a match that is as long as any. *)
Definition best_match n (path : list string) (found : option (pattern * H)) : Prop :=
  match found with
  | Some e => exists A b, (lit_path A b, e) ∈ n /\ key_matches A b path /\
      forall A' b' e', (lit_path A' b', e') ∈ n -> key_matches A' b' path -> (length A' <= length A)%nat
  | None => forall A b e, (lit_path A b, e) ∈ n -> ~ key_matches A b path
  end.

Lemma key_matches_cons A b seg rest : key_matches A b (seg :: rest) <->
  (A = [] /\ b = true) \/ exists A', A = seg :: A' /\ key_matches A' b rest.
Proof.
  unfold key_matches. destruct b.
  - split.
    + intros (r & Hr & E). destruct A as [|x A]; [by left|]. injection E as <- E. right. exists A. eauto.
    + intros [[-> _]|(A' & -> & r & Hr & ->)]; [by exists (seg :: rest)|by exists r].
  - split; [intros <-; right; by exists rest|]. intros [[_ ?]|(A' & -> & ->)]; done.
Qed.

Lemma matchPath_end n : best_match n [] (matchPath [] n).
Proof.
  cbn. destruct (list_find (fun x => fst x = []) n) as [[i [res e]]|] eqn:E; cbn.
  - apply list_find_Some in E as (Hi & Hr & _). cbn in Hr. subst res. exists [], false.
    split; [by eapply list_elem_of_lookup_2|]. split; [done|]. intros A' [] e' _ Hm; cbn in Hm.
    + destruct Hm as (r & Hr & Hm). by destruct A', r.
    + by subst A'.
  - apply list_find_None in E. rewrite Forall_forall in E. intros A [] e Hin Hm; cbn in Hm.
    + destruct Hm as (r & Hr & Hm). by destruct A, r.
    + subst A. by apply (E _ Hin).
Qed.

(** The search takes the longest match. *)
Lemma matchPath_best xs slash : all_plain xs -> forall n, plain_node n ->
  best_match n (request_segments xs slash) (matchPath (request_segments xs slash) n).
Proof.
  intros Hxs.
  assert (Hstep : forall seg rest, (forall n, plain_node n -> best_match n rest (matchPath rest n)) ->
    forall n, plain_node n -> (forall A b e, (lit_path (seg :: A) b, e) ∈ n -> all_plain (seg :: A) -> segment_key seg rest = seg) ->
    (forall A b e, (lit_path A b, e) ∈ child (is_literal (segment_key seg rest)) n -> segment_key seg rest = seg) ->
    best_match n (seg :: rest) (matchPath (seg :: rest) n)).
  { intros seg rest IH n Hn Hkey Hlit. cbn [matchPath]. rewrite (wild_child n Hn), matchPath_nil.
    specialize (IH _ (plain_child n (segment_key seg rest) Hn)).
    destruct (matchPath rest (child _ n)) as [e|]; cbn [first_some].
    - destruct IH as (A & b & Hin & Hm & Hbest). pose proof (Hlit _ _ _ Hin) as Hk.
      destruct (literal_child n _ A b e Hn Hin) as [Hin' HA]. rewrite Hk in *. exists (seg :: A), b. split; [done|].
      split; [apply key_matches_cons; eauto|]. intros A' b' e' Hin2 [[-> _]|(A2 & -> & Hm2)]%key_matches_cons; cbn; [lia|].
      apply le_n_S, (Hbest A2 b' e'); [|done]. apply elem_of_child. exists (Lit seg). cbn. by rewrite bool_decide_eq_true_2.
    - assert (HN : forall A b e, (lit_path (seg :: A) b, e) ∈ n -> ~ key_matches A b rest).
      { intros A b e Hin. destruct (plain_node_elem n _ e Hn Hin) as (A0 & b0 & [<- <-]%lit_path_inj & HA).
        apply (IH A b e). rewrite (Hkey _ _ _ Hin HA). apply elem_of_child. exists (Lit seg). cbn. by rewrite bool_decide_eq_true_2. }
      assert (HX : best_match n (seg :: rest) (snd <$> head (child is_multi n))).
      { destruct (snd <$> head (child is_multi n)) as [e|] eqn:E.
        - exists [], true. split; [by apply multi_child|]. split; [apply key_matches_cons; auto|].
          intros A' b' e' Hin2 [[-> _]|(A2 & -> & Hm2)]%key_matches_cons; cbn; [lia|]. by destruct (HN _ _ _ Hin2).
        - intros A b e Hin [[-> ->]|(A2 & -> & Hm2)]%key_matches_cons; [by apply (no_multi_child n e)|by apply (HN _ _ _ Hin)]. }
      destruct (bool_decide _); exact HX. }
  induction Hxs as [|seg xs Hseg Hxs IH].
  - destruct slash; [|intros; apply matchPath_end]. intros n Hn. change (request_segments [] true) with [""].
    apply Hstep; [intros; apply matchPath_end|done| |].
    + intros A b e _ [? _]%Forall_cons. done.
    + intros A b e Hin. destruct (literal_child n _ A b e Hn Hin) as [_ [Hp _]%Forall_cons]. done.
  - intros n Hn. change (request_segments (seg :: xs) slash) with (seg :: request_segments xs slash).
    destruct (segment_key_plain seg (request_segments xs slash) Hseg) as [Hk _]. apply Hstep; done.
Qed.
End Plain.

(** ** The gateway's mux *)

Lemma request_path_segments xs slash : xs <> [] -> all_plain xs ->
  path_segments (request_path xs slash) = request_segments xs slash.
Proof. intros Hne Hxs. unfold path_segments. by rewrite split_request. Qed.

Lemma request_segments_plain A xs slash : all_plain A -> request_segments xs slash = A -> slash = false /\ A = xs.
Proof.
  unfold request_segments. destruct slash; intros HA <-; [|by rewrite app_nil_r].
  apply Forall_app in HA as [_ [? _]%Forall_cons]. done.
Qed.

(** A plain pattern that matches a request path is a prefix of it, and the request decides
    which of the two patterns of a route matches. *)
Lemma key_matches_prefix A b xs slash : all_plain A -> key_matches A b (request_segments xs slash) ->
  A `prefix_of` xs /\ b = slash || negb (bool_decide (A = xs)).
Proof.
  intros HA. destruct b; cbn.
  - intros (r & Hr & E). unfold request_segments in E. destruct slash.
    + destruct r as [|y r _] using rev_ind; [done|]. rewrite app_assoc in E. apply app_inj_tail in E as [-> _].
      split; [by exists r|done].
    + rewrite app_nil_r in E. subst xs. split; [by exists r|]. rewrite bool_decide_eq_false_2; [done|].
      intros E%(f_equal length). rewrite length_app in E. destruct r; [done|cbn in E; lia].
  - intros [-> ->]%request_segments_plain; [|done]. by rewrite bool_decide_eq_true_2.
Qed.

Lemma prefix_key_matches A xs slash : A `prefix_of` xs ->
  key_matches A (slash || negb (bool_decide (A = xs))) (request_segments xs slash).
Proof.
  intros [r ->]. unfold request_segments. destruct slash; cbn [orb].
  - exists (r ++ [""]). split; [by destruct r|]. by rewrite app_assoc.
  - rewrite app_nil_r. destruct r as [|y r]; [rewrite app_nil_r; by rewrite bool_decide_eq_true_2|].
    rewrite bool_decide_eq_false_2; [by exists (y :: r)|].
    intros E%(f_equal length). rewrite length_app in E. cbn in E. lia.
Qed.

(** ** The reference: which endpoint a request belongs to *)

Section Reference.
Variable sys : list string -> option Endpoint.
Variable routes : list (RouteConfig * list string).

(** The route with the longest path that lists the method and whose path is the request's
    or a parent of it. *)
Fixpoint longest_route (i : nat) (rs : list (RouteConfig * list string)) (m : string) (xs : list string) :
    option (nat * list string) :=
  match rs with
  | [] => None
  | (rc, A) :: rs' =>
      let later := longest_route (S i) rs' m xs in
      if bool_decide (m ∈ route_methods rc) && bool_decide (A `prefix_of` xs) then
        match later with
        | Some (j, B) => if (length A <? length B)%nat then later else Some (i, A)
        | None => Some (i, A)
        end
      else later
  end.

(** The system endpoints answer GET, at their exact paths. *)
Definition system_at (m : string) (xs : list string) (slash : bool) : option Endpoint :=
  if bool_decide (m = "GET") && negb slash then sys xs else None.

(** The endpoint for one method. *)
Definition endpoint_at (xs : list string) (slash : bool) (m : string) : option Endpoint :=
  match system_at m xs slash with
  | Some ep => Some ep
  | None => (fun x => RouteEndpoint (fst x)) <$> longest_route 0 routes m xs
  end.

(** The methods that may serve a request, in order: its own, GET for HEAD, and any. *)
Definition serving_methods (method : string) : list string :=
  method :: (if bool_decide (method = "HEAD") then ["GET"] else []) ++ [""].

Definition all_methods : list string := "GET" :: concat ((fun r => route_methods (fst r)) <$> routes).

Definition spec_dispatch (method : string) (xs : list string) (slash : bool) : Found (H := Endpoint) :=
  match head (omap (endpoint_at xs slash) (serving_methods method)) with
  | Some ep => FoundHandler ep
  | None =>
      if existsb (fun m => negb (bool_decide (m = "")) && bool_decide (is_Some (endpoint_at xs slash m))) all_methods
      then MethodNotAllowed else NotFound
  end.

Lemma longest_route_spec m xs : forall rs i,
  match longest_route i rs m xs with
  | Some (k, A) => (exists j rc, k = (i + j)%nat /\ rs !! j = Some (rc, A) /\ m ∈ route_methods rc) /\ A `prefix_of` xs /\
      forall j rc B, rs !! j = Some (rc, B) -> m ∈ route_methods rc -> B `prefix_of` xs -> (length B <= length A)%nat
  | None => forall j rc B, rs !! j = Some (rc, B) -> m ∈ route_methods rc -> ~ B `prefix_of` xs
  end.
Proof.
  induction rs as [|[rc0 A0] rs IH]; intros i; [by intros [|j]|]. specialize (IH (S i)). cbn [longest_route].
  destruct (longest_route (S i) rs m xs) as [[k B]|].
  - destruct IH as ((j & rc & -> & Hj & Hm) & Hp & Hl).
    assert (HR : exists j' rc, (S i + j)%nat = (i + j')%nat /\ ((rc0, A0) :: rs) !! j' = Some (rc, B) /\ m ∈ route_methods rc)
      by (exists (S j), rc; split; [lia|done]).
    destruct (bool_decide (m ∈ _) && _) eqn:E.
    + apply andb_true_iff in E as [E1%bool_decide_eq_true E2%bool_decide_eq_true].
      destruct (length A0 <? length B)%nat eqn:L; [apply Nat.ltb_lt in L|apply Nat.ltb_ge in L].
      * split; [done|]. split; [done|]. intros [|j'] rc' B' Hj'; [injection Hj' as <- <-; lia|by apply (Hl j')].
      * split; [exists O, rc0; split; [lia|done]|]. split; [done|].
        intros [|j'] rc' B' Hj'; [injection Hj' as <- <-; lia|]. intros Hm' Hp'. etrans; [by apply (Hl j' rc')|done].
    + split; [done|]. split; [done|]. intros [|j'] rc' B' Hj' Hm' Hp'; [|by apply (Hl j' rc')]. injection Hj' as <- <-.
      by rewrite !bool_decide_eq_true_2 in E.
  - destruct (bool_decide (m ∈ _) && _) eqn:E.
    + apply andb_true_iff in E as [E1%bool_decide_eq_true E2%bool_decide_eq_true].
      split; [exists O, rc0; split; [lia|done]|]. split; [done|].
      intros [|j'] rc' B' Hj' Hm' Hp'; [injection Hj' as <- <-; lia|by destruct (IH j' rc' B')].
    + intros [|j'] rc' B' Hj' Hm' Hp'; [|by apply (IH j' rc' B')]. injection Hj' as <- <-.
      by rewrite !bool_decide_eq_true_2 in E.
Qed.
End Reference.

Section Gateway.
(** The mux of a gateway: GET patterns for the system endpoints, and two patterns
    for each method of each route, all different. *)
Variable mux : ServeMux (H := Endpoint).
Variable sys : list string -> option Endpoint.
Variable routes : list (RouteConfig * list string).
Hypothesis mux_elem : forall e, e ∈ mux <->
  (exists A ep, sys A = Some ep /\ e = (key_pattern (mkKey "GET" A false), ep)) \/
  (exists i rc A m b, routes !! i = Some (rc, A) /\ m ∈ route_methods rc /\ e = (key_pattern (mkKey m A b), RouteEndpoint i)).
Hypothesis mux_fun : forall e1 e2, e1 ∈ mux -> e2 ∈ mux -> fst e1 = fst e2 -> e1 = e2.
Hypothesis sys_plain : forall A ep, sys A = Some ep -> all_plain A.
Hypothesis routes_plain : forall i rc A, routes !! i = Some (rc, A) -> all_plain A.

Abbreviation longest m xs := (longest_route 0 routes m xs).

Lemma elem_of_method_node host m res e : (res, e) ∈ method_node mux host m <->
  res = pat_segments (fst e) /\ e ∈ mux /\ pat_host (fst e) = host /\ pat_method (fst e) = m.
Proof.
  unfold method_node. rewrite list_elem_of_fmap. split.
  - intros (e' & [= -> ->] & Hin). apply list_elem_of_filter in Hin as [[? ?] ?]. done.
  - intros (-> & Hin & Hh & Hm). exists e. split; [done|]. by apply list_elem_of_filter.
Qed.

Lemma gateway_plain_node host m : plain_node (method_node mux host m).
Proof.
  apply Forall_forall. intros [res e] (-> & Hin & _ & _)%elem_of_method_node. cbn.
  apply mux_elem in Hin as [(A & ep & Hs & ->)|(i & rc & A & m' & b & Hi & _ & ->)].
  - exists A, false. split; [done|]. by eapply sys_plain.
  - exists A, b. split; [done|]. by eapply routes_plain.
Qed.

Lemma host_node host m : host <> "" -> method_node mux host m = [].
Proof.
  intros Ho. apply elem_of_nil_inv. intros [res e] (_ & Hin & Hh & Hm)%elem_of_method_node.
  apply mux_elem in Hin as [(A & ep & Hs & ->)|(i & rc & A & m' & b & Hi & _ & ->)]; by cbn in Hh.
Qed.

Lemma elem_of_node m A b e : (lit_path A b, e) ∈ method_node mux "" m <->
  (m = "GET" /\ b = false /\ exists ep, sys A = Some ep /\ e = (key_pattern (mkKey "GET" A false), ep)) \/
  (exists i rc, routes !! i = Some (rc, A) /\ m ∈ route_methods rc /\ e = (key_pattern (mkKey m A b), RouteEndpoint i)).
Proof.
  rewrite elem_of_method_node. split.
  - intros (Hl & Hin & _ & Hm).
    apply mux_elem in Hin as [(A' & ep & Hs & ->)|(i & rc & A' & m' & b' & Hi & Hm' & ->)];
      apply lit_path_inj in Hl as [-> ->]; cbn in Hm; subst m; [left|right]; eauto.
  - intros [(-> & -> & ep & Hs & ->)|(i & rc & Hi & Hm & ->)]; (split; [done|]); (split; [|done]); apply mux_elem.
    + left. eauto.
    + right. by eexists i, rc, A, m, b.
Qed.

(** What the search finds below a method: a system endpoint, or the longest route. *)
Definition node_found (m : string) (xs : list string) (slash : bool) : option (pattern * Endpoint) :=
  match system_at sys m xs slash with
  | Some ep => Some (key_pattern (mkKey "GET" xs false), ep)
  | None => (fun x => (key_pattern (mkKey m (snd x) (slash || negb (bool_decide (snd x = xs)))), RouteEndpoint (fst x))) <$>
      longest m xs
  end.

Lemma longest_unique m xs i rc A : routes !! i = Some (rc, A) -> m ∈ route_methods rc -> A `prefix_of` xs ->
  (forall j rc' B, routes !! j = Some (rc', B) -> m ∈ route_methods rc' -> B `prefix_of` xs -> (length B <= length A)%nat) ->
  longest m xs = Some (i, A).
Proof.
  intros Hi Hm Hp Hl. pose proof (longest_route_spec m xs routes 0) as HS.
  destruct (longest m xs) as [[k B]|]; [|by destruct (HS i rc A)].
  destruct HS as ((j & rc' & -> & Hj & Hm') & Hp' & Hl').
  specialize (Hl j rc' B Hj Hm' Hp'). specialize (Hl' i rc A Hi Hm Hp).
  assert (A = B) as <- by (destruct (prefix_weak_total A B xs Hp Hp') as [Hx|Hx];
    [by apply prefix_length_eq|symmetry; apply prefix_length_eq; [done|lia]]).
  assert (HE : (key_pattern (mkKey m A true), RouteEndpoint j) = (key_pattern (mkKey m A true), RouteEndpoint i)).
  { apply mux_fun; [..|done]; apply mux_elem; right; [by eexists j, rc', A, m, true|by eexists i, rc, A, m, true]. }
  by injection HE as ->.
Qed.

Lemma system_at_Some m xs slash ep : system_at sys m xs slash = Some ep -> m = "GET" /\ slash = false /\ sys xs = Some ep.
Proof. unfold system_at. case_bool_decide; [|done]. by destruct slash. Qed.

Lemma node_found_spec m xs slash : all_plain xs ->
  matchPath (request_segments xs slash) (method_node mux "" m) = node_found m xs slash.
Proof.
  intros Hxs. pose proof (matchPath_best xs slash Hxs _ (gateway_plain_node "" m)) as HB. unfold node_found.
  assert (HI : forall i rc A, routes !! i = Some (rc, A) -> m ∈ route_methods rc ->
    (lit_path A (slash || negb (bool_decide (A = xs))), (key_pattern (mkKey m A (slash || negb (bool_decide (A = xs)))), RouteEndpoint i))
      ∈ method_node mux "" m) by (intros; apply elem_of_node; right; eauto).
  destruct (matchPath _ _) as [e|]; cbn [best_match] in HB.
  - destruct HB as (A & b & [(-> & -> & ep & Hs & ->)|(i & rc & Hi & Hr & ->)]%elem_of_node & Hm & Hbest).
    { cbn in Hm. apply request_segments_plain in Hm as [-> ->]; [|by eapply sys_plain].
      unfold system_at. rewrite bool_decide_eq_true_2 by done. cbn. by rewrite Hs. }
    apply key_matches_prefix in Hm as [Hp Hb]; [|by eapply routes_plain].
    destruct (system_at sys m xs slash) as [ep|] eqn:Es.
    + apply system_at_Some in Es as (-> & -> & Hs). f_equal.
      assert (Hin : (lit_path xs false, (key_pattern (mkKey "GET" xs false), ep)) ∈ method_node mux "" "GET")
        by (apply elem_of_node; left; eauto).
      specialize (Hbest xs false _ Hin ltac:(unfold request_segments; by rewrite app_nil_r)).
      assert (A = xs) as -> by (by apply prefix_length_eq). rewrite bool_decide_eq_true_2 in Hb by done. subst b.
      apply mux_fun; [apply mux_elem; right; by eexists i, rc, xs, "GET", false|apply mux_elem; left; eauto|done].
    + rewrite (longest_unique m xs i rc A Hi Hr Hp); [cbn; by rewrite <- Hb|].
      intros j rc' B Hj Hm' HBx. eapply Hbest; [by apply (HI j rc' B)|]. by apply prefix_key_matches.
  - destruct (system_at sys m xs slash) as [ep|] eqn:Es.
    + apply system_at_Some in Es as (-> & -> & Hs). exfalso. eapply (HB xs false); [apply elem_of_node; left; eauto|].
      cbn. unfold request_segments. by rewrite app_nil_r.
    + pose proof (longest_route_spec m xs routes 0) as HS. destruct (longest m xs) as [[k A]|]; [|done]. exfalso.
      destruct HS as ((j & rc' & -> & Hj & Hm') & Hp' & _). eapply HB; [by apply (HI j rc' A)|]. by apply prefix_key_matches.
Qed.

(** The search over the methods that may serve the request. *)
Definition search (ms : list string) (xs : list string) (slash : bool) : option (pattern * Endpoint) :=
  head (omap (fun m => node_found m xs slash) ms).

Lemma tree_match_spec host method xs slash : xs <> [] -> all_plain xs ->
  tree_match mux host method (request_path xs slash) = search (serving_methods method) xs slash.
Proof.
  intros Hne Hxs.
  assert (HM : matchMethodAndPath mux "" method (request_path xs slash) = search (serving_methods method) xs slash).
  { unfold matchMethodAndPath, search, serving_methods. rewrite !request_path_segments, !node_found_spec by done.
    cbn [omap list_omap]. destruct (node_found method xs slash); [done|]. cbn [first_some].
    case_bool_decide; cbn [app omap list_omap first_some]; [destruct (node_found "GET" xs slash); [done|]; cbn [first_some]|];
      by destruct (node_found "" xs slash). }
  unfold tree_match. case_bool_decide as Hh; [done|]. rewrite HM. unfold matchMethodAndPath.
  rewrite !(host_node host) by done. rewrite !matchPath_nil. by destruct (bool_decide _).
Qed.

(** A route found is an exact match if its path is that of the request. *)
Lemma exactMatch_node m xs slash : xs <> [] -> all_plain xs ->
  exactMatch (node_found m xs slash) (request_path xs slash) =
    match system_at sys m xs slash with
    | Some _ => true
    | None => match longest m xs with Some (_, A) => bool_decide (A = xs) | None => false end
    end.
Proof.
  intros Hne Hxs. unfold node_found. destruct (system_at sys m xs slash) as [ep|].
  { cbn [exactMatch key_pattern key_segs key_subtree pat_segments]. by rewrite ends_multi_lit. }
  pose proof (longest_route_spec m xs routes 0) as HS. destruct (longest m xs) as [[k A]|]; [|done].
  destruct HS as (_ & [r ->] & _). cbn [fmap option_fmap option_map exactMatch fst snd key_pattern key_segs key_subtree pat_segments].
  rewrite ends_multi_lit, HasSuffix_request, request_path_segments by done. destruct slash; cbn [orb negb].
  - apply bool_decide_ext. unfold lit_path, request_segments. rewrite !length_app, length_fmap. cbn. split.
    + intros Hl. destruct r; [by rewrite app_nil_r|cbn in Hl; lia].
    + intros E%(f_equal length). rewrite length_app in E. lia.
  - by case_bool_decide.
Qed.

(** A request of a plain path is never redirected: if the path with the slash is the path of a route,
    so is the path without it. *)
Lemma search_exact ms xs : xs <> [] -> all_plain xs ->
  exactMatch (search ms xs true) (request_path xs true) = true ->
  exactMatch (search ms xs false) (request_path xs false) = true.
Proof.
  intros Hne Hxs. induction ms as [|m ms IH]; [done|]. unfold search. cbn [omap list_omap].
  pose proof (exactMatch_node m xs true Hne Hxs) as E1. pose proof (exactMatch_node m xs false Hne Hxs) as E2.
  assert (Ht : system_at sys m xs true = None) by (unfold system_at; by rewrite andb_false_r).
  rewrite Ht in E1. unfold node_found in *. rewrite Ht in *.
  destruct (system_at sys m xs false); destruct (longest m xs) as [[k A]|]; cbn in *; try done; try congruence.
Qed.

Lemma no_redirect host method xs slash : xs <> [] -> all_plain xs ->
  matchOrRedirect mux host method (request_path xs slash) = Some (search (serving_methods method) xs slash).
Proof.
  intros Hne Hxs. unfold matchOrRedirect. rewrite tree_match_spec, HasSuffix_request by done.
  destruct slash; [by rewrite andb_false_r|].
  assert (Hp : request_path xs false +:+ "/" = request_path xs true) by (unfold request_path; by rewrite string_app_nil_r).
  rewrite Hp, tree_match_spec by done. pose proof (search_exact (serving_methods method) xs Hne Hxs) as HS.
  destruct (exactMatch (search _ xs true) _); [by rewrite HS|]. by rewrite andb_false_r.
Qed.

Lemma node_found_endpoint m xs slash : snd <$> node_found m xs slash = endpoint_at sys routes xs slash m.
Proof. unfold node_found, endpoint_at. destruct (system_at _ _ _ _); [done|]. by destruct (longest m xs) as [[k A]|]. Qed.

Lemma search_endpoint ms xs slash : snd <$> search ms xs slash = head (omap (endpoint_at sys routes xs slash) ms).
Proof.
  unfold search. induction ms as [|m ms IH]; [done|]. cbn [omap list_omap]. rewrite <- (node_found_endpoint m xs slash).
  by destruct (node_found m xs slash).
Qed.

(** The methods with a pattern that matches. *)
Lemma some_method_spec xs slash : xs <> [] -> all_plain xs ->
  some_method_matches mux "" (request_path xs slash) =
    existsb (fun m => negb (bool_decide (m = "")) && bool_decide (is_Some (endpoint_at sys routes xs slash m))) (all_methods routes).
Proof.
  intros Hne Hxs. unfold some_method_matches. rewrite request_path_segments by done. apply eq_bool_prop_intro.
  assert (HE : forall m, bool_decide (is_Some (matchPath (request_segments xs slash) (method_node mux "" m))) =
    bool_decide (is_Some (endpoint_at sys routes xs slash m))).
  { intros m. apply bool_decide_ext. by rewrite node_found_spec, <- node_found_endpoint, fmap_is_Some. }
  rewrite !Is_true_true, !existsb_exists. setoid_rewrite HE. split; intros (m & Hin & Hm); exists m; (split; [|exact Hm]).
  - apply list_elem_of_In, list_elem_of_fmap in Hin as (e & -> & He). apply list_elem_of_In.
    apply mux_elem in He as [(A & ep & _ & ->)|(i & rc & A & m & b & Hi & Hr & ->)]; [left|]. right.
    apply elem_of_concat. exists (route_methods rc). split; [done|]. apply list_elem_of_fmap. exists (rc, A).
    split; [done|]. by eapply list_elem_of_lookup_2.
  - apply andb_true_iff in Hm as [_ [ep He]%bool_decide_eq_true]. rewrite <- node_found_endpoint in He.
    apply fmap_Some in He as ([p h] & He & _). rewrite <- node_found_spec in He by done.
    apply list_elem_of_In, list_elem_of_fmap. pose proof (matchPath_best xs slash Hxs _ (gateway_plain_node "" m)) as HB.
    rewrite He in HB. destruct HB as (A & b & (_ & Hmux & _ & Hm)%elem_of_method_node & _). by exists (p, h).
Qed.

Lemma matchingMethods_spec host xs slash : xs <> [] -> all_plain xs ->
  matchingMethods mux host (request_path xs slash) =
    existsb (fun m => negb (bool_decide (m = "")) && bool_decide (is_Some (endpoint_at sys routes xs slash m))) (all_methods routes).
Proof.
  intros Hne Hxs. unfold matchingMethods. rewrite HasSuffix_request by done.
  assert (HH : forall p, negb (bool_decide (host = "")) && some_method_matches mux host p = false).
  { intros p. case_bool_decide as Hh; [done|]. cbn [negb andb]. apply not_true_iff_false. unfold some_method_matches.
    rewrite existsb_exists. intros (m & _ & [_ Hm]%andb_true_iff). rewrite (host_node host m), matchPath_nil in Hm by done.
    apply bool_decide_eq_true in Hm. by destruct Hm. }
  rewrite !HH. cbn [orb]. rewrite some_method_spec by done. destruct slash; cbn [negb andb orb]; [by rewrite orb_false_r|].
  assert (Hp : request_path xs false +:+ "/" = request_path xs true) by (unfold request_path; by rewrite string_app_nil_r).
  rewrite Hp, some_method_spec by done. apply eq_bool_prop_intro.
  rewrite !Is_true_true, orb_true_iff, !existsb_exists. split; [|by left]. intros [?|(m & Hin & Hm)]; [done|].
  exists m. split; [done|]. rewrite !andb_true_iff, !bool_decide_eq_true in *. destruct Hm as [Hm1 Hm2]. split; [done|].
  unfold endpoint_at in *. assert (Ht : system_at sys m xs true = None) by (unfold system_at; by rewrite andb_false_r).
  rewrite Ht in Hm2. by destruct (system_at sys m xs false).
Qed.

Lemma findHandler_spec urlHost rHost method xs slash : xs <> [] -> all_plain xs ->
  findHandler mux urlHost rHost method (request_path xs slash) = spec_dispatch sys routes method xs slash.
Proof.
  intros Hne Hxs. assert (HH : forall host,
    handler_of mux host (request_path xs slash) (search (serving_methods method) xs slash) = spec_dispatch sys routes method xs slash).
  { intros host. unfold handler_of, spec_dispatch. rewrite <- search_endpoint by done.
    destruct (search _ xs slash) as [[p h]|]; [done|]. cbn [fmap option_fmap option_map]. by rewrite matchingMethods_spec. }
  unfold findHandler. rewrite cleanPath_request, !no_redirect, tree_match_spec by done.
  rewrite (bool_decide_eq_true_2 (request_path xs slash = _)) by done. cbn [negb]. by destruct (bool_decide (method = "CONNECT")).
Qed.
End Gateway.

(** ** The mux BuildRouter makes *)

(** The endpoint with an exact path of its own. *)
Definition system_of (metrics : option (list string)) (xs : list string) : option Endpoint :=
  if bool_decide (xs = ["health"]) then Some SystemHealth
  else if bool_decide (xs = ["ready"]) then Some SystemReady
  else if bool_decide (metrics = Some xs) then Some SystemMetrics
  else None.

Lemma elem_of_zip_app {A B} (l1 l2 : list A) (k1 k2 : list B) e : length l1 = length k1 ->
  e ∈ zip (l1 ++ l2) (k1 ++ k2) <-> e ∈ zip l1 k1 \/ e ∈ zip l2 k2.
Proof. intros Hl. by rewrite zip_with_app, elem_of_app by done. Qed.

Lemma elem_of_zip_const {A B} (l : list A) (ks : list B) (h : B) a b : length l = length ks -> Forall (eq h) ks ->
  (a, b) ∈ zip l ks <-> a ∈ l /\ b = h.
Proof.
  intros Hl Hk. revert l Hl. induction Hk as [|k ks <- _ IH]; intros [|x l] Hl; try done.
  - split; [by intros ?%elem_of_nil|by intros [?%elem_of_nil _]].
  - cbn [zip_with]. rewrite !elem_of_cons, IH by (by injection Hl). naive_solver.
Qed.

(** Every pattern of a route has the route's endpoint. *)
Lemma route_patterns_endpoint i rc : Forall (eq (RouteEndpoint i)) (route_patterns i rc).*2.
Proof.
  unfold route_patterns. destruct (rc_Methods rc) as [|m ms]; [repeat constructor|].
  generalize (m :: ms). intros l. induction l as [|m' l IH]; [constructor|]. rewrite fmap_cons. cbn. by repeat constructor.
Qed.

Lemma elem_of_route_keys rc segs k : k ∈ route_keys rc segs <-> exists m b, m ∈ route_methods rc /\ k = mkKey m segs b.
Proof.
  unfold route_keys. rewrite elem_of_concat. setoid_rewrite list_elem_of_fmap. unfold method_keys. split.
  - intros (l & Hk & m & -> & Hm). rewrite !elem_of_cons in Hk. destruct Hk as [->|[->|?%elem_of_nil]]; [eauto..|done].
  - intros (m & b & Hm & ->). eexists. split; [|by exists m]. destruct b; [left|right; left].
Qed.

Lemma elem_of_config_mux rcs segss : Forall2 plain_route rcs segss -> forall i e,
  e ∈ zip (key_pattern <$> config_keys rcs segss) (config_patterns i rcs).*2 <->
  exists j rc A m b, zip rcs segss !! j = Some (rc, A) /\ m ∈ route_methods rc /\
    e = (key_pattern (mkKey m A b), RouteEndpoint (i + j)).
Proof.
  induction 1 as [|rc segs rcs segss Hrc _ IH]; intros i e.
  { split; [by intros ?%elem_of_nil|by intros (j & ? & ? & ? & ? & ? & _)]. }
  unfold config_keys. cbn [zip_with concat config_patterns]. fold (config_keys rcs segss).
  pose proof (Forall2_length _ _ _ (route_patterns_plain (fun _ => false) i rc segs Hrc)) as HL.
  rewrite (fmap_app key_pattern), (fmap_app snd), elem_of_zip_app by (by rewrite !length_fmap).
  destruct e as [p h]. rewrite (elem_of_zip_const _ _ (RouteEndpoint i)), IH by
    first [by rewrite !length_fmap|apply route_patterns_endpoint].
  rewrite list_elem_of_fmap. setoid_rewrite elem_of_route_keys. split.
  - intros [[(k & -> & m & b & Hm & ->) ->]|(j & rc' & A & m & b & Hj & Hm & [= -> ->])].
    + exists O, rc, segs, m, b. by rewrite Nat.add_0_r.
    + exists (S j), rc', A, m, b. by rewrite Nat.add_succ_r.
  - intros ([|j] & rc' & A & m & b & Hj & Hm & [= -> ->]).
    + injection Hj as <- <-. left. rewrite Nat.add_0_r. split; [|done]. eexists. split; [done|]. eauto.
    + right. exists j, rc', A, m, b. by rewrite Nat.add_succ_r.
Qed.

Lemma elem_of_system_mux cfg metrics e : plain_metrics (Metrics cfg) metrics ->
  metrics <> Some ["health"] -> metrics <> Some ["ready"] ->
  e ∈ zip (key_pattern <$> system_keys metrics) (system_patterns cfg).*2 <->
  exists A ep, system_of metrics A = Some ep /\ e = (key_pattern (mkKey "GET" A false), ep).
Proof.
  intros Hm H1 H2. unfold system_keys, system_patterns, system_of, plain_metrics in *. split.
  - destruct metrics as [segs|].
    + destruct Hm as (-> & _). cbn. rewrite !elem_of_cons. intros [->|[->|[->|?%elem_of_nil]]]; [..|done].
      * by exists ["health"], SystemHealth.
      * by exists ["ready"], SystemReady.
      * exists segs, SystemMetrics. rewrite (bool_decide_eq_false_2 (segs = _)), (bool_decide_eq_false_2 (segs = _)) by congruence.
        by rewrite bool_decide_eq_true_2.
    + rewrite Hm. cbn. rewrite !elem_of_cons. intros [->|[->|?%elem_of_nil]]; [..|done].
      * by exists ["health"], SystemHealth.
      * by exists ["ready"], SystemReady.
  - intros (A & ep & Hs & ->). case_bool_decide as E1; [subst; injection Hs as <-; cbn; by left|].
    case_bool_decide as E2; [subst; injection Hs as <-; cbn; right; by left|].
    case_bool_decide as E3; [subst; injection Hs as <-|done]. destruct Hm as (-> & _). cbn. right. right. by left.
Qed.

(** A list of different keys is a function. *)
Lemma zip_keys_fun {B} (ks : list plain_key) (hs : list B) e1 e2 : NoDup ks ->
  e1 ∈ zip (key_pattern <$> ks) hs -> e2 ∈ zip (key_pattern <$> ks) hs -> fst e1 = fst e2 -> e1 = e2.
Proof.
  intros Hnd [i Hi]%list_elem_of_lookup_1 [j Hj]%list_elem_of_lookup_1 E.
  apply lookup_zip_with_Some in Hi as (p1 & h1 & -> & Hp1 & Hh1), Hj as (p2 & h2 & -> & Hp2 & Hh2). cbn in E. subst p2.
  apply (NoDup_fmap_2 key_pattern) in Hnd. pose proof (NoDup_lookup _ _ _ _ Hnd Hp1 Hp2). by simplify_eq.
Qed.

(** The metrics path of a configuration that builds is not that of another endpoint. *)
Lemma compatible_metrics metrics rcs segss : compatible (gateway_keys metrics rcs segss) = true ->
  metrics <> Some ["health"] /\ metrics <> Some ["ready"].
Proof.
  unfold gateway_keys, compatible. rewrite compatible_after_app. intros [Hc _]%andb_true_iff.
  split; intros ->; vm_compute in Hc; discriminate.
Qed.

(** ** Properties *)

Section Properties.
Context `{UL : URLLib} (un : string -> bool).

(** The search of the mux is the reference, on the router of a plain configuration. *)
Lemma findHandler_reference now cfg segss metrics rt logs urlHost rHost method xs slash :
  Forall2 plain_route (Routes cfg) segss -> plain_metrics (Metrics cfg) metrics ->
  BuildRouter un now cfg = Ret (rt, logs) -> xs <> [] -> all_plain xs ->
  findHandler (rt_mux rt) urlHost rHost method (request_path xs slash) =
    spec_dispatch (system_of metrics) (zip (Routes cfg) segss) method xs slash.
Proof.
  intros Hr Hm HB Hne Hxs. pose proof (BuildRouter_keys un now cfg segss metrics Hr Hm) as HK. rewrite HB in HK.
  destruct (compatible _) eqn:HC; [|by destruct HK]. destruct HK as (rts & logs' & _ & HK). revert HK.
  set (mux := zip _ _). intros [= -> _]. cbn [rt_mux]. clear HB. unfold mux. clear mux.
  destruct (compatible_metrics _ _ _ HC) as [Hh Hrd]. apply findHandler_spec; [| | | |done..].
  - intros e. unfold gateway_keys. rewrite (fmap_app key_pattern), elem_of_zip_app; [|rewrite !length_fmap; symmetry;
      exact (Forall2_length _ _ _ (system_patterns_plain un cfg metrics Hm))].
    by rewrite (elem_of_config_mux _ _ Hr 0), elem_of_system_mux by done.
  - intros e1 e2. apply zip_keys_fun. by apply compatible_NoDup.
  - unfold system_of. intros A ep. case_bool_decide; [subst; repeat constructor|]. case_bool_decide; [subst; repeat constructor|].
    case_bool_decide; [subst|done]. by destruct Hm as (_ & _ & _ & ?).
  - intros i rc A Hi. apply lookup_zip_with_Some in Hi as (rc' & A' & [= <- <-] & H1 & H2).
    exact (pr_plain _ _ (Forall2_lookup_lr _ _ _ _ _ _ Hr H1 H2)).
Qed.

(** C5: a request reaches the route with the longest matching path.  In the
    router built from a configuration of routes with any methods on plain paths, for a
    request of any method (CONNECT included), any host and any plain path with or without a slash
    at the end, the search of the mux is [spec_dispatch]: the endpoints of the request's own method are
    tried first, then those of GET for a HEAD request, then those of the routes without methods; for each
    a system endpoint at its exact path comes before the
    routes, and among the routes that list the method the one with the longest path that is
    the request's or a parent of it is taken.  When there is none the answer is
    405 if another method has an endpoint there and 404 otherwise, never a redirect. *)
Theorem dispatch_correct now cfg segss metrics rt logs urlHost rHost method xs slash :
  Forall2 plain_route (Routes cfg) segss -> plain_metrics (Metrics cfg) metrics ->
  BuildRouter un now cfg = Ret (rt, logs) -> xs <> [] -> all_plain xs ->
  findHandler (rt_mux rt) urlHost rHost method (request_path xs slash) =
    spec_dispatch (system_of metrics) (zip (Routes cfg) segss) method xs slash.
Proof. apply findHandler_reference. Qed.
End Properties.

(** ** Examples *)

Section Examples.
#[local] Existing Instance plain_url_lib.

Lemma dispatch_correct_witness :
  exists rt logs, BuildRouter (fun _ => false) 0 mixed_config = Ret (rt, logs) /\
    findHandler (rt_mux rt) "" "gw.example:8080" "POST" "/api/users/7" = FoundHandler (RouteEndpoint 1) /\
    findHandler (rt_mux rt) "" "gw.example:8080" "HEAD" "/api/users/" = FoundHandler (RouteEndpoint 0) /\
    findHandler (rt_mux rt) "" "gw.example:8080" "DELETE" "/api/users" = MethodNotAllowed /\
    findHandler (rt_mux rt) "" "gw.example:8080" "HEAD" "/health" = FoundHandler SystemHealth /\
    findHandler (rt_mux rt) "db.example:443" "gw.example:8080" "CONNECT" "/web/" = FoundHandler (RouteEndpoint 2).
Proof.
  destruct (BuildRouter (fun _ => false) 0 mixed_config) as [[rt logs]|msg] eqn:E; [|vm_compute in E; discriminate].
  set (segss := [["api"]; ["api"; "users"]; ["web"]]).
  assert (Hr : Forall2 plain_route (Routes mixed_config) segss).
  { repeat constructor; first [by right|vm_compute; congruence]. }
  assert (Hm : plain_metrics (Metrics mixed_config) (Some ["metrics"])).
  { cbn. split_and!; try (vm_compute; congruence). repeat constructor. }
  pose proof (fun url method xs slash => dispatch_correct (fun _ => false) 0 mixed_config segss (Some ["metrics"]) rt logs
    url "gw.example:8080" method xs slash Hr Hm E) as HD.
  exists rt, logs. split; [reflexivity|]. split; [|split; [|split; [|split]]].
  - exact (HD "" "POST" ["api"; "users"; "7"] false ltac:(discriminate) ltac:(repeat constructor)).
  - exact (HD "" "HEAD" ["api"; "users"] true ltac:(discriminate) ltac:(repeat constructor)).
  - exact (HD "" "DELETE" ["api"; "users"] false ltac:(discriminate) ltac:(repeat constructor)).
  - exact (HD "" "HEAD" ["health"] false ltac:(discriminate) ltac:(repeat constructor)).
  - exact (HD "db.example:443" "CONNECT" ["web"] true ltac:(discriminate) ltac:(repeat constructor)).
Defined.
End Examples.
