(* ===== verification/Json.v ===== *)
(** * encoding/json: the documents the handlers write, and their decoding

    The values the handlers encode, a decoder for such documents as the
    reference, and the round trip: what a client decodes is what the handler
    encoded, whatever texts (identifiers, paths, headers of the client) are in
    it.  Texts are ASCII here; the encoding of other texts is a parameter of the model. *)

From S2P Require Import Prelude GoLib Http Mux Patterns.
From Stdlib Require Import Ascii.

(** ** Decimal numbers *)

Lemma digit_value_char x : (x < 10)%N -> digit_value (pretty_N_char x) = Some (Z.of_N x).
Proof.
  intros Hx. assert (Hc : (x = 0 \/ x = 1 \/ x = 2 \/ x = 3 \/ x = 4 \/ x = 5 \/ x = 6 \/ x = 7 \/ x = 8 \/ x = 9)%N) by lia.
  by repeat (destruct Hc as [->|Hc]; [reflexivity|]); subst.
Qed.

Lemma digits_value_go x : forall s, digits_value 0 (pretty_N_go x s) = digits_value (Z.of_N x) s.
Proof.
  induction (N.lt_wf_0 x) as [x _ IH]; intros s. assert (x = 0 \/ 0 < x)%N as [->|Hx] by lia; [done|].
  rewrite pretty_N_go_step, IH by first [done|by apply N.div_lt]. cbn [digits_value].
  rewrite digit_value_char by (by apply N.mod_lt). f_equal. pose proof (N.div_mod x 10). lia.
Qed.

(** The digits of a number. *)
Definition is_digit (c : ascii) : bool := bool_decide (digit_value c <> None).

Lemma pretty_go_digits x : forall s, forall_string is_digit s = true -> forall_string is_digit (pretty_N_go x s) = true.
Proof.
  induction (N.lt_wf_0 x) as [x _ IH]; intros s Hs. assert (x = 0 \/ 0 < x)%N as [->|Hx] by lia; [done|].
  rewrite pretty_N_go_step by done. apply IH; [by apply N.div_lt|]. cbn [forall_string]. rewrite Hs, andb_true_r.
  unfold is_digit. by rewrite digit_value_char by (by apply N.mod_lt).
Qed.

Lemma pretty_digits x : forall_string is_digit (pretty x) = true /\ pretty x <> "" /\ unsigned_value (pretty x) = Some (Z.of_N x).
Proof.
  unfold pretty, pretty_N. case_decide as Hx; [by subst|]. pose proof (digits_value_go x "") as HV.
  split; [by apply pretty_go_digits|]. unfold unsigned_value.
  destruct (pretty_N_go x "") eqn:E; [|by rewrite HV]. cbn in HV. injection HV as HV. lia.
Qed.

(** [itoa]: a sign and digits. *)
Lemma itoa_sign z : itoa z = (if z <? 0 then "-" else "") +:+ pretty (Z.abs_N z).
Proof. destruct z; reflexivity. Qed.

(** What is printed is read again. *)
Lemma Atoi_itoa z : in_int64 z -> Atoi (itoa z) = Some z.
Proof.
  intros [H1 H2]. unfold Atoi. rewrite itoa_sign. destruct (pretty_digits (Z.abs_N z)) as (Hd & Hne & Hv).
  assert (HR : (int64_min <=? z) && (z <=? int64_max) = true) by (apply andb_true_iff; split; by apply Z.leb_le).
  destruct (z <? 0) eqn:Ez.
  - apply Z.ltb_lt in Ez. change ("-" +:+ ?a) with (String "-" a). cbv iota beta. rewrite Hv. cbn [fmap option_fmap option_map].
    assert (- Z.of_N (Z.abs_N z) = z) as -> by lia. by rewrite HR.
  - apply Z.ltb_ge in Ez. change ("" +:+ ?a) with a.
    destruct (pretty (Z.abs_N z)) as [|c s] eqn:E; [done|]. cbn [forall_string] in Hd. apply andb_true_iff in Hd as [Hc _].
    assert (Hz : Z.of_N (Z.abs_N z) = z) by lia. rewrite Hz in Hv.
    destruct c as [[] [] [] [] [] [] [] []]; cbv iota; try (rewrite Hv; by rewrite HR); discriminate Hc.
Qed.

(** ** Values *)

Inductive json :=
  | JString (s : string)
  | JNumber (z : Z)
  | JObject (fields : list (string * json)).

(** Induction through the fields of objects. *)
Section Induction.
Variable P : json -> Prop.
Hypothesis HS : forall s, P (JString s).
Hypothesis HN : forall z, P (JNumber z).
Hypothesis HO : forall fields, Forall (fun f => P (snd f)) fields -> P (JObject fields).

Fixpoint json_induction (v : json) : P v :=
  match v with
  | JString s => HS s
  | JNumber z => HN z
  | JObject fields =>
      HO fields ((fix go (fs : list (string * json)) : Forall (fun f => P (snd f)) fs :=
        match fs with
        | [] => Forall_nil_2 _
        | f :: fs' => Forall_cons_2 _ f fs' (json_induction (snd f)) (go fs')
        end) fields)
  end.
End Induction.

Fixpoint json_encode (utf8 : string -> string) (v : json) : string :=
  match v with
  | JString s => json_quote utf8 s
  | JNumber z => itoa z
  | JObject fields => json_object ((fun f => (fst f, json_encode utf8 (snd f))) <$> fields)
  end.

(** Texts are ASCII and numbers fit an [int]. *)
Fixpoint json_ok (v : json) : bool :=
  match v with
  | JString s => forall_string is_ascii_byte s
  | JNumber z => (int64_min <=? z) && (z <=? int64_max)
  | JObject fields => forallb (fun f => forall_string is_ascii_byte (fst f) && json_ok (snd f)) fields
  end.

(** ** The decoder *)

Definition simple_escape (c : ascii) : option ascii :=
  let n := nat_of_ascii c in
  if (n =? 34)%nat || (n =? 92)%nat || (n =? 47)%nat then Some c
  else if Ascii.eqb c "n" then Some (ascii_of_nat 10)
  else if Ascii.eqb c "r" then Some (ascii_of_nat 13)
  else if Ascii.eqb c "t" then Some (ascii_of_nat 9)
  else if Ascii.eqb c "b" then Some (ascii_of_nat 8)
  else if Ascii.eqb c "f" then Some (ascii_of_nat 12)
  else None.

Definition cons_fst (c : ascii) (x : option (string * string)) : option (string * string) :=
  match x with Some (s, rest) => Some (String c s, rest) | None => None end.

(** The rest of a string literal up to its closing quote. *)
Fixpoint decode_string (s : string) : option (string * string) :=
  match s with
  | EmptyString => None
  | String c s' =>
      if Ascii.eqb c quote then Some (EmptyString, s')
      else if Ascii.eqb c backslash then
        match s' with
        | String "u" (String "0" (String "0" (String a (String b s'')))) =>
            match hex_value a, hex_value b with
            | Some x, Some y => if (16 * x + y <? 128)%nat then cons_fst (ascii_of_nat (16 * x + y)) (decode_string s'') else None
            | _, _ => None
            end
        | String e s'' => match simple_escape e with Some x => cons_fst x (decode_string s'') | None => None end
        | EmptyString => None
        end
      else if (nat_of_ascii c <? 32)%nat then None
      else cons_fst c (decode_string s')
  end%char.

Definition is_number_byte (c : ascii) : bool := is_digit c || Ascii.eqb c "-".

(** The longest beginning of digits and signs. *)
Fixpoint span_number (s : string) : string * string :=
  match s with
  | EmptyString => ("", "")
  | String c s' => if is_number_byte c then let '(a, b) := span_number s' in (String c a, b) else ("", s)
  end.

(** A value at the beginning of a text, and the text after it; the fields of an
    object up to its end. *)
Fixpoint json_decode (fuel : nat) (s : string) {struct fuel} : option (json * string) :=
  match fuel with
  | O => None
  | S fuel' =>
      match s with
      | EmptyString => None
      | String c s' =>
          if Ascii.eqb c quote then
            match decode_string s' with Some (t, rest) => Some (JString t, rest) | None => None end
          else if Ascii.eqb c "{" then
            match s' with
            | String "}" rest => Some (JObject [], rest)
            | _ => match decode_fields fuel' s' with Some (fs, rest) => Some (JObject fs, rest) | None => None end
            end
          else
            let '(digits, rest) := span_number s in
            match Atoi digits with Some z => Some (JNumber z, rest) | None => None end
      end
  end%char
with decode_fields (fuel : nat) (s : string) {struct fuel} : option (list (string * json) * string) :=
  match fuel with
  | O => None
  | S fuel' =>
      match s with
      | EmptyString => None
      | String q s0 =>
          if negb (Ascii.eqb q quote) then None else
          match decode_string s0 with
          | Some (k, String ":" s1) =>
              match json_decode fuel' s1 with
              | Some (v, String "," s2) =>
                  match decode_fields fuel' s2 with Some (fs, rest) => Some ((k, v) :: fs, rest) | None => None end
              | Some (v, String "}" rest) => Some ([(k, v)], rest)
              | _ => None
              end
          | _ => None
          end
      end
  end%char.

(** Each byte of the text is paid for by at most one step. *)
Definition json_parse (s : string) : option (json * string) := json_decode (String.length s) s.

(** ** The round trip *)

Lemma decode_byte c t : is_ascii_byte c = true -> decode_string (json_byte c +:+ t) = cons_fst c (decode_string t).
Proof. destruct c as [[] [] [] [] [] [] [] []]; intros H; first [reflexivity|discriminate H]. Qed.

Lemma decode_bytes s rest : forall_string is_ascii_byte s = true ->
  decode_string (json_bytes s +:+ String quote rest) = Some (s, rest).
Proof.
  induction s as [|c s IH]; [done|]. cbn [forall_string json_bytes]. intros [Hc Hs]%andb_true_iff.
  by rewrite string_app_assoc, decode_byte, IH.
Qed.

(** A literal is a quote and what is read up to the closing one. *)
Lemma json_quote_ascii utf8 s rest : forall_string is_ascii_byte s = true ->
  exists t, json_quote utf8 s +:+ rest = String quote t /\ decode_string t = Some (s, rest).
Proof.
  intros Hs. unfold json_quote. rewrite Hs. exists (json_bytes s +:+ String quote rest). split; [|by apply decode_bytes].
  by rewrite string_app_assoc.
Qed.

(** A text that cannot continue a number. *)
Definition ends_number (s : string) : bool := match s with EmptyString => true | String c _ => negb (is_number_byte c) end.

Lemma span_number_app a rest : forall_string is_number_byte a = true -> ends_number rest = true ->
  span_number (a +:+ rest) = (a, rest).
Proof.
  intros Ha Hr. induction a as [|c a IH].
  - change ("" +:+ rest) with rest. destruct rest as [|c rest]; [done|]. cbn in *. by rewrite negb_true_iff in Hr; rewrite Hr.
  - cbn [forall_string] in Ha. apply andb_true_iff in Ha as [Hc Ha].
    change (String c a +:+ rest) with (String c (a +:+ rest)). cbn [span_number]. by rewrite Hc, (IH Ha).
Qed.

Lemma itoa_bytes z : forall_string is_number_byte (itoa z) = true /\ exists c s, itoa z = String c s.
Proof.
  rewrite itoa_sign. destruct (pretty_digits (Z.abs_N z)) as (Hd & Hne & _).
  assert (HP : forall_string is_number_byte (pretty (Z.abs_N z)) = true).
  { eapply forall_string_impl; [|exact Hd]. intros c Hc. unfold is_number_byte. by rewrite Hc. }
  rewrite forall_string_app, HP. destruct (z <? 0); (split; [done|]); [by eexists _, _|].
  destruct (pretty (Z.abs_N z)); [done|by eexists _, _].
Qed.

Lemma itoa_ascii z : forall_string is_ascii_byte (itoa z) = true.
Proof.
  eapply forall_string_impl; [|apply itoa_bytes]. intros c Hc.
  destruct c as [[] [] [] [] [] [] [] []]; first [reflexivity|discriminate Hc].
Qed.

(** The steps a value takes. *)
Fixpoint json_size (v : json) : nat :=
  match v with
  | JObject fields => S (foldr (fun f n => S (json_size (snd f) + n)) O fields)
  | _ => 1%nat
  end.

Lemma json_object_nil : json_object [] = "{}".
Proof. reflexivity. Qed.

(** The fields as the object writes them, up to its end. *)
Definition fields_text utf8 (fields : list (string * json)) : string :=
  Join ((fun f => json_field (fst f) (json_encode utf8 (snd f))) <$> fields) "," +:+ "}".

Lemma json_encode_object utf8 fields rest :
  json_encode utf8 (JObject fields) +:+ rest = String "{" (fields_text utf8 fields +:+ rest).
Proof.
  cbn [json_encode]. unfold json_object, fields_text. rewrite <- list_fmap_compose.
  rewrite (string_app_assoc "{"). do 3 f_equal.
Qed.

Lemma fields_text_cons utf8 k v fields rest :
  fields_text utf8 ((k, v) :: fields) +:+ rest =
  json_quote id k +:+ String ":" (json_encode utf8 v +:+
    match fields with [] => String "}" rest | _ => String "," (fields_text utf8 fields +:+ rest) end).
Proof.
  unfold fields_text. rewrite fmap_cons. unfold json_field at 1. cbn [fst snd]. destruct fields as [|f fields].
  - cbn [fmap list_fmap Join]. by rewrite !string_app_assoc.
  - rewrite fmap_cons. cbn [Join]. by rewrite !string_app_assoc.
Qed.

Section RoundTrip.
Variable utf8 : string -> string.

(** Decoding gives a value back, whatever follows it. *)
Definition decodes (v : json) : Prop := forall rest fuel, json_ok v = true -> ends_number rest = true ->
  (json_size v <= fuel)%nat -> json_decode fuel (json_encode utf8 v +:+ rest) = Some (v, rest).

Lemma decode_fields_text fields : Forall (fun f => decodes (snd f)) fields -> forall rest fuel, fields <> [] ->
  json_ok (JObject fields) = true -> (foldr (fun f n => S (json_size (snd f) + n)) O fields <= fuel)%nat ->
  decode_fields fuel (fields_text utf8 fields +:+ rest) = Some (fields, rest).
Proof.
  induction 1 as [|[k v] fields Hv _ IH]; intros rest fuel Hne Hok Hf; [done|]. cbn [snd] in Hv.
  cbn [json_ok forallb fst snd] in Hok. rewrite !andb_true_iff in Hok. destruct Hok as [[Hk Hok] Hoks].
  cbn [foldr snd] in Hf. destruct fuel as [|fuel]; [lia|]. rewrite fields_text_cons.
  edestruct (json_quote_ascii id k) as (t & -> & Ht); [exact Hk|]. cbn [decode_fields].
  change (negb (Ascii.eqb quote quote)) with false. cbv iota. rewrite Ht. cbv iota.
  rewrite Hv by first [exact Hok|lia|by destruct fields]. destruct fields as [|f fields]; [done|].
  rewrite IH by first [done|exact Hoks|lia]. done.
Qed.

Lemma json_decode_encode v : decodes v.
Proof.
  induction v as [s|z|fields IH] using json_induction; intros rest [|fuel] Hok Hr Hf; try (cbn in Hf; lia).
  - cbn [json_encode]. edestruct (json_quote_ascii utf8 s) as (t & -> & Ht); [exact Hok|]. cbn [json_decode].
    change (Ascii.eqb quote quote) with true. cbv iota. by rewrite Ht.
  - cbn [json_encode]. destruct (itoa_bytes z) as (Hb & c & s & E). rewrite E in *.
    pose proof (span_number_app (String c s) rest Hb Hr) as HS.
    cbn [forall_string] in Hb. apply andb_true_iff in Hb as [Hc _].
    change (String c s +:+ rest) with (String c (s +:+ rest)) in *. cbn [json_decode].
    assert (Ascii.eqb c quote = false /\ Ascii.eqb c "{" = false) as [-> ->]
      by (destruct c as [[] [] [] [] [] [] [] []]; try done; discriminate Hc).
    rewrite HS, <- E, Atoi_itoa; [done|]. cbn [json_ok] in Hok. unfold in_int64. lia.
  - rewrite json_encode_object. cbn [json_decode json_size] in *. change (Ascii.eqb "{" quote) with false.
    change (Ascii.eqb "{" "{") with true. cbv iota. destruct fields as [|[k v] fields]; [done|].
    pose proof (decode_fields_text ((k, v) :: fields) IH rest fuel ltac:(done) Hok ltac:(lia)) as HD.
    rewrite fields_text_cons in *. cbn [json_ok forallb fst] in Hok. rewrite !andb_true_iff in Hok. destruct Hok as [[Hk _] _].
    destruct (json_quote_ascii id k (String ":" (json_encode utf8 v +:+
      match fields with [] => String "}" rest | _ => String "," (fields_text utf8 fields +:+ rest) end)) Hk) as (t & E & _).
    rewrite E in *. change (match String quote t with String "}" r => Some (JObject [], r) | _ =>
      match decode_fields fuel (String quote t) with Some (fs, r) => Some (JObject fs, r) | None => None end end%char) with
      (match decode_fields fuel (String quote t) with Some (fs, r) => Some (JObject fs, r) | None => None end).
    by rewrite HD.
Qed.
End RoundTrip.

(** ** Enough steps *)

Lemma json_size_length utf8 v : (json_size v <= String.length (json_encode utf8 v))%nat.
Proof.
  induction v as [s|z|fields IH] using json_induction.
  - cbn [json_encode json_size]. unfold json_quote. rewrite string_length_app. cbn [String.length]. lia.
  - cbn [json_encode json_size]. destruct (itoa_bytes z) as (_ & c & s & ->). cbn. lia.
  - rewrite <- (string_app_nil_r (json_encode utf8 _)), json_encode_object. cbn [String.length json_size]. apply le_n_S.
    induction IH as [|[k v] fields Hv _ IH]; [cbn; lia|]. rewrite fields_text_cons, string_length_app. cbn [foldr snd String.length] in *.
    rewrite string_length_app. destruct fields as [|f fields]; [cbn; lia|]. cbn [String.length]. lia.
Qed.

(** A document is read back. *)
Lemma json_parse_encode utf8 v rest : json_ok v = true -> ends_number rest = true ->
  json_parse (json_encode utf8 v +:+ rest) = Some (v, rest).
Proof.
  intros Hok Hr. apply json_decode_encode; [done..|]. rewrite string_length_app. pose proof (json_size_length utf8 v). lia.
Qed.
