(* ===== verification/Answers.v ===== *)
(** * The JSON answers of the gateway

    The documents the middlewares and the system endpoints write, read back by the decoder
    of Json.v: texts the client controls (its request identifier) stay inside their fields. *)

From S2P Require Import Prelude Float64 GoLib Config Breaker TokenBucket Http Middleware MiddlewareFacts.
From S2P Require Import Mux Patterns Router Json.

(** An error answer: a code, a message and further fields. *)
Definition error_json (code message : string) (extra : list (string * json)) : json :=
  JObject [("error", JObject ([("code", JString code); ("message", JString message)] ++ extra))].

Lemma error_body_json utf8 code message extra :
  error_body utf8 code message ((fun f => (fst f, json_encode utf8 (snd f))) <$> extra) =
    json_encode utf8 (error_json code message extra).
Proof. reflexivity. Qed.

(** What a client reads from the body of a response to a request that is not HEAD: a document
    and what follows it. *)
Definition decoded_body (acts : list WAct) : option (json * string) := json_parse (rs_body (respond acts)).

(** What the client of the request [r] reads. *)
Definition decoded_for (r : Request) (acts : list WAct) : option (json * string) :=
  json_parse (rs_body (respond_to (bool_decide (Method r = "HEAD")) acts)).

Lemma decoded_for_body r acts : Method r <> "HEAD" -> decoded_for r acts = decoded_body acts.
Proof. intros Hm. unfold decoded_for. by rewrite bool_decide_eq_false_2. Qed.

(** A body that is one encoded document. *)
Lemma decoded_document utf8 v acts : json_ok v = true ->
  rs_body (respond acts) = json_encode utf8 v +:+ newline -> decoded_body acts = Some (v, newline).
Proof. intros Hv E. unfold decoded_body. rewrite E. by apply json_parse_encode. Qed.

Section Properties.
Context `{UL : URLLib}.

(** C25: error answers are documents a client can read back, for any request other than
    HEAD (which gets no body).  A panic before the response has begun, with no length declared
    for it, is answered with a document that decodes to the error code and to exactly
    the request's identifier, whatever ASCII text the client chose as its identifier; a
    rejection by the rate limit, for a key that Prometheus takes as a label value, decodes to its code and the
    seconds to wait, which are those of the [Retry-After] header; and the readiness answer
    decodes to the number of routes. *)
Theorem answers_decode env path next cfg r wd :
  Method r <> "HEAD" ->
  forall_string is_ascii_byte (GetRequestID (Context r)) = true ->
  Z.of_nat (length (Routes cfg)) <= int64_max ->
  (forall acts wd1 msg, next r wd = (acts, wd1, Panic msg) ->
    rs_sent (respond acts) = None -> declared_length (rs_header (respond acts)) = None ->
    decoded_for r (Recovery env next r wd).1.1 =
      Some (error_json "INTERNAL_ERROR" "an unexpected error occurred" [("request_id", JString (GetRequestID (Context r)))], newline)) /\
  (forall s d, InMemoryStore_Allow (env_oor env) (client_key r) (env_rate_now env) (wd_store wd) = (s, d) -> Allowed d = false ->
    env_label_err env (client_key r) = None ->
    exists secs, sent_header (RateLimit env path next r wd).1.1 "Retry-After" = itoa secs /\
      decoded_for r (RateLimit env path next r wd).1.1 =
        Some (error_json "RATE_LIMITED" "rate limit exceeded" [("retry_after_seconds", JNumber secs)], newline)) /\
  decoded_for r (readinessHandler cfg r wd).1.1 =
    Some (JObject [("routes", JNumber (Z.of_nat (length (Routes cfg)))); ("status", JString "ready")], newline).
Proof.
  intros Hm Hid Hlen. rewrite !(decoded_for_body r _ Hm). split; [|split].
  - intros acts wd1 msg E Hs Hd. eapply (decoded_document (env_utf8 env)).
    { cbn [json_ok error_json forallb fst snd app]. rewrite Hid. done. }
    rewrite (Recovery_panic env next r wd acts wd1 msg E). cbn [fst].
    unfold respond. rewrite recovery_body_sent by done. rewrite (unsent_body false acts Hs).
    unfold recovery_body. by rewrite <- error_body_json.
  - intros s d E Ha Hl. exists (retry_after_secs env d). set (secs := retry_after_secs env d).
    set (body := error_body (env_utf8 env) "RATE_LIMITED" "rate limit exceeded" [("retry_after_seconds", itoa secs)] +:+ newline).
    assert ((RateLimit env path next r wd).1.1 = limit_acts d ++ [ASet "Retry-After" (itoa secs);
      ASet "Content-Type" "application/json"; AWriteHeader 429; AWrite body (String.length body)]) as ->.
    { unfold RateLimit, RateLimitRejections_Inc, bind at 1, allow. rewrite E, Ha, Hl. reflexivity. }
    split; [unfold sent_header; cbn; by rewrite Header_Get_Set_ne, Header_Get_Set by (vm_compute; discriminate)|].
    eapply (decoded_document (env_utf8 env)).
    + pose proof (wrap64_range (F64.to_int64 (env_oor env) (F64.Duration_Seconds (RetryAfter d)) + 1)) as [H1 H2].
      cbn [json_ok error_json forallb fst snd app]. fold (retry_after_secs env d) secs in H1, H2.
      apply Z.leb_le in H1, H2. by rewrite H1, H2.
    + rewrite <- error_body_json. apply (single_write (limit_acts d ++ [ASet "Retry-After" (itoa secs);
        ASet "Content-Type" "application/json"])); [done| |done..].
      unfold declared_length. cbn. by rewrite !Header_Get_Set_ne by (vm_compute; discriminate).
  - eapply (decoded_document id).
    + cbn [json_ok forallb fst snd]. assert (int64_min <= Z.of_nat (length (Routes cfg))) as H1%Z.leb_le
        by (unfold int64_min; lia). apply Z.leb_le in Hlen. by rewrite H1, Hlen.
    + apply (single_write [ASet "Content-Type" "application/json"]); [done| |done..].
      unfold declared_length. cbn. by rewrite Header_Get_Set_ne by (vm_compute; discriminate).
Qed.
End Properties.

(** ** Examples *)

Section Examples.
#[local] Existing Instance plain_url_lib.

(** An identifier that tries to end its field and to add another. *)
Definition forged_id : string := byte_string [120; 34; 44; 34; 114; 111; 111; 116; 34; 58; 34; 49]%nat.

Definition forged_request : Request := WithContext example_request (WithRequestID [] forged_id).

Lemma answers_decode_witness :
  decoded_for forged_request (Recovery example_env (fun _ wd => ([], wd, Panic "boom")) forged_request example_world).1.1 =
    Some (error_json "INTERNAL_ERROR" "an unexpected error occurred" [("request_id", JString forged_id)], newline).
Proof.
  destruct (answers_decode example_env "/api" (fun _ wd => ([], wd, Panic "boom")) (gateway_config []) forged_request
    example_world ltac:(vm_compute; discriminate) eq_refl ltac:(vm_compute; discriminate)) as [H _].
  exact (H [] example_world "boom" eq_refl eq_refl eq_refl).
Defined.
End Examples.
