(* ===== verification/Upstream.v ===== *)
(** * cmd/upstream: the demo upstream

    The server the gateway is tried against: an echo handler with a random latency and a
    rate of simulated errors, and a health endpoint, on a mux of its own.  The
    draws of math/rand are the argument [Draws]. *)

From S2P Require Import Prelude Float64 GoLib Http MiddlewareFacts Mux Patterns Dispatch Json Answers.
From Stdlib Require Import Ascii SpecFloat.

(** ** Flags *)

Record UpstreamFlags := mkUpstreamFlags {
  uf_port : Z;
  uf_name : string;
  uf_errorRate : spec_float;
  uf_minLatency : Z;
  uf_maxLatency : Z
}.

(** The defaults of the flag definitions. *)
Definition default_upstream_flags : UpstreamFlags :=
  mkUpstreamFlags 3001 "upstream-1" (F64.div (F64.of_Z 5) (F64.of_Z 100)) 10 200.

(** ** math/rand *)

(** What one request draws: [dr_Intn n] below [n], and a float of [0, 1). *)
Record Draws := mkDraws {
  dr_Intn : Z -> Z;
  dr_Float64 : spec_float
}.

Definition draws_ok (d : Draws) : Prop := forall n, 0 < n -> 0 <= dr_Intn d n < n.

Definition rand_Intn (d : Draws) (n : Z) : outcome Z :=
  if n <=? 0 then Panic "invalid argument to Intn" else Ret (dr_Intn d n).

(** ** The handlers *)

Section Handlers.
Variable utf8 : string -> string.
Variable flags : UpstreamFlags.

(** The documents; the encoder writes the keys of a map in their order. *)
Definition simulated_error : json :=
  JObject [("error", JString "simulated upstream error"); ("server", JString (uf_name flags))].

Definition echo_document (latency : Z) (r : Request) : json :=
  JObject [("headers", JObject
              [("X-Forwarded-For", JString (Header_Get (req_Header r) "X-Forwarded-For"));
               ("X-Request-ID", JString (Header_Get (req_Header r) "X-Request-ID"))]);
           ("latency", JString (itoa latency +:+ "ms"));
           ("method", JString (Method r));
           ("path", JString (URL_Path r));
           ("server", JString (uf_name flags))].

Definition write_document (v : json) : WAct :=
  let body := json_encode utf8 v +:+ newline in AWrite body (String.length body).

(** The handler of "/": how long it sleeps and its calls on the writer. *)
Definition upstream_root (d : Draws) (r : Request) : outcome (Duration * list WAct) :=
  do! k <- rand_Intn d (wrap64 (wrap64 (uf_maxLatency flags - uf_minLatency flags) + 1));
  let latency := wrap64 (uf_minLatency flags + k) in
  let sleep := wrap64 (latency * Millisecond) in
  if F64.ltb (dr_Float64 d) (uf_errorRate flags) then
    Ret (sleep, [ASet "Content-Type" "application/json"; AWriteHeader 500; write_document simulated_error])
  else
    Ret (sleep, [ASet "Content-Type" "application/json"; write_document (echo_document latency r)]).
End Handlers.

(** The body of the health answer, without a newline. *)
Definition healthy_body : string :=
  "{" +:+ String quote "status" +:+ String quote ":" +:+ String quote "healthy" +:+ String quote "}".

Definition upstream_health : outcome (Duration * list WAct) :=
  Ret (0, [ASet "Content-Type" "application/json"; AWriteHeader 200; AWrite healthy_body (String.length healthy_body)]).

(** ** The mux *)

Inductive UpstreamEndpoint := UpstreamRoot | UpstreamHealthy.

Definition upstream_patterns : list (string * UpstreamEndpoint) :=
  [("/", UpstreamRoot); ("/health", UpstreamHealthy)].

Definition upstream_mux (un : string -> bool) : outcome (ServeMux (H := UpstreamEndpoint)) :=
  mux_Handle_all un upstream_patterns [].

(** A request as the server gets it: [None] when the mux answers itself. *)
Definition upstream_serve (utf8 : string -> string) (flags : UpstreamFlags) (mux : ServeMux (H := UpstreamEndpoint))
    (escapedPath : string) (d : Draws) (r : Request) : option (outcome (Duration * list WAct)) :=
  match findHandler mux (req_URL_Host r) (req_Host r) (Method r) escapedPath with
  | FoundHandler UpstreamRoot => Some (upstream_root utf8 flags d r)
  | FoundHandler UpstreamHealthy => Some upstream_health
  | _ => None
  end.

(** ** main *)

(** The verb %.0f: the nearest integer, ties to even. *)
Definition round_half_even (m : positive) (e : Z) : Z :=
  if 0 <=? e then Z.pos m * 2 ^ e else
  let d := 2 ^ (- e) in
  let q := Z.pos m / d in
  let rem := 2 * (Z.pos m mod d) in
  if (d <? rem) || ((rem =? d) && Z.odd q) then q + 1 else q.

Definition format_f0 (x : spec_float) : string :=
  let sign (s : bool) := if s then "-" else "" in
  match x with
  | S754_nan => "NaN"
  | S754_infinity s => if s then "-Inf" else "+Inf"
  | S754_zero s => sign s +:+ "0"
  | S754_finite s m e => sign s +:+ itoa (round_half_even m e)
  end.

Definition upstream_listening (flags : UpstreamFlags) : string :=
  uf_name flags +:+ " listening on :" +:+ itoa (uf_port flags) +:+
  " (error_rate=" +:+ format_f0 (F64.mul (uf_errorRate flags) (F64.of_Z 100)) +:+ "%, latency=" +:+
  itoa (uf_minLatency flags) +:+ "-" +:+ itoa (uf_maxLatency flags) +:+ "ms)" +:+ newline.

(** The lines logged and the exit code, when serving ends with [err]. *)
Definition upstream_main (un : string -> bool) (flags : UpstreamFlags) (err : error) : outcome (list string * Z) :=
  do! _ <- upstream_mux un;
  Ret ([upstream_listening flags; error_Error err], 1).

(** ** Dispatch *)

Definition upstream_routes : ServeMux (H := UpstreamEndpoint) :=
  [(mkPattern "" "" [Multi ""], UpstreamRoot); (mkPattern "" "" [Lit "health"], UpstreamHealthy)].

Lemma upstream_mux_eq un : upstream_mux un = Ret upstream_routes.
Proof. vm_compute. reflexivity. Qed.

(** The path of the health endpoint, escaped in any way. *)
Definition is_health_path (path : list string) : bool :=
  match path with [seg] => bool_decide (segment_key seg [] = "health") | _ => false end.

Lemma split_slash_snoc p : split_slash (p +:+ "/") = split_slash p ++ [""].
Proof.
  induction p as [|c p IH]; [done|]. change (String c p +:+ "/") with (String c (p +:+ "/")). cbn [split_slash]. rewrite IH.
  destruct (split_slash_cons p) as (seg & segs & ->). cbn [app]. by destruct (Ascii.eqb c "/").
Qed.

Lemma other_nodes host m : host <> "" \/ m <> "" -> method_node upstream_routes host m = [].
Proof.
  intros Ho. apply elem_of_nil_inv. intros [res e] Hin. unfold method_node in Hin.
  apply list_elem_of_fmap in Hin as (e' & _ & [[Hh Hm] Hin]%list_elem_of_filter).
  unfold upstream_routes in Hin. rewrite !elem_of_cons in Hin.
  destruct Hin as [->|[->|?%elem_of_nil]]; cbn in Hh, Hm; [destruct Ho; congruence..|done].
Qed.

Lemma upstream_node : method_node upstream_routes "" "" =
  [([Multi ""], (mkPattern "" "" [Multi ""], UpstreamRoot)); ([Lit "health"], (mkPattern "" "" [Lit "health"], UpstreamHealthy))].
Proof. reflexivity. Qed.

(** The search takes the health pattern at its path and the pattern of the root elsewhere. *)
Lemma upstream_matchPath path : path <> [] ->
  matchPath path (method_node upstream_routes "" "") =
    Some (if is_health_path path then (mkPattern "" "" [Lit "health"], UpstreamHealthy)
          else (mkPattern "" "" [Multi ""], UpstreamRoot)).
Proof.
  intros Hne. rewrite upstream_node. destruct path as [|seg rest]; [done|]. cbn [matchPath is_health_path].
  set (key := segment_key seg rest).
  assert (HW : matchPath rest (child is_wild (H := UpstreamEndpoint) [([Multi ""], (mkPattern "" "" [Multi ""], UpstreamRoot));
    ([Lit "health"], (mkPattern "" "" [Lit "health"], UpstreamHealthy))]) = None) by apply matchPath_nil.
  rewrite HW. cbn -[matchPath]. destruct (decide ("health" = key)) as [E|E].
  - rewrite (bool_decide_eq_true_2 ("health" = key)) by done. destruct rest as [|s2 rest].
    + cbn. unfold key in E. rewrite <- E. done.
    + cbn [matchPath]. unfold child. cbn [omap list_omap fst snd].
      rewrite !matchPath_nil. cbn. by repeat destruct (bool_decide _).
  - rewrite (bool_decide_eq_false_2 ("health" = key)), matchPath_nil by done. cbn [first_some].
    assert (match rest with [] => bool_decide (segment_key seg [] = "health") | _ => false end = false) as ->.
    { destruct rest; [|done]. apply bool_decide_eq_false_2. unfold key in E. congruence. }
    by destruct (bool_decide _).
Qed.

Lemma upstream_tree_match host m path : path_segments path <> [] ->
  tree_match upstream_routes host m path = matchPath (path_segments path) (method_node upstream_routes "" "").
Proof.
  intros Hp.
  assert (HM : matchMethodAndPath upstream_routes "" m path = matchPath (path_segments path) (method_node upstream_routes "" "")).
  { unfold matchMethodAndPath. destruct (decide (m = "")) as [->|Hm].
    - cbn [bool_decide]. rewrite upstream_matchPath by done. reflexivity.
    - rewrite (other_nodes "" m), (other_nodes "" "GET"), !matchPath_nil by (right; done). by destruct (bool_decide _). }
  unfold tree_match. case_bool_decide as Hh; [done|]. rewrite HM. unfold matchMethodAndPath.
  rewrite !(other_nodes host) by (by left). rewrite !matchPath_nil. by destruct (bool_decide _).
Qed.

(** Every request of a clean path is served, whatever its host and method. *)
Lemma upstream_dispatch urlHost rHost m rest : let path := "/" +:+ rest in cleanPath path = path ->
  findHandler upstream_routes urlHost rHost m path =
    FoundHandler (if is_health_path (path_segments path) then UpstreamHealthy else UpstreamRoot).
Proof.
  intros path Hc. assert (Hseg : path_segments path <> []).
  { unfold path_segments, path. rewrite split_slash_slash. cbn [tail]. by destruct (split_slash_cons rest) as (seg & segs & ->). }
  assert (Hsnoc : path_segments (path +:+ "/") = path_segments path ++ [""]).
  { unfold path_segments, path. rewrite split_slash_snoc, split_slash_slash. reflexivity. }
  assert (HR : forall host, matchOrRedirect upstream_routes host m path = Some (tree_match upstream_routes host m path)).
  { intros host. unfold matchOrRedirect. rewrite (upstream_tree_match host m (path +:+ "/")) by (rewrite Hsnoc; by destruct (path_segments path)).
    rewrite Hsnoc, upstream_matchPath by (by destruct (path_segments path)).
    assert (is_health_path (path_segments path ++ [""]) = false) as -> by (destruct (path_segments path) as [|? []]; done).
    unfold exactMatch at 2. rewrite Hsnoc. cbn [ends_multi last pat_segments negb length].
    rewrite (bool_decide_eq_false_2 (1%nat = _)); [by destruct (negb (HasSuffix (path +:+ "/") "/")); rewrite andb_false_r|].
    rewrite length_app. destruct (path_segments path); [done|cbn; lia]. }
  assert (HH : forall h1 h2, handler_of upstream_routes h1 path (tree_match upstream_routes h2 m path) =
    FoundHandler (if is_health_path (path_segments path) then UpstreamHealthy else UpstreamRoot)).
  { intros h1 h2. unfold handler_of. rewrite upstream_tree_match, upstream_matchPath by done. by destruct (is_health_path _). }
  unfold findHandler. rewrite Hc, !HR, !HH, (bool_decide_eq_true_2 (path = path)) by done. by destruct (bool_decide (m = "CONNECT")).
Qed.

(** ** Properties *)

Lemma write_document_body utf8 v code : json_ok v = true ->
  regular (AWriteHeader code) = true -> body_allowed code = true ->
  decoded_body [ASet "Content-Type" "application/json"; AWriteHeader code; write_document utf8 v] = Some (v, newline) /\
  decoded_body [ASet "Content-Type" "application/json"; write_document utf8 v] = Some (v, newline).
Proof.
  intros Hv Hr Hb. assert (declared_length (rs_header (respond [ASet "Content-Type" "application/json"])) = None) as Hd.
  { unfold declared_length. cbn. by rewrite Header_Get_Set_ne by (vm_compute; discriminate). }
  split; (apply (decoded_document utf8); [done|]).
  - by apply (single_write [ASet "Content-Type" "application/json"]).
  - by apply (single_write_200 [ASet "Content-Type" "application/json"]).
Qed.

Lemma answer_status utf8 v :
  final_status [ASet "Content-Type" "application/json"; AWriteHeader 500; write_document utf8 v] = 500 /\
  final_status [ASet "Content-Type" "application/json"; write_document utf8 v] = 200.
Proof. unfold write_document. generalize (json_encode utf8 v +:+ newline). intros b. generalize (String.length b). done. Qed.

(** C35: the demo upstream answers.  With latencies in order and draws in their
    ranges, a request of the health path gets 200 at once; every other request of a clean path, whatever
    its method, is answered after a latency between the two flags: with 500 and an error document exactly
    when the drawn float is below the error rate, and otherwise with 200 and a
    document that decodes to the request's method, path, forwarding and
    identifier headers. *)
Theorem upstream_answers un utf8 flags mux rest d r :
  let path := "/" +:+ rest in
  upstream_mux un = Ret mux -> cleanPath path = path -> draws_ok d ->
  0 <= uf_minLatency flags <= uf_maxLatency flags -> uf_maxLatency flags * Millisecond <= int64_max ->
  if is_health_path (path_segments path) then
    exists acts, upstream_serve utf8 flags mux path d r = Some (Ret (0, acts)) /\ final_status acts = 200
  else exists latency acts,
    upstream_serve utf8 flags mux path d r = Some (Ret (latency * Millisecond, acts)) /\
    uf_minLatency flags <= latency <= uf_maxLatency flags /\
    let doc := if F64.ltb (dr_Float64 d) (uf_errorRate flags) then simulated_error flags else echo_document flags latency r in
    final_status acts = (if F64.ltb (dr_Float64 d) (uf_errorRate flags) then 500 else 200) /\
    (json_ok doc = true -> decoded_body acts = Some (doc, newline)).
Proof.
  intros path Hm Hc Hd Hl Hmax. rewrite upstream_mux_eq in Hm. injection Hm as <-.
  unfold upstream_serve. pose proof (upstream_dispatch (req_URL_Host r) (req_Host r) (Method r) rest Hc) as HD. cbv zeta in HD. fold path in HD.
  rewrite HD. destruct (is_health_path (path_segments path)).
  { eexists. split; [reflexivity|]. reflexivity. }
  unfold upstream_root, rand_Intn. unfold int64_max, Millisecond in Hmax.
  set (n := uf_maxLatency flags - uf_minLatency flags + 1).
  assert (wrap64 (wrap64 (uf_maxLatency flags - uf_minLatency flags) + 1) = n) as ->.
  { rewrite wrap64_add_l. apply wrap64_id. unfold in_int64, int64_min, int64_max, n. lia. }
  pose proof (Hd n ltac:(unfold n; lia)) as Hk. assert ((n <=? 0) = false) as -> by (apply Z.leb_gt; unfold n; lia). cbn [outcome_bind].
  set (latency := uf_minLatency flags + dr_Intn d n). assert (Hr : uf_minLatency flags <= latency <= uf_maxLatency flags) by (unfold latency, n in *; lia).
  assert (wrap64 latency = latency) as -> by (apply wrap64_id; unfold in_int64, int64_min, int64_max; lia).
  assert (wrap64 (latency * Millisecond) = latency * Millisecond) as ->
    by (apply wrap64_id; unfold in_int64, int64_min, int64_max, Millisecond; nia).
  exists latency. destruct (F64.ltb (dr_Float64 d) (uf_errorRate flags)); eexists; (split; [reflexivity|]); (split; [exact Hr|]).
  - split; [exact (proj1 (answer_status _ _))|]. intros Hok. exact (proj1 (write_document_body utf8 _ 500 Hok eq_refl eq_refl)).
  - split; [exact (proj2 (answer_status _ _))|]. intros Hok. exact (proj2 (write_document_body utf8 _ 200 Hok eq_refl eq_refl)).
Qed.

(** The flags are not checked: with a maximum below the minimum the upstream starts, passes every health
    check and panics on every other request. *)
Lemma latency_order_panics un utf8 flags mux rest d r :
  let path := "/" +:+ rest in
  upstream_mux un = Ret mux -> cleanPath path = path -> int64_min <= uf_maxLatency flags - uf_minLatency flags < 0 ->
  if is_health_path (path_segments path) then
    exists acts, upstream_serve utf8 flags mux path d r = Some (Ret (0, acts)) /\ final_status acts = 200
  else upstream_serve utf8 flags mux path d r = Some (Panic "invalid argument to Intn").
Proof.
  intros path Hm Hc Hl. rewrite upstream_mux_eq in Hm. injection Hm as <-.
  unfold upstream_serve. pose proof (upstream_dispatch (req_URL_Host r) (req_Host r) (Method r) rest Hc) as HD. cbv zeta in HD. fold path in HD.
  rewrite HD. destruct (is_health_path (path_segments path)).
  { eexists. split; reflexivity. }
  unfold upstream_root, rand_Intn. rewrite wrap64_add_l, wrap64_id by (unfold in_int64, int64_max, int64_min in *; lia).
  assert ((uf_maxLatency flags - uf_minLatency flags + 1 <=? 0) = true) as -> by (apply Z.leb_le; lia). done.
Qed.

(** ** Examples *)

Lemma listening_example : upstream_listening default_upstream_flags =
  "upstream-1 listening on :3001 (error_rate=5%, latency=10-200ms)" +:+ newline.
Proof. vm_compute. reflexivity. Qed.

Definition echo_request : Request :=
  mkRequest "POST" "/users/7" "" "" "" "host1:3001" {[ "X-Request-ID" := ["018f"] ]} "10.0.0.1:1234" false [].

Definition half_draws : Draws := mkDraws (fun n => n / 2) (F64.div (F64.of_Z 1) (F64.of_Z 2)).

Lemma upstream_answers_witness :
  exists latency acts, 10 <= latency <= 200 /\
    upstream_serve id default_upstream_flags upstream_routes "/users/7" half_draws echo_request =
      Some (Ret (latency * Millisecond, acts)) /\
    final_status acts = 200 /\ decoded_body acts = Some (echo_document default_upstream_flags latency echo_request, newline).
Proof.
  assert (Hd : draws_ok half_draws).
  { intros n Hn. cbn. split; [apply Z.div_pos; lia|apply Z.div_lt; lia]. }
  destruct (upstream_answers (fun _ => false) id default_upstream_flags upstream_routes "users/7" half_draws echo_request
    (upstream_mux_eq _) ltac:(vm_compute; reflexivity) Hd ltac:(vm_compute; intuition discriminate)
    ltac:(vm_compute; discriminate)) as (latency & acts & H1 & H2 & H3 & H4).
  exists latency, acts. split; [exact H2|]. split; [exact H1|]. split; [exact H3|].
  apply H4. change (json_ok (echo_document default_upstream_flags latency echo_request) = true).
  cbn [json_ok echo_document forallb fst snd]. rewrite forall_string_app, itoa_ascii. vm_compute. reflexivity.
Defined.
