(* ===== verification/ChainFacts.v ===== *)
(** * Requests through the whole chain of a route

    The handler [BuildRouter] composes for a route: what a rejected request
    touches, and what the log of a proxied request says. *)

From S2P Require Import Prelude Float64 GoLib Config Balancer RoundRobin BalancerConfig Health Breaker.
From S2P Require Import TokenBucket Http Middleware MiddlewareFacts Proxy ProxyFacts Mux Router RouterFacts.

Definition is_set (a : WAct) : Prop := match a with ASet _ _ => True | _ => False end.

Lemma is_set_unsending pre : Forall is_set pre -> Forall unsending pre.
Proof. intros H. eapply Forall_impl; [exact H|]. by intros []. Qed.

Section Pass.
Context `{UL : URLLib} (env : Env).

(** The parts of the state the outer middleware does not touch. *)
Definition same_route_state (w1 w2 : World) : Prop :=
  wd_store w2 = wd_store w1 /\ wd_breaker w2 = wd_breaker w1 /\ wd_balancer w2 = wd_balancer w1 /\ wd_calls w2 = wd_calls w1.

Lemma CORS_pass cfg r : Method r <> "OPTIONS" -> exists pre, Forall is_set pre /\
  forall next wd, CORSMiddleware cfg next r wd = let '(a, w, o) := next r wd in (pre ++ a, w, o).
Proof.
  intros Hm. unfold CORSMiddleware. rewrite (bool_decide_eq_false_2 (Method r = "OPTIONS") Hm).
  destruct (bool_decide _ && _).
  - exists (cors_acts cfg (Header_Get (req_Header r) "Origin")). split; [repeat constructor|].
    intros next wd. cbn. by destruct (next r wd) as [[a w] o].
  - exists []. split; [constructor|]. intros next wd. cbn. by destruct (next r wd) as [[a w] o].
Qed.

Lemma Metrics_pass path next r wd a w o :
  next r (set_metrics (add_active (Method r) path 1 (wd_metrics wd)) wd) = (a, w, o) ->
  exists w', MetricsMiddleware env path next r wd = (a, w', o) /\ same_route_state w w' /\ wd_logs w' = wd_logs w.
Proof.
  intros E. unfold MetricsMiddleware, bind at 1, modifyMetrics at 1. unfold deferred, bind at 1, with_rw. rewrite E.
  destruct o as [[]|msg]; cbn; rewrite !app_nil_r; by eexists.
Qed.

(** The attribute of a record. *)
Definition log_attr (rec : LogRecord) (key : string) : option AttrValue :=
  snd <$> (snd <$> list_find (fun kv => kv.1 = key) (log_attrs rec)).

Lemma Logging_pass next r wd a w :
  next r wd = (a, w, Ret tt) ->
  exists rec, Logging env next r wd = (a, set_logs (wd_logs w ++ [rec]) w, Ret tt) /\
    log_msg rec = "request completed" /\
    log_attr rec "status" = Some (AInt (statusCode (rw_of a))) /\
    log_attr rec "request_id" = Some (AString (GetRequestID (Context r))) /\
    log_level rec = status_level (statusCode (rw_of a)) /\
    (log_attr rec "upstream" <> None <-> GetUpstreamTarget (Context r) <> "").
Proof.
  intros E. unfold Logging, bind, with_rw. rewrite E. cbn. rewrite app_nil_r. eexists. split; [reflexivity|].
  case_bool_decide; cbn; split_and!; done.
Qed.

Lemma Logging_state next r wd a w o : next r wd = (a, w, o) ->
  exists w', Logging env next r wd = (a, w', o) /\ same_route_state w w'.
Proof.
  intros E. destruct o as [[]|msg].
  - destruct (Logging_pass next r wd a w E) as (rec & EL & _). by eexists.
  - exists w. split; [|done]. unfold Logging. by rewrite (bind_Panic _ _ _ a w msg) by (unfold with_rw; by rewrite E).
Qed.

(** A rejected request, for any next handler: answered 429, or a panic before anything is sent. *)
Lemma RateLimit_rejects path r wd s d :
  InMemoryStore_Allow (env_oor env) (client_key r) (env_rate_now env) (wd_store wd) = (s, d) -> Allowed d = false ->
  exists pre post w o, Forall is_set pre /\
    wd_store w = s /\ wd_breaker w = wd_breaker wd /\ wd_balancer w = wd_balancer wd /\ wd_calls w = wd_calls wd /\
    (forall next, RateLimit env path next r wd = (pre ++ post, w, o)) /\
    match env_label_err env (client_key r) with
    | None => o = Ret tt /\ exists body, post = AWriteHeader 429 :: body
    | Some msg => o = Panic msg /\ post = []
    end.
Proof.
  intros E Ha. destruct (env_label_err env (client_key r)) as [msg|] eqn:Hl.
  - exists (limit_acts d ++ [ASet "Retry-After" (itoa (retry_after_secs env d))]), [], (set_store s wd), (Panic msg).
    split; [repeat constructor|]. do 4 (split; [done|]). split; [|done].
    intros next. unfold RateLimit, RateLimitRejections_Inc, bind at 1, allow. rewrite E, Ha, Hl. reflexivity.
  - exists (limit_acts d ++ [ASet "Retry-After" (itoa (retry_after_secs env d)); ASet "Content-Type" "application/json"]).
    eexists _, _, (Ret tt). split; [repeat constructor|]. split; [|split; [|split; [|split; [|split; [
      intros next; unfold RateLimit, RateLimitRejections_Inc, bind at 1, allow; rewrite E, Ha, Hl; reflexivity|]]]]];
      [done..|]. split; [done|]. by eexists.
Qed.
End Pass.

(** ** Properties *)

Section Properties.
Context `{UL : URLLib}.

(** C16: a rate-limited request stops at the limiter.  Through the whole chain of a
    route with a rate limit, a request of a client over its limit (other than OPTIONS, which is
    answered 204 before the limiter) gets no further, whatever the upstream: no request
    is sent to it, and neither the circuit breaker nor the balancer of the route changes.  The
    client is answered 429, or, when Prometheus does not take its key as a label value, 500. *)
Theorem limited_request_stops removeHop RoundTrip env cfg rc rl r wd u s d :
  env_uuid env = Ok u -> rc_RateLimit rc = Some rl -> Method r <> "OPTIONS" ->
  InMemoryStore_Allow (env_oor env) (client_key r) (env_rate_now env) (wd_store wd) = (s, d) -> Allowed d = false ->
  exists h acts wd', route_handler removeHop RoundTrip env cfg rc = Ret h /\ h r wd = (acts, wd', Ret tt) /\
    final_status acts = (match env_label_err env (client_key r) with None => 429 | Some _ => 500 end) /\
    wd_store wd' = s /\ wd_breaker wd' = wd_breaker wd /\ wd_balancer wd' = wd_balancer wd /\ wd_calls wd' = wd_calls wd.
Proof.
  intros Hu Hrl Hm Hd Ha. unfold route_handler, route_chain. rewrite Chain_foldr, Hrl, foldr_app. cbn [app foldr].
  set (final := foldr _ _ _). eexists.
  set (wdm := set_metrics (add_active (Method r) (rc_Path rc) 1 (wd_metrics wd)) wd).
  set (id := if bool_decide (Header_Get (req_Header r) "X-Request-ID" = "") then u else Header_Get (req_Header r) "X-Request-ID").
  set (r' := WithContext r (WithRequestID (Context r) id)).
  destruct (RateLimit_rejects env (rc_Path rc) r' wdm s d Hd Ha) as (pre & post & w & o & Hpre & Hs & Hb & Hl & Hc & ER & Hpost).
  destruct (CORS_pass (CORS cfg) r' Hm) as (cpre & Hcpre & EC).
  specialize (EC (RateLimit env (rc_Path rc) final) wdm). rewrite ER in EC.
  destruct (Metrics_pass env (rc_Path rc) (CORSMiddleware (CORS cfg) (RateLimit env (rc_Path rc) final)) r' wd _ _ _ EC)
    as (w2 & EM & (Hs2 & Hb2 & Hl2 & Hc2) & _).
  destruct (Logging_state env _ r' wd _ _ _ EM) as (w3 & EL & Hs3 & Hb3 & Hl3 & Hc3).
  set (sets := (ASet "X-Request-ID" id :: cpre) ++ pre).
  assert (Hsets : Forall unsending sets).
  { apply is_set_unsending, Forall_app. split; [by constructor|done]. }
  assert (EI : RequestID env (Logging env (MetricsMiddleware env (rc_Path rc) (CORSMiddleware (CORS cfg) (RateLimit env (rc_Path rc) final)))) r wd =
    (sets ++ post, w3, o)).
  { unfold RequestID. change requestIDHeader with "X-Request-ID". rewrite Hu. unfold r', id in EL. unfold sets. rewrite <- app_assoc.
    unfold id. destruct (bool_decide _); cbn; by rewrite EL. }
  change (client_key r') with (client_key r) in Hpost.
  destruct (env_label_err env (client_key r)) as [msg|].
  - destruct Hpost as [-> ->]. eexists _, _. split; [reflexivity|]. split; [by apply (Recovery_panic _ _ _ _ _ _ _ EI)|].
    split; [|cbn; by rewrite Hs3, Hb3, Hl3, Hc3, Hs2, Hb2, Hl2, Hc2]. rewrite app_nil_r. unfold recovery_acts.
    rewrite cons_middle, app_assoc. apply final_status_first; [|done]. apply Forall_app. split; [done|by repeat constructor].
  - destruct Hpost as (-> & body & ->). eexists _, _. split; [reflexivity|].
    unfold Recovery, recovering. rewrite EI. split; [reflexivity|]. split; [by apply final_status_first|].
    by rewrite Hs3, Hb3, Hl3, Hc3, Hs2, Hb2, Hl2, Hc2.
Qed.

(** A proxied request is logged without its upstream.  The proxy handler
    stores the chosen target in a context of its own, which the logging
    middleware around it never sees: for a request that came in without one, the
    record of the completed request has its status and identifier but no upstream. *)
Theorem upstream_not_logged removeHop RoundTrip env h r wd acts wd1 :
  GetUpstreamTarget (Context r) = "" ->
  Handler_ServeHTTP removeHop RoundTrip env h r wd = (acts, wd1, Ret tt) ->
  exists rec, Logging env (Handler_ServeHTTP removeHop RoundTrip env h) r wd =
      (acts, set_logs (wd_logs wd1 ++ [rec]) wd1, Ret tt) /\
    log_attr rec "status" = Some (AInt (statusCode (rw_of acts))) /\
    log_attr rec "request_id" = Some (AString (GetRequestID (Context r))) /\
    log_attr rec "upstream" = None.
Proof.
  intros Hup E. destruct (Logging_pass env _ r wd acts wd1 E) as (rec & EL & _ & Hst & Hid & _ & Hu).
  exists rec. split; [done|]. split; [done|]. split; [done|].
  destruct (log_attr rec "upstream") eqn:EU; [|done]. destruct Hu as [Hu _]. by destruct (Hu ltac:(done)).
Qed.
End Properties.

(** ** Examples *)

Section Examples.
#[local] Existing Instance plain_url_lib.

(** A limiter of two requests per client, both already spent by the client of a key. *)
Definition spent_store (key : string) : InMemoryStore :=
  fst (InMemoryStore_Allow (fun _ => 0) key 0
    (fst (InMemoryStore_Allow (fun _ => 0) key 0 (NewInMemoryStore (F64.of_Z 10) 2)))).

Definition limited_route : RouteConfig :=
  mkRouteConfig "/api" [] [mkTargetConfig "http://host1:3001" 1] "round-robin" true (30 * Second)
    (Some (mkRateLimitConfig (F64.of_Z 10) 2)) (Some (mkCircuitBreakerConfig 5 (30 * Second) 3)).

Definition limited_world (key : string) : World :=
  mkWorld [] example_metrics (spent_store key) (NewBreaker DefaultBreakerConfig true 0)
    (fst (NewFromConfig limited_route)) [].

(** A client that claims an address which is not valid UTF-8. *)
Definition raw_key : string := String (Ascii.ascii_of_nat 255) "".

Definition raw_key_request : Request :=
  mkRequest "GET" "/api/users" "" "" "" "gw.example" {["X-Forwarded-For" := [raw_key]]} "10.0.0.1:1234" true [].

(** The limiter at work: 429 for a client with an ordinary address, 500 for the other one. *)
Lemma limited_request_stops_witness :
  (exists h acts wd', route_handler id ok_upstream example_env
      (gateway_config [limited_route]) limited_route = Ret h /\
    h client_request (limited_world "10.0.0.1") = (acts, wd', Ret tt) /\ final_status acts = 429 /\ wd_calls wd' = []) /\
  exists h acts wd', route_handler id ok_upstream example_env
      (gateway_config [limited_route]) limited_route = Ret h /\
    h raw_key_request (limited_world raw_key) = (acts, wd', Ret tt) /\ final_status acts = 500 /\ wd_calls wd' = [].
Proof.
  split.
  - destruct (InMemoryStore_Allow (env_oor example_env) (client_key client_request) (env_rate_now example_env)
      (wd_store (limited_world "10.0.0.1"))) as [s d] eqn:E.
    assert (Ha : Allowed d = false)
      by (change d with (snd (s, d)); rewrite <- E; vm_compute; reflexivity).
    destruct (limited_request_stops id ok_upstream example_env
      (gateway_config [limited_route]) limited_route _ client_request (limited_world "10.0.0.1") "018f-uuid" s d
      eq_refl eq_refl ltac:(discriminate) E Ha) as (h & acts & wd' & H1 & H2 & H3 & _ & _ & _ & H7).
    exists h, acts, wd'. split; [exact H1|]. split; [exact H2|]. split; [exact H3|exact H7].
  - destruct (InMemoryStore_Allow (env_oor example_env) (client_key raw_key_request) (env_rate_now example_env)
      (wd_store (limited_world raw_key))) as [s d] eqn:E.
    assert (Ha : Allowed d = false)
      by (change d with (snd (s, d)); rewrite <- E; vm_compute; reflexivity).
    destruct (limited_request_stops id ok_upstream example_env
      (gateway_config [limited_route]) limited_route _ raw_key_request (limited_world raw_key) "018f-uuid" s d
      eq_refl eq_refl ltac:(discriminate) E Ha) as (h & acts & wd' & H1 & H2 & H3 & _ & _ & _ & H7).
    exists h, acts, wd'. split; [exact H1|]. split; [exact H2|]. split; [exact H3|exact H7].
Defined.

(** Early hints take the headers of the middleware with them.  [ReverseProxy] clears the header
    map after each informational response, so that the final answer of an upstream that
    sends hints lacks the request identifier that every other answer carries. *)
Theorem hints_drop_headers :
  let id_of RT := sent_header (RequestID example_env (Handler_ServeHTTP id RT example_env
    (NewHandler example_route_config)) client_request proxy_world).1.1 "X-Request-ID" in
  id_of ok_upstream = "018f-uuid" /\ id_of hinting_upstream = "".
Proof. vm_compute. done. Qed.

Lemma upstream_not_logged_witness :
  exists acts wd1 rec,
    Logging example_env (Handler_ServeHTTP id ok_upstream example_env
      (NewHandler example_route_config)) client_request proxy_world =
      (acts, set_logs (wd_logs wd1 ++ [rec]) wd1, Ret tt) /\
    log_attr rec "status" = Some (AInt 200) /\ log_attr rec "upstream" = None.
Proof.
  destruct (Handler_ServeHTTP id ok_upstream example_env
    (NewHandler example_route_config) client_request proxy_world) as [[acts wd1] o] eqn:E.
  assert (Hx : acts = [AWriteHeader 200] /\ o = Ret tt) by (vm_compute in E; by injection E).
  destruct Hx as [-> ->].
  destruct (upstream_not_logged id ok_upstream example_env
    (NewHandler example_route_config) client_request proxy_world _ _ eq_refl E) as (rec & H1 & H2 & _ & H3).
  exists [AWriteHeader 200], wd1, rec. split; [exact H1|]. split; [exact H2|exact H3].
Defined.
End Examples.
