(* ===== verification/RouteInvariant.v ===== *)
(** * The state of a route under everything that happens to it

    A route's balancer, rate-limit store and circuit breaker are shared by its requests,
    the health checker and the cleanup of the store.  The invariant of
    that state, and that every operation keeps it: requests through the whole chain (panics
    included), health marks, cleanups and resets of the breaker, in any order. *)

From S2P Require Import Prelude Float64 FloatFacts GoLib Config Balancer RoundRobin BalancerConfig Health Breaker.
From S2P Require Import TokenBucket TokenBucketFacts Http Middleware MiddlewareFacts Proxy ProxyFacts Mux Router RouterFacts ChainFacts.
From Stdlib Require Import Sorting.Sorted.

(** ** The breaker *)

(** The configuration stays, the state is one of the three, the half-open slots stay within
    their limit, and a closed breaker has fewer failures than its threshold. *)
Record breaker_wf (cfg : BreakerConfig) (cb : CircuitBreaker) : Prop := mk_breaker_wf {
  bw_config : config cb = cfg;
  bw_state : state cb = StateClosed \/ state cb = StateOpen \/ state cb = StateHalfOpen;
  bw_slots : 0 <= halfOpenReqs cb <= Z.max 0 (HalfOpenMaxReqs cfg);
  bw_closed : state cb = StateClosed -> Z.of_nat (length (failures cb)) < FailureThreshold cfg
}.

Section Breaker.
Context (cfg : BreakerConfig) (Hthr : 1 <= FailureThreshold cfg) (Hmax : HalfOpenMaxReqs cfg <= int64_max).

Lemma NewBreaker_wf lg now : breaker_wf cfg (NewBreaker cfg lg now).
Proof. split; cbn; [done|by left|lia|intros _; lia]. Qed.

Lemma beforeRequest_wf now change cb : breaker_wf cfg cb -> breaker_wf cfg (beforeRequest now change cb).1.1.
Proof.
  intros [Hc Hs Hh Hf]. unfold beforeRequest. destruct Hs as [Hs|[Hs|Hs]]; rewrite Hs.
  - split; auto.
  - destruct (_ <? _); [|split; auto]. split; cbn; [done|by right; right|lia|done].
  - rewrite Hc. destruct (HalfOpenMaxReqs cfg <=? halfOpenReqs cb) eqn:E; zbool; [split; auto|].
    split; cbn; [done|auto| |congruence]. rewrite wrap64_id; [lia|]. unfold in_int64, int64_min. lia.
Qed.

Lemma countRequest_wf cb : breaker_wf cfg cb -> breaker_wf cfg (countRequest cb).
Proof. intros [Hc Hs Hh Hf]. by split. Qed.

Lemma onSuccess_wf now change cb : breaker_wf cfg cb -> breaker_wf cfg (onSuccess now change cb).1.
Proof.
  intros [Hc Hs Hh Hf]. unfold onSuccess. cbn [state]. case_bool_decide as E; split; cbn; auto. intros _. lia.
Qed.

Lemma onFailure_wf now change cb cb' logs : breaker_wf cfg cb -> onFailure now change cb = Ret (cb', logs) -> breaker_wf cfg cb'.
Proof.
  intros [Hc Hs Hh Hf]. rewrite onFailure_eq. destruct Hs as [Hs|[Hs|Hs]]; rewrite Hs; cbn.
  - rewrite Hc. destruct (_ <=? _) eqn:E; intros [= <- _]; split; cbn; auto; [done|]. zbool. intros _. lia.
  - intros [= <- _]. split; cbn; auto. by intros [=].
  - intros [= <- _]. split; cbn; auto. by intros [=].
Qed.

Lemma Reset_wf now cb : breaker_wf cfg cb -> breaker_wf cfg (CircuitBreaker_Reset now cb).1.
Proof. intros [Hc Hs Hh Hf]. split; cbn; [done|by left|lia|intros _; lia]. Qed.

(** [Execute] keeps the breaker well-formed, whatever the function does. *)
Lemma Execute_wf {W} (log : LogRecord -> W -> W) ck (fn : Fn W) cb w : breaker_wf cfg cb ->
  breaker_wf cfg (ex_breaker (CircuitBreaker_Execute log ck fn cb w)).
Proof.
  intros Hcb. unfold CircuitBreaker_Execute. pose proof (beforeRequest_wf (ck_before ck) (ck_before_change ck) cb Hcb) as H1.
  destruct (beforeRequest _ _ cb) as [[cb1 logs1] [err|]]; [done|]. cbn in H1. apply countRequest_wf in H1.
  destruct (fn _) as [w' [[err|]|msg]]; [| |done].
  - destruct (onFailure _ _ (countRequest cb1)) as [[cb3 logs3]|msg] eqn:E; [|done]. by apply (onFailure_wf _ _ _ _ _ H1) in E.
  - pose proof (onSuccess_wf (ck_after ck) (ck_after_change ck) _ H1) as H3. by destruct (onSuccess _ _ _).
Qed.
End Breaker.

(** ** Computations that keep a property of the state *)

Section Keeps.
Context `{UL : URLLib} (P : World -> Prop).

Definition keepsM {A} (m : M A) : Prop := forall wd, P wd -> P (m wd).1.2.
Definition keepsH (h : Handler) : Prop := forall r, keepsM (h r).

Lemma keeps_ret {A} (a : A) : keepsM (ret a).
Proof. by intros wd H. Qed.

Lemma keeps_panic {A} msg : keepsM (panic (A := A) msg).
Proof. by intros wd H. Qed.

Lemma keeps_emit a : keepsM (emit a).
Proof. by intros wd H. Qed.

Lemma keeps_emit_all acts : keepsM (emit_all acts).
Proof. by intros wd H. Qed.

Lemma keeps_bind {A B} (m : M A) (f : A -> M B) : keepsM m -> (forall a, keepsM (f a)) -> keepsM (bind m f).
Proof.
  intros Hm Hf wd H. unfold bind. specialize (Hm wd H). destruct (m wd) as [[acts wd1] [a|msg]]; [|done].
  specialize (Hf a wd1 Hm). by destruct (f a wd1) as [[acts2 wd2] o].
Qed.

Lemma keeps_deferred {A} (m : M A) f : keepsM m -> keepsM f -> keepsM (deferred m f).
Proof.
  intros Hm Hf wd H. unfold deferred. specialize (Hm wd H). destruct (m wd) as [[acts wd1] o].
  specialize (Hf wd1 Hm). by destruct (f wd1) as [[acts2 wd2] o2].
Qed.

Lemma keeps_recovering m f : keepsM m -> (forall msg, keepsM (f msg)) -> keepsM (recovering m f).
Proof.
  intros Hm Hf wd H. unfold recovering. specialize (Hm wd H). destruct (m wd) as [[acts wd1] [a|msg]]; [done|].
  specialize (Hf msg wd1 Hm). by destruct (f msg wd1) as [[acts2 wd2] o2].
Qed.

Lemma keeps_with_rw m : keepsM m -> keepsM (with_rw m).
Proof. intros Hm wd H. unfold with_rw. specialize (Hm wd H). by destruct (m wd) as [[acts wd1] [a|msg]]. Qed.

Context (P_logs : forall l wd, P wd -> P (set_logs l wd)) (P_metrics : forall ms wd, P wd -> P (set_metrics ms wd)).

Lemma keeps_log rec : keepsM (logRecord rec).
Proof. intros wd H. by apply P_logs. Qed.

Lemma keeps_metrics f : keepsM (modifyMetrics f).
Proof. intros wd H. by apply P_metrics. Qed.
End Keeps.

Create HintDb keeps.
#[export] Hint Resolve keeps_ret keeps_panic keeps_emit keeps_emit_all keeps_bind keeps_deferred keeps_recovering keeps_with_rw : keeps.
#[export] Hint Resolve keeps_log keeps_metrics : keeps.

Ltac keeps :=
  unfold RateLimitRejections_Inc, bad_gateway, encode_json, write, writeHeader, setHeader;
  repeat match goal with
  | |- keepsM _ (bind _ _) => apply keeps_bind; [|intros]
  | |- keepsM _ (if ?b then _ else _) => destruct b
  | |- keepsM _ (match ?x with _ => _ end) => destruct x
  end; try (apply keeps_with_rw); auto with keeps.

(** ** The middleware *)

Section Middlewares.
Context `{UL : URLLib} (P : World -> Prop).
Context (P_logs : forall l wd, P wd -> P (set_logs l wd)) (P_metrics : forall ms wd, P wd -> P (set_metrics ms wd)).
Variable env : Env.

Lemma keeps_Recovery next : keepsH P next -> keepsH P (Recovery env next).
Proof. intros Hn r. unfold Recovery. apply keeps_recovering; [apply Hn|]. intros msg. keeps. Qed.

Lemma keeps_RequestID next : keepsH P next -> keepsH P (RequestID env next).
Proof. intros Hn r. unfold RequestID. keeps. Qed.

Lemma keeps_Logging next : keepsH P next -> keepsH P (Logging env next).
Proof. intros Hn r. unfold Logging. keeps. Qed.

Lemma keeps_Metrics path next : keepsH P next -> keepsH P (MetricsMiddleware env path next).
Proof. intros Hn r. unfold MetricsMiddleware. keeps. Qed.

Lemma keeps_CORS cfg next : keepsH P next -> keepsH P (CORSMiddleware cfg next).
Proof. intros Hn r. unfold CORSMiddleware. keeps. Qed.

Lemma keeps_RateLimit path next : (forall key, keepsM P (allow env key)) -> keepsH P next -> keepsH P (RateLimit env path next).
Proof. intros Ha Hn r. unfold RateLimit. keeps. Qed.

Lemma keeps_CircuitBreak path next : (forall m, keepsM P m -> keepsM P (execute env m)) -> keepsH P next ->
  keepsH P (CircuitBreak env path next).
Proof.
  intros He Hn r. unfold CircuitBreak. keeps.
  - intros wd H. by apply P_metrics.
  - apply He. unfold upstream_call. keeps.
Qed.

Lemma keeps_Proxy removeHop RoundTrip h : (forall l wd, P wd -> P (set_calls l wd)) ->
  keepsM P balancer_Next -> keepsH P (Handler_ServeHTTP removeHop RoundTrip env h).
Proof.
  intros Hc Hb r. unfold Handler_ServeHTTP. keeps. unfold ReverseProxy_ServeHTTP.
  cbv zeta. destruct (negb _); [unfold ErrorHandler; keeps|]. apply keeps_bind; [intros wd H; by apply Hc|]. intros result.
  unfold ErrorHandler, forward_hints, copy_answer, copy_status. keeps.
Qed.
End Middlewares.

(** ** The state of a route *)

Section Route.
Context `{UL : URLLib} (rc : RouteConfig) (targets : list Target).

(** What holds of the state of the route at a time: the limiter of the configuration
    with every bucket within its bounds, a well-formed breaker, and a
    balancer of the configured targets. *)
Record route_ok (now : Time) (wd : World) : Prop := mk_route_ok {
  ro_store : forall rl, rc_RateLimit rc = Some rl ->
    store_ok now (inner (wd_store wd)) /\ ts_tb (inner (wd_store wd)) = NewTokenBucket (RequestsPerSecond rl) (Burst rl);
  ro_breaker : forall cb, rc_CircuitBreaker rc = Some cb -> breaker_wf (breaker_config cb) (wd_breaker wd);
  ro_balancer : bal_ok (wd_balancer wd);
  ro_targets : fst <$> pool (wd_balancer wd) = targets
}.

(** The limits of the configuration, where it has them. *)
Record route_params (rc : RouteConfig) : Prop := mk_route_params {
  rp_limiter : forall rl, rc_RateLimit rc = Some rl -> limiter_ok (NewTokenBucket (RequestsPerSecond rl) (Burst rl));
  rp_breaker : forall cb, rc_CircuitBreaker rc = Some cb -> 1 <= cbc_FailureThreshold cb /\ cbc_HalfOpenMaxReqs cb <= int64_max;
  rp_targets : Z.of_nat (length (rc_Targets rc)) <= 2 ^ 64
}.

Hypothesis Hrc : route_params rc.

Lemma route_ok_later t1 t2 wd : t1 <= t2 -> route_ok t1 wd -> route_ok t2 wd.
Proof.
  intros Ht [Hs Hb Hl Hp]. split; auto. intros rl E. destruct (Hs rl E) as [H1 H2]. split; [|done].
  by apply (store_ok_later t1).
Qed.

Lemma route_ok_logs now l wd : route_ok now wd -> route_ok now (set_logs l wd).
Proof. intros [Hs Hb Hl Hp]. by split. Qed.

Lemma route_ok_metrics now ms wd : route_ok now wd -> route_ok now (set_metrics ms wd).
Proof. intros [Hs Hb Hl Hp]. by split. Qed.

Lemma route_ok_calls now l wd : route_ok now wd -> route_ok now (set_calls l wd).
Proof. intros [Hs Hb Hl Hp]. by split. Qed.

Lemma keeps_allow env key : keepsM (route_ok (env_rate_now env)) (allow env key).
Proof.
  intros wd [Hs Hb Hl Hp]. unfold allow, InMemoryStore_Allow.
  destruct (TokenBucketStore_Allow (env_oor env) key (env_rate_now env) (inner (wd_store wd))) as [s d] eqn:E. cbn.
  split; cbn; auto. intros rl Er. destruct (Hs rl Er) as [H1 H2].
  destruct (Allow_ok (env_oor env) key (env_rate_now env) _ H1) as (H3 & _ & H4). rewrite E in H3, H4. cbn in *.
  split; [done|]. by rewrite H4.
Qed.

Lemma keeps_Next now : keepsM (route_ok now) balancer_Next.
Proof.
  intros wd [Hs Hb Hl Hp]. unfold balancer_Next. destruct (next_total (wd_balancer wd) Hl) as (b' & res & E & Hok & Hpool).
  rewrite E. split; [exact Hs|exact Hb|exact Hok|]. change (fst <$> pool b' = targets). by rewrite Hpool.
Qed.

(** The breaker around a computation; what the computation does to the rest of the state stays. *)
Lemma keeps_execute env now m cbc : rc_CircuitBreaker rc = Some cbc ->
  keepsM (route_ok now) m -> keepsM (route_ok now) (execute env m).
Proof.
  intros Ec Hm wd Hwd. destruct (rp_breaker rc Hrc cbc Ec) as [Ht Hx]. unfold execute. set (fn := fun x : list WAct * World => _).
  assert (HB : breaker_wf (breaker_config cbc) (ex_breaker (Execute log_to (env_exec env) fn (wd_breaker wd) ([], wd)))).
  { apply Execute_wf; [exact Ht|exact Hx|by apply (ro_breaker now wd Hwd)]. }
  assert (HW : route_ok now (ex_world (Execute log_to (env_exec env) fn (wd_breaker wd) ([], wd))).2).
  { destruct (admits (env_exec env) (wd_breaker wd)) eqn:Ha.
    - destruct (execute_admitted log_to (env_exec env) fn (wd_breaker wd) ([], wd) Ha) as (before & after & -> & _).
      rewrite !emit_log_to. cbn [fst snd]. apply route_ok_logs. unfold fn. cbn [snd].
      pose proof (Hm (set_logs (wd_logs wd ++ before) wd) (route_ok_logs now _ wd Hwd)) as H.
      by destruct (m _) as [[acts wd1] o].
    - by rewrite execute_rejected. }
  cbn [fst snd]. destruct HW as [Hs Hb Hl Hp]. split; [exact Hs| |exact Hl|exact Hp]. intros cb' E.
  rewrite Ec in E. injection E as <-. exact HB.
Qed.

(** ** Requests through the whole chain *)

Lemma Recovery_returns env next r wd : exists acts wd', Recovery env next r wd = (acts, wd', Ret tt).
Proof. unfold Recovery, recovering. destruct (next r wd) as [[acts wd1] [[]|msg]]; by eexists _, _. Qed.

Lemma route_handler_ok removeHop RoundTrip env cfg r wd : route_ok (env_rate_now env) wd ->
  exists h acts wd', route_handler removeHop RoundTrip env cfg rc = Ret h /\ h r wd = (acts, wd', Ret tt) /\
    route_ok (env_rate_now env) wd'.
Proof.
  intros Hwd. set (now := env_rate_now env) in *. pose proof (route_ok_logs now) as HL. pose proof (route_ok_metrics now) as HMt.
  unfold route_handler, route_chain. rewrite Chain_foldr. eexists.
  set (inner := foldr _ _ _). assert (HK : keepsH (route_ok now) inner).
  { unfold inner. rewrite !foldr_app. cbn [foldr]. apply keeps_Recovery; [done..|]. apply keeps_RequestID, keeps_Logging; [done..|].
    apply keeps_Metrics; [done..|]. apply keeps_CORS.
    assert (HC : keepsH (route_ok now) (foldr (fun m h => m h) (Handler_ServeHTTP removeHop RoundTrip env (NewHandler rc))
      match rc_CircuitBreaker rc with Some _ => [CircuitBreak env (rc_Path rc)] | None => [] end)).
    { destruct (rc_CircuitBreaker rc) as [cbc|] eqn:Ec; cbn [foldr].
      - apply keeps_CircuitBreak; [done|intros m Hm; by eapply keeps_execute|]. apply keeps_Proxy; [done|apply route_ok_calls|apply keeps_Next].
      - apply keeps_Proxy; [done|apply route_ok_calls|apply keeps_Next]. }
    destruct (rc_RateLimit rc); cbn [foldr]; [|exact HC]. apply keeps_RateLimit; [done..|apply keeps_allow|exact HC]. }
  unfold inner in HK. cbn [app foldr] in HK.
  match type of HK with keepsH _ (Recovery _ ?next) => destruct (Recovery_returns env next r wd) as (acts & wd' & E) end.
  exists acts, wd'. split; [reflexivity|]. split; [exact E|]. specialize (HK r wd Hwd). by rewrite E in HK.
Qed.

(** ** Everything that happens to a route *)

Inductive RouteEvent :=
  | ERequest (env : Env) (removeHop : Header -> Header) (RoundTrip : Request -> UpstreamResult) (r : Request)
  | EHealth (u : string) (h : bool)
  | ECleanup (now : Time)
  | EReset (now : Time).

(** One event: the new state, and the calls on the writer of a request. *)
Definition route_event (cfg : GatewayConfig) (ev : RouteEvent) (wd : World) : outcome (World * list (list WAct)) :=
  match ev with
  | ERequest env removeHop RoundTrip r =>
      do! h <- route_handler removeHop RoundTrip env cfg rc;
      match h r wd with
      | (acts, wd', Ret _) => Ret (wd', [acts])
      | (_, _, Panic msg) => Panic msg
      end
  | EHealth u h => do! b <- notify u h (wd_balancer wd); Ret (set_balancer b wd, [])
  | ECleanup now => Ret (set_store (mkInMemoryStore (cleanup [now] (inner (wd_store wd)))) wd, [])
  | EReset now => Ret (set_breaker (CircuitBreaker_Reset now (wd_breaker wd)).1 wd, [])
  end.

Fixpoint route_run (cfg : GatewayConfig) (evs : list RouteEvent) (wd : World) : outcome (World * list (list WAct)) :=
  match evs with
  | [] => Ret (wd, [])
  | ev :: evs' =>
      do! (wd1, a) <- route_event cfg ev wd;
      do! (wd2, as') <- route_run cfg evs' wd1;
      Ret (wd2, a ++ as')
  end.

(** The times of the requests. *)
Definition request_times (evs : list RouteEvent) : list Time :=
  omap (fun ev => match ev with ERequest env _ _ _ => Some (env_rate_now env) | _ => None end) evs.

(** ** Every event keeps the invariant *)

Lemma pool_set_targets u h (p : list (Target * bool)) : fst <$> pool_set u h p = fst <$> p.
Proof.
  induction p as [|[t b] p IH]; [done|]. cbn [pool_set]. case_bool_decide; rewrite !fmap_cons; [done|]. by rewrite IH.
Qed.

Lemma notify_ok now u h wd : route_ok now wd ->
  exists b, notify u h (wd_balancer wd) = Ret b /\ route_ok now (set_balancer b wd).
Proof.
  intros [Hs Hb Hl Hp]. unfold notify. destruct asHealthSetter as [set|] eqn:E; [|by exists (wd_balancer wd)].
  destruct (set_total set u h (wd_balancer wd) E Hl) as (b' & Hset & Hok & Hpool). exists b'. split; [done|].
  split; [exact Hs|exact Hb|exact Hok|]. change (fst <$> pool b' = targets). by rewrite Hpool, pool_set_targets.
Qed.

Lemma cleanup_ok now t wd : route_ok now wd ->
  route_ok now (set_store (mkInMemoryStore (cleanup [t] (inner (wd_store wd)))) wd).
Proof.
  intros [Hs Hb Hl Hp]. split; [|exact Hb|exact Hl|exact Hp]. intros rl E. destruct (Hs rl E) as [[H1 H2] H3].
  split; [|exact H3]. split; [exact H1|]. intros k b Hk. cbn [set_store wd_store inner cleanup] in Hk.
  rewrite RunCleanup_lookup in Hk.
  destruct (buckets (inner (wd_store wd)) !! k) as [b0|] eqn:Eb; [|done]. destruct (isStale _ b0); [done|].
  injection Hk as ->. by apply (H2 k).
Qed.

Lemma reset_ok now t wd : route_ok now wd -> route_ok now (set_breaker (CircuitBreaker_Reset t (wd_breaker wd)).1 wd).
Proof.
  intros [Hs Hb Hl Hp]. split; [exact Hs| |exact Hl|exact Hp]. intros cb E. destruct (rp_breaker rc Hrc cb E) as [H1 _].
  apply Reset_wf; [exact H1|by apply Hb].
Qed.

Lemma route_run_ok cfg : forall evs now wd, route_ok now wd -> StronglySorted Z.le (now :: request_times evs) ->
  exists wd' answers t, route_run cfg evs wd = Ret (wd', answers) /\
    length answers = length (request_times evs) /\ route_ok t wd'.
Proof.
  induction evs as [|ev evs IH]; intros now wd Hwd Hsort; [by exists wd, [], now|].
  assert (HE : exists wd1 a t, route_event cfg ev wd = Ret (wd1, a) /\ route_ok t wd1 /\
    StronglySorted Z.le (t :: request_times evs) /\
    (length a + length (request_times evs) = length (request_times (ev :: evs)))%nat).
  { destruct ev as [env rh RT r|u h|t|t]; cbn [route_event request_times omap list_omap] in *.
    - apply StronglySorted_inv in Hsort as [Hsort HF]. apply Forall_inv in HF.
      destruct (route_handler_ok rh RT env cfg r wd) as (h & acts & wd' & -> & Eh & Hok); [by apply (route_ok_later now)|].
      cbn [outcome_bind]. rewrite Eh. by eexists _, _, _.
    - destruct (notify_ok now u h wd Hwd) as (b & -> & Hok). by eexists _, [], now.
    - eexists _, [], now. split; [reflexivity|]. split; [by apply cleanup_ok|]. done.
    - eexists _, [], now. split; [reflexivity|]. split; [by apply reset_ok|]. done. }
  destruct HE as (wd1 & a & t & E & Hok & Hsort' & Hlen). destruct (IH t wd1 Hok Hsort') as (wd2 & ans & t2 & E2 & Hl2 & Hok2).
  exists wd2, (a ++ ans), t2. cbn [route_run]. rewrite E. cbn [outcome_bind]. rewrite E2. split; [done|].
  split; [by rewrite length_app, Hl2|done].
Qed.
End Route.

(** ** Properties *)

Section Properties.
Context `{UL : URLLib}.

(** C6: the state of a route stays well-formed, and every request is answered.
    From the state [BuildRouter] makes for a route, after any sequence of requests through the whole
    chain (whatever the upstream answers, errors and panics included), health
    marks, cleanups of the store and resets of the breaker, with the requests in the order of the clock,
    no operation has panicked, there is one answer per request, and: every bucket holds between zero tokens and the
    burst, the breaker is in one of its three states with its slots and failures
    within their limits, and the balancer has exactly the targets it started with. *)
Theorem route_invariant cfg rc now0 rt logs0 t0 evs wd :
  route_params rc -> new_runtime now0 rc = Ret (rt, logs0) ->
  wd_balancer wd = rt_balancer rt -> (forall s, rt_store rt = Some s -> wd_store wd = s) ->
  (forall cb, rt_breaker rt = Some cb -> wd_breaker wd = cb) ->
  StronglySorted Z.le (t0 :: request_times evs) ->
  exists wd' answers t, route_run rc cfg evs wd = Ret (wd', answers) /\
    length answers = length (request_times evs) /\
    route_ok rc (fst <$> pool (rt_balancer rt)) t wd'.
Proof.
  intros Hrc Hrt Hbal Hst Hbr Hsort. apply (route_run_ok rc _ Hrc cfg evs t0); [|done].
  unfold new_runtime in Hrt. pose proof (NewFromConfig_ok rc (rp_targets rc Hrc)) as [Hok _].
  destruct (NewFromConfig rc) as [bal logs]. cbn [fst] in Hok. destruct (NewHealthChecker bal []) as [hc|msg]; [|done].
  cbn [outcome_bind] in Hrt. injection Hrt as <- _. cbn [rt_balancer rt_store rt_breaker] in *. split.
  - intros rl E. rewrite E in Hst. rewrite (Hst _ eq_refl). split; [|done]. split; [by apply (rp_limiter rc Hrc)|].
    apply map_Forall_empty.
  - intros cb E. rewrite E in Hbr. rewrite (Hbr _ eq_refl). destruct (rp_breaker rc Hrc cb E). by apply NewBreaker_wf.
  - by rewrite Hbal.
  - by rewrite Hbal.
Qed.
End Properties.

(** ** Examples *)

Section Examples.
#[local] Existing Instance plain_url_lib.

(** Two requests, the first through a broken upstream, with a failed health check, a cleanup and a reset. *)
Definition example_events : list RouteEvent :=
  [ERequest example_env id broken_upstream client_request;
   EHealth "http://host1:3001" false; ECleanup (Second * 400); EReset 5;
   ERequest example_env id ok_upstream client_request].

Definition fresh_world : World :=
  mkWorld [] example_metrics (NewInMemoryStore (F64.of_Z 10) 2)
    (NewBreaker (breaker_config (mkCircuitBreakerConfig 5 (30 * Second) 3)) true 0) (fst (NewFromConfig limited_route)) [].

Lemma limited_route_params : route_params limited_route.
Proof.
  split; [|intros cb [= <-]; vm_compute; intuition discriminate|vm_compute; discriminate].
  intros rl E. assert (rl = mkRateLimitConfig (F64.of_Z 10) 2) as -> by (symmetry; exact (inj Some _ _ E)).
  split; [exact (FloatFacts.of_Z_nonneg 10 ltac:(lia))|cbn; lia].
Qed.

Lemma route_invariant_witness :
  exists wd' answers t, route_run limited_route (gateway_config [limited_route]) example_events fresh_world = Ret (wd', answers) /\
    final_status <$> answers = [200; 502] /\
    route_ok limited_route (fst <$> pool (fst (NewFromConfig limited_route))) t wd'.
Proof.
  destruct (new_runtime 0 limited_route) as [[rt logs]|msg] eqn:E; [|vm_compute in E; discriminate].
  assert (HR : rt_balancer rt = fst (NewFromConfig limited_route) /\ rt_store rt = Some (NewInMemoryStore (F64.of_Z 10) 2) /\
    rt_breaker rt = Some (NewBreaker (breaker_config (mkCircuitBreakerConfig 5 (30 * Second) 3)) true 0)).
  { vm_compute in E. injection E as <- _. vm_compute. done. }
  destruct HR as (Hb & Hs & Hc).
  destruct (route_invariant (gateway_config [limited_route]) limited_route 0 rt logs 0 example_events fresh_world
    limited_route_params E)
    as (wd' & answers & t & H1 & _ & H3).
  - by rewrite Hb.
  - intros s Hs'. rewrite Hs in Hs'. by injection Hs' as <-.
  - intros cb Hc'. rewrite Hc in Hc'. by injection Hc' as <-.
  - repeat constructor; done.
  - exists wd', answers, t. split; [exact H1|]. split; [|by rewrite <- Hb].
    assert (HA : (fun o => match o with Ret (_, a) => final_status <$> a | Panic _ => [] end)
      (route_run limited_route (gateway_config [limited_route]) example_events fresh_world) = [200; 502]) by (vm_compute; reflexivity).
    by rewrite H1 in HA.
Defined.
End Examples.
