(* ===== verification/Serving.v ===== *)
(** * The gateway as its clients see it

    The handler [BuildRouter] returns, on the state of all routes together: the mux chooses the endpoint,
    the chain of the chosen route runs on that route's balancer, store and breaker, and log and
    metrics are shared.  Composes Dispatch.v with RouteInvariant.v. *)

From S2P Require Import Prelude Float64 GoLib Config Balancer RoundRobin BalancerConfig Health Breaker.
From S2P Require Import TokenBucket TokenBucketFacts Http Middleware MiddlewareFacts Proxy ProxyFacts Mux Patterns.
From S2P Require Import Router RouterFacts Dispatch ChainFacts RouteInvariant.
From Stdlib Require Import Sorting.Sorted.

Section Serving.
Context `{UL : URLLib}.

(** ** The state of the gateway *)

Record Serving := mkServing {
  sv_logs : list LogRecord;
  sv_metrics : MetricsState;
  sv_router : Router
}.

(** What the handlers of a route work on.  A route without a limiter or a breaker never
    reads the ones put here, and each request starts with an empty trace of upstream calls. *)
Definition route_world (sv : Serving) (rt : RouteRuntime) : World :=
  mkWorld (sv_logs sv) (sv_metrics sv) (default (NewInMemoryStore F64.zero 0) (rt_store rt))
    (default (NewBreaker DefaultBreakerConfig true 0) (rt_breaker rt)) (rt_balancer rt) [].

(** The runtime after a handler of the route ran. *)
Definition route_after (wd : World) (rt : RouteRuntime) : RouteRuntime :=
  mkRouteRuntime (rt_cfg rt) (wd_balancer wd) (rt_checker rt)
    (const (wd_store wd) <$> rt_store rt) (const (wd_breaker wd) <$> rt_breaker rt).

Definition serving_after (i : nat) (rt : RouteRuntime) (wd : World) (sv : Serving) : Serving :=
  mkServing (wd_logs wd) (wd_metrics wd)
    (mkRouter (rt_mux (sv_router sv)) (<[i := route_after wd rt]> (rt_routes (sv_router sv)))).

(** What a client gets: the calls of an endpoint's handler, or an answer of the mux itself. *)
Inductive GatewayAnswer :=
  | Handled (ep : Endpoint) (acts : list WAct)
  | HandlerPanic (ep : Endpoint) (msg : string)
  | MuxRedirect (path : string)
  | MuxError (code : Z).

(** A request with its environment: the escaped path, what it reads and the network. *)
Record Incoming := mkIncoming {
  in_path : string;
  in_request : Request;
  in_env : Env;
  in_removeHop : Header -> Header;
  in_RoundTrip : Request -> UpstreamResult
}.

(** [scrape]: the calls of Prometheus' handler. *)
Variable scrape : MetricsState -> list WAct.
Variable cfg : GatewayConfig.

(** A system endpoint does not touch the state. *)
Definition serve_system (ep : Endpoint) (h : Handler) (q : Incoming) (wd : World) : GatewayAnswer :=
  match h (in_request q) wd with
  | (acts, _, Ret _) => Handled ep acts
  | (_, _, Panic msg) => HandlerPanic ep msg
  end.

Definition empty_world (sv : Serving) : World :=
  mkWorld (sv_logs sv) (sv_metrics sv) (NewInMemoryStore F64.zero 0) (NewBreaker DefaultBreakerConfig true 0)
    (ARoundRobin (NewRoundRobin [])) [].

Definition serve_route (i : nat) (q : Incoming) (sv : Serving) : GatewayAnswer * Serving :=
  match rt_routes (sv_router sv) !! i with
  | None => (HandlerPanic (RouteEndpoint i) "index out of range", sv)
  | Some rt =>
      match route_handler (in_removeHop q) (in_RoundTrip q) (in_env q) cfg (rt_cfg rt) with
      | Panic msg => (HandlerPanic (RouteEndpoint i) msg, sv)
      | Ret h =>
          match h (in_request q) (route_world sv rt) with
          | (acts, wd, Ret _) => (Handled (RouteEndpoint i) acts, serving_after i rt wd sv)
          | (_, wd, Panic msg) => (HandlerPanic (RouteEndpoint i) msg, serving_after i rt wd sv)
          end
      end
  end.

Definition serve (q : Incoming) (sv : Serving) : GatewayAnswer * Serving :=
  match findHandler (rt_mux (sv_router sv)) (req_URL_Host (in_request q)) (req_Host (in_request q)) (Method (in_request q)) (in_path q) with
  | FoundHandler (RouteEndpoint i) => serve_route i q sv
  | FoundHandler SystemHealth => (serve_system SystemHealth healthHandler q (empty_world sv), sv)
  | FoundHandler SystemReady => (serve_system SystemReady (readinessHandler cfg) q (empty_world sv), sv)
  | FoundHandler SystemMetrics => (Handled SystemMetrics (scrape (sv_metrics sv)), sv)
  | RedirectTo path => (MuxRedirect path, sv)
  | MethodNotAllowed => (MuxError 405, sv)
  | NotFound => (MuxError 404, sv)
  end.

(** ** The invariant of all routes *)

(** The runtime of a route at a time. *)
Record runtime_ok (now : Time) (rc : RouteConfig) (rt : RouteRuntime) : Prop := mk_runtime_ok {
  ro_cfg : rt_cfg rt = rc;
  ro_has_store : is_Some (rt_store rt) <-> is_Some (rc_RateLimit rc);
  ro_has_breaker : is_Some (rt_breaker rt) <-> is_Some (rc_CircuitBreaker rc);
  ro_state : forall sv, route_ok rc (fst <$> pool (fst (NewFromConfig rc))) now (route_world sv rt)
}.

Lemma runtime_ok_later t1 t2 rc rt : t1 <= t2 -> runtime_ok t1 rc rt -> runtime_ok t2 rc rt.
Proof. intros Ht [H1 H2 H3 H4]. split; [done..|]. intros sv. by apply (route_ok_later rc _ t1). Qed.

(** The state of a route does not depend on the log and the metrics. *)
Lemma route_ok_runtime rc targets now wd rt sv :
  (is_Some (rt_store rt) <-> is_Some (rc_RateLimit rc)) -> (is_Some (rt_breaker rt) <-> is_Some (rc_CircuitBreaker rc)) ->
  route_ok rc targets now wd -> route_ok rc targets now (route_world sv (route_after wd rt)).
Proof.
  intros Hs Hb [H1 H2 H3 H4]. split; [| |exact H3|exact H4].
  - intros rl E. destruct (proj2 Hs) as [s Es]; [by rewrite E|]. cbn. rewrite Es. by apply (H1 rl).
  - intros cb E. destruct (proj2 Hb) as [b Eb]; [by rewrite E|]. cbn. rewrite Eb. by apply (H2 cb).
Qed.

Lemma new_runtime_ok now0 t rc rt logs : route_params rc -> new_runtime now0 rc = Ret (rt, logs) -> runtime_ok t rc rt.
Proof.
  intros Hp E. unfold new_runtime in E. pose proof (NewFromConfig_ok rc (rp_targets rc Hp)) as [Hok _].
  destruct (NewFromConfig rc) as [bal blogs] eqn:EB. cbn [fst] in Hok. destruct (NewHealthChecker bal []) as [hc|msg]; [|done].
  cbn [outcome_bind] in E. injection E as <- _. split; cbn [rt_cfg rt_store rt_breaker]; [done|by rewrite fmap_is_Some..|].
  intros sv. rewrite EB. split; [| |exact Hok|done].
  - intros rl E. cbn. rewrite E. cbn. split; [|done]. split; [by apply (rp_limiter rc Hp)|]. apply map_Forall_empty.
  - intros cb E. cbn. rewrite E. cbn. destruct (rp_breaker rc Hp cb E). by apply NewBreaker_wf.
Qed.

(** A request through a route: it is answered, and only the runtime of the route changes. *)
Lemma serve_route_ok i rc q t sv rt : route_params rc -> t <= env_rate_now (in_env q) ->
  rt_routes (sv_router sv) !! i = Some rt -> runtime_ok t rc rt ->
  exists acts rt', serve_route i q sv = (Handled (RouteEndpoint i) acts,
      mkServing (sv_logs (serve_route i q sv).2) (sv_metrics (serve_route i q sv).2)
        (mkRouter (rt_mux (sv_router sv)) (<[i := rt']> (rt_routes (sv_router sv))))) /\
    runtime_ok (env_rate_now (in_env q)) rc rt'.
Proof.
  intros Hp Ht Hi Hok. pose proof (runtime_ok_later _ _ _ _ Ht Hok) as [Hc Hs Hb Hst]. unfold serve_route. rewrite Hi, Hc.
  destruct (route_handler_ok rc _ Hp (in_removeHop q) (in_RoundTrip q) (in_env q) cfg (in_request q) (route_world sv rt) (Hst sv))
    as (h & acts & wd & -> & Eh & Hwd). rewrite Eh. cbv iota beta. cbn [snd]. eexists acts, (route_after wd rt). split; [reflexivity|].
  split; cbn [rt_cfg rt_store rt_breaker route_after]; [done|by rewrite fmap_is_Some..|].
  intros sv'. by apply route_ok_runtime.
Qed.

(** ** Everything that happens to the gateway *)

(** Requests, health marks by the checker of a route and ticks of the cleanup of its store. *)
Inductive GatewayEvent :=
  | Arrives (q : Incoming)
  | Marked (i : nat) (u : string) (h : bool)
  | Cleaned (i : nat) (t : Time).

Definition gateway_event (ev : GatewayEvent) (sv : Serving) : outcome (list (Incoming * GatewayAnswer) * Serving) :=
  match ev with
  | Arrives q => let '(a, sv') := serve q sv in Ret ([(q, a)], sv')
  | Marked i u h =>
      match rt_routes (sv_router sv) !! i with
      | None => Ret ([], sv)
      | Some rt =>
          do! b <- notify u h (rt_balancer rt);
          Ret ([], serving_after i rt (set_balancer b (route_world sv rt)) sv)
      end
  | Cleaned i t =>
      match rt_routes (sv_router sv) !! i with
      | None => Ret ([], sv)
      | Some rt =>
          let wd := route_world sv rt in
          Ret ([], serving_after i rt (set_store (mkInMemoryStore (cleanup [t] (inner (wd_store wd)))) wd) sv)
      end
  end.

Fixpoint gateway_run (evs : list GatewayEvent) (sv : Serving) : outcome (list (Incoming * GatewayAnswer) * Serving) :=
  match evs with
  | [] => Ret ([], sv)
  | ev :: evs' =>
      do! (a, sv1) <- gateway_event ev sv;
      do! (as', sv2) <- gateway_run evs' sv1;
      Ret (a ++ as', sv2)
  end.

(** ** The reference *)

(** The segments of a path, and whether it ends in a slash. *)
Definition plain_path_of (p : string) : list string * bool :=
  let segs := path_segments p in
  if bool_decide (last segs = Some "") then (removelast segs, true) else (segs, false).

Definition plain_incoming (q : Incoming) : Prop :=
  let '(xs, slash) := plain_path_of (in_path q) in xs <> [] /\ all_plain xs /\ in_path q = request_path xs slash.

Variable segss : list (list string).
Variable metrics : option (list string).

Definition reference (q : Incoming) : Found (H := Endpoint) :=
  let '(xs, slash) := plain_path_of (in_path q) in
  spec_dispatch (system_of metrics) (zip (Routes cfg) segss) (Method (in_request q)) xs slash.

(** An answer is the one of the endpoint the reference names. *)
Definition answered_by (f : Found (H := Endpoint)) (a : GatewayAnswer) : Prop :=
  match f, a with
  | FoundHandler ep, Handled ep' _ => ep = ep'
  | MethodNotAllowed, MuxError code => code = 405
  | NotFound, MuxError code => code = 404
  | _, _ => False
  end.

(** The route an event concerns. *)
Definition concerns (ev : GatewayEvent) : option nat :=
  match ev with
  | Arrives q => match reference q with FoundHandler (RouteEndpoint i) => Some i | _ => None end
  | Marked i _ _ | Cleaned i _ => Some i
  end.

Definition arrival_times (evs : list GatewayEvent) : list Time :=
  omap (fun ev => match ev with Arrives q => Some (env_rate_now (in_env q)) | _ => None end) evs.

Definition arrivals (evs : list GatewayEvent) : list Incoming :=
  omap (fun ev => match ev with Arrives q => Some q | _ => None end) evs.

Lemma reference_route m xs slash i :
  spec_dispatch (system_of metrics) (zip (Routes cfg) segss) m xs slash = FoundHandler (RouteEndpoint i) ->
  is_Some (Routes cfg !! i).
Proof.
  unfold spec_dispatch. destruct (head _) as [ep|] eqn:E; [|by destruct (existsb _ _)]. intros [= ->].
  apply head_Some_elem_of, list_elem_of_omap in E as (m' & _ & E). unfold endpoint_at in E.
  destruct (system_at (system_of metrics) m' xs slash) as [ep|] eqn:Es.
  - injection E as ->. unfold system_at, system_of in Es. repeat case_bool_decide; cbn in Es; try done; by destruct slash.
  - apply fmap_Some in E as ([k A] & El & [= ->]). pose proof (longest_route_spec m' xs (zip (Routes cfg) segss) 0) as HS.
    rewrite El in HS. destruct HS as ((j & rc & -> & Hj & _) & _). cbn.
    apply lookup_zip_with_Some in Hj as (rc' & A' & _ & Hj & _). by eexists.
Qed.

Section Build.
Variables (un : string -> bool) (now0 : Time) (router0 : Router) (logs0 : list LogRecord).
Hypothesis Hparams : Forall route_params (Routes cfg).
Hypothesis Hplain : Forall2 plain_route (Routes cfg) segss.
Hypothesis Hmetrics : plain_metrics (Metrics cfg) metrics.
Hypothesis HB : BuildRouter un now0 cfg = Ret (router0, logs0).

(** The patterns stay, and every route is well-formed. *)
Record serving_ok (t : Time) (sv : Serving) : Prop := mk_serving_ok {
  so_mux : rt_mux (sv_router sv) = rt_mux router0;
  so_routes : Forall2 (runtime_ok t) (Routes cfg) (rt_routes (sv_router sv))
}.

Lemma serving_ok_update t t' sv i rc rt' logs ms : serving_ok t sv -> t <= t' ->
  Routes cfg !! i = Some rc -> runtime_ok t' rc rt' ->
  serving_ok t' (mkServing logs ms (mkRouter (rt_mux (sv_router sv)) (<[i := rt']> (rt_routes (sv_router sv))))).
Proof.
  intros [Hm Hr] Ht Hi Hok. split; [exact Hm|]. cbn. rewrite <- (list_insert_id _ _ _ Hi). apply Forall2_insert; [|done].
  eapply Forall2_impl; [exact Hr|]. intros rc' rt''. by apply runtime_ok_later.
Qed.

Lemma serve_reference q t sv : serving_ok t sv -> plain_incoming q ->
  findHandler (rt_mux (sv_router sv)) (req_URL_Host (in_request q)) (req_Host (in_request q)) (Method (in_request q)) (in_path q) = reference q.
Proof.
  intros [Hm _] Hq. unfold plain_incoming, reference in *. destruct (plain_path_of (in_path q)) as [xs slash].
  destruct Hq as (Hne & Hxs & ->). rewrite Hm. exact (findHandler_reference un now0 cfg segss metrics router0 logs0 _ _ _ xs slash
    Hplain Hmetrics HB Hne Hxs).
Qed.

Lemma routes_lookup t sv i rc : serving_ok t sv -> Routes cfg !! i = Some rc ->
  exists rt, rt_routes (sv_router sv) !! i = Some rt /\ runtime_ok t rc rt /\ route_params rc.
Proof.
  intros [_ Hr] Hi. destruct (Forall2_lookup_l _ _ _ _ _ Hr Hi) as (rt & Hrt & Hok). exists rt. split; [done|]. split; [done|].
  rewrite Forall_lookup in Hparams. by eapply Hparams.
Qed.

(** A request is answered by the endpoint of the reference; other routes do not change. *)
Lemma serve_ok q t sv : serving_ok t sv -> plain_incoming q -> t <= env_rate_now (in_env q) ->
  answered_by (reference q) (serve q sv).1 /\ serving_ok (env_rate_now (in_env q)) (serve q sv).2 /\
  forall j, concerns (Arrives q) <> Some j -> rt_routes (sv_router (serve q sv).2) !! j = rt_routes (sv_router sv) !! j.
Proof.
  intros Hok Hq Ht. assert (Hlater : serving_ok (env_rate_now (in_env q)) sv).
  { destruct Hok as [Hm Hr]. split; [done|]. eapply Forall2_impl; [exact Hr|]. intros rc' rt''. by apply runtime_ok_later. }
  unfold serve. rewrite (serve_reference q t sv Hok Hq). cbn [concerns].
  destruct (reference q) as [[| | |i]|path| |] eqn:ER; try (split; [done|]; split; [exact Hlater|done]).
  - assert (Hi : is_Some (Routes cfg !! i)).
    { unfold reference in ER. destruct (plain_path_of (in_path q)). by eapply reference_route. }
    destruct Hi as [rc Hi]. destruct (routes_lookup t sv i rc Hok Hi) as (rt & Hrt & Hrok & Hp).
    destruct (serve_route_ok i rc q t sv rt Hp Ht Hrt Hrok) as (acts & rt' & E & Hok'). rewrite E. cbn [fst snd].
    split; [done|]. split; [by eapply serving_ok_update|]. intros j Hj. cbn. rewrite list_lookup_insert_ne; [done|congruence].
  - exfalso. unfold reference, spec_dispatch in ER. destruct (plain_path_of (in_path q)).
    destruct (head _); [done|]. by destruct (existsb _ _).
Qed.

(** A background step of a route. *)
Lemma background_ok t sv i rc rt wd : serving_ok t sv -> Routes cfg !! i = Some rc ->
  rt_routes (sv_router sv) !! i = Some rt ->
  route_ok rc (fst <$> pool (fst (NewFromConfig rc))) t wd -> serving_ok t (serving_after i rt wd sv).
Proof.
  intros Hok Hi Hrt Hwd. destruct (routes_lookup t sv i rc Hok Hi) as (rt2 & Hrt2 & [Hc Hs Hb Hst] & _).
  rewrite Hrt in Hrt2. injection Hrt2 as <-. unfold serving_after. apply (serving_ok_update t t sv i rc); [done..|lia|done|].
  split; cbn [rt_cfg rt_store rt_breaker route_after]; [done|by rewrite fmap_is_Some..|]. intros sv'. by apply route_ok_runtime.
Qed.

(** What an event needs: a request in the order of the clock, of a plain path. *)
Definition event_ok (t : Time) (ev : GatewayEvent) : Prop :=
  match ev with Arrives q => plain_incoming q /\ t <= env_rate_now (in_env q) | _ => True end.

Definition event_end (t : Time) (ev : GatewayEvent) : Time :=
  match ev with Arrives q => env_rate_now (in_env q) | _ => t end.

Definition answers_match (q : Incoming) (x : Incoming * GatewayAnswer) : Prop :=
  x.1 = q /\ answered_by (reference q) x.2.

Lemma gateway_event_ok ev t sv : serving_ok t sv -> event_ok t ev ->
  exists out sv', gateway_event ev sv = Ret (out, sv') /\ serving_ok (event_end t ev) sv' /\
    Forall2 answers_match (arrivals [ev]) out /\
    forall j, concerns ev <> Some j -> rt_routes (sv_router sv') !! j = rt_routes (sv_router sv) !! j.
Proof.
  intros Hok Hev.
  assert (HN : forall i, rt_routes (sv_router sv) !! i = None \/ exists rc rt, Routes cfg !! i = Some rc /\
    rt_routes (sv_router sv) !! i = Some rt /\ runtime_ok t rc rt /\ route_params rc).
  { intros i. destruct (rt_routes (sv_router sv) !! i) as [rt|] eqn:Ei; [right|by left].
    destruct (Forall2_lookup_r _ _ _ _ _ (so_routes t sv Hok) Ei) as (rc & Hrc & Hr). exists rc, rt. do 3 (split; [done|]).
    rewrite Forall_lookup in Hparams. by eapply Hparams. }
  destruct ev as [q|i u h|i t2]; cbn [gateway_event event_end] in *.
  - destruct Hev as [Hq Ht]. pose proof (serve_ok q t sv Hok Hq Ht) as (Ha & Hs & Hj). destruct (serve q sv) as [a sv'].
    exists [(q, a)], sv'. split; [done|]. split; [done|]. split; [by repeat constructor|done].
  - destruct (HN i) as [->|(rc & rt & Hrc & Hrt & Hr & Hp)]; [by eexists [], sv|]. rewrite Hrt.
    destruct (notify_ok rc _ t u h (route_world sv rt) (ro_state t rc rt Hr sv)) as (b & Eb & Hb).
    change (wd_balancer (route_world sv rt)) with (rt_balancer rt) in Eb. rewrite Eb. cbn [outcome_bind].
    eexists [], _. split; [reflexivity|]. split; [by eapply background_ok|]. split; [constructor|].
    intros j Hj. cbn in *. rewrite list_lookup_insert_ne; [done|congruence].
  - destruct (HN i) as [->|(rc & rt & Hrc & Hrt & Hr & Hp)]; [by eexists [], sv|]. rewrite Hrt.
    eexists [], _. split; [reflexivity|]. split.
    { eapply background_ok; [done..|]. apply cleanup_ok. exact (ro_state t rc rt Hr sv). }
    split; [constructor|]. intros j Hj. cbn in *. rewrite list_lookup_insert_ne; [done|congruence].
Qed.

Lemma gateway_run_ok : forall evs t sv, serving_ok t sv ->
  StronglySorted Z.le (t :: arrival_times evs) -> Forall plain_incoming (arrivals evs) ->
  exists out sv' t', gateway_run evs sv = Ret (out, sv') /\ serving_ok t' sv' /\
    Forall2 answers_match (arrivals evs) out /\
    forall j, Forall (fun ev => concerns ev <> Some j) evs ->
      rt_routes (sv_router sv') !! j = rt_routes (sv_router sv) !! j.
Proof.
  induction evs as [|ev evs IH]; intros t sv Hok Hsort Hpl; [by exists [], sv, t|].
  assert (HE : event_ok t ev /\ StronglySorted Z.le (event_end t ev :: arrival_times evs) /\ Forall plain_incoming (arrivals evs) /\
    arrivals (ev :: evs) = arrivals [ev] ++ arrivals evs).
  { destruct ev as [q|i u h|i t2]; cbn [event_ok event_end arrival_times arrivals omap list_omap app] in *; try done.
    apply StronglySorted_inv in Hsort as [Hsort HF]. apply Forall_inv in HF. apply Forall_cons in Hpl as [? ?]. done. }
  destruct HE as (Hev & Hsort' & Hpl' & ->). destruct (gateway_event_ok ev t sv Hok Hev) as (out1 & sv1 & E1 & Hok1 & HF1 & Hj1).
  destruct (IH _ sv1 Hok1 Hsort' Hpl') as (out2 & sv2 & t2 & E2 & Hok2 & HF2 & Hj2).
  exists (out1 ++ out2), sv2, t2. cbn [gateway_run]. rewrite E1. cbn [outcome_bind]. rewrite E2. split; [done|].
  split; [done|]. split; [by apply Forall2_app|]. intros j [Ha Hb]%Forall_cons. by rewrite Hj2, Hj1.
Qed.

(** The runtimes the router is built with. *)
Lemma build_routes_runtimes : forall rcs i rt rt' logs, build_routes un now0 i rcs rt = Ret (rt', logs) ->
  exists rts, rt_routes rt' = rt_routes rt ++ rts /\
    Forall2 (fun rc run => exists l, new_runtime now0 rc = Ret (run, l)) rcs rts.
Proof.
  induction rcs as [|rc rcs IH]; intros i rt rt' logs E; cbn [build_routes] in E.
  { injection E as <- _. exists []. by rewrite app_nil_r. }
  destruct (new_runtime now0 rc) as [[run l]|msg] eqn:En; [|done]. cbn [outcome_bind] in E.
  destruct (mux_Handle_all un _ _) as [mux|msg]; [|done]. cbn [outcome_bind] in E.
  destruct (build_routes un now0 (S i) rcs _) as [[rt2 logs2]|msg] eqn:E2; [|done]. cbn [outcome_bind] in E.
  injection E as <- _. destruct (IH _ _ _ _ E2) as (rts & Hr & HF). cbn [rt_routes] in Hr. exists (run :: rts). split.
  - by rewrite Hr, <- app_assoc.
  - constructor; [by eexists|done].
Qed.

Lemma initial_ok t logs ms : serving_ok t (mkServing logs ms router0).
Proof.
  split; [done|]. cbn. unfold BuildRouter in HB. destruct (mux_Handle_all un _ _) as [mux|msg]; [|done]. cbn [outcome_bind] in HB.
  destruct (build_routes_runtimes _ _ _ _ _ HB) as (rts & -> & HF). cbn [rt_routes app]. clear HB Hplain.
  induction HF as [|rc run rcs rts [l E] _ IH]; [constructor|]. apply Forall_cons in Hparams as [Hp Hps].
  constructor; [by eapply new_runtime_ok|by apply IH].
Qed.
End Build.

(** ** Properties *)

(** C3: the gateway answers its clients.  From the router built from a configuration of plain routes, under any
    sequence of requests (of any method and any plain path, whatever the upstreams do),
    health marks and cleanups on any routes, with the requests in the order of the clock: nothing panics;
    every request is answered by the endpoint the reference dispatch names, or with 405 or 404, never by a
    redirect or a lost panic; all routes stay well-formed; and a route no event concerns keeps its balancer, its
    limiter and its breaker as they were. *)
Theorem gateway_answers un now0 router0 logs0 t0 evs logs ms :
  Forall route_params (Routes cfg) -> Forall2 plain_route (Routes cfg) segss -> plain_metrics (Metrics cfg) metrics ->
  BuildRouter un now0 cfg = Ret (router0, logs0) ->
  StronglySorted Z.le (t0 :: arrival_times evs) -> Forall plain_incoming (arrivals evs) ->
  exists out sv t, gateway_run evs (mkServing logs ms router0) = Ret (out, sv) /\
    Forall2 answers_match (arrivals evs) out /\
    Forall2 (runtime_ok t) (Routes cfg) (rt_routes (sv_router sv)) /\
    forall j, Forall (fun ev => concerns ev <> Some j) evs -> rt_routes (sv_router sv) !! j = rt_routes router0 !! j.
Proof.
  intros Hp Hr Hm HB Hsort Hpl.
  destruct (gateway_run_ok un now0 router0 logs0 Hp Hr Hm HB evs t0 (mkServing logs ms router0)
    (initial_ok un now0 router0 logs0 Hp HB t0 logs ms) Hsort Hpl) as (out & sv & t & E & [_ Hok] & HF & Hj).
  by exists out, sv, t.
Qed.
End Serving.

(** ** Examples *)

Section Examples.
#[local] Existing Instance plain_url_lib.

Definition two_routes : GatewayConfig := gateway_config [limited_route; method_route "/web" ["GET"]].

Definition arriving (method path : string) : Incoming :=
  mkIncoming path (mkRequest method path "" "" "" "gw.local" ∅ "10.0.0.1:1234" false []) example_env id
    ok_upstream.

Definition busy_hour : list GatewayEvent :=
  [Arrives (arriving "POST" "/api/users/7"); Marked 0 "http://host1:3001" false; Cleaned 0 (400 * Second);
   Arrives (arriving "GET" "/api/"); Arrives (arriving "DELETE" "/web"); Arrives (arriving "GET" "/health");
   Arrives (arriving "GET" "/nowhere")].

Definition answer_of (a : GatewayAnswer) : option Endpoint * Z :=
  match a with Handled ep acts => (Some ep, final_status acts) | MuxError code => (None, code) | _ => (None, 0) end.

Lemma two_routes_params : Forall route_params (Routes two_routes).
Proof.
  constructor; [|constructor; [|constructor]].
  - exact limited_route_params.
  - split; [by intros rl [=]|by intros cb [=]|vm_compute; discriminate].
Qed.

Lemma gateway_answers_witness :
  exists router0 logs0 out sv, BuildRouter (fun _ => false) 0 two_routes = Ret (router0, logs0) /\
    gateway_run (fun _ => []) two_routes busy_hour (mkServing [] example_metrics router0) = Ret (out, sv) /\
    (fun x => answer_of x.2) <$> out =
      [(Some (RouteEndpoint 0), 200); (Some (RouteEndpoint 0), 502); (None, 405); (Some SystemHealth, 200); (None, 404)] /\
    rt_routes (sv_router sv) !! 1%nat = rt_routes router0 !! 1%nat.
Proof.
  destruct (BuildRouter (fun _ => false) 0 two_routes) as [[router0 logs0]|msg] eqn:E; [|vm_compute in E; discriminate].
  assert (Hr : Forall2 plain_route (Routes two_routes) [["api"]; ["web"]]).
  { repeat constructor; first [by right|vm_compute; congruence]. }
  assert (Hm : plain_metrics (Metrics two_routes) (Some ["metrics"])).
  { cbn. split_and!; try (vm_compute; congruence). repeat constructor. }
  assert (Hp : Forall plain_incoming (arrivals busy_hour)).
  { repeat constructor; vm_compute; congruence. }
  destruct (gateway_answers (fun _ => []) two_routes [["api"]; ["web"]] (Some ["metrics"]) (fun _ => false) 0 router0 logs0 0 busy_hour
    [] example_metrics two_routes_params Hr Hm E ltac:(repeat constructor; done) Hp) as (out & sv & t & H1 & _ & _ & H4).
  exists router0, logs0, out, sv. split; [reflexivity|]. split; [exact H1|]. split.
  - assert (HA : match BuildRouter (fun _ => false) 0 two_routes with
      | Ret (router, _) => match gateway_run (fun _ => []) two_routes busy_hour (mkServing [] example_metrics router) with
          | Ret (o, _) => (fun x => answer_of x.2) <$> o | Panic _ => [] end
      | Panic _ => [] end = [(Some (RouteEndpoint 0), 200); (Some (RouteEndpoint 0), 502); (None, 405); (Some SystemHealth, 200); (None, 404)])
      by (vm_compute; reflexivity).
    rewrite E, H1 in HA. exact HA.
  - apply (H4 1%nat). repeat constructor; vm_compute; discriminate.
Defined.
End Examples.
