(* ===== verification/Watcher.v ===== *)
(** * internal/config/watcher.go: the watcher of the configuration file

    [NewWatcher], the loop [watch] over what the file-system watcher delivers,
    [reload] and [Close].  fsnotify is a parameter: the type of its events, the two tests made
    on them, and the results of its calls.  The callback and the logger act on a
    state of the client's. *)

From S2P Require Import Prelude Float64 GoLib Config.

(** What the process reads at one moment: the environment, the files and the clock. *)
Record Moment := mkMoment {
  mo_Getenv : string -> string;
  mo_ReadFile : string -> result string;
  mo_ExpandEnv : string -> string;
  mo_now : Time
}.

Definition outcome_map {A B} (f : A -> B) (o : outcome A) : outcome B :=
  match o with Ret a => Ret (f a) | Panic msg => Panic msg end.

Section Watcher.
Context `{UL : URLLib}.
(** [strings.ToLower] beyond ASCII and [yaml.Unmarshal]. *)
Variable unicode_lower : string -> string.
Variable Unmarshal : string -> result GatewayConfig.
(** fsnotify's events, and whether one has [Write] and [Create]. *)
Variable Event : Type.
Variable Has_Write Has_Create : Event -> bool.

Definition load_at (m : Moment) (path : string) : result GatewayConfig :=
  Load (mo_Getenv m) unicode_lower (mo_ReadFile m) (mo_ExpandEnv m) Unmarshal path.

(** The callback, the logger and the fsnotify watcher are not data of the record;
    the mutex orders [reload] and [Close]. *)
Record Watcher := mkWatcher {
  w_path : string;
  w_closed : bool
}.

Section Client.
(** The state the client's callback and logger act on; a panic of the callback
    ends the process. *)
Variable St : Type.
Variable log : LogRecord -> St -> St.
Variable callback : Moment -> GatewayConfig -> St -> outcome St.

(** [newErr] and [addErr]: the errors of [fsnotify.NewWatcher] and [fsw.Add]. *)
Definition NewWatcher (newErr addErr : option error) (path : string) (st : St) : result Watcher * St :=
  match newErr with
  | Some err => (Err (Errorf ("creating fsnotify watcher: " +:+ error_Error err)), st)
  | None =>
      match addErr with
      | Some err => (Err (Errorf ("watching config file: " +:+ error_Error err)), st)
      | None =>
          (Ok (mkWatcher path false), log (mkLog LevelInfo "config watcher started" [("path", AString path)]) st)
      end
  end.

Definition reload (m : Moment) (w : Watcher) (st : St) : outcome St :=
  if w_closed w then Ret st else
  match load_at m (w_path w) with
  | Err err =>
      Ret (log (mkLog LevelWarn "config reload failed, keeping current config"
        [("error", AString (error_Error err)); ("path", AString (w_path w))]) st)
  | Ok cfg => callback m cfg (log (mkLog LevelInfo "config reloaded successfully" [("path", AString (w_path w))]) st)
  end.

(** [Close]; [err] is the result of fsnotify's [Close]. *)
Definition Close (err : option error) (w : Watcher) : Watcher * option error := (mkWatcher (w_path w) true, err).

(** What reaches the watcher: deliveries of the two channels to the goroutine, and a
    call of [Close] by the owner. *)
Inductive WatchInput :=
  | FsEvent (m : Moment) (ev : Event)
  | EventsClosed
  | FsError (err : error)
  | ErrorsClosed
  | CloseCalled (err : option error).

(** The watcher, whether its goroutine still runs, and the client's state. *)
Record Watching := mkWatching {
  wt_alive : bool;
  wt_watcher : Watcher;
  wt_st : St
}.

(** One iteration of the loop of [watch], or one call of [Close]. *)
Definition watch_step (i : WatchInput) (s : Watching) : outcome Watching :=
  match i with
  | CloseCalled err => Ret (mkWatching (wt_alive s) (fst (Close err (wt_watcher s))) (wt_st s))
  | _ =>
      if negb (wt_alive s) then Ret s else
      match i with
      | FsEvent m ev =>
          if Has_Write ev || Has_Create ev then
            do! st <- reload m (wt_watcher s) (wt_st s);
            Ret (mkWatching true (wt_watcher s) st)
          else Ret s
      | FsError err =>
          Ret (mkWatching true (wt_watcher s)
            (log (mkLog LevelError "config watcher error" [("error", AString (error_Error err))]) (wt_st s)))
      | _ => Ret (mkWatching false (wt_watcher s) (wt_st s))
      end
  end.

Fixpoint watch (inputs : list WatchInput) (s : Watching) : outcome Watching :=
  match inputs with
  | [] => Ret s
  | i :: inputs' => do! s' <- watch_step i s; watch inputs' s'
  end.

(** ** Specification: the configurations the watcher hands over *)

(** Every write or creation of the file whose configuration loads, until the
    watcher is closed or a channel is. *)
Fixpoint accepted (path : string) (inputs : list WatchInput) : list (Moment * GatewayConfig) :=
  match inputs with
  | [] => []
  | FsEvent m ev :: inputs' =>
      if Has_Write ev || Has_Create ev then
        match load_at m path with
        | Ok cfg => (m, cfg) :: accepted path inputs'
        | Err _ => accepted path inputs'
        end
      else accepted path inputs'
  | FsError _ :: inputs' => accepted path inputs'
  | EventsClosed :: _ | ErrorsClosed :: _ | CloseCalled _ :: _ => []
  end.

Section Refinement.
(** What the client's state is observed by: logging does not change it, and the
    callback acts on it as [act] does. *)
Context {T : Type} (obs : St -> T) (act : Moment * GatewayConfig -> T -> outcome T).

Fixpoint act_all (l : list (Moment * GatewayConfig)) (t : T) : outcome T :=
  match l with
  | [] => Ret t
  | x :: l' => do! t' <- act x t; act_all l' t'
  end.

(** The abstract watcher: whether it still hands over, and the observation. *)
Definition spec_step (path : string) (i : WatchInput) (s : bool * T) : outcome (bool * T) :=
  let '(running, t) := s in
  if negb running then Ret s else
  match i with
  | FsEvent m ev =>
      if Has_Write ev || Has_Create ev then
        match load_at m path with
        | Ok cfg => do! t' <- act (m, cfg) t; Ret (true, t')
        | Err _ => Ret s
        end
      else Ret s
  | FsError _ => Ret s
  | _ => Ret (false, t)
  end.

Fixpoint spec_run (path : string) (inputs : list WatchInput) (s : bool * T) : outcome (bool * T) :=
  match inputs with
  | [] => Ret s
  | i :: inputs' => do! s' <- spec_step path i s; spec_run path inputs' s'
  end.

Lemma spec_run_accepted path inputs : forall running t,
  outcome_map snd (spec_run path inputs (running, t)) = act_all (if running then accepted path inputs else []) t.
Proof.
  induction inputs as [|i inputs IH]; intros [] t; [done..| |].
  - destruct i as [m ev| |err| |err]; cbn; try apply (IH false); try apply (IH true).
    destruct (Has_Write ev || Has_Create ev); [|apply (IH true)].
    destruct (load_at m path) as [cfg|err]; [|apply (IH true)]. cbn.
    destruct (act (m, cfg) t); [apply (IH true)|done].
  - apply (IH false).
Qed.

Hypothesis log_obs : forall r st, obs (log r st) = obs st.
Hypothesis callback_obs : forall m cfg st, outcome_map obs (callback m cfg st) = act (m, cfg) (obs st).

Definition watching_abs (s : Watching) : bool * T :=
  (wt_alive s && negb (w_closed (wt_watcher s)), obs (wt_st s)).

(** One step of the watcher is one step of the abstract one. *)
Lemma watch_step_spec i s :
  outcome_map watching_abs (watch_step i s) = spec_step (w_path (wt_watcher s)) i (watching_abs s) /\
  forall s', watch_step i s = Ret s' -> w_path (wt_watcher s') = w_path (wt_watcher s).
Proof.
  destruct s as [alive [path closed] st]. unfold watching_abs.
  destruct i as [m ev| |err| |err]; cbn; destruct alive, closed; cbn; rewrite ?log_obs;
    try (split; [done|]; by intros s' [= <-]); unfold reload; cbn;
    (destruct (Has_Write ev || Has_Create ev); [|split; [done|]; by intros s' [= <-]]).
  - split; [done|]. by intros s' [= <-].
  - destruct (load_at m path) as [cfg|err].
    + set (st1 := log _ st). pose proof (callback_obs m cfg st1) as HC.
      unfold st1 in HC at 2. rewrite log_obs in HC. rewrite <- HC.
      destruct (callback m cfg st1); cbn; (split; [done|]); by intros s' [= <-].
    + cbn. rewrite log_obs. split; [done|]. by intros s' [= <-].
Qed.
End Refinement.
End Client.
End Watcher.

Arguments FsEvent {_} m ev.
Arguments EventsClosed {_}.
Arguments FsError {_} err.
Arguments ErrorsClosed {_}.
Arguments CloseCalled {_} err.
Arguments mkWatching {_} _ _ _.
Arguments wt_alive {_} _.
Arguments wt_watcher {_} _.
Arguments wt_st {_} _.
