(* ===== verification/Server.v ===== *)
(** * internal/server/server.go and cmd/gateforge/main.go: the running gateway

    The server with its replaceable handler, and [main]: loading, wiring, the
    reload callback, the shutdown on a signal, the exit code.  The network (how
    [ListenAndServe] and [Shutdown] end) and fsnotify are arguments. *)

From S2P Require Import Prelude Float64 GoLib Config Balancer RoundRobin BalancerConfig Health Breaker.
From S2P Require Import TokenBucket Http Middleware MiddlewareFacts Proxy ProxyFacts Mux Router RouterFacts Watcher.

Section Server.
Context `{UL : URLLib} (unicode_name : string -> bool).

(** ** server.go *)

(** The fields of the [http.Server] that are set. *)
Record HTTPServer := mkHTTPServer {
  hs_Addr : string;
  hs_Handler : Router;
  hs_ReadTimeout : Duration;
  hs_WriteTimeout : Duration;
  hs_IdleTimeout : Duration
}.

(** The logger is the gateway's; the mutex protects one assignment. *)
Record GatewayServer := mkGatewayServer { httpServer : HTTPServer }.

Definition New (handler : Router) (port : Z) (readTimeout writeTimeout idleTimeout : Duration) : GatewayServer :=
  mkGatewayServer (mkHTTPServer (":" +:+ itoa port) handler readTimeout writeTimeout idleTimeout).

Definition SetHandler (handler : Router) (s : GatewayServer) : GatewayServer :=
  let h := httpServer s in
  mkGatewayServer (mkHTTPServer (hs_Addr h) handler (hs_ReadTimeout h) (hs_WriteTimeout h) (hs_IdleTimeout h)).

(** ** The process *)

(** The server, the logger with what it has written, the background goroutines
    (a health checker per route of every router built, which only the application's
    context stops, and a cleanup per rate-limit store, which only [Stop]
    stops) and whether the shutdown goroutine has had its signal. *)
Record Gateway := mkGateway {
  gw_server : GatewayServer;
  gw_logger : Logger;
  gw_logs : list LogRecord;
  gw_checkers : list HealthChecker;
  gw_cleanups : list InMemoryStore;
  gw_signalled : bool
}.

(** slog's numeric levels; a handler drops the records below its level. *)
Definition level_value (l : LogLevel) : Z :=
  match l with LevelDebug => -4 | LevelInfo => 0 | LevelWarn => 4 | LevelError => 8 end.

Definition gw_log (r : LogRecord) (gw : Gateway) : Gateway :=
  if level_value (lg_level (gw_logger gw)) <=? level_value (log_level r) then
    mkGateway (gw_server gw) (gw_logger gw) (gw_logs gw ++ [r]) (gw_checkers gw) (gw_cleanups gw) (gw_signalled gw)
  else gw.

Definition gw_log_all (rs : list LogRecord) (gw : Gateway) : Gateway := foldl (fun gw r => gw_log r gw) gw rs.

(** The goroutines [BuildRouter] starts. *)
Definition router_checkers (rt : Router) : list HealthChecker := rt_checker <$> rt_routes rt.
Definition router_cleanups (rt : Router) : list InMemoryStore := omap rt_store (rt_routes rt).

Definition listening_record (s : GatewayServer) : LogRecord :=
  mkLog LevelInfo "server listening" [("addr", AString (hs_Addr (httpServer s)))].

(** [Start]: [ListenAndServe] is what happens while the server listens, and the error it ends with. *)
Definition Server_Start (ListenAndServe : Gateway -> outcome (Gateway * option error)) (gw : Gateway) :
    outcome (Gateway * option error) :=
  let gw := gw_log (listening_record (gw_server gw)) gw in
  do! (gw, err) <- ListenAndServe gw;
  match err with
  | None => Ret (gw, None)
  | Some e =>
      if bool_decide (e <> ErrServerClosed) then Ret (gw, Some (Errorf ("server failed: " +:+ error_Error e)))
      else Ret (gw, None)
  end.

(** [Shutdown]: [err] is the error of the server's own [Shutdown]. *)
Definition Server_Shutdown (err : option error) (gw : Gateway) : Gateway * option error :=
  (gw_log (mkLog LevelInfo "shutting down server" []) gw, err).

(** ** main *)

(** The reload callback. *)
Definition on_reload (m : Moment) (newCfg : GatewayConfig) (gw : Gateway) : outcome Gateway :=
  let gw := gw_log (mkLog LevelInfo "config reloaded, rebuilding router" []) gw in
  do! (newHandler, logs) <- BuildRouter unicode_name (mo_now m) newCfg;
  let gw := gw_log_all logs gw in
  Ret (mkGateway (SetHandler newHandler (gw_server gw)) (gw_logger gw) (gw_logs gw)
    (gw_checkers gw ++ router_checkers newHandler) (gw_cleanups gw ++ router_cleanups newHandler) (gw_signalled gw)).

(** The goroutine that waits for the first SIGTERM or SIGINT. *)
Definition on_signal (sig : string) (shutdownErr : option error) (gw : Gateway) : Gateway :=
  if gw_signalled gw then gw else
  let gw := gw_log (mkLog LevelInfo "shutdown signal received" [("signal", AString sig)]) gw in
  let gw := mkGateway (gw_server gw) (gw_logger gw) (gw_logs gw) (gw_checkers gw) (gw_cleanups gw) true in
  let '(gw, err) := Server_Shutdown shutdownErr gw in
  match err with
  | Some e => gw_log (mkLog LevelError "server shutdown error" [("error", AString (error_Error e))]) gw
  | None => gw
  end.

Section Main.
Variable unicode_lower : string -> string.
Variable Unmarshal : string -> result GatewayConfig.
Variable Event : Type.
Variable Has_Write Has_Create : Event -> bool.
(** The build-time version. *)
Variable Version : string.

(** The command line. *)
Record Flags := mkFlags {
  flag_config : string;
  flag_version : bool
}.

Definition starting_record (cfg : GatewayConfig) : LogRecord :=
  mkLog LevelInfo "gateforge starting"
    [("version", AString Version); ("port", AInt (Port (Config.Server cfg)));
     ("routes", AInt (Z.of_nat (length (Routes cfg))))].

(** The gateway with the router of its first configuration. *)
Definition new_gateway (m : Moment) (cfg : GatewayConfig) : outcome Gateway :=
  let logger := NewLoggerWithWriter (Config.Logging cfg) in
  do! (handler, logs) <- BuildRouter unicode_name (mo_now m) cfg;
  let sc := Config.Server cfg in
  let srv := New handler (Port sc) (ReadTimeout sc) (WriteTimeout sc) (IdleTimeout sc) in
  Ret (gw_log_all (starting_record cfg :: logs)
    (mkGateway srv logger [] (router_checkers handler) (router_cleanups handler) false)).

(** The watcher, if it could be created: otherwise there is no hot reload. *)
Definition start_watcher (newErr addErr : option error) (path : string) (gw : Gateway) : option Watcher * Gateway :=
  match NewWatcher Gateway gw_log newErr addErr path gw with
  | (Ok w, gw) => (Some w, gw)
  | (Err err, gw) =>
      (None, gw_log (mkLog LevelWarn "config watcher failed, hot reload disabled" [("error", AString (error_Error err))]) gw)
  end.

(** How the process ends: the exit code, what it printed and, once it served, its state. *)
Record Exit := mkExit {
  ex_code : Z;
  ex_stdout : string;
  ex_stderr : string;
  ex_gateway : option Gateway
}.

(** What happens while the server serves. *)
Inductive MainInput :=
  | MWatch (i : WatchInput Event)
  | MSignal (sig : string) (shutdownErr : option error).

(** Without a watcher nothing is delivered. *)
Definition main_step (i : MainInput) (s : option (bool * Watcher) * Gateway) :
    outcome (option (bool * Watcher) * Gateway) :=
  let '(ow, gw) := s in
  match i with
  | MSignal sig err => Ret (ow, on_signal sig err gw)
  | MWatch wi =>
      match ow with
      | None => Ret s
      | Some (alive, w) =>
          do! s' <- watch_step unicode_lower Unmarshal Event Has_Write Has_Create Gateway gw_log on_reload wi
            (mkWatching alive w gw);
          Ret (Some (wt_alive s', wt_watcher s'), wt_st s')
      end
  end.

Fixpoint main_loop (inputs : list MainInput) (s : option (bool * Watcher) * Gateway) :
    outcome (option (bool * Watcher) * Gateway) :=
  match inputs with
  | [] => Ret s
  | i :: inputs' => do! s' <- main_step i s; main_loop inputs' s'
  end.

(** After [Start] has returned, with its error. *)
Definition main_end (started : option error) (gw : Gateway) : Exit :=
  match started with
  | Some err => mkExit 1 "" "" (Some (gw_log (mkLog LevelError "server failed" [("error", AString (error_Error err))]) gw))
  | None => mkExit 0 "" "" (Some (gw_log (mkLog LevelInfo "server stopped gracefully" []) gw))
  end.

(** [main], with what it meets: the moment it starts at, the results of the
    fsnotify calls, what happens while it serves and how the server's listener ends. *)
Definition main (flags : Flags) (m : Moment) (newErr addErr : option error) (inputs : list MainInput)
    (listen : option error) : outcome Exit :=
  if flag_version flags then Ret (mkExit 0 ("gateforge " +:+ Version +:+ newline) "" None) else
  match load_at unicode_lower Unmarshal m (flag_config flags) with
  | Err err => Ret (mkExit 1 "" ("failed to load config: " +:+ error_Error err +:+ newline) None)
  | Ok cfg =>
      do! gw <- new_gateway m cfg;
      let '(ow, gw) := start_watcher newErr addErr (flag_config flags) gw in
      do! (gw, err) <- Server_Start
        (fun gw => do! (_, gw) <- main_loop inputs ((fun w => (true, w)) <$> ow, gw); Ret (gw, listen)) gw;
      Ret (main_end err gw)
  end.
End Main.
End Server.

Arguments MWatch {_} i.
Arguments MSignal {_} sig shutdownErr.
