(* ===== verification/ServerFacts.v ===== *)
(** * Hot reload and the life of the process *)

From S2P Require Import Prelude Float64 GoLib Config Balancer RoundRobin BalancerConfig Health Breaker.
From S2P Require Import TokenBucket Http Middleware MiddlewareFacts Proxy ProxyFacts Mux Router RouterFacts Watcher Server.

Lemma Ret_inj {A} (a b : A) : Ret a = Ret b -> a = b.
Proof. by intros [= ->]. Qed.

Section Facts.
Context `{UL : URLLib} (un : string -> bool).

(** What hot reload acts on: the server and the background goroutines. *)
Record Served := mkServed {
  sv_server : GatewayServer;
  sv_checkers : list HealthChecker;
  sv_cleanups : list InMemoryStore
}.

Definition served (gw : Gateway) : Served := mkServed (gw_server gw) (gw_checkers gw) (gw_cleanups gw).

(** A configuration takes effect: its router replaces the handler. *)
Definition install (rt : Router) (s : Served) : Served :=
  mkServed (SetHandler rt (sv_server s)) (sv_checkers s ++ router_checkers rt) (sv_cleanups s ++ router_cleanups rt).

Definition reload_act (x : Moment * GatewayConfig) (s : Served) : outcome Served :=
  do! (rt, _) <- BuildRouter un (mo_now x.1) x.2; Ret (install rt s).

Lemma served_log r gw : served (gw_log r gw) = served gw.
Proof. unfold gw_log. by destruct (_ <=? _). Qed.

Lemma served_log_all rs : forall gw, served (gw_log_all rs gw) = served gw.
Proof.
  induction rs as [|r rs IH]; intros gw; [done|]. unfold gw_log_all in *. cbn. by rewrite IH, served_log.
Qed.

Lemma served_on_signal sig err gw : served (on_signal sig err gw) = served gw.
Proof.
  unfold on_signal. destruct (gw_signalled gw); [done|]. cbn.
  set (gw1 := gw_log _ gw). assert (Hs : served gw1 = served gw) by apply served_log. clearbody gw1.
  destruct err; rewrite ?served_log; exact Hs.
Qed.

Lemma served_on_reload m cfg gw : outcome_map served (on_reload un m cfg gw) = reload_act (m, cfg) (served gw).
Proof.
  unfold on_reload, reload_act. cbn [fst snd]. destruct (BuildRouter un (mo_now m) cfg) as [[rt logs]|msg]; [|done].
  cbn [outcome_bind outcome_map]. set (gw1 := gw_log_all logs _).
  assert (Hs : served gw1 = served gw) by (unfold gw1; by rewrite served_log_all, served_log).
  unfold install, served in *. cbn. by injection Hs as -> -> ->.
Qed.

Section Loop.
Variable unicode_lower : string -> string.
Variable Unmarshal : string -> result GatewayConfig.
Variable Event : Type.
Variable Has_Write Has_Create : Event -> bool.

#[local] Abbreviation loop := (main_loop un unicode_lower Unmarshal Event Has_Write Has_Create).
#[local] Abbreviation accepted_of := (accepted unicode_lower Unmarshal Event Has_Write Has_Create).

Definition watch_inputs (inputs : list (MainInput Event)) : list (WatchInput Event) :=
  omap (fun i => match i with MWatch wi => Some wi | MSignal _ _ => None end) inputs.

(** The process and the abstract watcher. *)
Lemma main_loop_spec inputs : forall alive w gw,
  outcome_map (fun s => served s.2) (loop inputs (Some (alive, w), gw)) =
  outcome_map snd (spec_run unicode_lower Unmarshal Event Has_Write Has_Create reload_act (w_path w)
    (watch_inputs inputs) (alive && negb (w_closed w), served gw)).
Proof.
  induction inputs as [|i inputs IH]; intros alive w gw; [done|]. destruct i as [wi|sig err].
  - cbn [main_loop main_step watch_inputs omap list_omap].
    destruct (watch_step_spec unicode_lower Unmarshal Event Has_Write Has_Create Gateway gw_log (on_reload un)
      served reload_act served_log served_on_reload wi (mkWatching alive w gw)) as [HS HP].
    cbn [wt_watcher] in HS, HP. change (spec_run _ _ _ _ _ _ ?p (wi :: ?l)) with
      (fun s => do! s' <- spec_step unicode_lower Unmarshal Event Has_Write Has_Create reload_act p wi s;
                spec_run unicode_lower Unmarshal Event Has_Write Has_Create reload_act p l s').
    cbv beta. change (alive && negb (w_closed w), served gw) with (watching_abs Gateway served (mkWatching alive w gw)).
    rewrite <- HS. destruct (watch_step _ _ _ _ _ _ _ _ wi _) as [[alive' w' gw']|msg]; [|done].
    cbn [outcome_bind outcome_map wt_alive wt_watcher wt_st]. rewrite IH, <- (HP _ eq_refl). done.
  - cbn [main_loop main_step outcome_bind]. rewrite IH, served_on_signal. done.
Qed.

Lemma main_loop_idle inputs : forall gw,
  outcome_map (fun s => served s.2) (loop inputs (None, gw)) = Ret (served gw).
Proof.
  induction inputs as [|[wi|sig err] inputs IH]; intros gw; [done|apply IH|].
  cbn [main_loop main_step outcome_bind]. by rewrite IH, served_on_signal.
Qed.

(** The router a configuration is built into. *)
Definition built (x : Moment * GatewayConfig) (rt : Router) : Prop :=
  exists logs, BuildRouter un (mo_now x.1) x.2 = Ret (rt, logs).

Lemma install_all l : forall s, Forall (fun x => exists rt, built x rt) l ->
  exists rts, Forall2 built l rts /\ act_all reload_act l s = Ret (foldl (fun s rt => install rt s) s rts).
Proof.
  induction l as [|x l IH]; intros s Hl; [by exists []|].
  apply Forall_cons in Hl as [[rt [logs Hx]] Hl]. cbn [act_all]. unfold reload_act at 1. rewrite Hx. cbn [outcome_bind].
  destruct (IH (install rt s) Hl) as (rts & HF & HA). exists (rt :: rts). split; [|exact HA].
  constructor; [by exists logs|done].
Qed.

(** Each configuration of a list can be built, or there is a first that cannot. *)
Lemma built_or_panics l : Forall (fun x => exists rt, built x rt) l \/
  exists before x after msg, l = before ++ x :: after /\
    Forall (fun x => exists rt, built x rt) before /\ BuildRouter un (mo_now x.1) x.2 = Panic msg.
Proof.
  induction l as [|x l IH]; [by left|].
  destruct (BuildRouter un (mo_now x.1) x.2) as [[rt logs]|msg] eqn:E; [|by right; exists [], x, l, msg].
  assert (Hx : exists rt, built x rt) by (by exists rt, logs).
  destruct IH as [IH|(before & y & after & msg & -> & IH & E')]; [left; by constructor|right].
  exists (x :: before), y, after, msg. split; [done|]. split; [by constructor|done].
Qed.

(** The first configuration that cannot be built ends the process. *)
Lemma act_all_panics before x after msg : forall s,
  Forall (fun x => exists rt, built x rt) before -> BuildRouter un (mo_now x.1) x.2 = Panic msg ->
  act_all reload_act (before ++ x :: after) s = Panic msg.
Proof.
  induction before as [|y l IH]; intros s Hb Hx; cbn [app act_all]; unfold reload_act at 1.
  - by rewrite Hx.
  - apply Forall_cons in Hb as [[rt [logs Hy]] Hb]. rewrite Hy. cbn [outcome_bind]. by apply IH.
Qed.

(** The state after installing routers: the last one is served. *)
Lemma install_foldl rts : forall s,
  let s' := foldl (fun s rt => install rt s) s rts in
  hs_Handler (httpServer (sv_server s')) = default (hs_Handler (httpServer (sv_server s))) (last rts) /\
  hs_Addr (httpServer (sv_server s')) = hs_Addr (httpServer (sv_server s)) /\
  sv_checkers s' = sv_checkers s ++ concat (router_checkers <$> rts) /\
  sv_cleanups s' = sv_cleanups s ++ concat (router_cleanups <$> rts).
Proof.
  induction rts as [|rt rts IH]; intros s; [cbn; by rewrite !app_nil_r|].
  cbn [foldl]. destruct (IH (install rt s)) as (H1 & H2 & H3 & H4). cbv zeta. rewrite H1, H2, H3, H4.
  rewrite !fmap_cons, last_cons. cbn [concat]. rewrite !app_assoc. by destruct (last rts).
Qed.

(** The watcher of [main], started on the path [path]. *)
Definition watcher_started (newErr addErr : option error) : bool :=
  match newErr, addErr with None, None => true | _, _ => false end.

Lemma start_watcher_served newErr addErr path gw :
  served (snd (start_watcher newErr addErr path gw)) = served gw /\
  fst (start_watcher newErr addErr path gw) =
    if watcher_started newErr addErr then Some (mkWatcher path false) else None.
Proof.
  unfold start_watcher, NewWatcher. destruct newErr, addErr; cbn; by rewrite served_log.
Qed.

(** What the process serves, whether or not there is a watcher. *)
Lemma main_loop_served newErr addErr path inputs gw gw0 :
  let '(ow, gw1) := start_watcher newErr addErr path gw0 in
  served gw = served gw1 ->
  outcome_map (fun s => served s.2) (loop inputs ((fun w => (true, w)) <$> ow, gw)) =
  act_all reload_act (if watcher_started newErr addErr then accepted_of path (watch_inputs inputs) else []) (served gw0).
Proof.
  destruct (start_watcher_served newErr addErr path gw0) as [HS HW].
  destruct (start_watcher newErr addErr path gw0) as [ow gw1]. cbn in HS, HW. subst ow. intros HE.
  destruct (watcher_started newErr addErr); cbn [fmap option_fmap option_map].
  - rewrite main_loop_spec. cbn [w_closed w_path negb andb]. rewrite HE, HS. apply (spec_run_accepted _ _ _ _ _ _ path _ true).
  - rewrite main_loop_idle. by rewrite HE, HS.
Qed.
End Loop.
End Facts.

(** ** Properties *)

Section Properties.
Context `{UL : URLLib} (un : string -> bool).
Variable unicode_lower : string -> string.
Variable Unmarshal : string -> result GatewayConfig.
Variable Event : Type.
Variable Has_Write Has_Create : Event -> bool.
Variable Version : string.

#[local] Abbreviation run_main := (main un unicode_lower Unmarshal Event Has_Write Has_Create Version).
#[local] Abbreviation accepted_of := (accepted unicode_lower Unmarshal Event Has_Write Has_Create).

(** The listener ended because the server was shut down, or without error. *)
Definition clean_end (listen : option error) : bool :=
  match listen with None => true | Some err => bool_decide (err = ErrServerClosed) end.

(** [Start] and the end of [main], around what happens while the server listens. *)
Lemma Start_served serve gw : forall gw1 listen,
  serve (gw_log (listening_record (gw_server gw)) gw) = Ret (gw1, listen) ->
  exists gw2, (do! (gw', err) <- Server_Start serve gw; Ret (main_end err gw')) =
      Ret (mkExit (if clean_end listen then 0 else 1) "" "" (Some gw2)) /\
    served gw2 = served gw1.
Proof.
  intros gw1 listen E. unfold Server_Start, clean_end. rewrite E. cbn [outcome_bind].
  destruct listen as [err|]; [|eexists; split; [done|]; apply served_log].
  destruct (decide (err = ErrServerClosed)) as [->|Hne]; [eexists; split; [done|]; apply served_log|].
  rewrite bool_decide_eq_true_2, (bool_decide_eq_false_2 (err = _)) by done. eexists. split; [done|]. apply served_log.
Qed.

Lemma new_gateway_served m cfg :
  outcome_map served (new_gateway un Version m cfg) =
  do! (rt, _) <- BuildRouter un (mo_now m) cfg;
  Ret (mkServed (New rt (Port (Config.Server cfg)) (ReadTimeout (Config.Server cfg))
    (WriteTimeout (Config.Server cfg)) (IdleTimeout (Config.Server cfg))) (router_checkers rt) (router_cleanups rt)).
Proof.
  unfold new_gateway. destruct (BuildRouter un (mo_now m) cfg) as [[rt logs]|msg]; [|done].
  cbn [outcome_bind outcome_map]. by rewrite served_log_all.
Qed.

(** [main] after the first router was built, from what the loop of events makes of it. *)
Lemma main_served flags m newErr addErr inputs listen cfg rt logs :
  flag_version flags = false -> load_at unicode_lower Unmarshal m (flag_config flags) = Ok cfg ->
  BuildRouter un (mo_now m) cfg = Ret (rt, logs) ->
  let s0 := mkServed (New rt (Port (Config.Server cfg)) (ReadTimeout (Config.Server cfg))
    (WriteTimeout (Config.Server cfg)) (IdleTimeout (Config.Server cfg))) (router_checkers rt) (router_cleanups rt) in
  match act_all (reload_act un) (if watcher_started newErr addErr
          then accepted_of (flag_config flags) (watch_inputs Event inputs) else []) s0 with
  | Ret s => exists gw, run_main flags m newErr addErr inputs listen =
      Ret (mkExit (if clean_end listen then 0 else 1) "" "" (Some gw)) /\ served gw = s
  | Panic msg => run_main flags m newErr addErr inputs listen = Panic msg
  end.
Proof.
  intros Hv Hl Hrt s0. unfold main. rewrite Hv, Hl. pose proof (new_gateway_served m cfg) as HG.
  rewrite Hrt in HG. cbn [outcome_bind] in HG.
  destruct (new_gateway un Version m cfg) as [gw0|msg]; [|done]. cbn [outcome_map] in HG. apply Ret_inj in HG.
  cbn [outcome_bind].
  pose proof (fun gw => main_loop_served un unicode_lower Unmarshal Event Has_Write Has_Create newErr addErr
    (flag_config flags) inputs gw gw0) as HM.
  destruct (start_watcher newErr addErr (flag_config flags) gw0) as [ow gw1].
  specialize (HM _ (served_log (listening_record (gw_server gw1)) gw1)). rewrite HG in HM. fold s0 in HM.
  destruct (main_loop _ _ _ _ _ _ inputs _) as [[ow' gw2]|msg] eqn:EL; cbn [outcome_map] in HM; rewrite <- HM.
  - edestruct (Start_served (fun gw => do! (_, gw) <- main_loop un unicode_lower Unmarshal Event Has_Write Has_Create inputs
      ((fun w => (true, w)) <$> ow, gw); Ret (gw, listen)) gw1 gw2 listen) as (gw3 & E3 & H3); [by rewrite EL|].
    exists gw3. by rewrite E3.
  - unfold Server_Start. rewrite EL. done.
Qed.

(** C2: the process serves the last valid configuration, or dies of one that cannot be
    built.  Started on a configuration that loads, whatever the file system delivers
    and whatever signals arrive, take the first configuration and the writes of the file
    that loaded while the watcher ran (files that do not load change nothing).  If
    each of them can be built into a router, the process ends with exit code 0 if
    the server was shut down and 1 if its listener failed; its address is the first
    configuration's, its handler the router built from the last of them, and the
    health checkers and cleanups of every router ever built are still running, the
    replaced ones included.  Otherwise the panic of the first that cannot be built
    ends the process, and the previous configuration does not remain active. *)
Theorem main_serves_last_valid flags m newErr addErr inputs listen cfg :
  flag_version flags = false -> load_at unicode_lower Unmarshal m (flag_config flags) = Ok cfg ->
  let cfgs := (m, cfg) :: if watcher_started newErr addErr
                          then accepted_of (flag_config flags) (watch_inputs Event inputs) else [] in
  (exists gw rts, Forall2 (built un) cfgs rts /\ run_main flags m newErr addErr inputs listen =
      Ret (mkExit (if clean_end listen then 0 else 1) "" "" (Some gw)) /\
    Some (hs_Handler (httpServer (gw_server gw))) = last rts /\
    hs_Addr (httpServer (gw_server gw)) = ":" +:+ itoa (Port (Config.Server cfg)) /\
    gw_checkers gw = concat (router_checkers <$> rts) /\ gw_cleanups gw = concat (router_cleanups <$> rts)) \/
  (exists before x after msg, cfgs = before ++ x :: after /\
    Forall (fun y => exists rt, built un y rt) before /\ BuildRouter un (mo_now x.1) x.2 = Panic msg /\
    run_main flags m newErr addErr inputs listen = Panic msg).
Proof.
  intros Hv Hl cfgs. destruct (built_or_panics un cfgs) as [Hb|(before & x & after & msg & Hc & Hb & Hx)];
    unfold cfgs in *; clear cfgs.
  - left. apply Forall_cons in Hb as [[rt [logs Hrt]] Hb]. cbn [fst snd] in Hrt.
    pose proof (main_served flags m newErr addErr inputs listen cfg rt logs Hv Hl Hrt) as HM. cbv zeta in HM.
    set (s0 := mkServed _ _ _) in HM. destruct (install_all un _ s0 Hb) as (rts & HF & HA). rewrite HA in HM.
    destruct HM as (gw & E & Hs). exists gw, (rt :: rts). split; [constructor; [by exists logs|done]|].
    split; [exact E|]. destruct (install_foldl rts s0) as (I1 & I2 & I3 & I4).
    rewrite <- Hs in I1, I2, I3, I4. cbn in I1, I2, I3, I4.
    rewrite I1, I2, I3, I4, last_cons. split; [by destruct (last rts)|done].
  - right. exists before, x, after, msg. split; [done|]. split; [done|]. split; [done|].
    destruct before as [|y before]; injection Hc as <- Hc; cbn [fst snd] in Hx.
    { unfold main. rewrite Hv, Hl. pose proof (new_gateway_served m cfg) as HG. rewrite Hx in HG.
      destruct (new_gateway un Version m cfg); cbn in HG; simplify_eq/=. done. }
    apply Forall_cons in Hb as [[rt [logs Hrt]] Hb]. cbn [fst snd] in Hrt.
    pose proof (main_served flags m newErr addErr inputs listen cfg rt logs Hv Hl Hrt) as HM. cbv zeta in HM.
    by rewrite Hc, (act_all_panics un before x after msg _ Hb Hx) in HM.
Qed.
End Properties.

(** ** Examples *)

Section Examples.
#[local] Existing Instance plain_url_lib.

(** A file system whose file holds the name of a configuration. *)
Definition file_at (content : string) (now : Time) : Moment :=
  mkMoment (fun _ => "") (fun _ => Ok content) id now.

Definition raw_config (routes : list RouteConfig) : GatewayConfig :=
  mkGatewayConfig (mkServerConfig 0 0 0 0) routes (mkMetricsConfig false "") (mkLoggingConfig "" "")
    (mkCORSConfig [] [] [] 0).

Definition example_unmarshal (data : string) : result GatewayConfig :=
  if bool_decide (data = "api") then Ok (raw_config [example_route_config])
  else if bool_decide (data = "two routes") then
    Ok (raw_config [example_route_config;
      mkRouteConfig "/web" [] [mkTargetConfig "http://host2:3002" 1] "weighted" false 0 None None])
  else if bool_decide (data = "catch-all") then Ok (raw_config [catch_all_route])
  else if bool_decide (data = "no routes") then Ok (raw_config [])
  else Err (Errorf "yaml: syntax error").

(** A file that does not parse, a change of mode, an invalid and a valid configuration, a signal. *)
Definition example_inputs : list (MainInput bool) :=
  [MWatch (FsEvent (file_at "garbage" 1) true); MWatch (FsEvent (file_at "two routes" 2) false);
   MWatch (FsEvent (file_at "no routes" 3) true); MWatch (FsEvent (file_at "two routes" 4) true);
   MWatch (FsError (Errorf "overflow")); MSignal "terminated" None; MWatch (CloseCalled None);
   MWatch (FsEvent (file_at "api" 5) true)].

(** With these inputs both configurations that load are built; a change to a
    configuration with a catch-all route ends the process. *)
Lemma main_serves_last_valid_witness :
  (exists gw rts, main (fun _ => false) id example_unmarshal bool id (fun _ => false) "dev" (mkFlags "gw.yaml" false)
      (file_at "api" 0) None None example_inputs (Some ErrServerClosed) = Ret (mkExit 0 "" "" (Some gw)) /\
    length rts = 2%nat /\ Some (hs_Handler (httpServer (gw_server gw))) = last rts /\
    gw_checkers gw = concat (router_checkers <$> rts)) /\
  exists msg, main (fun _ => false) id example_unmarshal bool id (fun _ => false) "dev" (mkFlags "gw.yaml" false)
    (file_at "api" 0) None None [MWatch (FsEvent (file_at "catch-all" 1) true)] None = Panic msg.
Proof.
  assert (Hl : load_at id example_unmarshal (file_at "api" 0) "gw.yaml" = Ok (ApplyDefaults (raw_config [example_route_config])))
    by (vm_compute; reflexivity).
  split.
  - destruct (main_serves_last_valid (fun _ => false) id example_unmarshal bool id (fun _ => false) "dev"
      (mkFlags "gw.yaml" false) (file_at "api" 0) None None example_inputs (Some ErrServerClosed)
      (ApplyDefaults (raw_config [example_route_config])) eq_refl Hl)
      as [(gw & rts & H2 & H1 & H3 & _ & H5 & _)|(b & x & a & msg & _ & _ & _ & Hp)].
    + exists gw, rts. split; [exact H1|]. split; [|split; [exact H3|exact H5]].
      apply Forall2_length in H2. rewrite <- H2. vm_compute. reflexivity.
    + exfalso. vm_compute in Hp. discriminate.
  - destruct (main_serves_last_valid (fun _ => false) id example_unmarshal bool id (fun _ => false) "dev"
      (mkFlags "gw.yaml" false) (file_at "api" 0) None None [MWatch (FsEvent (file_at "catch-all" 1) true)] None
      (ApplyDefaults (raw_config [example_route_config])) eq_refl Hl)
      as [(gw & rts & _ & Hr & _)|(b & x & a & msg & _ & _ & _ & Hp)].
    + exfalso. vm_compute in Hr. discriminate.
    + exists msg. exact Hp.
Defined.
End Examples.
